(** * FLARE local environments and multi-component kernels

    A shallow embedding of [flare/env.py] (periodic neighbour search and
    triplet bookkeeping) and of [flare/kernels/mc_simple.py] (2-, 3- and
    many-body kernels and their name registry), with the properties the
    specification states about them.

    Numbers.  The source computes in [float64].  The embedding is written
    once over an interface [Num] of the arithmetic the source uses, and is
    instantiated twice: with IEEE binary64 (Rocq's primitive floats), where
    every definition evaluates, and with the real numbers, where the
    algebraic identities of the kernels are proved.  Theorems stated for
    every [Num] hold for both.

    Integers.  [np.int8] arrays hold values reduced by [wrap8]; Python and
    Numba integers are unbounded [Z].  [cross_bond_inds] is created as
    [np.zeros(..., dtype=np.int8) - 1] inside an [@njit] function: Numba
    types the difference of an [int8] array and the integer [1] as an
    [int64] array, so its cells hold the indices as they are.

    Errors.  [None] is an access [a[i]] outside an array, or a search
    [np.where(a == v)[0][0]] that finds nothing: an [IndexError] where
    Python runs the code, and no defined result where Numba compiled it
    without a bounds check.  The builders return [option], and so do the
    plain-Python kernels on environments, which read [hyps[k]] and
    [cutoffs[k]].  The loops of the [@njit] kernels read through [getF] and
    [getZ], which wrap a negative index as Python does and give [0] outside
    the array; no reader of a well-formed environment leaves the array. *)

From Stdlib Require String.
From Stdlib Require Import ZArith List Bool Lia.
From Stdlib Require Import Reals Lra Permutation Sorted.
From Stdlib Require Import PrimFloat Uint63 SpecFloat FloatOps FloatAxioms.
Import ListNotations.
Import String.StringSyntax.

Set Implicit Arguments.

(* ================================================================== *)
(** * Part I: the embedding *)
(* ================================================================== *)

(** ** The arithmetic of the source *)

Class Num (F : Type) : Type := {
  fzero : F;
  fof_int : Z -> F;
  fadd : F -> F -> F;
  fsub : F -> F -> F;
  fmul : F -> F -> F;
  fdiv : F -> F -> F;
  fneg : F -> F;
  fsqrt : F -> F;
  fltb : F -> F -> bool;
  feqb : F -> F -> bool
}.

Declare Scope num_scope.
Delimit Scope num_scope with num.
Infix "+" := fadd : num_scope.
Infix "-" := fsub : num_scope.
Infix "*" := fmul : num_scope.
Infix "/" := fdiv : num_scope.
Notation "- x" := (fneg x) : num_scope.
Infix "<?" := fltb : num_scope.
Infix "=?" := feqb : num_scope.
Notation "x >? y" := (fltb y x) : num_scope.

(** IEEE binary64. *)
Definition float_of_Z (z : Z) : float :=
  match z with
  | Z0 => PrimFloat.zero
  | Zpos _ => PrimFloat.of_uint63 (Uint63.of_Z z)
  | Zneg p => PrimFloat.opp (PrimFloat.of_uint63 (Uint63.of_Z (Zpos p)))
  end.

#[export] Instance Num_float : Num float := {|
  fzero := PrimFloat.zero;
  fof_int := float_of_Z;
  fadd := PrimFloat.add;
  fsub := PrimFloat.sub;
  fmul := PrimFloat.mul;
  fdiv := PrimFloat.div;
  fneg := PrimFloat.opp;
  fsqrt := PrimFloat.sqrt;
  fltb := PrimFloat.ltb;
  feqb := PrimFloat.eqb
|}.

(** Exact real arithmetic. *)
Definition Rltb (x y : R) : bool := if Rlt_dec x y then true else false.
Definition Reqb (x y : R) : bool := if Req_dec_T x y then true else false.

#[export] Instance Num_R : Num R := {|
  fzero := 0%R;
  fof_int := IZR;
  fadd := Rplus;
  fsub := Rminus;
  fmul := Rmult;
  fdiv := Rdiv;
  fneg := Ropp;
  fsqrt := R_sqrt.sqrt;
  fltb := Rltb;
  feqb := Reqb
|}.

(** What the proofs use of the arithmetic beyond its being computable. *)
Class NumLaws (F : Type) {NF : Num F} : Prop := {
  (** [0 == 0] *)
  feqb_zero : feqb fzero fzero = true;
  (** a square root is never below a number that is not positive *)
  fsqrt_not_below :
    forall x c : F, fltb fzero c = false -> fltb (fsqrt x) c = false
}.

Arguments NumLaws F {NF}.

(** ** [np.int8] *)

Definition wrap8 (z : Z) : Z := ((z + 128) mod 256 - 128)%Z.

(** ** Errors: [None] is an access outside an array or a [ValueError] *)

Definition bind {A B : Type} (m : option A) (k : A -> option B) : option B :=
  match m with Some a => k a | None => None end.

Notation "x <- m ;; k" := (bind m (fun x => k))
  (at level 61, m at next level, right associativity).
Notation "' p <- m ;; k" := (bind m (fun x => match x with p => k end))
  (at level 61, p pattern, m at next level, right associativity).

Fixpoint foldM {A S : Type} (f : S -> A -> option S) (l : list A) (s : S)
  : option S :=
  match l with
  | [] => Some s
  | a :: l' => s' <- f s a ;; foldM f l' s'
  end.

Fixpoint mapM {A B : Type} (f : A -> option B) (l : list A)
  : option (list B) :=
  match l with
  | [] => Some []
  | a :: l' => b <- f a ;; bs <- mapM f l' ;; Some (b :: bs)
  end.

(** ** Array reads and writes *)

(** [a[i]] for a Python integer [i]: a negative index counts from the end. *)
Definition py_index (len : nat) (i : Z) : option nat :=
  if (0 <=? i)%Z && (i <? Z.of_nat len)%Z then Some (Z.to_nat i)
  else if (- Z.of_nat len <=? i)%Z && (i <? 0)%Z
       then Some (Z.to_nat (Z.of_nat len + i))
       else None.

Definition py_get {A : Type} (a : list A) (i : Z) : option A :=
  k <- py_index (length a) i ;; nth_error a k.

(** The read of an [@njit] loop, which Numba compiles without a bounds
    check: outside the array the value is not defined by the source, and
    the embedding returns the default [d]. *)
Definition py_read {A : Type} (d : A) (a : list A) (i : Z) : A :=
  match py_get a i with Some x => x | None => d end.

Definition getZ (a : list Z) (i : Z) : Z := py_read 0%Z a i.

(** [a[i] = v] for [0 <= i]: an index past the end is an error. *)
Fixpoint upd {A : Type} (a : list A) (i : nat) (v : A) : option (list A) :=
  match a, i with
  | [], _ => None
  | _ :: a', O => Some (v :: a')
  | x :: a', S i' => a'' <- upd a' i' v ;; Some (x :: a'')
  end.

(** The same write where the index is known to be inside the array. *)
Fixpoint set_nth {A : Type} (a : list A) (i : nat) (v : A) : list A :=
  match a, i with
  | [], _ => []
  | _ :: a', O => v :: a'
  | x :: a', S i' => x :: set_nth a' i' v
  end.

(** [np.where(a == v)[0][0]]: the first position of [v], or an error. *)
Fixpoint where_first (a : list Z) (v : Z) : option nat :=
  match a with
  | [] => None
  | x :: a' => if (x =? v)%Z then Some O
               else k <- where_first a' v ;; Some (S k)
  end.

(** [range(n)] for a Python integer [n]. *)
Definition range (n : Z) : list Z := map Z.of_nat (seq 0 (Z.to_nat n)).

(** [a[idx]] with an index array, as after [argsort]. *)
Definition take_by {A : Type} (d : A) (a : list A) (idx : list nat) : list A :=
  map (fun i => nth i a d) idx.

(* ------------------------------------------------------------------ *)
(** ** [flare/env.py]: the periodic neighbour search *)
(* ------------------------------------------------------------------ *)

Section Environment.

Context {F : Type} {NF : Num F}.
Local Open Scope num_scope.

(** A point or displacement, a row of a [(n, 3)] array. *)
Definition vec3 : Type := (F * F * F)%type.

Definition vzero : vec3 := (fzero, fzero, fzero).

Definition vadd (a b : vec3) : vec3 :=
  let '(a0, a1, a2) := a in let '(b0, b1, b2) := b in
  (a0 + b0, a1 + b1, a2 + b2).

Definition vsub (a b : vec3) : vec3 :=
  let '(a0, a1, a2) := a in let '(b0, b1, b2) := b in
  (a0 - b0, a1 - b1, a2 - b2).

(** [s * v] for an integer [s] of the sweep array. *)
Definition vscale (s : Z) (v : vec3) : vec3 :=
  let '(v0, v1, v2) := v in
  (fof_int s * v0, fof_int s * v1, fof_int s * v2).

Definition vdiv (v : vec3) (s : F) : vec3 :=
  let '(v0, v1, v2) := v in (v0 / s, v1 / s, v2 / s).

(** [sqrt(v[0] * v[0] + v[1] * v[1] + v[2] * v[2])] *)
Definition norm (v : vec3) : F :=
  let '(v0, v1, v2) := v in fsqrt (v0 * v0 + v1 * v1 + v2 * v2).

(** A row of a bond array: the distance and the three direction cosines. *)
Definition brow : Type := (F * F * F * F)%type.

Definition dist_of (r : brow) : F := let '(d, _, _, _) := r in d.
Definition dir_of (r : brow) : vec3 := let '(_, x, y, z) := r in (x, y, z).

Definition brow0 : brow := (fzero, fzero, fzero, fzero).

(** A cutoff function: [(r_cut, r, c)] to the envelope and its derivative. *)
Definition cutoff_fn : Type := F -> F -> F -> F * F.

(** *** Unchecked reads of the [@njit] loops *)

Definition getF (a : list F) (i : Z) : F := py_read fzero a i.
Definition get2F (a : list (list F)) (i j : Z) : F := getF (py_read [] a i) j.
Definition get3F (a : list (list (list F))) (i j k : Z) : F :=
  get2F (py_read [] a i) j k.
Definition get2Z (a : list (list Z)) (i j : Z) : Z := getZ (py_read [] a i) j.

(** [bond_array[m, d]] *)
Definition ba_get (bond_array : list brow) (m d : Z) : F :=
  let '(r0, r1, r2, r3) := py_read brow0 bond_array m in
  getF [r0; r1; r2; r3] d.

(** [a.shape[0]] *)
Definition rows {A : Type} (a : list A) : Z := Z.of_nat (length a).

(** [bond_array_2[k, 0] = dist; bond_array_2[k, 1:4] = coord / dist] *)
Definition mk_row (dist : F) (coord : vec3) : brow :=
  let '(x, y, z) := vdiv coord dist in (dist, x, y, z).

(** The cell: its three lattice vectors [cell[0]], [cell[1]], [cell[2]]. *)
Definition cell3 : Type := (vec3 * vec3 * vec3)%type.

(** The three nested [for s in sweep] loops, in the order of [im_count]. *)
Definition sweep_images (sweep : list Z) : list (Z * Z * Z) :=
  flat_map (fun s1 =>
    flat_map (fun s2 => map (fun s3 => (s1, s2, s3)) sweep) sweep) sweep.

(** [im = diff_curr + s1 * vec1 + s2 * vec2 + s3 * vec3] *)
Definition image (diff_curr : vec3) (cell : cell3) (s : Z * Z * Z) : vec3 :=
  let '(vec1, vec2, vec3) := cell in
  let '(s1, s2, s3) := s in
  vadd (vadd (vadd diff_curr (vscale s1 vec1)) (vscale s2 vec2))
       (vscale s3 vec3).

(** [(dist < cutoff) and (dist != 0)] *)
Definition within (dist cutoff : F) : bool :=
  (dist <? cutoff) && negb (dist =? fzero).

(** One row of [dists] and [coords] after the first pass: entry [im_count]
    holds the image when it is within the cutoff and stays zero otherwise. *)
Definition record_images (diff_curr : vec3) (cell : cell3) (cutoff : F)
           (sweep : list Z) : list (F * vec3) :=
  map (fun s =>
         let im := image diff_curr cell s in
         let dist := norm im in
         if within dist cutoff then (dist, im) else (fzero, vzero))
      (sweep_images sweep).

(** [cutoff_count] at the end of the first pass. *)
Definition cutoff_count (positions : list vec3) (pos_atom : vec3)
           (cell : cell3) (cutoff : F) (sweep : list Z) : nat :=
  list_sum
    (map (fun p =>
            length (filter (fun s => within (norm (image (vsub p pos_atom)
                                                         cell s)) cutoff)
                           (sweep_images sweep)))
         positions).

(** The entries one source atom [m] contributes in the second pass. *)
Definition fill_atom (cutoff : F) (spec_curr : Z) (m : nat)
           (row : list (F * vec3)) : list (brow * vec3 * Z * Z) :=
  flat_map (fun e =>
              let '(dist_curr, coord) := e in
              if within dist_curr cutoff
              then [(mk_row dist_curr coord, coord,
                     wrap8 spec_curr, wrap8 (Z.of_nat m))]
              else [])
           row.

Definition with_index {A : Type} (l : list A) : list (nat * A) :=
  combine (seq 0 (length l)) l.

(** The four output arrays, unzipped from the filled rows. *)
Definition unzip4 (rows : list (brow * vec3 * Z * Z))
  : list brow * list vec3 * list Z * list Z :=
  (map (fun r => fst (fst (fst r))) rows,
   map (fun r => snd (fst (fst r))) rows,
   map (fun r => snd (fst r)) rows,
   map (fun r => snd r) rows).

Definition entry0 : brow * vec3 * Z * Z := (brow0, vzero, 0%Z, 0%Z).

(** [sort_inds = bond_array_2[:, 0].argsort()] and the four re-indexings. *)
Definition sort_rows (argsort : list F -> list nat)
           (rows : list (brow * vec3 * Z * Z))
  : list (brow * vec3 * Z * Z) :=
  let sort_inds := argsort (map (fun r => dist_of (fst (fst (fst r)))) rows) in
  take_by entry0 rows sort_inds.

(** The rows in fill order, before sorting. *)
Definition fill_rows (positions : list vec3) (pos_atom : vec3) (cell : cell3)
           (cutoff_2 : F) (species : list Z) (sweep : list Z)
  : list (brow * vec3 * Z * Z) :=
  let table :=
    map (fun p => record_images (vsub p pos_atom) cell cutoff_2 sweep)
        positions in
  flat_map (fun mr => fill_atom cutoff_2 (nth (fst mr) species 0%Z)
                                (fst mr) (snd mr))
           (with_index table).

(** [get_2_body_arrays(positions, atom, cell, cutoff_2, species, sweep)].
    [positions[atom]] and [species[m]], [m < len(positions)], are the reads
    that can leave their array. *)
Definition get_2_body_arrays (argsort : list F -> list nat)
           (positions : list vec3) (atom : nat) (cell : cell3) (cutoff_2 : F)
           (species : list Z) (sweep : list Z)
  : option (list brow * list vec3 * list Z * list Z) :=
  pos_atom <- nth_error positions atom ;;
  if (length positions <=? length species)%nat
  then Some (unzip4 (sort_rows argsort
               (fill_rows positions pos_atom cell cutoff_2 species sweep)))
  else None.

(** *** Triplets *)

(** [ind_3]: the first row whose distance exceeds the cutoff, or the
    number of rows. *)
Fixpoint first_above (cutoff_3 : F) (dists : list F) : nat :=
  match dists with
  | [] => O
  | d :: ds => if d >? cutoff_3 then O else S (first_above cutoff_3 ds)
  end.

(** The state of the inner loop over [n]: row [m] of [cross_bond_inds] and
    of [cross_bond_dists], [count] and [trips]. *)
Definition row_state : Type := (list Z * list F * nat * Z)%type.

Definition row_init (ind_3 m : nat) : row_state :=
  (repeat (-1)%Z ind_3, repeat fzero ind_3, S m, 0%Z).

(** The body of [if ...: cross_bond_inds[m, count] = n; ...].  [count]
    never exceeds [n], so both writes fall inside the row.  The row of
    [cross_bond_inds] is [int64] and keeps [n]; [triplet_counts], an
    [int8] array, reduces [trips] when the row is done. *)
Definition row_store (st : row_state) (n : nat) (dist_curr : F) : row_state :=
  let '(inds, dists, count, trips) := st in
  (set_nth inds count (Z.of_nat n), set_nth dists count dist_curr,
   S count, (trips + 1)%Z).

Definition row_result (st : row_state) : list Z * list F * Z :=
  let '(inds, dists, _, trips) := st in (inds, dists, wrap8 trips).

Definition cross_row (bond_positions_3 : list vec3) (cutoff_3 : F)
           (ind_3 m : nat) : list Z * list F * Z :=
  let pos1 := nth m bond_positions_3 vzero in
  row_result
    (fold_left
       (fun st n =>
          let pos2 := nth n bond_positions_3 vzero in
          let dist_curr := norm (vsub pos2 pos1) in
          if dist_curr <? cutoff_3 then row_store st n dist_curr else st)
       (seq (S m) (ind_3 - S m)) (row_init ind_3 m)).

Definition unzip3 (rows : list (list Z * list F * Z))
  : list (list Z) * list (list F) * list Z :=
  (map (fun r => fst (fst r)) rows, map (fun r => snd (fst r)) rows,
   map (fun r => snd r) rows).

(** [get_3_body_arrays(bond_array_2, bond_positions_2, cutoff_3)].
    [bond_positions_3[m]] is read for every [m < ind_3]. *)
Definition get_3_body_arrays (bond_array_2 : list brow)
           (bond_positions_2 : list vec3) (cutoff_3 : F)
  : option (list brow * list (list Z) * list (list F) * list Z) :=
  let ind_3 := first_above cutoff_3 (map dist_of bond_array_2) in
  let bond_array_3 := firstn ind_3 bond_array_2 in
  let bond_positions_3 := firstn ind_3 bond_positions_2 in
  if (ind_3 <=? length bond_positions_2)%nat
  then
    let '(cross_bond_inds, cross_bond_dists, triplet_counts) :=
      unzip3 (map (cross_row bond_positions_3 cutoff_3 ind_3) (seq 0 ind_3)) in
    Some (bond_array_3, cross_bond_inds, cross_bond_dists, triplet_counts)
  else None.

(** *** The species-pair-resolved builders *)

(** [np.max(a)]; an empty array raises [ValueError]. *)
Definition np_max (a : list F) : option F :=
  match a with
  | [] => None
  | x :: a' => Some (fold_left (fun acc y => if acc <? y then y else acc) a' x)
  end.

(** [cutoff[mask[b + bcn]]] *)
Definition resolve_cutoff (cutoff : list F) (mask : list Z) (b bcn : Z)
  : option F :=
  btype <- py_get mask (b + bcn)%Z ;; py_get cutoff btype.

(** The first pass for one source atom: [dists] and [coords] have 27
    columns whatever the length of [sweep]. *)
Definition store_27 (diff_curr : vec3) (cell : cell3) (rcut : F)
           (st : list (F * vec3) * nat) (s : Z * Z * Z)
  : option (list (F * vec3) * nat) :=
  let '(row, im_count) := st in
  let im := image diff_curr cell s in
  let dist := norm im in
  if within dist rcut
  then row' <- upd row im_count (dist, im) ;; Some (row', S im_count)
  else Some (row, S im_count).

Definition record_images_27 (diff_curr : vec3) (cell : cell3) (rcut : F)
           (sweep : list Z) : option (list (F * vec3)) :=
  ' (row, _) <-
    foldM (store_27 diff_curr cell rcut)
          (sweep_images sweep) (repeat (fzero, vzero) 27, O) ;;
  Some row.

Definition fill_rows_sepcut (positions : list vec3) (pos_atom : vec3)
           (cell : cell3) (cutoff_2 : list F) (species : list Z)
           (sweep : list Z) (specie_mask bond_mask : list Z) (bcn : Z)
  : option (list (brow * vec3 * Z * Z)) :=
  table <-
    mapM (fun np =>
            let diff_curr := vsub (snd np) pos_atom in
            sn <- nth_error species (fst np) ;;
            bn <- py_get specie_mask sn ;;
            rcut <- resolve_cutoff cutoff_2 bond_mask bn bcn ;;
            record_images_27 diff_curr cell rcut sweep)
         (with_index positions) ;;
  filled <-
    mapM (fun mr =>
            spec_curr <- nth_error species (fst mr) ;;
            bm <- py_get specie_mask spec_curr ;;
            rcut <- resolve_cutoff cutoff_2 bond_mask bm bcn ;;
            Some (fill_atom rcut spec_curr (fst mr) (snd mr)))
         (with_index table) ;;
  Some (concat filled).

(** [get_2_body_arrays_sepcut(positions, atom, cell, cutoff_2, species,
    sweep, nspecie, specie_mask, bond_mask)] *)
Definition get_2_body_arrays_sepcut (argsort : list F -> list nat)
           (positions : list vec3) (atom : nat) (cell : cell3)
           (cutoff_2 : list F) (species : list Z) (sweep : list Z)
           (nspecie : Z) (specie_mask bond_mask : list Z)
  : option (list brow * list vec3 * list Z * list Z) :=
  pos_atom <- nth_error positions atom ;;
  sa <- nth_error species atom ;;
  bc <- py_get specie_mask sa ;;
  let bcn := (nspecie * bc)%Z in
  rows <- fill_rows_sepcut positions pos_atom cell cutoff_2 species sweep
                           specie_mask bond_mask bcn ;;
  Some (unzip4 (sort_rows argsort rows)).

(** Row [m] of the species-resolved triplet table. *)
Definition cross_row_sepcut (bond_array_2 : list brow)
           (bond_positions_3 : list vec3) (etypes : list Z)
           (cutoff_3 : list F) (nspecie : Z) (specie_mask cut3b_mask : list Z)
           (bcn : Z) (ind_3 m : nat) : option (list Z * list F * Z) :=
  pos1 <- nth_error bond_positions_3 m ;;
  em <- nth_error etypes m ;;
  bm <- py_get specie_mask em ;;
  cut_m <- resolve_cutoff cutoff_3 cut3b_mask bm bcn ;;
  let bmn := (nspecie * bm)%Z in
  st <-
    foldM (fun (st : row_state) n =>
             en <- nth_error etypes n ;;
             bn <- py_get specie_mask en ;;
             cut_n <- resolve_cutoff cutoff_3 cut3b_mask bn bcn ;;
             cut_mn <- resolve_cutoff cutoff_3 cut3b_mask bn bmn ;;
             pos2 <- nth_error bond_positions_3 n ;;
             let dist_curr := norm (vsub pos2 pos1) in
             if (dist_curr <? cut_mn)
                && (dist_of (nth m bond_array_2 brow0) <? cut_m)
                && (dist_of (nth n bond_array_2 brow0) <? cut_n)
             then Some (row_store st n dist_curr)
             else Some st)
          (seq (S m) (ind_3 - S m)) (row_init ind_3 m) ;;
  Some (row_result st).

(** [get_3_body_arrays_sepcut(bond_array_2, bond_positions_2, ctype,
    etypes, cutoff_3, nspecie, specie_mask, cut3b_mask)] *)
Definition get_3_body_arrays_sepcut (bond_array_2 : list brow)
           (bond_positions_2 : list vec3) (ctype : Z) (etypes : list Z)
           (cutoff_3 : list F) (nspecie : Z) (specie_mask cut3b_mask : list Z)
  : option (list brow * list (list Z) * list (list F) * list Z) :=
  bc <- py_get specie_mask ctype ;;
  let bcn := (nspecie * bc)%Z in
  cut3 <- np_max cutoff_3 ;;
  let ind_3 := first_above cut3 (map dist_of bond_array_2) in
  let bond_array_3 := firstn ind_3 bond_array_2 in
  let bond_positions_3 := firstn ind_3 bond_positions_2 in
  rows <- mapM (cross_row_sepcut bond_array_2 bond_positions_3 etypes
                  cutoff_3 nspecie specie_mask cut3b_mask bcn ind_3)
               (seq 0 ind_3) ;;
  let '(cross_bond_inds, cross_bond_dists, triplet_counts) := unzip3 rows in
  Some (bond_array_3, cross_bond_inds, cross_bond_dists, triplet_counts).

(** *** The three-species descriptor *)

(** A descriptor function such as [coordination_number]:
    [(r, c, r_cut, cutoff_func)] to the value and its derivative. *)
Definition q_fn : Type := F -> F -> F -> cutoff_fn -> F * F.

(** [a[i, j] += v] inside an array that has row [i] and column [j]. *)
Definition add_at2 (a : list (list F)) (i j : nat) (v : F) : list (list F) :=
  set_nth a i (set_nth (nth i a []) j (nth j (nth i a []) fzero + v)).

(** [q3_value_mc(distances, cross_bond_inds, cross_bond_dists, triplets,
    r_cut, species_list, etypes, cutoff_func, q_func)].  [s1] and [s2]
    are positions in [species_list], so both updates fall inside
    [mb3_array]. *)
Definition q3_value_mc (distances : list F) (cross_bond_inds : list (list Z))
           (cross_bond_dists : list (list F)) (triplets : list Z) (r_cut : F)
           (species_list : list Z) (etypes : list Z) (cutoff_func : cutoff_fn)
           (q_func : q_fn) : option (list (list F)) :=
  let n_specs := length species_list in
  foldM (fun mb3_array m =>
    let q1 := fst (q_func (getF distances m) fzero r_cut cutoff_func) in
    s1 <- where_first species_list (getZ etypes m) ;;
    foldM (fun mb3_array n =>
      let ind := get2Z cross_bond_inds m (m + n + 1) in
      s2 <- where_first species_list (getZ etypes ind) ;;
      let q2 := fst (q_func (getF distances ind) fzero r_cut cutoff_func) in
      let r3 := get2F cross_bond_dists m (m + n + 1) in
      let q3 := fst (q_func r3 fzero r_cut cutoff_func) in
      let mb3_array := add_at2 mb3_array s1 s2 (q1 * q2 * q3) in
      Some (if (s1 =? s2)%nat then mb3_array
            else add_at2 mb3_array s2 s1 (q1 * q2 * q3)))
      (range (getZ triplets m)) mb3_array)
    (range (rows distances)) (repeat (repeat fzero n_specs) n_specs).

(** *** [argsort()]

    [bond_array_2[:, 0].argsort()] runs inside an [@njit] function, where
    it is Numba's default sort, the quicksort [run_quicksort1] of
    [numba/misc/quicksort.py] built for an index array ([is_argsort]) with
    the comparison [lt_floats]; the source does not contain it.  [A] holds
    the keys and [R] the index array the routine permutes; a loop that
    runs out of [fuel] is an error. *)

Definition SMALL_QUICKSORT : Z := 15.

(** [lt_floats(a, b)]: [a < b or (b != b and a == a)] *)
Definition lt_floats (a b : F) : bool :=
  (a <? b) || (negb (b =? b) && (a =? a)).

(** [GET(A, R[i])] *)
Definition key_at (A : list F) (R : list nat) (i : Z) : F :=
  nth (nth (Z.to_nat i) R O) A fzero.

(** [R[i], R[j] = R[j], R[i]] *)
Definition swap (R : list nat) (i j : Z) : list nat :=
  let ri := nth (Z.to_nat i) R O in
  let rj := nth (Z.to_nat j) R O in
  set_nth (set_nth R (Z.to_nat i) rj) (Z.to_nat j) ri.

(** [while j > low and LT(v, GET(A, R[j - 1])): R[j] = R[j - 1]; j -= 1] *)
Fixpoint shift_up (fuel : nat) (A : list F) (v : F) (low : Z)
         (R : list nat) (j : Z) : option (list nat * Z) :=
  match fuel with
  | O => None
  | S fuel' =>
      if (low <? j)%Z && lt_floats v (key_at A R (j - 1))
      then shift_up fuel' A v low
                    (set_nth R (Z.to_nat j) (nth (Z.to_nat (j - 1)) R O))
                    (j - 1)
      else Some (R, j)
  end.

(** [insertion_sort(A, R, low, high)], both bounds inclusive. *)
Definition insertion_sort (A : list F) (R : list nat) (low high : Z)
  : option (list nat) :=
  if (high <=? low)%Z then Some R
  else
    foldM (fun R i =>
             let k := nth (Z.to_nat i) R O in
             let v := nth k A fzero in
             ' (R', j) <- shift_up (Z.to_nat (i - low + 1)) A v low R i ;;
             Some (set_nth R' (Z.to_nat j) k))
          (map (fun t => low + 1 + t)%Z (range (high - low))) R.

(** [while i < high and LT(GET(A, R[i]), pivot): i += 1] *)
Fixpoint scan_up (fuel : nat) (A : list F) (R : list nat) (pivot : F)
         (high i : Z) : option Z :=
  match fuel with
  | O => None
  | S fuel' =>
      if (i <? high)%Z && lt_floats (key_at A R i) pivot
      then scan_up fuel' A R pivot high (i + 1)
      else Some i
  end.

(** [while j >= low and LT(pivot, GET(A, R[j])): j -= 1] *)
Fixpoint scan_down (fuel : nat) (A : list F) (R : list nat) (pivot : F)
         (low j : Z) : option Z :=
  match fuel with
  | O => None
  | S fuel' =>
      if (low <=? j)%Z && lt_floats pivot (key_at A R j)
      then scan_down fuel' A R pivot low (j - 1)
      else Some j
  end.

(** The [while True] loop of [partition]; it returns [R] and [i]. *)
Fixpoint partition_loop (fuel : nat) (A : list F) (pivot : F)
         (low high : Z) (R : list nat) (i j : Z) : option (list nat * Z) :=
  match fuel with
  | O => None
  | S fuel' =>
      i' <- scan_up (Z.to_nat (high - i + 1)) A R pivot high i ;;
      j' <- scan_down (Z.to_nat (j - low + 2)) A R pivot low j ;;
      if (j' <=? i')%Z then Some (R, i')
      else partition_loop fuel' A pivot low high (swap R i' j')
                          (i' + 1) (j' - 1)
  end.

(** [partition(A, R, low, high)]: the median of [low], [mid] and [high]
    is the pivot; it is stashed at [high], the rest is partitioned, and
    the pivot is put at its place [i], which is returned. *)
Definition partition (A : list F) (R : list nat) (low high : Z)
  : option (list nat * Z) :=
  let mid := Z.shiftr (low + high) 1 in
  let R := if lt_floats (key_at A R mid) (key_at A R low)
           then swap R low mid else R in
  let R := if lt_floats (key_at A R high) (key_at A R mid)
           then swap R high mid else R in
  let R := if lt_floats (key_at A R mid) (key_at A R low)
           then swap R low mid else R in
  let pivot := key_at A R mid in
  let R := swap R high mid in
  ' (R, i) <- partition_loop (Z.to_nat (high - low + 1)) A pivot low high
                             R low (high - 1) ;;
  Some (swap R i high, i).

(** [while high - low >= SMALL_QUICKSORT]: partition, push the larger
    side and go on with the smaller.  The stack of at most [MAX_STACK]
    entries is a list whose head is its top. *)
Fixpoint split_loop (fuel : nat) (A : list F) (R : list nat)
         (stack : list (Z * Z)) (low high : Z)
  : option (list nat * list (Z * Z) * Z * Z) :=
  match fuel with
  | O => None
  | S fuel' =>
      if (SMALL_QUICKSORT <=? high - low)%Z
      then
        ' (R, i) <- partition A R low high ;;
        if (i - low <? high - i)%Z
        then split_loop fuel' A R
                        (if (1 <? high - i)%Z then (i + 1, high)%Z :: stack
                         else stack)
                        low (i - 1)
        else split_loop fuel' A R
                        (if (1 <? i - low)%Z then (low, i - 1)%Z :: stack
                         else stack)
                        (i + 1) high
      else Some (R, stack, low, high)
  end.

(** [while n > 0]: pop a range, split it, sort what is left by
    insertion. *)
Fixpoint stack_loop (fuel : nat) (A : list F) (R : list nat)
         (stack : list (Z * Z)) : option (list nat) :=
  match fuel with
  | O => None
  | S fuel' =>
      match stack with
      | [] => Some R
      | (low, high) :: stack =>
          ' (R, stack, low, high) <-
            split_loop (S (length A)) A R stack low high ;;
          R <- insertion_sort A R low high ;;
          stack_loop fuel' A R stack
      end
  end.

(** [run_quicksort1(A)] *)
Definition run_quicksort1 (A : list F) : option (list nat) :=
  let R := seq 0 (length A) in
  if (length A <? 2)%nat then Some R
  else stack_loop (S (S (length A))) A R [(0, Z.of_nat (length A) - 1)%Z].

(** [a.argsort()] *)
Definition numba_argsort (A : list F) : list nat :=
  match run_quicksort1 A with
  | Some R => R
  | None => seq 0 (length A)
  end.

(** On at most [SMALL_QUICKSORT] keys the routine above is the insertion
    sort alone, which keeps the order of equal keys.  [argsort_stable]
    returns that order for a list of any length; the examples use it
    where the order among equal keys plays no part. *)
Fixpoint insert_first (x : F * nat) (l : list (F * nat)) : list (F * nat) :=
  match l with
  | [] => [x]
  | y :: l' => if fst y <? fst x then y :: insert_first x l' else x :: y :: l'
  end.

Definition argsort_stable (keys : list F) : list nat :=
  map snd (fold_right insert_first [] (combine keys (seq 0 (length keys)))).

End Environment.

Arguments vec3 F : clear implicits.
Arguments brow F : clear implicits.
Arguments cell3 F : clear implicits.
Arguments cutoff_fn F : clear implicits.
Arguments q_fn F : clear implicits.
Arguments row_state F : clear implicits.

(* ------------------------------------------------------------------ *)
(** ** [flare/kernels/mc_simple.py]: the kernels *)
(* ------------------------------------------------------------------ *)

Section Kernels.

Context {F : Type} {NF : Num F}.
Local Open Scope num_scope.

(** [math.exp]. *)
Variable exp : F -> F.

(** [set(a).intersection(set(b))] turned into a list: the order in which a
    set is iterated is left to the implementation. *)
Variable set_inter : list Z -> list Z -> list Z.

(** Helpers of [flare/kernels/kernels.py], which the kernels import. *)
Variable force_energy_helper : F -> F -> F -> F -> F -> F -> F -> F -> F.
Variable three_body_en_helper :
  F -> F -> F -> F -> F -> F -> F -> F -> F -> F -> F -> F.
Variable grad_helper :
  F -> F -> F -> F -> F -> F -> F -> F ->
  F -> F -> F -> F -> F -> F -> F -> F -> F * F * F.
Variable grad_constants : F -> F -> F * F * F * F * F * F * F * F.
Variable three_body_grad_helper_1 three_body_grad_helper_2 :
  F -> F -> F -> F -> F -> F -> F -> F -> F -> F -> F ->
  F -> F -> F -> F -> F -> F -> F -> F -> F * F * F.
Variable k_sq_exp_double_dev : F -> F -> F -> F -> F.
Variable mb_grad_helper_ls_ : F -> F -> F -> F.

(** [v in l] and [l.remove(v)] on a list of species. *)
Definition mem (v : Z) (l : list Z) : bool := existsb (Z.eqb v) l.

Fixpoint remove_first (v : Z) (l : list Z) : list Z :=
  match l with
  | [] => []
  | x :: l' => if (x =? v)%Z then l' else x :: remove_first v l'
  end.

Definition one : F := fof_int 1.
Definition two : F := fof_int 2.

(** *** 2-body *)

(** [(c1 == c2 and e1 == e2) or (c1 == e2 and c2 == e1)] *)
Definition bonds_agree (c1 e1 c2 e2 : Z) : bool :=
  ((c1 =? c2)%Z && (e1 =? e2)%Z) || ((c1 =? e2)%Z && (c2 =? e1)%Z).

Definition two_body_mc_en_jit (bond_array_1 : list (brow F)) (c1 : Z)
           (etypes1 : list Z) (bond_array_2 : list (brow F)) (c2 : Z)
           (etypes2 : list Z) (sig ls r_cut : F) (cutoff_func : cutoff_fn F)
  : F :=
  let ls1 := one / (two * ls * ls) in
  let sig2 := sig * sig in
  fold_left (fun kern m =>
    let ri := ba_get bond_array_1 m 0 in
    let fi := fst (cutoff_func r_cut ri fzero) in
    let e1 := getZ etypes1 m in
    fold_left (fun kern n =>
      let e2 := getZ etypes2 n in
      if bonds_agree c1 e1 c2 e2 then
        let rj := ba_get bond_array_2 n 0 in
        let fj := fst (cutoff_func r_cut rj fzero) in
        let r11 := ri - rj in
        kern + fi * fj * sig2 * exp (- r11 * r11 * ls1)
      else kern)
      (range (rows bond_array_2)) kern)
    (range (rows bond_array_1)) fzero.

Definition two_body_mc_force_en_jit (bond_array_1 : list (brow F)) (c1 : Z)
           (etypes1 : list Z) (bond_array_2 : list (brow F)) (c2 : Z)
           (etypes2 : list Z) (d1 : Z) (sig ls r_cut : F)
           (cutoff_func : cutoff_fn F) : F :=
  let ls1 := one / (two * ls * ls) in
  let ls2 := one / (ls * ls) in
  let sig2 := sig * sig in
  fold_left (fun kern m =>
    let ri := ba_get bond_array_1 m 0 in
    let ci := ba_get bond_array_1 m d1 in
    let '(fi, fdi) := cutoff_func r_cut ri ci in
    let e1 := getZ etypes1 m in
    fold_left (fun kern n =>
      let e2 := getZ etypes2 n in
      if bonds_agree c1 e1 c2 e2 then
        let rj := ba_get bond_array_2 n 0 in
        let fj := fst (cutoff_func r_cut rj fzero) in
        let r11 := ri - rj in
        let B := r11 * ci in
        let D := r11 * r11 in
        kern + force_energy_helper B D fi fj fdi ls1 ls2 sig2
      else kern)
      (range (rows bond_array_2)) kern)
    (range (rows bond_array_1)) fzero.

Definition two_body_mc_grad_jit (bond_array_1 : list (brow F)) (c1 : Z)
           (etypes1 : list Z) (bond_array_2 : list (brow F)) (c2 : Z)
           (etypes2 : list Z) (d1 d2 : Z) (sig ls r_cut : F)
           (cutoff_func : cutoff_fn F) : F * list F :=
  let ls1 := one / (two * ls * ls) in
  let ls2 := one / (ls * ls) in
  let ls3 := ls2 * ls2 in
  let ls4 := one / (ls * ls * ls) in
  let ls5 := ls * ls in
  let ls6 := ls2 * ls4 in
  let sig2 := sig * sig in
  let sig3 := two * sig in
  let '(kern, sig_derv, ls_derv) :=
    fold_left (fun acc m =>
      let ri := ba_get bond_array_1 m 0 in
      let ci := ba_get bond_array_1 m d1 in
      let '(fi, fdi) := cutoff_func r_cut ri ci in
      let e1 := getZ etypes1 m in
      fold_left (fun (acc : F * F * F) n =>
        let '(kern, sig_derv, ls_derv) := acc in
        let e2 := getZ etypes2 n in
        if bonds_agree c1 e1 c2 e2 then
          let rj := ba_get bond_array_2 n 0 in
          let cj := ba_get bond_array_2 n d2 in
          let '(fj, fdj) := cutoff_func r_cut rj cj in
          let r11 := ri - rj in
          let A := ci * cj in
          let B := r11 * ci in
          let C := r11 * cj in
          let D := r11 * r11 in
          let '(kern_term, sig_term, ls_term) :=
            grad_helper A B C D fi fj fdi fdj ls1 ls2 ls3 ls4 ls5 ls6
                        sig2 sig3 in
          (kern + kern_term, sig_derv + sig_term, ls_derv + ls_term)
        else acc)
        (range (rows bond_array_2)) acc)
      (range (rows bond_array_1)) (fzero, fzero, fzero) in
  (kern, [sig_derv; ls_derv]).

(** *** 3-body *)

(** [if c: kern += t] *)
Definition add_if (c : bool) (t : F) (kern : F) : F :=
  if c then kern + t else kern.

(** [if c: kern += t[0]; sig_derv += t[1]; ls_derv += t[2]] *)
Definition add3_if (c : bool) (t : F * F * F) (acc : F * F * F) : F * F * F :=
  if c then
    let '(kern, sig_derv, ls_derv) := acc in
    let '(kern_term, sig_term, ls_term) := t in
    (kern + kern_term, sig_derv + sig_term, ls_derv + ls_term)
  else acc.

Definition three_body_mc_en_jit (bond_array_1 : list (brow F)) (c1 : Z)
           (etypes1 : list Z) (bond_array_2 : list (brow F)) (c2 : Z)
           (etypes2 : list Z)
           (cross_bond_inds_1 cross_bond_inds_2 : list (list Z))
           (cross_bond_dists_1 cross_bond_dists_2 : list (list F))
           (triplets_1 triplets_2 : list Z) (sig ls r_cut : F)
           (cutoff_func : cutoff_fn F) : F :=
  let sig2 := sig * sig in
  let ls2 := one / (two * ls * ls) in
  fold_left (fun kern m =>
    let ri1 := ba_get bond_array_1 m 0 in
    let fi1 := fst (cutoff_func r_cut ri1 fzero) in
    let ei1 := getZ etypes1 m in
    fold_left (fun kern n =>
      let ind1 := get2Z cross_bond_inds_1 m (m + n + 1) in
      let ri2 := ba_get bond_array_1 ind1 0 in
      let fi2 := fst (cutoff_func r_cut ri2 fzero) in
      let ei2 := getZ etypes1 ind1 in
      let tr_spec := [c1; ei1; ei2] in
      if mem c2 tr_spec then
        let tr_spec := remove_first c2 tr_spec in
        let ri3 := get2F cross_bond_dists_1 m (m + n + 1) in
        let fi3 := fst (cutoff_func r_cut ri3 fzero) in
        let fi := fi1 * fi2 * fi3 in
        fold_left (fun kern p =>
          let rj1 := ba_get bond_array_2 p 0 in
          let fj1 := fst (cutoff_func r_cut rj1 fzero) in
          let ej1 := getZ etypes2 p in
          let tr_spec1 := [getZ tr_spec 0; getZ tr_spec 1] in
          if mem ej1 tr_spec1 then
            let tr_spec1 := remove_first ej1 tr_spec1 in
            fold_left (fun kern q =>
              let ind2 := get2Z cross_bond_inds_2 p (p + q + 1) in
              let ej2 := getZ etypes2 ind2 in
              if (ej2 =? getZ tr_spec1 0)%Z then
                let rj2 := ba_get bond_array_2 ind2 0 in
                let fj2 := fst (cutoff_func r_cut rj2 fzero) in
                let rj3 := get2F cross_bond_dists_2 p (p + q + 1) in
                let fj3 := fst (cutoff_func r_cut rj3 fzero) in
                let fj := fj1 * fj2 * fj3 in
                let r11 := ri1 - rj1 in
                let r12 := ri1 - rj2 in
                let r13 := ri1 - rj3 in
                let r21 := ri2 - rj1 in
                let r22 := ri2 - rj2 in
                let r23 := ri2 - rj3 in
                let r31 := ri3 - rj1 in
                let r32 := ri3 - rj2 in
                let r33 := ri3 - rj3 in
                let term C := sig2 * exp (- C * ls2) * fi * fj in
                let kern :=
                  add_if ((c1 =? c2)%Z && ((ei1 =? ej1)%Z && (ei2 =? ej2)%Z))
                         (term (r11 * r11 + r22 * r22 + r33 * r33)) kern in
                let kern :=
                  add_if ((c1 =? c2)%Z && ((ei1 =? ej2)%Z && (ei2 =? ej1)%Z))
                         (term (r12 * r12 + r21 * r21 + r33 * r33)) kern in
                let kern :=
                  add_if ((c1 =? ej1)%Z && ((ei1 =? ej2)%Z && (ei2 =? c2)%Z))
                         (term (r13 * r13 + r21 * r21 + r32 * r32)) kern in
                let kern :=
                  add_if ((c1 =? ej1)%Z && ((ei1 =? c2)%Z && (ei2 =? ej2)%Z))
                         (term (r11 * r11 + r23 * r23 + r32 * r32)) kern in
                let kern :=
                  add_if ((c1 =? ej2)%Z && ((ei1 =? ej1)%Z && (ei2 =? c2)%Z))
                         (term (r13 * r13 + r22 * r22 + r31 * r31)) kern in
                add_if ((c1 =? ej2)%Z && ((ei1 =? c2)%Z && (ei2 =? ej1)%Z))
                       (term (r12 * r12 + r23 * r23 + r31 * r31)) kern
              else kern)
              (range (getZ triplets_2 p)) kern
          else kern)
          (range (rows bond_array_2)) kern
      else kern)
      (range (getZ triplets_1 m)) kern)
    (range (rows bond_array_1)) fzero.

Definition three_body_mc_force_en_jit (bond_array_1 : list (brow F)) (c1 : Z)
           (etypes1 : list Z) (bond_array_2 : list (brow F)) (c2 : Z)
           (etypes2 : list Z)
           (cross_bond_inds_1 cross_bond_inds_2 : list (list Z))
           (cross_bond_dists_1 cross_bond_dists_2 : list (list F))
           (triplets_1 triplets_2 : list Z) (d1 : Z) (sig ls r_cut : F)
           (cutoff_func : cutoff_fn F) : F :=
  let sig2 := sig * sig in
  let ls1 := one / (two * ls * ls) in
  let ls2 := one / (ls * ls) in
  fold_left (fun kern m =>
    let ri1 := ba_get bond_array_1 m 0 in
    let ci1 := ba_get bond_array_1 m d1 in
    let '(fi1, fdi1) := cutoff_func r_cut ri1 ci1 in
    let ei1 := getZ etypes1 m in
    fold_left (fun kern n =>
      let ind1 := get2Z cross_bond_inds_1 m (m + n + 1) in
      let ri2 := ba_get bond_array_1 ind1 0 in
      let ci2 := ba_get bond_array_1 ind1 d1 in
      let '(fi2, fdi2) := cutoff_func r_cut ri2 ci2 in
      let ei2 := getZ etypes1 ind1 in
      let tr_spec := [c1; ei1; ei2] in
      if mem c2 tr_spec then
        let tr_spec := remove_first c2 tr_spec in
        let ri3 := get2F cross_bond_dists_1 m (m + n + 1) in
        let fi3 := fst (cutoff_func r_cut ri3 fzero) in
        let fi := fi1 * fi2 * fi3 in
        let fdi := fdi1 * fi2 * fi3 + fi1 * fdi2 * fi3 in
        fold_left (fun kern p =>
          let ej1 := getZ etypes2 p in
          let tr_spec1 := [getZ tr_spec 0; getZ tr_spec 1] in
          if mem ej1 tr_spec1 then
            let tr_spec1 := remove_first ej1 tr_spec1 in
            let rj1 := ba_get bond_array_2 p 0 in
            let fj1 := fst (cutoff_func r_cut rj1 fzero) in
            fold_left (fun kern q =>
              let ind2 := get2Z cross_bond_inds_2 p (p + q + 1) in
              let ej2 := getZ etypes2 ind2 in
              if (ej2 =? getZ tr_spec1 0)%Z then
                let rj2 := ba_get bond_array_2 ind2 0 in
                let fj2 := fst (cutoff_func r_cut rj2 fzero) in
                let rj3 := get2F cross_bond_dists_2 p (p + q + 1) in
                let fj3 := fst (cutoff_func r_cut rj3 fzero) in
                let fj := fj1 * fj2 * fj3 in
                let r11 := ri1 - rj1 in
                let r12 := ri1 - rj2 in
                let r13 := ri1 - rj3 in
                let r21 := ri2 - rj1 in
                let r22 := ri2 - rj2 in
                let r23 := ri2 - rj3 in
                let r31 := ri3 - rj1 in
                let r32 := ri3 - rj2 in
                let r33 := ri3 - rj3 in
                let term ra rb rc :=
                  three_body_en_helper ci1 ci2 ra rb rc fi fj fdi
                                       ls1 ls2 sig2 in
                let kern :=
                  add_if ((c1 =? c2)%Z && ((ei1 =? ej1)%Z && (ei2 =? ej2)%Z))
                         (term r11 r22 r33) kern in
                let kern :=
                  add_if ((c1 =? c2)%Z && ((ei1 =? ej2)%Z && (ei2 =? ej1)%Z))
                         (term r12 r21 r33) kern in
                let kern :=
                  add_if ((c1 =? ej1)%Z && ((ei1 =? ej2)%Z && (ei2 =? c2)%Z))
                         (term r13 r21 r32) kern in
                let kern :=
                  add_if ((c1 =? ej1)%Z && ((ei1 =? c2)%Z && (ei2 =? ej2)%Z))
                         (term r11 r23 r32) kern in
                let kern :=
                  add_if ((c1 =? ej2)%Z && ((ei1 =? ej1)%Z && (ei2 =? c2)%Z))
                         (term r13 r22 r31) kern in
                add_if ((c1 =? ej2)%Z && ((ei1 =? c2)%Z && (ei2 =? ej1)%Z))
                       (term r12 r23 r31) kern
              else kern)
              (range (getZ triplets_2 p)) kern
          else kern)
          (range (rows bond_array_2)) kern
      else kern)
      (range (getZ triplets_1 m)) kern)
    (range (rows bond_array_1)) fzero.

Definition three_body_mc_grad_jit (bond_array_1 : list (brow F)) (c1 : Z)
           (etypes1 : list Z) (bond_array_2 : list (brow F)) (c2 : Z)
           (etypes2 : list Z)
           (cross_bond_inds_1 cross_bond_inds_2 : list (list Z))
           (cross_bond_dists_1 cross_bond_dists_2 : list (list F))
           (triplets_1 triplets_2 : list Z) (d1 d2 : Z) (sig ls r_cut : F)
           (cutoff_func : cutoff_fn F) : F * list F :=
  let '(sig2, sig3, ls1, ls2, ls3, ls4, ls5, ls6) := grad_constants sig ls in
  let '(kern, sig_derv, ls_derv) :=
    fold_left (fun acc m =>
      let ri1 := ba_get bond_array_1 m 0 in
      let ci1 := ba_get bond_array_1 m d1 in
      let '(fi1, fdi1) := cutoff_func r_cut ri1 ci1 in
      let ei1 := getZ etypes1 m in
      fold_left (fun acc n =>
        let ind1 := get2Z cross_bond_inds_1 m (m + n + 1) in
        let ri3 := get2F cross_bond_dists_1 m (m + n + 1) in
        let ri2 := ba_get bond_array_1 ind1 0 in
        let ci2 := ba_get bond_array_1 ind1 d1 in
        let ei2 := getZ etypes1 ind1 in
        let tr_spec := [c1; ei1; ei2] in
        if mem c2 tr_spec then
          let tr_spec := remove_first c2 tr_spec in
          let '(fi2, fdi2) := cutoff_func r_cut ri2 ci2 in
          let fi3 := fst (cutoff_func r_cut ri3 fzero) in
          let fi := fi1 * fi2 * fi3 in
          let fdi := fdi1 * fi2 * fi3 + fi1 * fdi2 * fi3 in
          fold_left (fun acc p =>
            let rj1 := ba_get bond_array_2 p 0 in
            let cj1 := ba_get bond_array_2 p d2 in
            let '(fj1, fdj1) := cutoff_func r_cut rj1 cj1 in
            let ej1 := getZ etypes2 p in
            let tr_spec1 := [getZ tr_spec 0; getZ tr_spec 1] in
            if mem ej1 tr_spec1 then
              let tr_spec1 := remove_first ej1 tr_spec1 in
              fold_left (fun (acc : F * F * F) q =>
                let ind2 := get2Z cross_bond_inds_2 p (p + q + 1) in
                let ej2 := getZ etypes2 ind2 in
                if (ej2 =? getZ tr_spec1 0)%Z then
                  let rj3 := get2F cross_bond_dists_2 p (p + q + 1) in
                  let rj2 := ba_get bond_array_2 ind2 0 in
                  let cj2 := ba_get bond_array_2 ind2 d2 in
                  let '(fj2, fdj2) := cutoff_func r_cut rj2 cj2 in
                  let fj3 := fst (cutoff_func r_cut rj3 fzero) in
                  let fj := fj1 * fj2 * fj3 in
                  let fdj := fdj1 * fj2 * fj3 + fj1 * fdj2 * fj3 in
                  let r11 := ri1 - rj1 in
                  let r12 := ri1 - rj2 in
                  let r13 := ri1 - rj3 in
                  let r21 := ri2 - rj1 in
                  let r22 := ri2 - rj2 in
                  let r23 := ri2 - rj3 in
                  let r31 := ri3 - rj1 in
                  let r32 := ri3 - rj2 in
                  let r33 := ri3 - rj3 in
                  let h1 a b c d ra rb rc :=
                    three_body_grad_helper_1 a b c d ra rb rc fi fj fdi fdj
                      ls1 ls2 ls3 ls4 ls5 ls6 sig2 sig3 in
                  let h2 a b c d ra rb rc :=
                    three_body_grad_helper_2 a b c d ra rb rc fi fj fdi fdj
                      ls1 ls2 ls3 ls4 ls5 ls6 sig2 sig3 in
                  let acc :=
                    add3_if ((c1 =? c2)%Z
                             && ((ei1 =? ej1)%Z && (ei2 =? ej2)%Z))
                            (h1 ci1 ci2 cj1 cj2 r11 r22 r33) acc in
                  let acc :=
                    add3_if ((c1 =? c2)%Z
                             && ((ei1 =? ej2)%Z && (ei2 =? ej1)%Z))
                            (h1 ci1 ci2 cj2 cj1 r12 r21 r33) acc in
                  let acc :=
                    add3_if ((c1 =? ej1)%Z
                             && ((ei1 =? ej2)%Z && (ei2 =? c2)%Z))
                            (h2 ci2 ci1 cj2 cj1 r21 r13 r32) acc in
                  let acc :=
                    add3_if ((c1 =? ej1)%Z
                             && ((ei1 =? c2)%Z && (ei2 =? ej2)%Z))
                            (h2 ci1 ci2 cj2 cj1 r11 r23 r32) acc in
                  let acc :=
                    add3_if ((c1 =? ej2)%Z
                             && ((ei1 =? ej1)%Z && (ei2 =? c2)%Z))
                            (h2 ci2 ci1 cj1 cj2 r22 r13 r31) acc in
                  add3_if ((c1 =? ej2)%Z
                           && ((ei1 =? c2)%Z && (ei2 =? ej1)%Z))
                          (h2 ci1 ci2 cj1 cj2 r12 r23 r31) acc
                else acc)
                (range (getZ triplets_2 p)) acc
            else acc)
            (range (rows bond_array_2)) acc
        else acc)
        (range (getZ triplets_1 m)) acc)
      (range (rows bond_array_1)) (fzero, fzero, fzero) in
  (kern, [sig_derv; ls_derv]).

(** *** Many-body *)

(** [np.array(list(set(species1).intersection(set(species2))),
    dtype=np.int8)] *)
Definition useful_species (species1 species2 : list Z) : list Z :=
  map wrap8 (set_inter species1 species2).

(** [x ** 2] *)
Definition sq (x : F) : F := x * x.

Definition many_2body_mc_en_jit (q_array_1 q_array_2 : list F) (c1 c2 : Z)
           (species1 species2 : list Z) (sig ls : F) : option F :=
  let useful := useful_species species1 species2 in
  if (c1 =? c2)%Z then
    foldM (fun kern s =>
      i1 <- where_first species1 s ;;
      let q1 := getF q_array_1 (Z.of_nat i1) in
      i2 <- where_first species2 s ;;
      let q2 := getF q_array_2 (Z.of_nat i2) in
      let q1q2diff := q1 - q2 in
      Some (kern + sig * sig * exp (- q1q2diff * q1q2diff / (two * ls * ls))))
      useful fzero
  else Some fzero.

(** [for ind, si in enumerate(l): b = outer(si); for sj in l[ind:]: ...] *)
Fixpoint foldM_upper {S B : Type} (outer : Z -> option B)
         (f : S -> B -> Z -> option S) (l : list Z) (s : S) : option S :=
  match l with
  | [] => Some s
  | si :: l' =>
      b <- outer si ;;
      s1 <- foldM (fun s sj => f s b sj) (si :: l') s ;;
      foldM_upper outer f l' s1
  end.

Definition many_3body_mc_en_jit (m3b_array_1 m3b_array_2 : list (list F))
           (c1 c2 : Z) (species1 species2 : list Z) (sig ls : F) : option F :=
  let useful := useful_species species1 species2 in
  if (c1 =? c2)%Z then
    foldM_upper
      (fun si =>
         si1 <- where_first species1 si ;;
         si2 <- where_first species2 si ;;
         Some (si1, si2))
      (fun kern (si12 : nat * nat) sj =>
         let '(si1, si2) := si12 in
         sj1 <- where_first species1 sj ;;
         sj2 <- where_first species2 sj ;;
         let q1 := get2F m3b_array_1 (Z.of_nat si1) (Z.of_nat sj1) in
         let q2 := get2F m3b_array_2 (Z.of_nat si2) (Z.of_nat sj2) in
         let q1q2diff := q1 - q2 in
         Some (kern
               + sig * sig * exp (- q1q2diff * q1q2diff / (two * ls * ls))))
      useful fzero
  else Some fzero.

(** The four species columns both force kernels look up first. *)
Definition species_columns (species1 species2 : list Z) (c1 c2 : Z)
  : option (list (Z * Z) * Z * Z * Z * Z) :=
  let useful := useful_species species1 species2 in
  specs_ind <-
    mapM (fun s =>
            s1 <- where_first species1 s ;;
            s2 <- where_first species2 s ;;
            Some (Z.of_nat s1, Z.of_nat s2))
         useful ;;
  sc1 <- where_first species1 c1 ;;
  sc2 <- where_first species2 c2 ;;
  sc12 <- where_first species1 c2 ;;
  sc21 <- where_first species2 c1 ;;
  Some (specs_ind, Z.of_nat sc1, Z.of_nat sc2, Z.of_nat sc12, Z.of_nat sc21).

(** [kern += k * g1 * g2; ls_derv += dk * g1 * g2] *)
Definition acc2 (acc : F * F) (k dk g1 g2 : F) : F * F :=
  let '(kern, ls_derv) := acc in (kern + k * g1 * g2, ls_derv + dk * g1 * g2).

Definition many_2body_mc_grad_jit (array_1 array_2 : list F)
           (grads_1 grads_2 : list (list F))
           (neigh_array_1 neigh_array_2 : list (list F))
           (neigh_grads_1 neigh_grads_2 : list (list F))
           (c1 c2 : Z) (etypes1 etypes2 : list Z)
           (species1 species2 : list Z) (d1 d2 : Z) (sig ls : F)
  : option (F * list F) :=
  ' (specs_ind, sc1, sc2, sc12, sc21) <-
    species_columns species1 species2 c1 c2 ;;
  let acc := (fzero, fzero) in
  (* env1's center and env2's center *)
  let acc :=
    if (c1 =? c2)%Z then
      fold_left (fun acc (ss : Z * Z) =>
        let '(s1, s2) := ss in
        let q1 := getF array_1 s1 in
        let q2 := getF array_2 s2 in
        let k12 := k_sq_exp_double_dev q1 q2 sig ls in
        let q12diffsq := sq (q1 - q2) in
        let dk12 := mb_grad_helper_ls_ q12diffsq sig ls in
        let q1s_grad := get2F grads_1 s1 (d1 - 1) in
        let q2s_grad := get2F grads_2 s2 (d2 - 1) in
        acc2 acc k12 dk12 q1s_grad q2s_grad)
        specs_ind acc
    else acc in
  (* env1's neighbors and env2's center *)
  let acc :=
    fold_left (fun acc n =>
      if (getZ etypes1 n =? c2)%Z then
        let qn1 := get2F neigh_array_1 n sc1 in
        let q21 := getF array_2 sc21 in
        let kn2 := k_sq_exp_double_dev qn1 q21 sig ls in
        let qn2diffsq := sq (qn1 - q21) in
        let dkn2 := mb_grad_helper_ls_ qn2diffsq sig ls in
        let qn1_grad := get2F neigh_grads_1 n (d1 - 1) in
        let q21_grad := get2F grads_2 sc21 (d2 - 1) in
        acc2 acc kn2 dkn2 qn1_grad q21_grad
      else acc)
      (range (rows neigh_array_1)) acc in
  (* env2's neighbors and env1's center *)
  let acc :=
    fold_left (fun acc m =>
      if (getZ etypes2 m =? c1)%Z then
        let qm2 := get2F neigh_array_2 m sc2 in
        let q12 := getF array_1 sc12 in
        let km1 := k_sq_exp_double_dev qm2 q12 sig ls in
        let q1mdiffsq := sq (q12 - qm2) in
        let dkm1 := mb_grad_helper_ls_ q1mdiffsq sig ls in
        let qm2_grad := get2F neigh_grads_2 m (d2 - 1) in
        let q12_grad := get2F grads_1 sc12 (d1 - 1) in
        acc2 acc km1 dkm1 qm2_grad q12_grad
      else acc)
      (range (rows neigh_array_2)) acc in
  (* env1's neighbors and env2's neighbors *)
  let acc :=
    if (c1 =? c2)%Z then
      fold_left (fun acc n =>
        fold_left (fun acc m =>
          if (getZ etypes1 n =? getZ etypes2 m)%Z then
            let qn1 := get2F neigh_array_1 n sc1 in
            let qm2 := get2F neigh_array_2 m sc2 in
            let kmn := k_sq_exp_double_dev qn1 qm2 sig ls in
            let qnmdiffsq := sq (qn1 - qm2) in
            let dkmn := mb_grad_helper_ls_ qnmdiffsq sig ls in
            let qn1_grad := get2F neigh_grads_1 n (d1 - 1) in
            let qm2_grad := get2F neigh_grads_2 m (d2 - 1) in
            acc2 acc kmn dkmn qn1_grad qm2_grad
          else acc)
          (range (rows neigh_array_2)) acc)
        (range (rows neigh_array_1)) acc
    else acc in
  let '(kern, ls_derv) := acc in
  let sig_derv := two / sig * kern in
  Some (kern, [sig_derv; ls_derv]).

(** [for si in range(len(l)): for sj in range(si, len(l)): ...] *)
Fixpoint fold_upper {S A : Type} (f : S -> A -> A -> S) (l : list A) (s : S)
  : S :=
  match l with
  | [] => s
  | si :: l' => fold_upper f l' (fold_left (fun s sj => f s si sj) (si :: l') s)
  end.

Definition many_3body_mc_grad_jit (array_1 array_2 : list (list F))
           (grads_1 grads_2 : list (list (list F)))
           (neigh_array_1 neigh_array_2 : list (list (list F)))
           (neigh_grads_1 neigh_grads_2 : list (list (list F)))
           (c1 c2 : Z) (etypes1 etypes2 : list Z)
           (species1 species2 : list Z) (d1 d2 : Z) (sig ls : F)
  : option (F * list F) :=
  ' (specs_ind, sc1, sc2, sc12, sc21) <-
    species_columns species1 species2 c1 c2 ;;
  let acc := (fzero, fzero) in
  (* env1's center and env2's center *)
  let acc :=
    if (c1 =? c2)%Z then
      fold_upper (fun acc (si sj : Z * Z) =>
        let '(si1, si2) := si in
        let '(sj1, sj2) := sj in
        let q1 := get2F array_1 si1 sj1 in
        let q2 := get2F array_2 si2 sj2 in
        let k12 := k_sq_exp_double_dev q1 q2 sig ls in
        let q12diffsq := sq (q1 - q2) in
        let dk12 := mb_grad_helper_ls_ q12diffsq sig ls in
        let qni_grad := get3F grads_1 si1 sj1 (d1 - 1) in
        let qmj_grad := get3F grads_2 si2 sj2 (d2 - 1) in
        acc2 acc k12 dk12 qni_grad qmj_grad)
        specs_ind acc
    else acc in
  (* env1's neighbors and env2's center *)
  let acc :=
    fold_left (fun acc n =>
      if (getZ etypes1 n =? c2)%Z then
        fold_left (fun acc (ss : Z * Z) =>
          let '(s1, s2) := ss in
          let qn1s := get3F neigh_array_1 n sc1 s1 in
          let q21s := get2F array_2 sc21 s2 in
          let kn2 := k_sq_exp_double_dev qn1s q21s sig ls in
          let qn2diffsq := sq (qn1s - q21s) in
          let dkn2 := mb_grad_helper_ls_ qn2diffsq sig ls in
          let qn1s_grad := get3F neigh_grads_1 n s1 (d1 - 1) in
          let q21s_grad := get3F grads_2 sc21 s2 (d2 - 1) in
          acc2 acc kn2 dkn2 qn1s_grad q21s_grad)
          specs_ind acc
      else acc)
      (range (rows neigh_array_1)) acc in
  (* env1's center and env2's neighbors *)
  let acc :=
    fold_left (fun acc m =>
      if (getZ etypes2 m =? c1)%Z then
        fold_left (fun acc (ss : Z * Z) =>
          let '(s1, s2) := ss in
          let qm2s := get3F neigh_array_2 m sc2 s2 in
          let q12s := get2F array_1 sc12 s1 in
          let km1 := k_sq_exp_double_dev qm2s q12s sig ls in
          let q1mdiffsq := sq (q12s - qm2s) in
          let dkm1 := mb_grad_helper_ls_ q1mdiffsq sig ls in
          let qm2s_grad := get3F neigh_grads_2 m s2 (d2 - 1) in
          let q12s_grad := get3F grads_1 sc12 s1 (d1 - 1) in
          acc2 acc km1 dkm1 qm2s_grad q12s_grad)
          specs_ind acc
      else acc)
      (range (rows neigh_array_2)) acc in
  (* env1's neighbors and env2's neighbors *)
  let acc :=
    fold_left (fun acc n =>
      fold_left (fun acc m =>
        if (getZ etypes1 n =? getZ etypes2 m)%Z then
          if (c1 =? c2)%Z then
            fold_left (fun acc (ss : Z * Z) =>
              let '(s1, s2) := ss in
              let qn1s := get3F neigh_array_1 n sc1 s1 in
              let qm2s := get3F neigh_array_2 m sc2 s2 in
              let kmn := k_sq_exp_double_dev qn1s qm2s sig ls in
              let qnmdiffsq := sq (qn1s - qm2s) in
              let dkmn := mb_grad_helper_ls_ qnmdiffsq sig ls in
              let qn1s_grad := get3F neigh_grads_1 n s1 (d1 - 1) in
              let qm2s_grad := get3F neigh_grads_2 m s2 (d2 - 1) in
              acc2 acc kmn dkmn qn1s_grad qm2s_grad)
              specs_ind acc
          else
            let qn12 := get3F neigh_array_1 n sc1 sc12 in
            let qm21 := get3F neigh_array_2 m sc2 sc21 in
            let kmn := k_sq_exp_double_dev qn12 qm21 sig ls in
            let qnmdiffsq := sq (qn12 - qm21) in
            let dkmn := mb_grad_helper_ls_ qnmdiffsq sig ls in
            let qn12_grad := get3F neigh_grads_1 n sc12 (d1 - 1) in
            let qm21_grad := get3F neigh_grads_2 m sc21 (d2 - 1) in
            acc2 acc kmn dkmn qn12_grad qm21_grad
        else acc)
        (range (rows neigh_array_2)) acc)
      (range (rows neigh_array_1)) acc in
  let '(kern, ls_derv) := acc in
  let sig_derv := two / sig * kern in
  Some (kern, [sig_derv; ls_derv]).

(** *** The kernels on environments *)

(** The attributes of [AtomicEnvironment] the embedded kernels read.
    [compute_env] sets the 3-body and the many-body attributes only when
    the corresponding cutoff is positive; the record describes an
    environment that has them all. *)
Record AtomicEnvironment : Type := {
  ctype : Z;
  bond_array_2 : list (brow F);
  etypes : list Z;
  bond_array_3 : list (brow F);
  cross_bond_inds : list (list Z);
  cross_bond_dists : list (list F);
  triplet_counts : list Z;
  m2b_array : list F;
  m2b_neigh_array : list (list F);
  m2b_grads : list (list F);
  m2b_neigh_grads : list (list F);
  m2b_unique_species : list Z;
  etypes_m2b : list Z;
  m3b_array : list (list F);
  m3b_neigh_array : list (list (list F));
  m3b_grads : list (list (list F));
  m3b_neigh_grads : list (list (list F));
  m3b_unique_species : list Z;
  etypes_m3b : list Z
}.

Definition num (k : Z) : F := fof_int k.

(** The functions below are plain Python: [hyps[k]] and [cutoffs[k]] raise
    [IndexError] past the end of the array. *)

Definition two_body_mc_en (env1 env2 : AtomicEnvironment)
           (hyps cutoffs : list F) (cutoff_func : cutoff_fn F) : option F :=
  sig <- py_get hyps 0 ;;
  ls <- py_get hyps 1 ;;
  r_cut <- py_get cutoffs 0 ;;
  Some (two_body_mc_en_jit (bond_array_2 env1) (ctype env1) (etypes env1)
                           (bond_array_2 env2) (ctype env2) (etypes env2)
                           sig ls r_cut cutoff_func / num 4).

Definition two_body_mc_force_en (env1 env2 : AtomicEnvironment) (d1 : Z)
           (hyps cutoffs : list F) (cutoff_func : cutoff_fn F) : option F :=
  sig <- py_get hyps 0 ;;
  ls <- py_get hyps 1 ;;
  r_cut <- py_get cutoffs 0 ;;
  Some (two_body_mc_force_en_jit
          (bond_array_2 env1) (ctype env1) (etypes env1)
          (bond_array_2 env2) (ctype env2) (etypes env2)
          d1 sig ls r_cut cutoff_func / num 2).

Definition three_body_mc_en (env1 env2 : AtomicEnvironment)
           (hyps cutoffs : list F) (cutoff_func : cutoff_fn F) : option F :=
  sig <- py_get hyps 0 ;;
  ls <- py_get hyps 1 ;;
  r_cut <- py_get cutoffs 1 ;;
  Some (three_body_mc_en_jit
          (bond_array_3 env1) (ctype env1) (etypes env1)
          (bond_array_3 env2) (ctype env2) (etypes env2)
          (cross_bond_inds env1) (cross_bond_inds env2)
          (cross_bond_dists env1) (cross_bond_dists env2)
          (triplet_counts env1) (triplet_counts env2)
          sig ls r_cut cutoff_func / num 9).

Definition three_body_mc_force_en (env1 env2 : AtomicEnvironment) (d1 : Z)
           (hyps cutoffs : list F) (cutoff_func : cutoff_fn F) : option F :=
  sig <- py_get hyps 0 ;;
  ls <- py_get hyps 1 ;;
  r_cut <- py_get cutoffs 1 ;;
  Some (three_body_mc_force_en_jit
          (bond_array_3 env1) (ctype env1) (etypes env1)
          (bond_array_3 env2) (ctype env2) (etypes env2)
          (cross_bond_inds env1) (cross_bond_inds env2)
          (cross_bond_dists env1) (cross_bond_dists env2)
          (triplet_counts env1) (triplet_counts env2)
          d1 sig ls r_cut cutoff_func / num 3).

Definition two_plus_three_mc_en (env1 env2 : AtomicEnvironment)
           (hyps cutoffs : list F) (cutoff_func : cutoff_fn F) : option F :=
  sig2 <- py_get hyps 0 ;;
  ls2 <- py_get hyps 1 ;;
  sig3 <- py_get hyps 2 ;;
  ls3 <- py_get hyps 3 ;;
  r_cut_2 <- py_get cutoffs 0 ;;
  r_cut_3 <- py_get cutoffs 1 ;;
  let two_term :=
    two_body_mc_en_jit (bond_array_2 env1) (ctype env1) (etypes env1)
                       (bond_array_2 env2) (ctype env2) (etypes env2)
                       sig2 ls2 r_cut_2 cutoff_func / num 4 in
  let three_term :=
    three_body_mc_en_jit (bond_array_3 env1) (ctype env1) (etypes env1)
                         (bond_array_3 env2) (ctype env2) (etypes env2)
                         (cross_bond_inds env1) (cross_bond_inds env2)
                         (cross_bond_dists env1) (cross_bond_dists env2)
                         (triplet_counts env1) (triplet_counts env2)
                         sig3 ls3 r_cut_3 cutoff_func / num 9 in
  Some (two_term + three_term).

Definition two_plus_three_mc_force_en (env1 env2 : AtomicEnvironment)
           (d1 : Z) (hyps cutoffs : list F) (cutoff_func : cutoff_fn F)
  : option F :=
  sig2 <- py_get hyps 0 ;;
  ls2 <- py_get hyps 1 ;;
  sig3 <- py_get hyps 2 ;;
  ls3 <- py_get hyps 3 ;;
  r_cut_2 <- py_get cutoffs 0 ;;
  r_cut_3 <- py_get cutoffs 1 ;;
  let two_term :=
    two_body_mc_force_en_jit (bond_array_2 env1) (ctype env1) (etypes env1)
                             (bond_array_2 env2) (ctype env2) (etypes env2)
                             d1 sig2 ls2 r_cut_2 cutoff_func / num 2 in
  let three_term :=
    three_body_mc_force_en_jit
      (bond_array_3 env1) (ctype env1) (etypes env1)
      (bond_array_3 env2) (ctype env2) (etypes env2)
      (cross_bond_inds env1) (cross_bond_inds env2)
      (cross_bond_dists env1) (cross_bond_dists env2)
      (triplet_counts env1) (triplet_counts env2)
      d1 sig3 ls3 r_cut_3 cutoff_func / num 3 in
  Some (two_term + three_term).

Definition many_2body_mc_en (env1 env2 : AtomicEnvironment)
           (hyps cutoffs : list F) (cutoff_func : cutoff_fn F) : option F :=
  sig <- py_get hyps 0 ;;
  ls <- py_get hyps 1 ;;
  many_2body_mc_en_jit (m2b_array env1) (m2b_array env2)
                       (ctype env1) (ctype env2)
                       (m2b_unique_species env1) (m2b_unique_species env2)
                       sig ls.

Definition many_3body_mc_en (env1 env2 : AtomicEnvironment)
           (hyps cutoffs : list F) (cutoff_func : cutoff_fn F) : option F :=
  sig <- py_get hyps 0 ;;
  ls <- py_get hyps 1 ;;
  many_3body_mc_en_jit (m3b_array env1) (m3b_array env2)
                       (ctype env1) (ctype env2)
                       (m3b_unique_species env1) (m3b_unique_species env2)
                       sig ls.

Definition many_body_mc_en (env1 env2 : AtomicEnvironment)
           (hyps cutoffs : list F) (cutoff_func : cutoff_fn F) : option F :=
  sig2 <- py_get hyps 0 ;;
  ls2 <- py_get hyps 1 ;;
  m2b_term <-
    many_2body_mc_en_jit (m2b_array env1) (m2b_array env2)
                         (ctype env1) (ctype env2)
                         (m2b_unique_species env1) (m2b_unique_species env2)
                         sig2 ls2 ;;
  sig3 <- py_get hyps 2 ;;
  ls3 <- py_get hyps 3 ;;
  m3b_term <-
    many_3body_mc_en_jit (m3b_array env1) (m3b_array env2)
                         (ctype env1) (ctype env2)
                         (m3b_unique_species env1) (m3b_unique_species env2)
                         sig3 ls3 ;;
  Some (m2b_term + m3b_term).

Definition two_plus_three_plus_many_body_mc_en
           (env1 env2 : AtomicEnvironment)
           (hyps cutoffs : list F) (cutoff_func : cutoff_fn F) : option F :=
  sig2 <- py_get hyps 0 ;;
  ls2 <- py_get hyps 1 ;;
  r_cut_2 <- py_get cutoffs 0 ;;
  let two_term :=
    two_body_mc_en_jit (bond_array_2 env1) (ctype env1) (etypes env1)
                       (bond_array_2 env2) (ctype env2) (etypes env2)
                       sig2 ls2 r_cut_2 cutoff_func / num 4 in
  sig3 <- py_get hyps 2 ;;
  ls3 <- py_get hyps 3 ;;
  r_cut_3 <- py_get cutoffs 1 ;;
  let three_term :=
    three_body_mc_en_jit (bond_array_3 env1) (ctype env1) (etypes env1)
                         (bond_array_3 env2) (ctype env2) (etypes env2)
                         (cross_bond_inds env1) (cross_bond_inds env2)
                         (cross_bond_dists env1) (cross_bond_dists env2)
                         (triplet_counts env1) (triplet_counts env2)
                         sig3 ls3 r_cut_3 cutoff_func / num 9 in
  sigm2 <- py_get hyps 4 ;;
  lsm2 <- py_get hyps 5 ;;
  many_2_term <-
    many_2body_mc_en_jit (m2b_array env1) (m2b_array env2)
                         (ctype env1) (ctype env2)
                         (m2b_unique_species env1) (m2b_unique_species env2)
                         sigm2 lsm2 ;;
  sigm3 <- py_get hyps 6 ;;
  lsm3 <- py_get hyps 7 ;;
  many_3_term <-
    many_3body_mc_en_jit (m3b_array env1) (m3b_array env2)
                         (ctype env1) (ctype env2)
                         (m3b_unique_species env1) (m3b_unique_species env2)
                         sigm3 lsm3 ;;
  Some (two_term + three_term + many_2_term + many_3_term).

(** *** The gradient kernels on environments

    [np.hstack] of the gradients is their concatenation. *)

Definition two_body_mc_grad (env1 env2 : AtomicEnvironment) (d1 d2 : Z)
           (hyps cutoffs : list F) (cutoff_func : cutoff_fn F)
  : option (F * list F) :=
  sig <- py_get hyps 0 ;;
  ls <- py_get hyps 1 ;;
  r_cut <- py_get cutoffs 0 ;;
  Some (two_body_mc_grad_jit (bond_array_2 env1) (ctype env1) (etypes env1)
                             (bond_array_2 env2) (ctype env2) (etypes env2)
                             d1 d2 sig ls r_cut cutoff_func).

Definition three_body_mc_grad (env1 env2 : AtomicEnvironment) (d1 d2 : Z)
           (hyps cutoffs : list F) (cutoff_func : cutoff_fn F)
  : option (F * list F) :=
  sig <- py_get hyps 0 ;;
  ls <- py_get hyps 1 ;;
  r_cut <- py_get cutoffs 1 ;;
  Some (three_body_mc_grad_jit
          (bond_array_3 env1) (ctype env1) (etypes env1)
          (bond_array_3 env2) (ctype env2) (etypes env2)
          (cross_bond_inds env1) (cross_bond_inds env2)
          (cross_bond_dists env1) (cross_bond_dists env2)
          (triplet_counts env1) (triplet_counts env2)
          d1 d2 sig ls r_cut cutoff_func).

(** [np.array([grad2[0], grad2[1], grad3[0], grad3[1]])] *)
Definition two_plus_three_body_mc_grad (env1 env2 : AtomicEnvironment)
           (d1 d2 : Z) (hyps cutoffs : list F) (cutoff_func : cutoff_fn F)
  : option (F * list F) :=
  sig2 <- py_get hyps 0 ;;
  ls2 <- py_get hyps 1 ;;
  sig3 <- py_get hyps 2 ;;
  ls3 <- py_get hyps 3 ;;
  r_cut_2 <- py_get cutoffs 0 ;;
  r_cut_3 <- py_get cutoffs 1 ;;
  let '(kern2, grad2) :=
    two_body_mc_grad_jit (bond_array_2 env1) (ctype env1) (etypes env1)
                         (bond_array_2 env2) (ctype env2) (etypes env2)
                         d1 d2 sig2 ls2 r_cut_2 cutoff_func in
  let '(kern3, grad3) :=
    three_body_mc_grad_jit
      (bond_array_3 env1) (ctype env1) (etypes env1)
      (bond_array_3 env2) (ctype env2) (etypes env2)
      (cross_bond_inds env1) (cross_bond_inds env2)
      (cross_bond_dists env1) (cross_bond_dists env2)
      (triplet_counts env1) (triplet_counts env2)
      d1 d2 sig3 ls3 r_cut_3 cutoff_func in
  g20 <- py_get grad2 0 ;;
  g21 <- py_get grad2 1 ;;
  g30 <- py_get grad3 0 ;;
  g31 <- py_get grad3 1 ;;
  Some (kern2 + kern3, [g20; g21; g30; g31]).

(** [many_2body_mc_grad] passes sixteen arguments, without [m2b_grads], to
    [many_2body_mc_grad_jit], which takes eighteen: every call raises
    [TypeError]. *)
Definition many_2body_mc_grad (env1 env2 : AtomicEnvironment) (d1 d2 : Z)
           (hyps cutoffs : list F) (cutoff_func : cutoff_fn F)
  : option (F * list F) :=
  None.

Definition many_3body_mc_grad (env1 env2 : AtomicEnvironment) (d1 d2 : Z)
           (hyps cutoffs : list F) (cutoff_func : cutoff_fn F)
  : option (F * list F) :=
  sig <- py_get hyps 0 ;;
  ls <- py_get hyps 1 ;;
  many_3body_mc_grad_jit (m3b_array env1) (m3b_array env2)
                         (m3b_grads env1) (m3b_grads env2)
                         (m3b_neigh_array env1) (m3b_neigh_array env2)
                         (m3b_neigh_grads env1) (m3b_neigh_grads env2)
                         (ctype env1) (ctype env2)
                         (etypes_m3b env1) (etypes_m3b env2)
                         (m3b_unique_species env1) (m3b_unique_species env2)
                         d1 d2 sig ls.

Definition many_body_mc_grad (env1 env2 : AtomicEnvironment) (d1 d2 : Z)
           (hyps cutoffs : list F) (cutoff_func : cutoff_fn F)
  : option (F * list F) :=
  sig2 <- py_get hyps 0 ;;
  ls2 <- py_get hyps 1 ;;
  ' (m2b_term, grad_2) <-
    many_2body_mc_grad_jit (m2b_array env1) (m2b_array env2)
                           (m2b_grads env1) (m2b_grads env2)
                           (m2b_neigh_array env1) (m2b_neigh_array env2)
                           (m2b_neigh_grads env1) (m2b_neigh_grads env2)
                           (ctype env1) (ctype env2)
                           (etypes_m2b env1) (etypes_m2b env2)
                           (m2b_unique_species env1) (m2b_unique_species env2)
                           d1 d2 sig2 ls2 ;;
  sig3 <- py_get hyps 2 ;;
  ls3 <- py_get hyps 3 ;;
  ' (m3b_term, grad_3) <-
    many_3body_mc_grad_jit (m3b_array env1) (m3b_array env2)
                           (m3b_grads env1) (m3b_grads env2)
                           (m3b_neigh_array env1) (m3b_neigh_array env2)
                           (m3b_neigh_grads env1) (m3b_neigh_grads env2)
                           (ctype env1) (ctype env2)
                           (etypes_m3b env1) (etypes_m3b env2)
                           (m3b_unique_species env1) (m3b_unique_species env2)
                           d1 d2 sig3 ls3 ;;
  Some (m2b_term + m3b_term, grad_2 ++ grad_3).

Definition two_plus_three_plus_many_body_mc_grad
           (env1 env2 : AtomicEnvironment) (d1 d2 : Z)
           (hyps cutoffs : list F) (cutoff_func : cutoff_fn F)
  : option (F * list F) :=
  sig2 <- py_get hyps 0 ;;
  ls2 <- py_get hyps 1 ;;
  r_cut_2 <- py_get cutoffs 0 ;;
  let '(kern2, grad2) :=
    two_body_mc_grad_jit (bond_array_2 env1) (ctype env1) (etypes env1)
                         (bond_array_2 env2) (ctype env2) (etypes env2)
                         d1 d2 sig2 ls2 r_cut_2 cutoff_func in
  sig3 <- py_get hyps 2 ;;
  ls3 <- py_get hyps 3 ;;
  r_cut_3 <- py_get cutoffs 1 ;;
  let '(kern3, grad3) :=
    three_body_mc_grad_jit
      (bond_array_3 env1) (ctype env1) (etypes env1)
      (bond_array_3 env2) (ctype env2) (etypes env2)
      (cross_bond_inds env1) (cross_bond_inds env2)
      (cross_bond_dists env1) (cross_bond_dists env2)
      (triplet_counts env1) (triplet_counts env2)
      d1 d2 sig3 ls3 r_cut_3 cutoff_func in
  sigm2 <- py_get hyps 4 ;;
  lsm2 <- py_get hyps 5 ;;
  ' (kern_m2b, gradm2) <-
    many_2body_mc_grad_jit (m2b_array env1) (m2b_array env2)
                           (m2b_grads env1) (m2b_grads env2)
                           (m2b_neigh_array env1) (m2b_neigh_array env2)
                           (m2b_neigh_grads env1) (m2b_neigh_grads env2)
                           (ctype env1) (ctype env2)
                           (etypes_m2b env1) (etypes_m2b env2)
                           (m2b_unique_species env1) (m2b_unique_species env2)
                           d1 d2 sigm2 lsm2 ;;
  sigm3 <- py_get hyps 6 ;;
  lsm3 <- py_get hyps 7 ;;
  ' (kern_m3b, gradm3) <-
    many_3body_mc_grad_jit (m3b_array env1) (m3b_array env2)
                           (m3b_grads env1) (m3b_grads env2)
                           (m3b_neigh_array env1) (m3b_neigh_array env2)
                           (m3b_neigh_grads env1) (m3b_neigh_grads env2)
                           (ctype env1) (ctype env2)
                           (etypes_m3b env1) (etypes_m3b env2)
                           (m3b_unique_species env1) (m3b_unique_species env2)
                           d1 d2 sigm3 lsm3 ;;
  Some (kern2 + kern3 + kern_m2b + kern_m3b,
        grad2 ++ grad3 ++ gradm2 ++ gradm3).

(** The gradient kernel of one order on the attributes of two
    environments, as the functions above call it. *)
Definition two_body_grad_on (env1 env2 : AtomicEnvironment) (d1 d2 : Z)
           (sig ls r_cut : F) (cutoff_func : cutoff_fn F) : F * list F :=
  two_body_mc_grad_jit (bond_array_2 env1) (ctype env1) (etypes env1)
                       (bond_array_2 env2) (ctype env2) (etypes env2)
                       d1 d2 sig ls r_cut cutoff_func.

Definition three_body_grad_on (env1 env2 : AtomicEnvironment) (d1 d2 : Z)
           (sig ls r_cut : F) (cutoff_func : cutoff_fn F) : F * list F :=
  three_body_mc_grad_jit
    (bond_array_3 env1) (ctype env1) (etypes env1)
    (bond_array_3 env2) (ctype env2) (etypes env2)
    (cross_bond_inds env1) (cross_bond_inds env2)
    (cross_bond_dists env1) (cross_bond_dists env2)
    (triplet_counts env1) (triplet_counts env2)
    d1 d2 sig ls r_cut cutoff_func.

Definition many_2body_grad_on (env1 env2 : AtomicEnvironment) (d1 d2 : Z)
           (sig ls : F) : option (F * list F) :=
  many_2body_mc_grad_jit (m2b_array env1) (m2b_array env2)
                         (m2b_grads env1) (m2b_grads env2)
                         (m2b_neigh_array env1) (m2b_neigh_array env2)
                         (m2b_neigh_grads env1) (m2b_neigh_grads env2)
                         (ctype env1) (ctype env2)
                         (etypes_m2b env1) (etypes_m2b env2)
                         (m2b_unique_species env1) (m2b_unique_species env2)
                         d1 d2 sig ls.

Definition many_3body_grad_on (env1 env2 : AtomicEnvironment) (d1 d2 : Z)
           (sig ls : F) : option (F * list F) :=
  many_3body_mc_grad_jit (m3b_array env1) (m3b_array env2)
                         (m3b_grads env1) (m3b_grads env2)
                         (m3b_neigh_array env1) (m3b_neigh_array env2)
                         (m3b_neigh_grads env1) (m3b_neigh_grads env2)
                         (ctype env1) (ctype env2)
                         (etypes_m3b env1) (etypes_m3b env2)
                         (m3b_unique_species env1) (m3b_unique_species env2)
                         d1 d2 sig ls.

End Kernels.

(* ------------------------------------------------------------------ *)
(** ** [_str_to_kernel]: the registry of kernel names *)
(* ------------------------------------------------------------------ *)

(** The kernel functions of [mc_simple.py] that the registry refers to. *)
Inductive kernel_fun : Set :=
| fn_two_body_mc | fn_two_body_mc_grad
| fn_two_body_mc_en | fn_two_body_mc_force_en
| fn_three_body_mc | fn_three_body_mc_grad
| fn_three_body_mc_en | fn_three_body_mc_force_en
| fn_two_plus_three_body_mc | fn_two_plus_three_body_mc_grad
| fn_two_plus_three_mc_en | fn_two_plus_three_mc_force_en
| fn_many_2body_mc | fn_many_2body_mc_grad
| fn_many_2body_mc_en | fn_many_2body_mc_force_en
| fn_many_3body_mc | fn_many_3body_mc_grad
| fn_many_3body_mc_en | fn_many_3body_mc_force_en
| fn_many_body_mc | fn_many_body_mc_grad
| fn_many_body_mc_en | fn_many_body_mc_force_en
| fn_two_plus_three_plus_many_body_mc
| fn_two_plus_three_plus_many_body_mc_grad
| fn_two_plus_three_plus_many_body_mc_en
| fn_two_plus_three_plus_many_body_mc_force_en.

Local Open Scope string_scope.

Definition _str_to_kernel : list (String.string * kernel_fun) :=
  [("two_body_mc", fn_two_body_mc);
   ("two_body_mc_en", fn_two_body_mc_en);
   ("two_body_mc_grad", fn_two_body_mc_grad);
   ("two_body_mc_force_en", fn_two_body_mc_force_en);
   ("three_body_mc", fn_three_body_mc);
   ("three_body_mc_grad", fn_three_body_mc_grad);
   ("three_body_mc_en", fn_three_body_mc_en);
   ("three_body_mc_force_en", fn_three_body_mc_force_en);
   ("two_plus_three_body_mc", fn_two_plus_three_body_mc);
   ("two_plus_three_body_mc_grad", fn_two_plus_three_body_mc_grad);
   ("two_plus_three_mc_en", fn_two_plus_three_mc_en);
   ("two_plus_three_mc_force_en", fn_two_plus_three_mc_force_en);
   ("2", fn_two_body_mc);
   ("2_en", fn_two_body_mc_en);
   ("2_grad", fn_two_body_mc_grad);
   ("2_force_en", fn_two_body_mc_force_en);
   ("3", fn_three_body_mc);
   ("3_grad", fn_three_body_mc_grad);
   ("3_en", fn_three_body_mc_en);
   ("3_force_en", fn_three_body_mc_force_en);
   ("2+3", fn_two_plus_three_body_mc);
   ("2+3_grad", fn_two_plus_three_body_mc_grad);
   ("2+3_en", fn_two_plus_three_mc_en);
   ("2+3_force_en", fn_two_plus_three_mc_force_en);
   ("many_2body_mc", fn_many_2body_mc);
   ("many_2body_mc_en", fn_many_2body_mc_en);
   ("many_2body_mc_grad", fn_many_2body_mc_grad);
   ("many_2body_mc_force_en", fn_many_2body_mc_force_en);
   ("many_3body_mc", fn_many_2body_mc);
   ("many_3body_mc_en", fn_many_2body_mc_en);
   ("many_3body_mc_grad", fn_many_2body_mc_grad);
   ("many_3body_mc_force_en", fn_many_2body_mc_force_en);
   ("many", fn_many_body_mc);
   ("many_en", fn_many_body_mc_en);
   ("many_grad", fn_many_body_mc_grad);
   ("many_force_en", fn_many_body_mc_force_en);
   ("two_plus_three_plus_many_body_mc", fn_two_plus_three_plus_many_body_mc);
   ("two_plus_three_plus_many_body_mc_grad",
    fn_two_plus_three_plus_many_body_mc_grad);
   ("two_plus_three_plus_many_body_mc_en",
    fn_two_plus_three_plus_many_body_mc_en);
   ("two_plus_three_plus_many_body_mc_force_en",
    fn_two_plus_three_plus_many_body_mc_force_en);
   ("2+3+many", fn_two_plus_three_plus_many_body_mc);
   ("2+3+many_grad", fn_two_plus_three_plus_many_body_mc_grad);
   ("2+3+many_en", fn_two_plus_three_plus_many_body_mc_en);
   ("2+3+many_force_en", fn_two_plus_three_plus_many_body_mc_force_en)].

(** [d[key]] of a dict display: a later entry for the same key replaces an
    earlier one; a missing key raises [KeyError]. *)
Fixpoint dict_get {V : Type} (d : list (String.string * V))
         (key : String.string) : option V :=
  match d with
  | [] => None
  | (k, v) :: d' =>
      match dict_get d' key with
      | Some v' => Some v'
      | None => if String.eqb k key then Some v else None
      end
  end.

(** The four output modes and the name suffix of each. *)
Inductive mode : Set := ForceForce | Gradient | EnergyEnergy | ForceEnergy.

Definition suffix (m : mode) : String.string :=
  match m with
  | ForceForce => ""
  | Gradient => "_grad"
  | EnergyEnergy => "_en"
  | ForceEnergy => "_force_en"
  end.

(** The kernel orders the registry has a short name for. *)
Inductive order : Set :=
| TwoBody | ThreeBody | TwoPlusThree | ManyBody | TwoPlusThreePlusMany.

(** The function of [mc_simple.py] that implements an order in a mode. *)
Definition variant (o : order) (m : mode) : kernel_fun :=
  match o, m with
  | TwoBody, ForceForce => fn_two_body_mc
  | TwoBody, Gradient => fn_two_body_mc_grad
  | TwoBody, EnergyEnergy => fn_two_body_mc_en
  | TwoBody, ForceEnergy => fn_two_body_mc_force_en
  | ThreeBody, ForceForce => fn_three_body_mc
  | ThreeBody, Gradient => fn_three_body_mc_grad
  | ThreeBody, EnergyEnergy => fn_three_body_mc_en
  | ThreeBody, ForceEnergy => fn_three_body_mc_force_en
  | TwoPlusThree, ForceForce => fn_two_plus_three_body_mc
  | TwoPlusThree, Gradient => fn_two_plus_three_body_mc_grad
  | TwoPlusThree, EnergyEnergy => fn_two_plus_three_mc_en
  | TwoPlusThree, ForceEnergy => fn_two_plus_three_mc_force_en
  | ManyBody, ForceForce => fn_many_body_mc
  | ManyBody, Gradient => fn_many_body_mc_grad
  | ManyBody, EnergyEnergy => fn_many_body_mc_en
  | ManyBody, ForceEnergy => fn_many_body_mc_force_en
  | TwoPlusThreePlusMany, ForceForce => fn_two_plus_three_plus_many_body_mc
  | TwoPlusThreePlusMany, Gradient =>
      fn_two_plus_three_plus_many_body_mc_grad
  | TwoPlusThreePlusMany, EnergyEnergy =>
      fn_two_plus_three_plus_many_body_mc_en
  | TwoPlusThreePlusMany, ForceEnergy =>
      fn_two_plus_three_plus_many_body_mc_force_en
  end.

(** The short names as the specification lists them. *)
Definition short_name_spec (o : order) : String.string :=
  match o with
  | TwoBody => "2"
  | ThreeBody => "3"
  | TwoPlusThree => "2+3"
  | ManyBody => "mb"
  | TwoPlusThreePlusMany => "2+3+mb"
  end.

(** The short names as the registry spells them. *)
Definition short_name (o : order) : String.string :=
  match o with
  | TwoBody => "2"
  | ThreeBody => "3"
  | TwoPlusThree => "2+3"
  | ManyBody => "many"
  | TwoPlusThreePlusMany => "2+3+many"
  end.

(** The long base names that take the four suffixes. *)
Definition long_name (o : order) : option String.string :=
  match o with
  | TwoBody => Some "two_body_mc"
  | ThreeBody => Some "three_body_mc"
  | TwoPlusThree => None
  | ManyBody => None
  | TwoPlusThreePlusMany => Some "two_plus_three_plus_many_body_mc"
  end.

Local Close Scope string_scope.

(* ------------------------------------------------------------------ *)
(** ** Reference descriptions the properties are stated against *)
(* ------------------------------------------------------------------ *)

Section Reference.

Context {F : Type} {NF : Num F}.
Local Open Scope num_scope.

(** The neighbours [n] of a list that a test accepts, each with the
    distance the test returns, in the order of the list. *)
Definition accepted (dec : nat -> option F) (l : list nat) : list (nat * F) :=
  flat_map (fun n => match dec n with Some d => [(n, d)] | None => [] end) l.

(** Row [m] of the triplet table when [acc] are its accepted neighbours:
    they occupy the columns from [m + 1] on, the rest holds [-1] and [0]. *)
Definition row_layout (ind_3 m : nat) (acc : list (nat * F))
  : list Z * list F * Z :=
  (repeat (-1)%Z (S m) ++ map (fun e => Z.of_nat (fst e)) acc
     ++ repeat (-1)%Z (ind_3 - S m - length acc),
   repeat fzero (S m) ++ map snd acc
     ++ repeat fzero (ind_3 - S m - length acc),
   wrap8 (Z.of_nat (length acc))).

(** The test of the scalar builder: neighbour [n] is closer than
    [cutoff_3] to neighbour [m]. *)
Definition near (bond_positions_3 : list (vec3 F)) (cutoff_3 : F)
           (m n : nat) : option F :=
  let d := norm (vsub (nth n bond_positions_3 vzero)
                      (nth m bond_positions_3 vzero)) in
  if d <? cutoff_3 then Some d else None.

(** The 3-body cutoff the species-resolved builder resolves for the bond
    between the central atom and neighbour [i]. *)
Definition bond_cutoff_3 (etypes : list Z) (cutoff_3 : list F)
           (nspecie : Z) (specie_mask cut3b_mask : list Z) (ctype : Z)
           (i : nat) : option F :=
  bc <- py_get specie_mask ctype ;;
  e <- nth_error etypes i ;;
  b <- py_get specie_mask e ;;
  resolve_cutoff cutoff_3 cut3b_mask b (nspecie * bc)%Z.

(** The cutoff of the bond to neighbour [i], with [bcn] already found. *)
Definition bond_cut (etypes : list Z) (cutoff_3 : list F)
           (specie_mask cut3b_mask : list Z) (bcn : Z) (i : nat) : option F :=
  e <- nth_error etypes i ;;
  b <- py_get specie_mask e ;;
  resolve_cutoff cutoff_3 cut3b_mask b bcn.

Definition or0 (o : option F) : F :=
  match o with Some c => c | None => fzero end.

(** The 3-body cutoff resolved for the bond between neighbours [m], [n]. *)
Definition cross_cutoff_3 (etypes : list Z) (cutoff_3 : list F)
           (nspecie : Z) (specie_mask cut3b_mask : list Z)
           (m n : nat) : option F :=
  em <- nth_error etypes m ;;
  bm <- py_get specie_mask em ;;
  en <- nth_error etypes n ;;
  bn <- py_get specie_mask en ;;
  resolve_cutoff cutoff_3 cut3b_mask bn (nspecie * bm)%Z.

(** The test of the species-resolved builder, once every cutoff is found. *)
Definition near_sepcut (bond_array_2 : list (brow F))
           (bond_positions_3 : list (vec3 F)) (cut_m : F)
           (cut_n cut_mn : nat -> F) (m n : nat) : option F :=
  let d := norm (vsub (nth n bond_positions_3 vzero)
                      (nth m bond_positions_3 vzero)) in
  if (d <? cut_mn n) && (dist_of (nth m bond_array_2 brow0) <? cut_m)
     && (dist_of (nth n bond_array_2 brow0) <? cut_n n)
  then Some d else None.

(** [cross_bond_inds[m, k]] for positions inside the table. *)
Definition cell_at (cross_bond_inds : list (list Z)) (m k : nat) : Z :=
  nth k (nth m cross_bond_inds []) (-1)%Z.

(** [bond_array[i, 0]] *)
Definition dist_at (bond_array : list (brow F)) (i : nat) : F :=
  dist_of (nth i bond_array brow0).

(** What the first pass leaves in column [im_count] for image [s]. *)
Definition stored (diff_curr : vec3 F) (cell : cell3 F) (rcut : F)
           (s : Z * Z * Z) : F * vec3 F :=
  let im := image diff_curr cell s in
  if within (norm im) rcut then (norm im, im) else (fzero, vzero).

(** The images of one displacement that pass the cutoff test, in sweep
    order. *)
Definition qualifying (diff_curr : vec3 F) (cell : cell3 F) (cutoff : F)
           (sweep : list Z) : list (vec3 F) :=
  filter (fun im => within (norm im) cutoff)
         (map (image diff_curr cell) (sweep_images sweep)).

(** The output row of image [im] of source atom [m]. *)
Definition entry_of (species : list Z) (m : nat) (im : vec3 F)
  : brow F * vec3 F * Z * Z :=
  (mk_row (norm im) im, im, wrap8 (nth m species 0%Z), wrap8 (Z.of_nat m)).

(** The rows in fill order when the cutoff of source atom [m] is
    [cutoff m]: atom by atom, image by image. *)
Definition fill_spec (positions : list (vec3 F)) (pos_atom : vec3 F)
           (cell : cell3 F) (cutoff : nat -> F) (species : list Z)
           (sweep : list Z) : list (brow F * vec3 F * Z * Z) :=
  flat_map (fun mp =>
              map (entry_of species (fst mp))
                  (qualifying (vsub (snd mp) pos_atom) cell (cutoff (fst mp))
                              sweep))
           (with_index positions).

(** The distance column of a list of rows. *)
Definition keys_of (rows : list (brow F * vec3 F * Z * Z)) : list F :=
  map (fun r => dist_of (fst (fst (fst r)))) rows.

(** What [argsort] promises for one array of keys: [sigma] lists every
    position once, and reading the keys through it never steps down. *)
Definition is_argsort (keys : list F) (sigma : list nat) : Prop :=
  Permutation sigma (seq 0 (length keys))
  /\ forall i j : nat,
       (i < j < length sigma)%nat ->
       (nth (nth j sigma O) keys fzero <? nth (nth i sigma O) keys fzero)
       = false.

(** A decision procedure for [is_argsort]. *)
Fixpoint pairwiseb {A : Type} (r : A -> A -> bool) (l : list A) : bool :=
  match l with
  | [] => true
  | x :: l' => forallb (r x) l' && pairwiseb r l'
  end.

Definition is_argsortb (keys : list F) (sigma : list nat) : bool :=
  (length sigma =? length keys)%nat
  && forallb (fun i => existsb (Nat.eqb i) sigma) (seq 0 (length keys))
  && pairwiseb (fun i j => negb (nth j keys fzero <? nth i keys fzero)) sigma.

(** Ascending order of a distance column. *)
Definition ascending (dists : list F) : Prop :=
  forall i j : nat,
    (i < j < length dists)%nat ->
    (nth j dists fzero <? nth i dists fzero) = false.

(** A stable sort: positions of equal keys come out in increasing order. *)
Definition keeps_fill_order (keys : list F) (sigma : list nat) : Prop :=
  forall a b : nat,
    (a < b < length sigma)%nat ->
    (nth (nth a sigma O) keys fzero =? nth (nth b sigma O) keys fzero) = true ->
    (nth a sigma O < nth b sigma O)%nat.

(** The species-resolved 2-body cutoff of source atom [n]. *)
Definition bond_cutoff_2 (cutoff_2 : list F) (species : list Z)
           (specie_mask bond_mask : list Z) (bcn : Z) (n : nat) : option F :=
  sn <- nth_error species n ;;
  bn <- py_get specie_mask sn ;;
  resolve_cutoff cutoff_2 bond_mask bn bcn.

(** The four arrays are the fill arrays read through one index array
    [sigma = argsort(keys)]; together they are a rearrangement of the fill
    rows, in ascending order of distance, none at distance zero. *)
Definition sorted_output (argsort : list F -> list nat)
           (fill : list (brow F * vec3 F * Z * Z))
           (out : list (brow F) * list (vec3 F) * list Z * list Z) : Prop :=
  let sigma := argsort (keys_of fill) in
  out = (take_by brow0 (fst (fst (fst (unzip4 fill)))) sigma,
         take_by vzero (snd (fst (fst (unzip4 fill)))) sigma,
         take_by 0%Z (snd (fst (unzip4 fill))) sigma,
         take_by 0%Z (snd (unzip4 fill)) sigma)
  /\ (exists rows, out = unzip4 rows /\ Permutation rows fill)
  /\ ascending (map dist_of (fst (fst (fst out))))
  /\ Forall (fun r => (dist_of r =? fzero) = false) (fst (fst (fst out))).

(** The output rows are the fill rows, each once; row [i] is the entry of
    one source atom [m] and one image [im] of it that passes the cutoff
    test: the bond is [im], [bond_indices[i]] holds the [int8] image of [m]
    and [etypes[i]] that of [species[m]]. *)
Definition int8_rows (positions : list (vec3 F)) (pos_atom : vec3 F)
           (cell : cell3 F) (cutoff : nat -> F) (species : list Z)
           (sweep : list Z)
           (out : list (brow F) * list (vec3 F) * list Z * list Z) : Prop :=
  (exists rows,
      out = unzip4 rows
      /\ Permutation rows
                     (fill_spec positions pos_atom cell cutoff species sweep))
  /\ forall i : nat,
       (i < length (fst (fst (fst out))))%nat ->
       exists (m : nat) (p im : vec3 F),
         nth_error positions m = Some p
         /\ In im (qualifying (vsub p pos_atom) cell (cutoff m) sweep)
         /\ nth i (fst (fst (fst out))) brow0 = mk_row (norm im) im
         /\ nth i (snd (fst (fst out))) vzero = im
         /\ nth i (snd out) 0%Z = wrap8 (Z.of_nat m)
         /\ nth i (snd (fst out)) 0%Z = wrap8 (nth m species 0%Z).

(** Row [m] of the triplet table when [found m] lists the neighbours
    accepted for it: [triplet_counts[m]] is the [int8] image of their
    number, column [m + 1 + j] of [cross_bond_inds] holds the index of the
    [j]-th of them, unreduced, and every other cell holds [-1]. *)
Definition index_table (ind_3 : nat) (found : nat -> list (nat * F))
           (cross_bond_inds : list (list Z)) (triplet_counts : list Z)
  : Prop :=
  forall m : nat,
    (m < ind_3)%nat ->
    nth m triplet_counts 0%Z = wrap8 (Z.of_nat (length (found m)))
    /\ (forall j : nat,
           (j < length (found m))%nat ->
           (S m + j <= fst (nth j (found m) (O, fzero)) < ind_3)%nat
           /\ cell_at cross_bond_inds m (S m + j)
              = Z.of_nat (fst (nth j (found m) (O, fzero))))
    /\ (forall k : nat,
           (k <= m \/ m + length (found m) < k)%nat ->
           cell_at cross_bond_inds m k = (-1)%Z).

(** The storage of the cross-bond indices in the words of the
    specification: a signed 8-bit array, so the cell of the [j]-th
    neighbour accepted for row [m] holds its index reduced modulo 256. *)
Definition int8_table_as_stated (ind_3 : nat) (found : nat -> list (nat * F))
           (cross_bond_inds : list (list Z)) : Prop :=
  forall m j : nat,
    (m < ind_3)%nat -> (j < length (found m))%nat ->
    cell_at cross_bond_inds m (S m + j)
    = wrap8 (Z.of_nat (fst (nth j (found m) (O, fzero)))).

(** A trivial mask: one species group, every mask entry zero, and every
    species code of the list a position of the mask. *)
Definition trivial_mask (specie_mask : list Z) (codes : list Z) : Prop :=
  forall e : Z, In e codes -> py_get specie_mask e = Some 0%Z.

End Reference.

Section Claims.

Context {F : Type} {NF : Num F}.
Local Open Scope num_scope.

(** The triplet invariant in the words of the specification: a cell other
    than [-1] lies right of the diagonal, indexes the truncated list, and
    the bonds of its row and of its column are below their cutoffs. *)
Definition triplet_invariant_as_stated (bond_array_3 : list (brow F))
           (cross_bond_inds : list (list Z)) (below : nat -> bool) : Prop :=
  forall m k : nat,
    (m < length bond_array_3)%nat -> (k < length bond_array_3)%nat ->
    cell_at cross_bond_inds m k <> (-1)%Z ->
    (m < k)%nat
    /\ (0 <= cell_at cross_bond_inds m k < Z.of_nat (length bond_array_3))%Z
    /\ below m = true /\ below k = true.

(** The invariant the builders keep: the cell holds the index [n] of a
    neighbour at or right of its column, and the bonds of the row and of
    [n] are within their cutoffs. *)
Definition triplet_invariant (bond_array_3 : list (brow F))
           (cross_bond_inds : list (list Z)) (bounded : nat -> bool) : Prop :=
  forall m k : nat,
    (m < length bond_array_3)%nat -> (k < length bond_array_3)%nat ->
    cell_at cross_bond_inds m k <> (-1)%Z ->
    (m < k)%nat
    /\ exists n : nat,
         cell_at cross_bond_inds m k = Z.of_nat n
         /\ (k <= n < length bond_array_3)%nat
         /\ bounded m = true /\ bounded n = true.

(** "Not above the cutoff", the test that ends the truncated list. *)
Definition not_above (cutoff_3 : F) (bond_array : list (brow F)) (i : nat)
  : bool :=
  negb (dist_at bond_array i >? cutoff_3).

(** "Below its resolved cutoff" in the species-resolved builder. *)
Definition below_resolved (etypes : list Z) (cutoff_3 : list F)
           (nspecie : Z) (specie_mask cut3b_mask : list Z) (ctype : Z)
           (bond_array : list (brow F)) (i : nat) : bool :=
  match bond_cutoff_3 etypes cutoff_3 nspecie specie_mask cut3b_mask ctype i
  with
  | Some c => dist_at bond_array i <? c
  | None => false
  end.

End Claims.

(* ------------------------------------------------------------------ *)
(** ** The sums the energy and force/energy kernels accumulate *)
(* ------------------------------------------------------------------ *)

Section KernelSums.

Context {F : Type} {NF : Num F}.
Local Open Scope num_scope.

Variable exp : F -> F.
Variable force_energy_helper : F -> F -> F -> F -> F -> F -> F -> F -> F.
Variable three_body_en_helper :
  F -> F -> F -> F -> F -> F -> F -> F -> F -> F -> F -> F.

(** A list of terms added up from zero, in the order of the list. *)
Definition total (terms : list F) : F := fold_left fadd terms fzero.

(** The terms of a list whose condition holds. *)
Definition matched (l : list (bool * F)) : list F := map snd (filter fst l).

(** *** Pairs of bonds *)

(** The pairs [(m, n)] of a bond of the first and a bond of the second
    environment, in the order the loops visit them. *)
Definition bond_pairs (bond_array_1 bond_array_2 : list (brow F))
  : list (Z * Z) :=
  list_prod (range (rows bond_array_1)) (range (rows bond_array_2)).

(** The pair joins the same two species in both environments. *)
Definition agreeing (c1 : Z) (etypes1 : list Z) (c2 : Z) (etypes2 : list Z)
           (mn : Z * Z) : bool :=
  bonds_agree c1 (getZ etypes1 (fst mn)) c2 (getZ etypes2 (snd mn)).

(** What a pair of bonds adds to the 2-body energy/energy kernel. *)
Definition two_body_en_term (bond_array_1 bond_array_2 : list (brow F))
           (sig ls r_cut : F) (cutoff_func : cutoff_fn F) (mn : Z * Z) : F :=
  let ls1 := one / (two * ls * ls) in
  let sig2 := sig * sig in
  let ri := ba_get bond_array_1 (fst mn) 0 in
  let fi := fst (cutoff_func r_cut ri fzero) in
  let rj := ba_get bond_array_2 (snd mn) 0 in
  let fj := fst (cutoff_func r_cut rj fzero) in
  let r11 := ri - rj in
  fi * fj * sig2 * exp (- r11 * r11 * ls1).

(** What a pair of bonds adds to the 2-body force/energy kernel. *)
Definition two_body_force_en_term (bond_array_1 bond_array_2 : list (brow F))
           (d1 : Z) (sig ls r_cut : F) (cutoff_func : cutoff_fn F)
           (mn : Z * Z) : F :=
  let ls1 := one / (two * ls * ls) in
  let ls2 := one / (ls * ls) in
  let sig2 := sig * sig in
  let ri := ba_get bond_array_1 (fst mn) 0 in
  let ci := ba_get bond_array_1 (fst mn) d1 in
  let fi := fst (cutoff_func r_cut ri ci) in
  let fdi := snd (cutoff_func r_cut ri ci) in
  let rj := ba_get bond_array_2 (snd mn) 0 in
  let fj := fst (cutoff_func r_cut rj fzero) in
  let r11 := ri - rj in
  force_energy_helper (r11 * ci) (r11 * r11) fi fj fdi ls1 ls2 sig2.

(** The pair sum of a 2-body kernel. *)
Definition pair_sum (term : Z * Z -> F) (bond_array_1 : list (brow F))
           (c1 : Z) (etypes1 : list Z) (bond_array_2 : list (brow F))
           (c2 : Z) (etypes2 : list Z) : F :=
  total (map term (filter (agreeing c1 etypes1 c2 etypes2)
                          (bond_pairs bond_array_1 bond_array_2))).

(** *** Pairs of triplets *)

(** The triplets of an environment: bond [m] and the [n]-th entry of its
    row of the triplet table, in the order the loops visit them. *)
Definition triplets_of (bond_array : list (brow F)) (triplets : list Z)
  : list (Z * Z) :=
  flat_map (fun m => map (fun n => (m, n)) (range (getZ triplets m)))
           (range (rows bond_array)).

(** The second bond of triplet [(m, n)]. *)
Definition second_bond (cross_bond_inds : list (list Z)) (mn : Z * Z) : Z :=
  get2Z cross_bond_inds (fst mn) (fst mn + snd mn + 1).

(** The three distances of triplet [(m, n)]: the two bonds to the central
    atom and the distance between the two neighbours. *)
Definition triplet_dists (bond_array : list (brow F))
           (cross_bond_inds : list (list Z)) (cross_bond_dists : list (list F))
           (mn : Z * Z) : F * F * F :=
  (ba_get bond_array (fst mn) 0,
   ba_get bond_array (second_bond cross_bond_inds mn) 0,
   get2F cross_bond_dists (fst mn) (fst mn + snd mn + 1)).

(** The species of the two neighbours of triplet [(m, n)]. *)
Definition triplet_species (etypes : list Z) (cross_bond_inds : list (list Z))
           (mn : Z * Z) : Z * Z :=
  (getZ etypes (fst mn), getZ etypes (second_bond cross_bond_inds mn)).

(** The six ways the species [(c1, ei1, ei2)] of a triplet can match the
    species [(c2, ej1, ej2)] of another one, each with the term it adds:
    [term] receives the three differences of the distances it pairs up. *)
Definition matchings (term : F -> F -> F -> F) (c1 : Z) (ei : Z * Z)
           (c2 : Z) (ej : Z * Z) (ri rj : F * F * F) : list (bool * F) :=
  let '(ei1, ei2) := ei in
  let '(ej1, ej2) := ej in
  let '(ri1, ri2, ri3) := ri in
  let '(rj1, rj2, rj3) := rj in
  let r11 := ri1 - rj1 in
  let r12 := ri1 - rj2 in
  let r13 := ri1 - rj3 in
  let r21 := ri2 - rj1 in
  let r22 := ri2 - rj2 in
  let r23 := ri2 - rj3 in
  let r31 := ri3 - rj1 in
  let r32 := ri3 - rj2 in
  let r33 := ri3 - rj3 in
  [((c1 =? c2)%Z && ((ei1 =? ej1)%Z && (ei2 =? ej2)%Z), term r11 r22 r33);
   ((c1 =? c2)%Z && ((ei1 =? ej2)%Z && (ei2 =? ej1)%Z), term r12 r21 r33);
   ((c1 =? ej1)%Z && ((ei1 =? ej2)%Z && (ei2 =? c2)%Z), term r13 r21 r32);
   ((c1 =? ej1)%Z && ((ei1 =? c2)%Z && (ei2 =? ej2)%Z), term r11 r23 r32);
   ((c1 =? ej2)%Z && ((ei1 =? ej1)%Z && (ei2 =? c2)%Z), term r13 r22 r31);
   ((c1 =? ej2)%Z && ((ei1 =? c2)%Z && (ei2 =? ej1)%Z), term r12 r23 r31)].

(** The product of the cutoff envelopes of the three distances. *)
Definition envelope (r_cut : F) (cutoff_func : cutoff_fn F) (r : F * F * F)
  : F :=
  let '(r1, r2, r3) := r in
  fst (cutoff_func r_cut r1 fzero) * fst (cutoff_func r_cut r2 fzero)
  * fst (cutoff_func r_cut r3 fzero).

(** What a matching adds to the 3-body energy/energy kernel. *)
Definition three_body_en_term (sig ls fi fj : F) (ra rb rc : F) : F :=
  let sig2 := sig * sig in
  let ls2 := one / (two * ls * ls) in
  sig2 * exp (- (ra * ra + rb * rb + rc * rc) * ls2) * fi * fj.

(** The terms a pair of triplets adds to the 3-body energy/energy kernel. *)
Definition three_body_en_terms (bond_array_1 : list (brow F)) (c1 : Z)
           (etypes1 : list Z) (bond_array_2 : list (brow F)) (c2 : Z)
           (etypes2 : list Z)
           (cross_bond_inds_1 cross_bond_inds_2 : list (list Z))
           (cross_bond_dists_1 cross_bond_dists_2 : list (list F))
           (sig ls r_cut : F) (cutoff_func : cutoff_fn F) (mn pq : Z * Z)
  : list F :=
  let ri := triplet_dists bond_array_1 cross_bond_inds_1 cross_bond_dists_1
                          mn in
  let rj := triplet_dists bond_array_2 cross_bond_inds_2 cross_bond_dists_2
                          pq in
  matched
    (matchings (three_body_en_term sig ls (envelope r_cut cutoff_func ri)
                                   (envelope r_cut cutoff_func rj))
               c1 (triplet_species etypes1 cross_bond_inds_1 mn)
               c2 (triplet_species etypes2 cross_bond_inds_2 pq) ri rj).

(** The derivative of the envelope product of triplet [(m, n)] along
    component [d1], as the force/energy kernel forms it. *)
Definition envelope_dev (bond_array : list (brow F))
           (cross_bond_inds : list (list Z)) (cross_bond_dists : list (list F))
           (d1 : Z) (r_cut : F) (cutoff_func : cutoff_fn F) (mn : Z * Z)
  : F * F :=
  let '(ri1, ri2, ri3) :=
    triplet_dists bond_array cross_bond_inds cross_bond_dists mn in
  let ci1 := ba_get bond_array (fst mn) d1 in
  let ci2 := ba_get bond_array (second_bond cross_bond_inds mn) d1 in
  let '(fi1, fdi1) := cutoff_func r_cut ri1 ci1 in
  let '(fi2, fdi2) := cutoff_func r_cut ri2 ci2 in
  let fi3 := fst (cutoff_func r_cut ri3 fzero) in
  (fi1 * fi2 * fi3, fdi1 * fi2 * fi3 + fi1 * fdi2 * fi3).

(** The terms a pair of triplets adds to the 3-body force/energy kernel. *)
Definition three_body_force_en_terms (bond_array_1 : list (brow F)) (c1 : Z)
           (etypes1 : list Z) (bond_array_2 : list (brow F)) (c2 : Z)
           (etypes2 : list Z)
           (cross_bond_inds_1 cross_bond_inds_2 : list (list Z))
           (cross_bond_dists_1 cross_bond_dists_2 : list (list F))
           (d1 : Z) (sig ls r_cut : F) (cutoff_func : cutoff_fn F)
           (mn pq : Z * Z) : list F :=
  let ri := triplet_dists bond_array_1 cross_bond_inds_1 cross_bond_dists_1
                          mn in
  let rj := triplet_dists bond_array_2 cross_bond_inds_2 cross_bond_dists_2
                          pq in
  let ci1 := ba_get bond_array_1 (fst mn) d1 in
  let ci2 := ba_get bond_array_1 (second_bond cross_bond_inds_1 mn) d1 in
  let '(fi, fdi) :=
    envelope_dev bond_array_1 cross_bond_inds_1 cross_bond_dists_1 d1
                 r_cut cutoff_func mn in
  let fj := envelope r_cut cutoff_func rj in
  let ls1 := one / (two * ls * ls) in
  let ls2 := one / (ls * ls) in
  let sig2 := sig * sig in
  matched
    (matchings (fun ra rb rc =>
                  three_body_en_helper ci1 ci2 ra rb rc fi fj fdi ls1 ls2 sig2)
               c1 (triplet_species etypes1 cross_bond_inds_1 mn)
               c2 (triplet_species etypes2 cross_bond_inds_2 pq) ri rj).

(** The triplet sum of a 3-body kernel. *)
Definition triplet_sum (terms : Z * Z -> Z * Z -> list F)
           (bond_array_1 bond_array_2 : list (brow F))
           (triplets_1 triplets_2 : list Z) : F :=
  total (flat_map (fun mn =>
                     flat_map (terms mn) (triplets_of bond_array_2 triplets_2))
                  (triplets_of bond_array_1 triplets_1)).

(** The test the 3-body kernels make before they look at the matchings:
    [c2] is one of the species of the first triplet, [ej1] one of the two
    that are left, and [ej2] the last one. *)
Definition prefilter (c1 : Z) (ei : Z * Z) (c2 : Z) (ej : Z * Z) : bool :=
  let tr_spec := [c1; fst ei; snd ei] in
  mem c2 tr_spec
  && (let tr_spec := remove_first c2 tr_spec in
      let tr_spec1 := [getZ tr_spec 0; getZ tr_spec 1] in
      mem (fst ej) tr_spec1
      && (snd ej =? getZ (remove_first (fst ej) tr_spec1) 0)%Z).

(** *** The sums of two environments *)

Definition en_pair_sum (env1 env2 : AtomicEnvironment) (sig ls r_cut : F)
           (cutoff_func : cutoff_fn F) : F :=
  pair_sum (two_body_en_term (bond_array_2 env1) (bond_array_2 env2)
                             sig ls r_cut cutoff_func)
           (bond_array_2 env1) (ctype env1) (etypes env1)
           (bond_array_2 env2) (ctype env2) (etypes env2).

Definition force_en_pair_sum (env1 env2 : AtomicEnvironment) (d1 : Z)
           (sig ls r_cut : F) (cutoff_func : cutoff_fn F) : F :=
  pair_sum (two_body_force_en_term (bond_array_2 env1) (bond_array_2 env2)
                                   d1 sig ls r_cut cutoff_func)
           (bond_array_2 env1) (ctype env1) (etypes env1)
           (bond_array_2 env2) (ctype env2) (etypes env2).

Definition en_triplet_sum (env1 env2 : AtomicEnvironment) (sig ls r_cut : F)
           (cutoff_func : cutoff_fn F) : F :=
  triplet_sum (three_body_en_terms
                 (bond_array_3 env1) (ctype env1) (etypes env1)
                 (bond_array_3 env2) (ctype env2) (etypes env2)
                 (cross_bond_inds env1) (cross_bond_inds env2)
                 (cross_bond_dists env1) (cross_bond_dists env2)
                 sig ls r_cut cutoff_func)
              (bond_array_3 env1) (bond_array_3 env2)
              (triplet_counts env1) (triplet_counts env2).

Definition force_en_triplet_sum (env1 env2 : AtomicEnvironment) (d1 : Z)
           (sig ls r_cut : F) (cutoff_func : cutoff_fn F) : F :=
  triplet_sum (three_body_force_en_terms
                 (bond_array_3 env1) (ctype env1) (etypes env1)
                 (bond_array_3 env2) (ctype env2) (etypes env2)
                 (cross_bond_inds env1) (cross_bond_inds env2)
                 (cross_bond_dists env1) (cross_bond_dists env2)
                 d1 sig ls r_cut cutoff_func)
              (bond_array_3 env1) (bond_array_3 env2)
              (triplet_counts env1) (triplet_counts env2).

End KernelSums.

(* ------------------------------------------------------------------ *)
(** ** The helpers of the gradient kernels *)
(* ------------------------------------------------------------------ *)

Section GradientHelpers.

Context {F : Type} {NF : Num F}.
Local Open Scope num_scope.

(** Modelled from the spec: [grad_helper], [three_body_grad_helper_1],
    [three_body_grad_helper_2] and [grad_constants] belong to
    [flare/kernels/kernels.py], which is not under src.  "The kernel is
    multiplicatively quadratic in σ": of the three numbers a helper returns
    for one pair of bonds or one matching, the kernel term, its derivative
    with respect to σ and its derivative with respect to the length scale,
    the second is [2/σ] times the first, that is [σ * sig_term] equals
    [2 * kern_term]. *)
Definition sigma_quadratic (sig : F) (terms : F * F * F) : Prop :=
  let '(kern_term, sig_term, _) := terms in
  sig * sig_term = two * kern_term.

(** Modelled from the spec: a [grad_helper] whose kernel term is [sig2]
    times the product [A] of the two force components and whose derivative
    with respect to σ is [sig3] times the same factor. *)
Definition grad_helper_quadratic
           (A B C D fi fj fdi fdj ls1 ls2 ls3 ls4 ls5 ls6 sig2 sig3 : F)
  : F * F * F :=
  (sig2 * A, sig3 * A, fzero).

(** Modelled from the spec: [grad_constants] returning [sig2 = σ * σ] and
    [sig3 = 2 * σ], followed by six numbers made from the length scale. *)
Definition grad_constants_quadratic (sig ls : F)
  : F * F * F * F * F * F * F * F :=
  (sig * sig, two * sig, ls, ls, ls, ls, ls, ls).

(** Modelled from the spec: a 3-body gradient helper whose kernel term is
    [sig2] times the product of the first two force components and whose
    derivative with respect to σ is [sig3] times the same factor. *)
Definition three_body_grad_helper_quadratic
           (a b c d ra rb rc fi fj fdi fdj ls1 ls2 ls3 ls4 ls5 ls6
              sig2 sig3 : F) : F * F * F :=
  (sig2 * (a * c), sig3 * (a * c), fzero).

(** Modelled from the spec: a [grad_helper] of [flare/kernels/kernels.py]
    all of whose terms are quadratic in σ, when it is called as
    [two_body_mc_grad_jit] calls it, with [sig2 = σ * σ] and
    [sig3 = 2 * σ]. *)
Definition helper_quadratic (sig : F)
           (grad_helper :
              F -> F -> F -> F -> F -> F -> F -> F ->
              F -> F -> F -> F -> F -> F -> F -> F -> F * F * F) : Prop :=
  forall A B C D fi fj fdi fdj ls1 ls2 ls3 ls4 ls5 ls6,
    sigma_quadratic sig (grad_helper A B C D fi fj fdi fdj
                                     ls1 ls2 ls3 ls4 ls5 ls6
                                     (sig * sig) (two * sig)).

(** Modelled from the spec: the two 3-body gradient helpers of
    [flare/kernels/kernels.py] with all terms quadratic in σ, when they are
    called with the constants [grad_constants] makes from σ and the length
    scale. *)
Definition helpers_quadratic_3 (sig ls : F)
           (grad_constants : F -> F -> F * F * F * F * F * F * F * F)
           (three_body_grad_helper_1 three_body_grad_helper_2 :
              F -> F -> F -> F -> F -> F -> F -> F -> F -> F -> F ->
              F -> F -> F -> F -> F -> F -> F -> F -> F * F * F) : Prop :=
  forall a b c d ra rb rc fi fj fdi fdj,
    let '(sig2, sig3, ls1, ls2, ls3, ls4, ls5, ls6) :=
      grad_constants sig ls in
    sigma_quadratic sig (three_body_grad_helper_1
                           a b c d ra rb rc fi fj fdi fdj
                           ls1 ls2 ls3 ls4 ls5 ls6 sig2 sig3)
    /\ sigma_quadratic sig (three_body_grad_helper_2
                              a b c d ra rb rc fi fj fdi fdj
                              ls1 ls2 ls3 ls4 ls5 ls6 sig2 sig3).

End GradientHelpers.

(** A [set(a).intersection(set(b))] that lists the common species in the
    order of their first occurrence in [a].  Python leaves the order open;
    this is one it may produce. *)
Definition inter_first (a b : list Z) : list Z :=
  nodup Z.eq_dec (filter (fun x => mem x b) a).

(* ------------------------------------------------------------------ *)
(** ** What the symmetry of the kernels rests on *)
(* ------------------------------------------------------------------ *)

Section Symmetry.

Context {F : Type} {NF : Num F}.
Local Open Scope num_scope.

(** What [set(a).intersection(set(b))] promises: the common elements, each
    once.  Their order is the implementation's choice. *)
Definition set_inter_ok (set_inter : list Z -> list Z -> list Z) : Prop :=
  forall a b : list Z,
    NoDup (set_inter a b)
    /\ forall x : Z, In x (set_inter a b) <-> In x a /\ In x b.

(** [M[i, j] == M[j, i]] *)
Definition symmetric_array (M : list (list F)) : Prop :=
  forall i j : nat, nth j (nth i M []) fzero = nth i (nth j M []) fzero.

(** An [n] by [n] array. *)
Definition square_array (n : nat) (M : list (list F)) : Prop :=
  length M = n /\ Forall (fun row => length row = n) M.

(** The terms of [for ind, si in enumerate(l): for sj in l[ind:]: ...]. *)
Fixpoint upper {B : Type} (T : B -> B -> F) (l : list B) : list F :=
  match l with
  | [] => []
  | b :: l' => map (T b) (b :: l') ++ upper T l'
  end.

(** The positions of a species in the species lists of two environments. *)
Definition columns_of (species1 species2 : list Z) (s : Z)
  : option (nat * nat) :=
  s1 <- where_first species1 s ;;
  s2 <- where_first species2 s ;;
  Some (s1, s2).

(** What a common species adds to the many-body energy kernel of the
    one-species descriptor: [b] holds its positions in the two species
    lists. *)
Definition many_2body_en_term (exp : F -> F) (q_array_1 q_array_2 : list F)
           (sig ls : F) (b : nat * nat) : F :=
  let q1 := getF q_array_1 (Z.of_nat (fst b)) in
  let q2 := getF q_array_2 (Z.of_nat (snd b)) in
  let q1q2diff := q1 - q2 in
  sig * sig * exp (- q1q2diff * q1q2diff / (two * ls * ls)).

(** What a pair of common species adds to the many-body energy kernel of
    the two-species descriptor. *)
Definition many_3body_en_term (exp : F -> F)
           (m3b_array_1 m3b_array_2 : list (list F)) (sig ls : F)
           (si sj : nat * nat) : F :=
  let q1 := get2F m3b_array_1 (Z.of_nat (fst si)) (Z.of_nat (fst sj)) in
  let q2 := get2F m3b_array_2 (Z.of_nat (snd si)) (Z.of_nat (snd sj)) in
  let q1q2diff := q1 - q2 in
  sig * sig * exp (- q1q2diff * q1q2diff / (two * ls * ls)).

End Symmetry.

(* ------------------------------------------------------------------ *)
(** ** Structures *)
(* ------------------------------------------------------------------ *)

(** A cubic cell of lattice constant [a]. *)
Definition cubic {F : Type} {NF : Num F} (a : F) : cell3 F :=
  ((a, fzero, fzero), (fzero, a, fzero), (fzero, fzero, a)).

(** [self.sweep_array = np.arange(-sweep, sweep+1, 1)] *)
Definition sweep_array (sweep : Z) : list Z :=
  map (fun i => (- sweep + i)%Z) (range (sweep + 1 - - sweep)).

(* ------------------------------------------------------------------ *)
(** ** Concrete structures, evaluated in binary64 *)
(* ------------------------------------------------------------------ *)

Local Open Scope float_scope.

(** [np.arange(-1, 2, 1)], the sweep of [sweep=1]. *)
Definition sweep1 : list Z := [(-1)%Z; 0%Z; 1%Z].

(** Four atoms on a line, the first one central. *)
Definition line4 : list (vec3 float) :=
  [(0, 0, 0); (0.5, 0, 0); (0.75, 0, 0); (1, 0, 0)].

Definition line4_bonds (species : list Z)
  : option (list (brow float) * list (vec3 float) * list Z * list Z) :=
  get_2_body_arrays argsort_stable line4 0 (cubic 1e7) 2 species sweep1.

(** The central atom and 130 neighbours on a line, [1/128] apart. *)
Definition line131 : list (vec3 float) :=
  map (fun i => (float_of_Z (Z.of_nat i) / 128, 0, 0)) (seq 0 131).

Definition line131_bonds
  : option (list (brow float) * list (vec3 float) * list Z * list Z) :=
  get_2_body_arrays argsort_stable line131 0 (cubic 1e7) 3
                    (repeat 1%Z 131) sweep1.

(** Two species groups: species 1 in group 0, species 2 in group 1; the
    bonds between a group-0 atom and a group-1 atom use the second cutoff. *)
Definition two_groups_mask : list Z := [0%Z; 0%Z; 1%Z].
Definition two_groups_cut3b_mask : list Z := [0%Z; 1%Z; 1%Z; 1%Z].
Definition two_groups_cutoff_3 : list float := [2; 0.125].

Local Close Scope float_scope.

Local Open Scope float_scope.

(** The bond arrays of [line4] around its first atom, and the triplet
    tables the two builders return for them. *)
Definition line4_ba2 : list (brow float) :=
  [(0.5, 1, 0, 0); (0.75, 1, 0, 0); (1, 1, 0, 0)].

Definition line4_bp2 : list (vec3 float) :=
  [(0.5, 0, 0); (0.75, 0, 0); (1, 0, 0)].

Definition line4_inds : list (list Z) :=
  [[-1; 1; 2]; [-1; -1; 2]; [-1; -1; -1]]%Z.

Definition line4_dists : list (list float) :=
  [[0; 0.25; 0.5]; [0; 0; 0.25]; [0; 0; 0]].

Definition line4_inds_sepcut : list (list Z) :=
  [[-1; 2; -1]; [-1; -1; -1]; [-1; -1; -1]]%Z.

Definition line4_dists_sepcut : list (list float) :=
  [[0; 0.5; 0]; [0; 0; 0]; [0; 0; 0]].

Local Close Scope float_scope.

Local Open Scope float_scope.

(** A central atom between two neighbours at the same distance. *)
Definition between3 : list (vec3 float) :=
  [(0, 0, 0); (1, 0, 0); (-1, 0, 0)].

Local Close Scope float_scope.

Local Open Scope float_scope.

(** One atom in a cubic cell of side 1, searched over the 125 images of
    [sweep=2]. *)
Definition sweep2 : list Z := [(-2)%Z; (-1)%Z; 0%Z; 1%Z; 2%Z].

Definition lone_atom : list (vec3 float) := [(0, 0, 0)].

Local Close Scope float_scope.

Local Open Scope float_scope.

(** Two atoms 1.5 apart. *)
Definition two_atoms : list (vec3 float) := [(0, 0, 0); (1.5, 0, 0)].

Local Close Scope float_scope.

(** A single-group species mask: 118 entries, all zero. *)
Definition single_group_mask : list Z := repeat 0%Z 118.

(* ------------------------------------------------------------------ *)
(** ** Two environments in exact arithmetic *)
(* ------------------------------------------------------------------ *)

(** An atom of species 1 with two neighbours that form one triplet. *)
Definition env_one_triplet : @AtomicEnvironment R :=
  {| ctype := 1;
     bond_array_2 := [(1, 1, 0, 0); (2, 0, 1, 0)]%R;
     etypes := [1; 2]%Z;
     bond_array_3 := [(1, 1, 0, 0); (2, 0, 1, 0)]%R;
     cross_bond_inds := [[-1; 1]; [-1; -1]]%Z;
     cross_bond_dists := [[0; 2]; [0; 0]]%R;
     triplet_counts := [1; 0]%Z;
     m2b_array := [1; 1]%R;
     m2b_neigh_array := [[1; 1]; [1; 0]]%R;
     m2b_grads := [[1; 0; 0]; [0; 1; 0]]%R;
     m2b_neigh_grads := [[1; 0; 0]; [0; 1; 0]]%R;
     m2b_unique_species := [1; 2]%Z;
     etypes_m2b := [1; 2]%Z;
     m3b_array := [[0; 1]; [1; 0]]%R;
     m3b_neigh_array := [[[0; 1]; [1; 0]]; [[0; 1]; [1; 0]]]%R;
     m3b_grads := [[[1; 0; 0]; [0; 1; 0]]; [[0; 1; 0]; [1; 0; 0]]]%R;
     m3b_neigh_grads := [[[1; 0; 0]; [0; 1; 0]]; [[0; 1; 0]; [1; 0; 0]]]%R;
     m3b_unique_species := [1; 2]%Z;
     etypes_m3b := [1; 2]%Z |}.

(** An atom of species 1 with one neighbour. *)
Definition env_one_bond : @AtomicEnvironment R :=
  {| ctype := 1;
     bond_array_2 := [(3, 0, 0, 1)]%R;
     etypes := [2]%Z;
     bond_array_3 := [(3, 0, 0, 1)]%R;
     cross_bond_inds := [[-1]]%Z;
     cross_bond_dists := [[0]]%R;
     triplet_counts := [0]%Z;
     m2b_array := [0; 1]%R;
     m2b_neigh_array := [[1; 0]]%R;
     m2b_grads := [[0; 0; 0]; [0; 0; 1]]%R;
     m2b_neigh_grads := [[0; 0; 1]]%R;
     m2b_unique_species := [1; 2]%Z;
     etypes_m2b := [2]%Z;
     m3b_array := [[0; 0]; [0; 0]]%R;
     m3b_neigh_array := [[[0; 0]; [0; 0]]]%R;
     m3b_grads := [[[0; 0; 0]; [0; 0; 0]]; [[0; 0; 0]; [0; 0; 0]]]%R;
     m3b_neigh_grads := [[[0; 0; 0]; [0; 0; 0]]]%R;
     m3b_unique_species := [2; 1]%Z;
     etypes_m3b := [2]%Z |}.

(* ------------------------------------------------------------------ *)
(** ** Two environments in binary64 *)
(* ------------------------------------------------------------------ *)

(** Decimal constants stand for the nearest binary64 number. *)
Set Warnings "-inexact-float".

Local Open Scope float_scope.

(** [math.exp] where the examples read it: [exp(0.0)] and [exp(-0.0)] are
    1.  Any other argument gives NaN, which would show in the result. *)
Definition exp_at_zero (x : float) : float :=
  if PrimFloat.eqb x 0 then 1 else nan.

(** A cutoff function that falls to zero at [r_cut] quadratically, with
    its derivative along the force component [ci]. *)
Definition quadratic_envelope (r_cut ri ci : float) : float * float :=
  let rdiff := r_cut - ri in
  (rdiff * rdiff, 2 * rdiff * ci).

(** An atom of species 1 with neighbours of species 1 at distances 0.5
    and 0.75 along the first two axes; the two close a triplet. *)
Definition env_near : @AtomicEnvironment float :=
  {| ctype := 1;
     bond_array_2 := [(0.5, 1, 0, 0); (0.75, 0, 1, 0)];
     etypes := [1; 1]%Z;
     bond_array_3 := [(0.5, 1, 0, 0); (0.75, 0, 1, 0)];
     cross_bond_inds := [[-1; 1]; [-1; -1]]%Z;
     cross_bond_dists := [[0; 0.9013878188659973]; [0; 0]];
     triplet_counts := [1; 0]%Z;
     m2b_array := [2];
     m2b_neigh_array := [[1]; [1]];
     m2b_grads := [[1; 1; 0]];
     m2b_neigh_grads := [[1; 0; 0]; [0; 1; 0]];
     m2b_unique_species := [1]%Z;
     etypes_m2b := [1; 1]%Z;
     m3b_array := [[1]];
     m3b_neigh_array := [[[0]]; [[0]]];
     m3b_grads := [[[1; 1; 0]]];
     m3b_neigh_grads := [[[1; 0; 0]]; [[0; 1; 0]]];
     m3b_unique_species := [1]%Z;
     etypes_m3b := [1; 1]%Z |}.

(** The same with the neighbours at distances 1.1 and 1.3. *)
Definition env_far : @AtomicEnvironment float :=
  {| ctype := 1;
     bond_array_2 := [(1.1, 1, 0, 0); (1.3, 0, 1, 0)];
     etypes := [1; 1]%Z;
     bond_array_3 := [(1.1, 1, 0, 0); (1.3, 0, 1, 0)];
     cross_bond_inds := [[-1; 1]; [-1; -1]]%Z;
     cross_bond_dists := [[0; 1.70293863659264]; [0; 0]];
     triplet_counts := [1; 0]%Z;
     m2b_array := [2];
     m2b_neigh_array := [[1]; [1]];
     m2b_grads := [[1; 1; 0]];
     m2b_neigh_grads := [[1; 0; 0]; [0; 1; 0]];
     m2b_unique_species := [1]%Z;
     etypes_m2b := [1; 1]%Z;
     m3b_array := [[1]];
     m3b_neigh_array := [[[0]]; [[0]]];
     m3b_grads := [[[1; 1; 0]]];
     m3b_neigh_grads := [[[1; 0; 0]]; [[0; 1; 0]]];
     m3b_unique_species := [1]%Z;
     etypes_m3b := [1; 1]%Z |}.

Local Close Scope float_scope.

(** Row [k] of the four arrays a neighbour search returns. *)
Definition row_at {F : Type} {NF : Num F}
           (out : list (brow F) * list (vec3 F) * list Z * list Z) (k : nat)
  : brow F * vec3 F * Z * Z :=
  let '(bond_array_2, bond_positions_2, etypes, bond_indices) := out in
  (nth k bond_array_2 brow0, nth k bond_positions_2 vzero,
   nth k etypes 0%Z, nth k bond_indices 0%Z).

(** The order of two keyed entries by their keys. *)
Definition key_le (a b : R * nat) : Prop := (fst a <= fst b)%R.
(* ------------------------------------------------------------------ *)
(** ** [flare/env.py]: the many-body descriptor arrays *)
(* ------------------------------------------------------------------ *)

Section Descriptors.

Context {F : Type} {NF : Num F}.
Local Open Scope num_scope.

(** [a[i, j, :] += v] inside an array that has row [i] and column [j]. *)
Definition add_at2v (a : list (list (vec3 F))) (i j : nat) (v : vec3 F)
  : list (list (vec3 F)) :=
  set_nth a i (set_nth (nth i a []) j (vadd (nth j (nth i a []) vzero) v)).

(** [q2_grads_mc(neigh_grads, species_list, etypes)]: [neigh_grads] has
    shape [(n_neigh, 3)] and the result [(n_specs, 3)].  [si] is a
    position in [species_list], so the update falls inside [grads]. *)
Definition q2_grads_mc (neigh_grads : list (vec3 F))
           (species_list etypes : list Z) : option (list (vec3 F)) :=
  let n_specs := length species_list in
  foldM (fun grads i =>
           si <- where_first species_list (getZ etypes i) ;;
           Some (set_nth grads si
                         (vadd (nth si grads vzero)
                               (py_read vzero neigh_grads i))))
        (range (rows neigh_grads)) (repeat vzero n_specs).

(** [q3_grads_mc(neigh_grads, species_list, etypes)]: [neigh_grads] has
    shape [(n_neigh, n_specs, 3)] and the result [(n_specs, n_specs, 3)]. *)
Definition q3_grads_mc (neigh_grads : list (list (vec3 F)))
           (species_list etypes : list Z) : option (list (list (vec3 F))) :=
  let n_specs := length species_list in
  foldM (fun grads i =>
    si <- where_first species_list (getZ etypes i) ;;
    foldM (fun grads spec_j =>
      sj <- where_first species_list spec_j ;;
      let g := nth sj (py_read [] neigh_grads i) vzero in
      Some (if (si =? sj)%nat
            then add_at2v grads si sj (vdiv g (fof_int 2))
            else add_at2v grads si sj g))
      species_list grads)
    (range (rows neigh_grads)) (repeat (repeat vzero n_specs) n_specs).

(** [qi_grads[d] = q_func(ri, bond_array_m3b[i, d + 1], r_cut,
    cutoff_func)[1]] for [d] in [0, 1, 2]. *)
Definition q_grads_of (bond_array_m3b : list (brow F)) (i : Z) (r_cut : F)
           (cutoff_func : cutoff_fn F) (q_func : q_fn F) : vec3 F :=
  let ri := ba_get bond_array_m3b i 0 in
  (snd (q_func ri (ba_get bond_array_m3b i 1) r_cut cutoff_func),
   snd (q_func ri (ba_get bond_array_m3b i 2) r_cut cutoff_func),
   snd (q_func ri (ba_get bond_array_m3b i 3) r_cut cutoff_func)).

(** [q3_neigh_grads_mc(bond_array_m3b, cross_bond_inds, cross_bond_dists,
    triplets, r_cut, species_list, etypes, cutoff_func, q_func)].  The
    second update writes row [j], an entry of [cross_bond_inds]: a write
    outside [m3b_grads] is an error. *)
Definition q3_neigh_grads_mc (bond_array_m3b : list (brow F))
           (cross_bond_inds : list (list Z))
           (cross_bond_dists : list (list F)) (triplets : list Z)
           (r_cut : F) (species_list etypes : list Z)
           (cutoff_func : cutoff_fn F) (q_func : q_fn F)
  : option (list (list (vec3 F))) :=
  let n_bonds := length bond_array_m3b in
  let n_specs := length species_list in
  foldM (fun m3b_grads i =>
    let ri := ba_get bond_array_m3b i 0 in
    si <- where_first species_list (getZ etypes i) ;;
    let qi := fst (q_func ri fzero r_cut cutoff_func) in
    let '(qi0, qi1, qi2) :=
      q_grads_of bond_array_m3b i r_cut cutoff_func q_func in
    foldM (fun m3b_grads ind =>
      let j := get2Z cross_bond_inds i (i + ind + 1) in
      let rj := ba_get bond_array_m3b j 0 in
      sj <- where_first species_list (getZ etypes j) ;;
      let qj := fst (q_func rj fzero r_cut cutoff_func) in
      let '(qj0, qj1, qj2) :=
        q_grads_of bond_array_m3b j r_cut cutoff_func q_func in
      let rij := get2F cross_bond_dists i (i + ind + 1) in
      let qij := fst (q_func rij fzero r_cut cutoff_func) in
      let q_grad := ((qi0 * qj + qi * qj0) * qij,
                     (qi1 * qj + qi * qj1) * qij,
                     (qi2 * qj + qi * qj2) * qij) in
      let m3b_grads := add_at2v m3b_grads (Z.to_nat i) sj q_grad in
      row_j <- py_index n_bonds j ;;
      Some (add_at2v m3b_grads row_j si q_grad))
      (range (getZ triplets i)) m3b_grads)
    (range (rows bond_array_m3b)) (repeat (repeat vzero n_specs) n_bonds).

(** [np.array(list(set(species)), dtype=np.int8)]: the order in which a
    set is iterated is left to the implementation, [list_set]. *)
Definition species_list_of (list_set : list Z -> list Z) (species : list Z)
  : list Z :=
  map wrap8 (list_set species).

(** [get_m3_body_arrays(positions, atom, cell, cutoff, species, sweep,
    cutoff_func)], with [q_func = coordination_number], a function of
    [flare/kernels/kernels.py].  [positions[bond_inds[i]]] reads with an
    [int8] index, which may be negative. *)
Definition get_m3_body_arrays (argsort : list F -> list nat)
           (list_set : list Z -> list Z) (coordination_number : q_fn F)
           (positions : list (vec3 F)) (atom : nat) (cell : cell3 F)
           (cutoff : F) (species : list Z) (sweep : list Z)
           (cutoff_func : cutoff_fn F)
  : option (list (list F) * list (list (list F)) * list (list (vec3 F))
            * list (list (vec3 F)) * list Z * list Z) :=
  let species_list := species_list_of list_set species in
  let q_func := coordination_number in
  ' (bond_array, bond_positions, etypes, bond_inds) <-
    get_2_body_arrays argsort positions atom cell cutoff species sweep ;;
  ' (bond_array_m3b, cross_bond_inds, cross_bond_dists, triplets) <-
    get_3_body_arrays bond_array bond_positions cutoff ;;
  m3b_array <-
    q3_value_mc (map dist_of bond_array_m3b) cross_bond_inds
                cross_bond_dists triplets cutoff species_list etypes
                cutoff_func q_func ;;
  m3b_neigh_array <-
    mapM (fun i =>
            neigh <- py_index (length positions) (getZ bond_inds i) ;;
            ' (neigh_bond_array, neigh_positions, neigh_etypes, _) <-
              get_2_body_arrays argsort positions neigh cell cutoff species
                                sweep ;;
            ' (neigh_array_m3b, neigh_cross_inds, neigh_cross_dists,
               neigh_triplets) <-
              get_3_body_arrays neigh_bond_array neigh_positions cutoff ;;
            q3_value_mc (map dist_of neigh_array_m3b) neigh_cross_inds
                        neigh_cross_dists neigh_triplets cutoff species_list
                        neigh_etypes cutoff_func q_func)
         (range (rows bond_array_m3b)) ;;
  m3b_neigh_grads <-
    q3_neigh_grads_mc bond_array_m3b cross_bond_inds cross_bond_dists
                      triplets cutoff species_list etypes cutoff_func
                      q_func ;;
  m3b_grads <- q3_grads_mc m3b_neigh_grads species_list etypes ;;
  Some (m3b_array, m3b_neigh_array, m3b_grads, m3b_neigh_grads,
        species_list, etypes).

(** [get_m2_body_arrays(positions, atom, cell, cutoff, species, sweep,
    cutoff_func)], with [q_func = coordination_number]; it and
    [q_value_mc] are functions of [flare/kernels/kernels.py].  The last
    argument of [q_value_mc] is optional: [None] is a call that leaves it
    out. *)
Definition get_m2_body_arrays (argsort : list F -> list nat)
           (list_set : list Z -> list Z) (coordination_number : q_fn F)
           (q_value_mc : list F -> F -> Z -> list Z -> cutoff_fn F
                         -> option (q_fn F) -> F)
           (positions : list (vec3 F)) (atom : nat) (cell : cell3 F)
           (cutoff : F) (species : list Z) (sweep : list Z)
           (cutoff_func : cutoff_fn F)
  : option (list F * list (list F) * list (vec3 F) * list (vec3 F)
            * list Z * list Z) :=
  ' (bond_array_mb, _, etypes, bond_inds) <-
    get_2_body_arrays argsort positions atom cell cutoff species sweep ;;
  let species_list := species_list_of list_set species in
  let q_func := coordination_number in
  let qs :=
    map (fun s => q_value_mc (map dist_of bond_array_mb) cutoff s etypes
                             cutoff_func (Some q_func))
        species_list in
  neigh_rows <-
    mapM (fun i =>
            neigh <- py_index (length positions) (getZ bond_inds i) ;;
            ' (neigh_bond_array, _, neigh_etypes, _) <-
              get_2_body_arrays argsort positions neigh cell cutoff species
                                sweep ;;
            Some (map (fun s => q_value_mc (map dist_of neigh_bond_array)
                                           cutoff s neigh_etypes cutoff_func
                                           (Some q_func))
                      species_list,
                  q_grads_of bond_array_mb i cutoff cutoff_func q_func))
         (range (rows bond_inds)) ;;
  let qs_neigh := map fst neigh_rows in
  let q_neigh_grads := map snd neigh_rows in
  q_grads <- q2_grads_mc q_neigh_grads species_list etypes ;;
  Some (qs, qs_neigh, q_grads, q_neigh_grads, species_list, etypes).

(** [fold_left] of [+] over rows of three components, from zero. *)
Definition vsum (l : list (vec3 F)) : vec3 F := fold_left vadd l vzero.

(** Neighbour [i] has the species at position [s] of [species_list]. *)
Definition species_row (species_list etypes : list Z) (s : nat) (i : Z)
  : bool :=
  match where_first species_list (getZ etypes i) with
  | Some k => (k =? s)%nat
  | None => false
  end.

(** The term entry [(si, t)] of [q3_grads_mc] receives from neighbour
    [i]. *)
Definition q3_share (neigh_grads : list (list (vec3 F))) (i : Z)
           (si t : nat) : vec3 F :=
  let g := nth t (py_read [] neigh_grads i) vzero in
  if (si =? t)%nat then vdiv g (fof_int 2) else g.

(** Every count of the triplet table points at cells that hold the
    index of a row of the table. *)
Definition table_ok (ind_3 : nat) (cross_bond_inds : list (list Z))
           (triplets : list Z) : Prop :=
  forall m n : Z,
    (0 <= m < Z.of_nat ind_3)%Z -> (0 <= n < getZ triplets m)%Z ->
    exists n' : nat,
      (n' < ind_3)%nat
      /\ get2Z cross_bond_inds m (m + n + 1) = Z.of_nat n'.

End Descriptors.

(** An array of [n] rows of [k] entries each. *)
Definition shape2 {A : Type} (n k : nat) (a : list (list A)) : Prop :=
  length a = n /\ Forall (fun row => length row = k) a.
(* ------------------------------------------------------------------ *)
(** ** [flare/kernels/mc_simple.py]: the many-body force/force kernels *)
(* ------------------------------------------------------------------ *)

Section ForceKernels.

Context {F : Type} {NF : Num F}.
Local Open Scope num_scope.

Variable set_inter : list Z -> list Z -> list Z.
Variable k_sq_exp_double_dev : F -> F -> F -> F -> F.

(** [many_2body_mc_jit(array_1, array_2, grads_1, grads_2, neigh_array_1,
    neigh_array_2, neigh_grads_1, neigh_grads_2, c1, c2, etypes1, etypes2,
    species1, species2, d1, d2, sig, ls)] *)
Definition many_2body_mc_jit (array_1 array_2 : list F)
           (grads_1 grads_2 : list (list F))
           (neigh_array_1 neigh_array_2 : list (list F))
           (neigh_grads_1 neigh_grads_2 : list (list F))
           (c1 c2 : Z) (etypes1 etypes2 : list Z)
           (species1 species2 : list Z) (d1 d2 : Z) (sig ls : F)
  : option F :=
  ' (specs_ind, sc1, sc2, sc12, sc21) <-
    species_columns set_inter species1 species2 c1 c2 ;;
  let kern := fzero in
  (* env1's center and env2's center *)
  let kern :=
    if (c1 =? c2)%Z then
      fold_left (fun kern (ss : Z * Z) =>
        let '(s1, s2) := ss in
        let q1 := getF array_1 s1 in
        let q2 := getF array_2 s2 in
        let k12 := k_sq_exp_double_dev q1 q2 sig ls in
        let q1s_grad := get2F grads_1 s1 (d1 - 1) in
        let q2s_grad := get2F grads_2 s2 (d2 - 1) in
        kern + k12 * q1s_grad * q2s_grad)
        specs_ind kern
    else kern in
  (* env1's neighbors and env2's center *)
  let kern :=
    fold_left (fun kern n =>
      if (getZ etypes1 n =? c2)%Z then
        let qn1 := get2F neigh_array_1 n sc1 in
        let q21 := getF array_2 sc21 in
        let kn2 := k_sq_exp_double_dev qn1 q21 sig ls in
        let qn1_grad := get2F neigh_grads_1 n (d1 - 1) in
        let q21_grad := get2F grads_2 sc21 (d2 - 1) in
        kern + kn2 * qn1_grad * q21_grad
      else kern)
      (range (rows neigh_array_1)) kern in
  (* env2's neighbors and env1's center *)
  let kern :=
    fold_left (fun kern m =>
      if (getZ etypes2 m =? c1)%Z then
        let qm2 := get2F neigh_array_2 m sc2 in
        let q12 := getF array_1 sc12 in
        let km1 := k_sq_exp_double_dev qm2 q12 sig ls in
        let qm2_grad := get2F neigh_grads_2 m (d2 - 1) in
        let q12_grad := get2F grads_1 sc12 (d1 - 1) in
        kern + km1 * qm2_grad * q12_grad
      else kern)
      (range (rows neigh_array_2)) kern in
  (* env1's neighbors and env2's neighbors *)
  let kern :=
    if (c1 =? c2)%Z then
      fold_left (fun kern n =>
        fold_left (fun kern m =>
          if (getZ etypes1 n =? getZ etypes2 m)%Z then
            let qn1 := get2F neigh_array_1 n sc1 in
            let qm2 := get2F neigh_array_2 m sc2 in
            let kmn := k_sq_exp_double_dev qn1 qm2 sig ls in
            let qn1_grad := get2F neigh_grads_1 n (d1 - 1) in
            let qm2_grad := get2F neigh_grads_2 m (d2 - 1) in
            kern + kmn * qn1_grad * qm2_grad
          else kern)
          (range (rows neigh_array_2)) kern)
        (range (rows neigh_array_1)) kern
    else kern in
  Some kern.

(** [many_3body_mc_jit(array_1, array_2, grads_1, grads_2, neigh_array_1,
    neigh_array_2, neigh_grads_1, neigh_grads_2, c1, c2, etypes1, etypes2,
    species1, species2, d1, d2, sig, ls)] *)
Definition many_3body_mc_jit (array_1 array_2 : list (list F))
           (grads_1 grads_2 : list (list (list F)))
           (neigh_array_1 neigh_array_2 : list (list (list F)))
           (neigh_grads_1 neigh_grads_2 : list (list (list F)))
           (c1 c2 : Z) (etypes1 etypes2 : list Z)
           (species1 species2 : list Z) (d1 d2 : Z) (sig ls : F)
  : option F :=
  ' (specs_ind, sc1, sc2, sc12, sc21) <-
    species_columns set_inter species1 species2 c1 c2 ;;
  let kern := fzero in
  (* env1's center and env2's center *)
  let kern :=
    if (c1 =? c2)%Z then
      fold_upper (fun kern (si sj : Z * Z) =>
        let '(si1, si2) := si in
        let '(sj1, sj2) := sj in
        let q1 := get2F array_1 si1 sj1 in
        let q2 := get2F array_2 si2 sj2 in
        let k12 := k_sq_exp_double_dev q1 q2 sig ls in
        let qni_grad := get3F grads_1 si1 sj1 (d1 - 1) in
        let qmj_grad := get3F grads_2 si2 sj2 (d2 - 1) in
        kern + k12 * qni_grad * qmj_grad)
        specs_ind kern
    else kern in
  (* env1's neighbors and env2's center *)
  let kern :=
    fold_left (fun kern n =>
      if (getZ etypes1 n =? c2)%Z then
        fold_left (fun kern (ss : Z * Z) =>
          let '(s1, s2) := ss in
          let qn1s := get3F neigh_array_1 n sc1 s1 in
          let q21s := get2F array_2 sc21 s2 in
          let kn2 := k_sq_exp_double_dev qn1s q21s sig ls in
          let qn1s_grad := get3F neigh_grads_1 n s1 (d1 - 1) in
          let q21s_grad := get3F grads_2 sc21 s2 (d2 - 1) in
          kern + kn2 * qn1s_grad * q21s_grad)
          specs_ind kern
      else kern)
      (range (rows neigh_array_1)) kern in
  (* env1's center and env2's neighbors *)
  let kern :=
    fold_left (fun kern m =>
      if (getZ etypes2 m =? c1)%Z then
        fold_left (fun kern (ss : Z * Z) =>
          let '(s1, s2) := ss in
          let qm2s := get3F neigh_array_2 m sc2 s2 in
          let q12s := get2F array_1 sc12 s1 in
          let km1 := k_sq_exp_double_dev qm2s q12s sig ls in
          let qm2s_grad := get3F neigh_grads_2 m s2 (d2 - 1) in
          let q12s_grad := get3F grads_1 sc12 s1 (d1 - 1) in
          kern + km1 * qm2s_grad * q12s_grad)
          specs_ind kern
      else kern)
      (range (rows neigh_array_2)) kern in
  (* env1's neighbors and env2's neighbors *)
  let kern :=
    fold_left (fun kern n =>
      fold_left (fun kern m =>
        if (getZ etypes1 n =? getZ etypes2 m)%Z then
          if (c1 =? c2)%Z then
            fold_left (fun kern (ss : Z * Z) =>
              let '(s1, s2) := ss in
              let qn1s := get3F neigh_array_1 n sc1 s1 in
              let qm2s := get3F neigh_array_2 m sc2 s2 in
              let kmn := k_sq_exp_double_dev qn1s qm2s sig ls in
              let qn1s_grad := get3F neigh_grads_1 n s1 (d1 - 1) in
              let qm2s_grad := get3F neigh_grads_2 m s2 (d2 - 1) in
              kern + kmn * qn1s_grad * qm2s_grad)
              specs_ind kern
          else
            let qn12 := get3F neigh_array_1 n sc1 sc12 in
            let qm21 := get3F neigh_array_2 m sc2 sc21 in
            let kmn := k_sq_exp_double_dev qn12 qm21 sig ls in
            let qn12_grad := get3F neigh_grads_1 n sc12 (d1 - 1) in
            let qm21_grad := get3F neigh_grads_2 m sc21 (d2 - 1) in
            kern + kmn * qn12_grad * qm21_grad
        else kern)
        (range (rows neigh_array_2)) kern)
      (range (rows neigh_array_1)) kern in
  Some kern.

End ForceKernels.
(** Two results, a value or an error, of which the first is [c] times the
    second. *)
Definition scaled_result (c : R) (o o' : option R) : Prop :=
  match o, o' with
  | Some k, Some k' => k = (c * k')%R
  | None, None => True
  | _, _ => False
  end.

(* ------------------------------------------------------------------ *)
(** ** [flare/env.py]: the species-resolved descriptor and [compute_env] *)
(* ------------------------------------------------------------------ *)

Section ComputeEnv.

Context {F : Type} {NF : Num F}.
Local Open Scope num_scope.

(** [get_2_body_arrays_sepcut] called with the [int8] index
    [bond_inds[i]]: a negative index counts from the end of [positions]
    and from the end of [species], each by its own length. *)
Definition get_2_body_arrays_sepcut_int8 (argsort : list F -> list nat)
           (positions : list (vec3 F)) (atom : Z) (cell : cell3 F)
           (cutoff_2 : list F) (species : list Z) (sweep : list Z)
           (nspecie : Z) (specie_mask bond_mask : list Z)
  : option (list (brow F) * list (vec3 F) * list Z * list Z) :=
  pos_atom <- py_get positions atom ;;
  sa <- py_get species atom ;;
  bc <- py_get specie_mask sa ;;
  let bcn := (nspecie * bc)%Z in
  rows <- fill_rows_sepcut positions pos_atom cell cutoff_2 species sweep
                           specie_mask bond_mask bcn ;;
  Some (unzip4 (sort_rows argsort rows)).

(** [cutoff_mb[mb_mask[k]]] *)
Definition mb_cutoff (cutoff_mb : list F) (mb_mask : list Z) (k : Z)
  : option F :=
  mbtype <- py_get mb_mask k ;; py_get cutoff_mb mbtype.

(** [get_m2_body_arrays_sepcut(positions, atom, cell, cutoff_mb, species,
    sweep, nspec, spec_mask, mb_mask, cutoff_func)].  [q_value_mc] is
    called without its last argument. *)
Definition get_m2_body_arrays_sepcut (argsort : list F -> list nat)
           (list_set : list Z -> list Z) (coordination_number : q_fn F)
           (q_value_mc : list F -> F -> Z -> list Z -> cutoff_fn F
                         -> option (q_fn F) -> F)
           (positions : list (vec3 F)) (atom : nat) (cell : cell3 F)
           (cutoff_mb : list F) (species : list Z) (sweep : list Z)
           (nspec : Z) (spec_mask mb_mask : list Z)
           (cutoff_func : cutoff_fn F)
  : option (list F * list (list F) * list (vec3 F) * list (vec3 F)
            * list Z * list Z) :=
  ' (bond_array_mb, _, etypes, bond_inds) <-
    get_2_body_arrays_sepcut argsort positions atom cell cutoff_mb species
                             sweep nspec spec_mask mb_mask ;;
  sa <- nth_error species atom ;;
  bc <- py_get spec_mask sa ;;
  let bcn := (bc * nspec)%Z in
  let species_list := species_list_of list_set species in
  qs <-
    mapM (fun s =>
            bs <- py_get spec_mask s ;;
            r_cut <- mb_cutoff cutoff_mb mb_mask (bcn + bs) ;;
            Some (q_value_mc (map dist_of bond_array_mb) r_cut s etypes
                             cutoff_func None))
         species_list ;;
  qs_neigh <-
    mapM (fun i =>
            be <- py_get spec_mask (getZ etypes i) ;;
            let ben := (be * nspec)%Z in
            ' (neigh_bond_array, _, neigh_etypes, _) <-
              get_2_body_arrays_sepcut_int8 argsort positions
                                            (getZ bond_inds i) cell
                                            cutoff_mb species sweep nspec
                                            spec_mask mb_mask ;;
            mapM (fun s =>
                    bs <- py_get spec_mask s ;;
                    r_cut <- mb_cutoff cutoff_mb mb_mask (bs + ben) ;;
                    Some (q_value_mc (map dist_of neigh_bond_array) r_cut s
                                     neigh_etypes cutoff_func None))
                 species_list)
         (range (rows bond_inds)) ;;
  q_neigh_grads <-
    mapM (fun i =>
            be <- py_get spec_mask (getZ etypes i) ;;
            r_cut <- mb_cutoff cutoff_mb mb_mask (bcn + be) ;;
            Some (q_grads_of bond_array_mb i r_cut cutoff_func
                             coordination_number))
         (range (rows bond_inds)) ;;
  q_grads <- q2_grads_mc q_neigh_grads species_list etypes ;;
  Some (qs, qs_neigh, q_grads, q_neigh_grads, species_list, etypes).

(** The attributes [__init__] and [setup_mask] set before [compute_env]
    runs. *)
Record EnvSetup : Type := {
  self_positions : list (vec3 F);
  self_atom : nat;
  self_cell : cell3 F;
  self_species : list Z;
  self_sweep_array : list Z;
  self_scalar_cutoff_2 : F;
  self_scalar_cutoff_3 : F;
  self_scalar_cutoff_mb : F;
  self_scalar_cutoff_m3b : F;
  self_cutoff_2b : list F;
  self_cutoff_3b : list F;
  self_cutoff_mb : list F;
  self_nspecie : Z;
  self_n2b : Z;
  self_n3b : Z;
  self_nmb : Z;
  self_nm3b : Z;
  self_specie_mask : list Z;
  self_bond_mask : list Z;
  self_cut3b_mask : list Z;
  self_mb_mask : list Z
}.

(** The attributes [compute_env] sets.  The 3-body and the two
    many-body groups are set only behind a positive cutoff: [None] is a
    group of attributes the object does not have. *)
Record EnvArrays : Type := {
  self_bond_array_2 : list (brow F);
  self_etypes : list Z;
  self_bond_inds : list Z;
  self_3body :
    option (list (brow F) * list (list Z) * list (list F) * list Z);
  self_m2b :
    option (list F * list (list F) * list (vec3 F) * list (vec3 F)
            * list Z * list Z);
  self_m3b :
    option (list (list F) * list (list (list F)) * list (list (vec3 F))
            * list (list (vec3 F)) * list Z * list Z)
}.

(** [AtomicEnvironment.compute_env]; [quadratic_cutoff] is a function of
    [flare/cutoffs.py].  [None] is an exception: an access outside an
    array, or the [NotImplementedError] of the last branch. *)
Definition compute_env (argsort : list F -> list nat)
           (list_set : list Z -> list Z) (coordination_number : q_fn F)
           (q_value_mc : list F -> F -> Z -> list Z -> cutoff_fn F
                         -> option (q_fn F) -> F)
           (quadratic_cutoff : cutoff_fn F) (self : EnvSetup)
  : option EnvArrays :=
  ' (bond_array_2, bond_positions_2, etypes, bond_inds) <-
    (if (1 <? self_n2b self)%Z
     then get_2_body_arrays_sepcut argsort (self_positions self)
            (self_atom self) (self_cell self) (self_cutoff_2b self)
            (self_species self) (self_sweep_array self) (self_nspecie self)
            (self_specie_mask self) (self_bond_mask self)
     else get_2_body_arrays argsort (self_positions self) (self_atom self)
            (self_cell self) (self_scalar_cutoff_2 self)
            (self_species self) (self_sweep_array self)) ;;
  three <-
    (if fzero <? self_scalar_cutoff_3 self
     then
       r <- (if (1 <? self_n3b self)%Z
             then
               ctype <- nth_error (self_species self) (self_atom self) ;;
               get_3_body_arrays_sepcut bond_array_2 bond_positions_2 ctype
                 etypes (self_cutoff_3b self) (self_nspecie self)
                 (self_specie_mask self) (self_cut3b_mask self)
             else get_3_body_arrays bond_array_2 bond_positions_2
                                    (self_scalar_cutoff_3 self)) ;;
       Some (Some r)
     else Some None) ;;
  m2b <-
    (if fzero <? self_scalar_cutoff_mb self
     then
       r <- (if (1 <? self_nmb self)%Z
             then get_m2_body_arrays_sepcut argsort list_set
                    coordination_number q_value_mc (self_positions self)
                    (self_atom self) (self_cell self) (self_cutoff_mb self)
                    (self_species self) (self_sweep_array self)
                    (self_nspecie self) (self_specie_mask self)
                    (self_mb_mask self) quadratic_cutoff
             else get_m2_body_arrays argsort list_set coordination_number
                    q_value_mc (self_positions self) (self_atom self)
                    (self_cell self) (self_scalar_cutoff_mb self)
                    (self_species self) (self_sweep_array self)
                    quadratic_cutoff) ;;
       Some (Some r)
     else Some None) ;;
  m3b <-
    (if fzero <? self_scalar_cutoff_m3b self
     then
       if (1 <? self_nm3b self)%Z
       then None
       else
         r <- get_m3_body_arrays argsort list_set coordination_number
                (self_positions self) (self_atom self) (self_cell self)
                (self_scalar_cutoff_m3b self) (self_species self)
                (self_sweep_array self) quadratic_cutoff ;;
         Some (Some r)
     else Some None) ;;
  Some {| self_bond_array_2 := bond_array_2;
          self_etypes := etypes;
          self_bond_inds := bond_inds;
          self_3body := three;
          self_m2b := m2b;
          self_m3b := m3b |}.

End ComputeEnv.

(** The line of four atoms behind one cutoff of each kind. *)
Definition line4_setup : EnvSetup (F := float) := {|
  self_positions := line4;
  self_atom := 0;
  self_cell := cubic 1e7%float;
  self_species := [1; 2; 1; 2]%Z;
  self_sweep_array := sweep1;
  self_scalar_cutoff_2 := 2%float;
  self_scalar_cutoff_3 := 1.5%float;
  self_scalar_cutoff_mb := 2%float;
  self_scalar_cutoff_m3b := 2%float;
  self_cutoff_2b := [2%float];
  self_cutoff_3b := [1.5%float];
  self_cutoff_mb := [2%float];
  self_nspecie := 1;
  self_n2b := 1;
  self_n3b := 1;
  self_nmb := 1;
  self_nm3b := 1;
  self_specie_mask := single_group_mask;
  self_bond_mask := [0%Z];
  self_cut3b_mask := [0%Z];
  self_mb_mask := [0%Z]
|}.

(* ------------------------------------------------------------------ *)
(** ** [flare/kernels/mc_simple.py]: the 2-body force/force kernel and the
       many-body force/energy kernels *)
(* ------------------------------------------------------------------ *)

Section ForceEnergyKernels.

Context {F : Type} {NF : Num F}.
Local Open Scope num_scope.

Variable set_inter : list Z -> list Z -> list Z.

(** Helpers of [flare/kernels/kernels.py]. *)
Variable force_helper :
  F -> F -> F -> F -> F -> F -> F -> F -> F -> F -> F -> F -> F.
Variable k_sq_exp_dev : F -> F -> F -> F -> F.

(** [two_body_mc_jit(bond_array_1, c1, etypes1, bond_array_2, c2, etypes2,
    d1, d2, sig, ls, r_cut, cutoff_func)] *)
Definition two_body_mc_jit (bond_array_1 : list (brow F)) (c1 : Z)
           (etypes1 : list Z) (bond_array_2 : list (brow F)) (c2 : Z)
           (etypes2 : list Z) (d1 d2 : Z) (sig ls r_cut : F)
           (cutoff_func : cutoff_fn F) : F :=
  let ls1 := one / (two * ls * ls) in
  let ls2 := one / (ls * ls) in
  let ls3 := ls2 * ls2 in
  let sig2 := sig * sig in
  fold_left (fun kern m =>
    let ri := ba_get bond_array_1 m 0 in
    let ci := ba_get bond_array_1 m d1 in
    let '(fi, fdi) := cutoff_func r_cut ri ci in
    let e1 := getZ etypes1 m in
    fold_left (fun kern n =>
      let e2 := getZ etypes2 n in
      if bonds_agree c1 e1 c2 e2 then
        let rj := ba_get bond_array_2 n 0 in
        let cj := ba_get bond_array_2 n d2 in
        let '(fj, fdj) := cutoff_func r_cut rj cj in
        let r11 := ri - rj in
        let A := ci * cj in
        let B := r11 * ci in
        let C := r11 * cj in
        let D := r11 * r11 in
        kern + force_helper A B C D fi fj fdi fdj ls1 ls2 ls3 sig2
      else kern)
      (range (rows bond_array_2)) kern)
    (range (rows bond_array_1)) fzero.

(** What a pair of bonds adds to [two_body_mc_jit]. *)
Definition two_body_term (bond_array_1 bond_array_2 : list (brow F))
           (d1 d2 : Z) (sig ls r_cut : F) (cutoff_func : cutoff_fn F)
           (mn : Z * Z) : F :=
  let ls1 := one / (two * ls * ls) in
  let ls2 := one / (ls * ls) in
  let ls3 := ls2 * ls2 in
  let sig2 := sig * sig in
  let ri := ba_get bond_array_1 (fst mn) 0 in
  let ci := ba_get bond_array_1 (fst mn) d1 in
  let '(fi, fdi) := cutoff_func r_cut ri ci in
  let rj := ba_get bond_array_2 (snd mn) 0 in
  let cj := ba_get bond_array_2 (snd mn) d2 in
  let '(fj, fdj) := cutoff_func r_cut rj cj in
  let r11 := ri - rj in
  let A := ci * cj in
  let B := r11 * ci in
  let C := r11 * cj in
  let D := r11 * r11 in
  force_helper A B C D fi fj fdi fdj ls1 ls2 ls3 sig2.

(** [specs_ind_1] and [specs_ind_2], side by side. *)
Definition specs_ind_of (species1 species2 : list Z)
  : option (list (Z * Z)) :=
  mapM (fun s =>
          s1 <- where_first species1 s ;;
          s2 <- where_first species2 s ;;
          Some (Z.of_nat s1, Z.of_nat s2))
       (useful_species set_inter species1 species2).

(** [many_2body_mc_force_en_jit(q_array_1, q_array_2, grads_1,
    q_neigh_array_1, q_neigh_grads_1, c1, c2, etypes1, species1, species2,
    d1, sig, ls)] *)
Definition many_2body_mc_force_en_jit (q_array_1 q_array_2 : list F)
           (grads_1 q_neigh_array_1 q_neigh_grads_1 : list (list F))
           (c1 c2 : Z) (etypes1 species1 species2 : list Z) (d1 : Z)
           (sig ls : F) : option F :=
  let kern := fzero in
  specs_ind <- specs_ind_of species1 species2 ;;
  sc1 <- where_first species1 c1 ;;
  sc21 <- where_first species2 c1 ;;
  (* contribution of center *)
  let kern :=
    if (c1 =? c2)%Z then
      fold_left (fun kern (ss : Z * Z) =>
        let '(s1, s2) := ss in
        let q1 := getF q_array_1 s1 in
        let q2 := getF q_array_2 s2 in
        let k12 := k_sq_exp_dev q1 q2 sig ls in
        let q1i_grad := get2F grads_1 s1 (d1 - 1) in
        kern - q1i_grad * k12)
        specs_ind kern
    else kern in
  (* contribution of neighbors *)
  let q21 := getF q_array_2 (Z.of_nat sc21) in
  let kern :=
    fold_left (fun kern i =>
      if (getZ etypes1 i =? c2)%Z then
        let qi1_grad := get2F q_neigh_grads_1 i (d1 - 1) in
        let qi := get2F q_neigh_array_1 i (Z.of_nat sc1) in
        let ki2 := k_sq_exp_dev qi q21 sig ls in
        kern - qi1_grad * ki2
      else kern)
      (range (rows q_neigh_array_1)) kern in
  Some kern.

(** [many_3body_mc_force_en_jit(array_1, array_2, grads_1, neigh_array_1,
    neigh_grads_1, c1, c2, etypes1, species1, species2, d1, sig, ls)].
    The last loop reads [grads_1] at the positions [si], [sj] of the two
    species in [useful_species]. *)
Definition many_3body_mc_force_en_jit (array_1 array_2 : list (list F))
           (grads_1 neigh_array_1 neigh_grads_1 : list (list (list F)))
           (c1 c2 : Z) (etypes1 species1 species2 : list Z) (d1 : Z)
           (sig ls : F) : option F :=
  let kern := fzero in
  specs_ind <- specs_ind_of species1 species2 ;;
  sc1 <- where_first species1 c1 ;;
  sc2 <- where_first species2 c2 ;;
  sc21 <- where_first species2 c1 ;;
  (* the derivative of k(qn, q2), n is the neighbor *)
  let kern :=
    fold_left (fun kern n =>
      if (getZ etypes1 n =? c2)%Z then
        fold_left (fun kern (ss : Z * Z) =>
          let '(s1, s2) := ss in
          let q2 := get2F array_2 (Z.of_nat sc21) s2 in
          let qi1_grads := get3F neigh_grads_1 n s1 (d1 - 1) in
          let qis := get3F neigh_array_1 n (Z.of_nat sc1) s1 in
          let ki2s := k_sq_exp_dev qis q2 sig ls in
          kern - qi1_grads * ki2s)
          specs_ind kern
      else kern)
      (range (rows neigh_array_1)) kern in
  (* contribution of each neighbor to the derivative of k(q1, q2) *)
  let kern :=
    if (c1 =? c2)%Z then
      fold_upper (fun kern (si sj : Z * (Z * Z)) =>
        let '(si, (si1, si2)) := si in
        let '(sj, (sj1, sj2)) := sj in
        let q1 := get2F array_1 si1 sj1 in
        let q2 := get2F array_2 si2 sj2 in
        let k12 := k_sq_exp_dev q1 q2 sig ls in
        let q1i_grads := get3F grads_1 si sj (d1 - 1) in
        kern - k12 * q1i_grads)
        (combine (range (rows specs_ind)) specs_ind) kern
    else kern in
  Some kern.

End ForceEnergyKernels.

(* ------------------------------------------------------------------ *)
(** ** [flare/kernels/mc_simple.py]: the 3-body force/force kernel *)
(* ------------------------------------------------------------------ *)

Section ThreeBodyForceKernel.

Context {F : Type} {NF : Num F}.
Local Open Scope num_scope.

(** Helpers of [flare/kernels/kernels.py]. *)
Variable three_body_helper_1 three_body_helper_2 :
  F -> F -> F -> F -> F -> F -> F -> F -> F -> F -> F -> F -> F -> F -> F
  -> F.

(** [three_body_mc_jit(bond_array_1, c1, etypes1, bond_array_2, c2,
    etypes2, cross_bond_inds_1, cross_bond_inds_2, cross_bond_dists_1,
    cross_bond_dists_2, triplets_1, triplets_2, d1, d2, sig, ls, r_cut,
    cutoff_func)] *)
Definition three_body_mc_jit (bond_array_1 : list (brow F)) (c1 : Z)
           (etypes1 : list Z) (bond_array_2 : list (brow F)) (c2 : Z)
           (etypes2 : list Z)
           (cross_bond_inds_1 cross_bond_inds_2 : list (list Z))
           (cross_bond_dists_1 cross_bond_dists_2 : list (list F))
           (triplets_1 triplets_2 : list Z) (d1 d2 : Z) (sig ls r_cut : F)
           (cutoff_func : cutoff_fn F) : F :=
  let sig2 := sig * sig in
  let ls1 := one / (two * ls * ls) in
  let ls2 := one / (ls * ls) in
  let ls3 := ls2 * ls2 in
  fold_left (fun kern m =>
    let ri1 := ba_get bond_array_1 m 0 in
    let ci1 := ba_get bond_array_1 m d1 in
    let '(fi1, fdi1) := cutoff_func r_cut ri1 ci1 in
    let ei1 := getZ etypes1 m in
    fold_left (fun kern n =>
      let ind1 := get2Z cross_bond_inds_1 m (m + n + 1) in
      let ei2 := getZ etypes1 ind1 in
      let tr_spec := [c1; ei1; ei2] in
      if mem c2 tr_spec then
        let tr_spec := remove_first c2 tr_spec in
        let ri2 := ba_get bond_array_1 ind1 0 in
        let ci2 := ba_get bond_array_1 ind1 d1 in
        let '(fi2, fdi2) := cutoff_func r_cut ri2 ci2 in
        let ri3 := get2F cross_bond_dists_1 m (m + n + 1) in
        let fi3 := fst (cutoff_func r_cut ri3 fzero) in
        let fi := fi1 * fi2 * fi3 in
        let fdi := fdi1 * fi2 * fi3 + fi1 * fdi2 * fi3 in
        fold_left (fun kern p =>
          let ej1 := getZ etypes2 p in
          let tr_spec1 := [getZ tr_spec 0; getZ tr_spec 1] in
          if mem ej1 tr_spec1 then
            let tr_spec1 := remove_first ej1 tr_spec1 in
            let rj1 := ba_get bond_array_2 p 0 in
            let cj1 := ba_get bond_array_2 p d2 in
            let '(fj1, fdj1) := cutoff_func r_cut rj1 cj1 in
            fold_left (fun kern q =>
              let ind2 := get2Z cross_bond_inds_2 p (p + 1 + q) in
              let ej2 := getZ etypes2 ind2 in
              if (ej2 =? getZ tr_spec1 0)%Z then
                let rj2 := ba_get bond_array_2 ind2 0 in
                let cj2 := ba_get bond_array_2 ind2 d2 in
                let '(fj2, fdj2) := cutoff_func r_cut rj2 cj2 in
                let rj3 := get2F cross_bond_dists_2 p (p + 1 + q) in
                let fj3 := fst (cutoff_func r_cut rj3 fzero) in
                let fj := fj1 * fj2 * fj3 in
                let fdj := fdj1 * fj2 * fj3 + fj1 * fdj2 * fj3 in
                let r11 := ri1 - rj1 in
                let r12 := ri1 - rj2 in
                let r13 := ri1 - rj3 in
                let r21 := ri2 - rj1 in
                let r22 := ri2 - rj2 in
                let r23 := ri2 - rj3 in
                let r31 := ri3 - rj1 in
                let r32 := ri3 - rj2 in
                let r33 := ri3 - rj3 in
                let h1 a b c d ra rb rc :=
                  three_body_helper_1 a b c d ra rb rc fi fj fdi fdj
                                      ls1 ls2 ls3 sig2 in
                let h2 a b c d ra rb rc :=
                  three_body_helper_2 a b c d ra rb rc fi fj fdi fdj
                                      ls1 ls2 ls3 sig2 in
                (* consider six permutations *)
                let kern :=
                  add_if ((c1 =? c2)%Z && ((ei1 =? ej1)%Z && (ei2 =? ej2)%Z))
                         (h1 ci1 ci2 cj1 cj2 r11 r22 r33) kern in
                let kern :=
                  add_if ((c1 =? c2)%Z && ((ei1 =? ej2)%Z && (ei2 =? ej1)%Z))
                         (h1 ci1 ci2 cj2 cj1 r12 r21 r33) kern in
                let kern :=
                  add_if ((c1 =? ej1)%Z && ((ei1 =? ej2)%Z && (ei2 =? c2)%Z))
                         (h2 ci2 ci1 cj2 cj1 r21 r13 r32) kern in
                let kern :=
                  add_if ((c1 =? ej1)%Z && ((ei1 =? c2)%Z && (ei2 =? ej2)%Z))
                         (h2 ci1 ci2 cj2 cj1 r11 r23 r32) kern in
                let kern :=
                  add_if ((c1 =? ej2)%Z && ((ei1 =? ej1)%Z && (ei2 =? c2)%Z))
                         (h2 ci2 ci1 cj1 cj2 r22 r13 r31) kern in
                add_if ((c1 =? ej2)%Z && ((ei1 =? c2)%Z && (ei2 =? ej1)%Z))
                       (h2 ci1 ci2 cj1 cj2 r12 r23 r31) kern
              else kern)
              (range (getZ triplets_2 p)) kern
          else kern)
          (range (rows bond_array_2)) kern
      else kern)
      (range (getZ triplets_1 m)) kern)
    (range (rows bond_array_1)) fzero.

End ThreeBodyForceKernel.

(* ================================================================== *)
(** * Part II: properties *)
(* ================================================================== *)

(** ** [np.int8] *)

Lemma wrap8_range (z : Z) : (-128 <= wrap8 z <= 127)%Z.
Proof. unfold wrap8. pose proof (Z.mod_pos_bound (z + 128) 256). lia. Qed.

Lemma wrap8_congr (z : Z) : ((wrap8 z - z) mod 256 = 0)%Z.
Proof.
  unfold wrap8.
  rewrite (Z.mod_eq (z + 128) 256) by lia.
  replace (z + 128 - 256 * ((z + 128) / 256) - 128 - z)%Z
    with ((- ((z + 128) / 256)) * 256)%Z by ring.
  apply Z.mod_mul. lia.
Qed.

Lemma wrap8_id (z : Z) : (-128 <= z <= 127)%Z -> wrap8 z = z.
Proof. intros H. unfold wrap8. rewrite Z.mod_small; lia. Qed.

Lemma wrap8_id_iff (z : Z) : wrap8 z = z <-> (-128 <= z <= 127)%Z.
Proof.
  split; [|apply wrap8_id].
  intros H. rewrite <- H. apply wrap8_range.
Qed.

Lemma wrap8_idem (z : Z) : wrap8 (wrap8 z) = wrap8 z.
Proof. apply wrap8_id, wrap8_range. Qed.

(** ** Lists *)

Lemma set_nth_app {A : Type} (pre rest : list A) (d v : A) :
  set_nth (pre ++ d :: rest) (length pre) v = pre ++ v :: rest.
Proof. induction pre as [|x pre IH]; simpl; [reflexivity|]. now rewrite IH. Qed.

Lemma set_nth_length {A : Type} (a : list A) (i : nat) (v : A) :
  length (set_nth a i v) = length a.
Proof.
  revert i; induction a as [|x a IH]; intros [|i]; simpl; auto.
Qed.

Lemma nth_set_nth_eq {A : Type} (a : list A) (i : nat) (v d : A) :
  (i < length a)%nat -> nth i (set_nth a i v) d = v.
Proof.
  revert i; induction a as [|x a IH]; intros [|i] H; simpl in *;
    try lia; auto. apply IH; lia.
Qed.

Lemma nth_set_nth_neq {A : Type} (a : list A) (i j : nat) (v d : A) :
  i <> j -> nth j (set_nth a i v) d = nth j a d.
Proof.
  revert i j; induction a as [|x a IH]; intros [|i] [|j] H; simpl;
    try congruence; auto.
Qed.

Lemma bind_some {A B : Type} (m : option A) (k : A -> option B) (b : B) :
  bind m k = Some b -> exists a, m = Some a /\ k a = Some b.
Proof. destruct m as [a|]; simpl; [eauto|discriminate]. Qed.

Lemma mapM_some_length {A B : Type} (f : A -> option B) (l : list A)
      (bs : list B) :
  mapM f l = Some bs -> length bs = length l.
Proof.
  revert bs; induction l as [|a l IH]; simpl; intros bs H.
  - now inversion H.
  - apply bind_some in H as (b & Hb & H).
    apply bind_some in H as (bs' & Hbs & H).
    inversion H; subst; simpl. f_equal; auto.
Qed.

Lemma mapM_some_nth {A B : Type} (f : A -> option B) (l : list A)
      (bs : list B) (i : nat) (a : A) :
  mapM f l = Some bs -> nth_error l i = Some a ->
  exists b, nth_error bs i = Some b /\ f a = Some b.
Proof.
  revert bs i; induction l as [|x l IH]; simpl; intros bs i H Hi.
  - destruct i; discriminate.
  - apply bind_some in H as (b & Hb & H).
    apply bind_some in H as (bs' & Hbs & H).
    inversion H; subst.
    destruct i as [|i]; simpl in *.
    + inversion Hi; subst; eauto.
    + eauto.
Qed.

Lemma mapM_total {A B : Type} (f : A -> option B) (g : A -> B) (l : list A) :
  (forall a, In a l -> f a = Some (g a)) -> mapM f l = Some (map g l).
Proof.
  induction l as [|a l IH]; simpl; intros H; [reflexivity|].
  rewrite H by auto. simpl. rewrite IH by auto. reflexivity.
Qed.

Lemma foldM_total {A S : Type} (f : S -> A -> option S) (g : S -> A -> S)
      (l : list A) (s : S) :
  (forall s a, In a l -> f s a = Some (g s a)) ->
  foldM f l s = Some (fold_left g l s).
Proof.
  revert s; induction l as [|a l IH]; simpl; intros s H; [reflexivity|].
  rewrite H by auto. simpl. apply IH. auto.
Qed.

(** ** The triplet table *)

Section TripletRows.

Context {F : Type} {NF : Num F}.
Local Open Scope num_scope.

Lemma accepted_cons (dec : nat -> option F) (a : nat) (l : list nat) :
  accepted dec (a :: l)
  = match dec a with Some d => [(a, d)] | None => [] end ++ accepted dec l.
Proof. reflexivity. Qed.

Lemma accepted_length (dec : nat -> option F) (l : list nat) :
  (length (accepted dec l) <= length l)%nat.
Proof.
  induction l as [|a l IH]; [simpl; lia|].
  rewrite accepted_cons, length_app. destruct (dec a); simpl; lia.
Qed.

Lemma accepted_in (dec : nat -> option F) (l : list nat) (n : nat) (d : F) :
  In (n, d) (accepted dec l) <-> In n l /\ dec n = Some d.
Proof.
  unfold accepted. rewrite in_flat_map. split.
  - intros (x & Hx & Hin). destruct (dec x) eqn:E; simpl in Hin;
      [|contradiction].
    destruct Hin as [Hin|[]]. inversion Hin; subst. auto.
  - intros (Hin & Hd). exists n. split; [assumption|].
    rewrite Hd. now left.
Qed.

(** The [j]-th accepted neighbour of a run [a, a + 1, ...] is at least
    [a + j]: the table is filled from the left without gaps. *)
Lemma accepted_seq_nth (dec : nat -> option F) (len a j n : nat) (d : F) :
  nth_error (accepted dec (seq a len)) j = Some (n, d) ->
  (a + j <= n < a + len)%nat /\ dec n = Some d.
Proof.
  revert a j; induction len as [|len IH]; intros a j H; cbn [seq] in H.
  - destruct j; discriminate.
  - rewrite accepted_cons in H. destruct (dec a) eqn:E; simpl in H.
    + destruct j as [|j]; simpl in H.
      * inversion H; subst. split; [lia|assumption].
      * apply IH in H. split; [lia|tauto].
    + apply IH in H. split; [lia|tauto].
Qed.

Lemma row_fold_layout (dec : nat -> option F) (l : list nat)
      (pre_i : list Z) (pre_d : list F) (k : nat) (t : Z) :
  length pre_i = length pre_d -> (length l <= k)%nat ->
  fold_left (fun st n => match dec n with
                         | Some d => row_store st n d
                         | None => st
                         end) l
            (pre_i ++ repeat (-1)%Z k, pre_d ++ repeat fzero k,
             length pre_i, t)
  = (pre_i ++ map (fun e => Z.of_nat (fst e)) (accepted dec l)
       ++ repeat (-1)%Z (k - length (accepted dec l)),
     pre_d ++ map snd (accepted dec l)
       ++ repeat fzero (k - length (accepted dec l)),
     (length pre_i + length (accepted dec l))%nat,
     (t + Z.of_nat (length (accepted dec l)))%Z).
Proof.
  revert pre_i pre_d k t.
  induction l as [|a l IH]; intros pre_i pre_d k t Hlen Hk.
  - simpl. rewrite Nat.sub_0_r, Nat.add_0_r, Z.add_0_r. reflexivity.
  - simpl in Hk. cbn [fold_left]. rewrite accepted_cons.
    destruct (dec a) as [d|] eqn:E.
    + destruct k as [|k]; [lia|].
      unfold row_store. cbn [repeat].
      rewrite set_nth_app. rewrite Hlen at 1. rewrite set_nth_app.
      replace (pre_i ++ Z.of_nat a :: repeat (-1)%Z k)
        with ((pre_i ++ [Z.of_nat a]) ++ repeat (-1)%Z k)
        by (rewrite <- app_assoc; reflexivity).
      replace (pre_d ++ d :: repeat fzero k)
        with ((pre_d ++ [d]) ++ repeat fzero k)
        by (rewrite <- app_assoc; reflexivity).
      replace (S (length pre_i)) with (length (pre_i ++ [Z.of_nat a]))
        by (rewrite length_app; simpl; lia).
      rewrite IH by (rewrite ?length_app; simpl; lia).
      rewrite !length_app. cbn [length app map fst snd].
      rewrite <- !app_assoc. cbn [app].
      replace (S k - (1 + length (accepted dec l)))%nat
        with (k - length (accepted dec l))%nat by lia.
      f_equal; [f_equal; lia|lia].
    + cbn [app]. apply IH; [assumption|lia].
Qed.

End TripletRows.

Section TripletTable.

Context {F : Type} {NF : Num F}.
Local Open Scope num_scope.

Lemma first_above_le (c : F) (l : list F) : (first_above c l <= length l)%nat.
Proof.
  induction l as [|d l IH]; simpl; [lia|]. destruct (c <? d); lia.
Qed.

Lemma first_above_not_above (c d0 : F) (l : list F) (i : nat) :
  (i < first_above c l)%nat -> (nth i l d0 >? c) = false.
Proof.
  revert i; induction l as [|d l IH]; simpl; intros i H; [lia|].
  destruct (c <? d) eqn:E; [lia|].
  destruct i as [|i]; [assumption|]. apply IH; lia.
Qed.

Lemma fold_left_ext_in {A S : Type} (f g : S -> A -> S) (l : list A) (s : S) :
  (forall s a, In a l -> f s a = g s a) -> fold_left f l s = fold_left g l s.
Proof.
  revert s; induction l as [|a l IH]; simpl; intros s H; [reflexivity|].
  rewrite H by auto. apply IH. auto.
Qed.

Lemma row_init_split (ind_3 m : nat) :
  (m < ind_3)%nat ->
  @row_init F _ ind_3 m
  = (repeat (-1)%Z (S m) ++ repeat (-1)%Z (ind_3 - S m),
     repeat fzero (S m) ++ repeat fzero (ind_3 - S m),
     length (repeat (-1)%Z (S m)), 0%Z).
Proof.
  intros H. unfold row_init. rewrite <- !repeat_app, repeat_length.
  replace (S m + (ind_3 - S m))%nat with ind_3 by lia. reflexivity.
Qed.

Lemma cross_row_layout (bond_positions_3 : list (vec3 F)) (cutoff_3 : F)
      (ind_3 m : nat) :
  (m < ind_3)%nat ->
  cross_row bond_positions_3 cutoff_3 ind_3 m
  = row_layout ind_3 m
      (accepted (near bond_positions_3 cutoff_3 m) (seq (S m) (ind_3 - S m))).
Proof.
  intros Hm. unfold cross_row.
  rewrite fold_left_ext_in
    with (g := fun st n => match near bond_positions_3 cutoff_3 m n with
                           | Some d => row_store st n d
                           | None => st
                           end).
  2:{ intros s a _. unfold near.
      destruct (norm (vsub (nth a bond_positions_3 vzero)
                           (nth m bond_positions_3 vzero)) <? cutoff_3);
        reflexivity. }
  rewrite row_init_split by assumption.
  rewrite row_fold_layout.
  - unfold row_layout, row_result. reflexivity.
  - now rewrite !repeat_length.
  - now rewrite length_seq.
Qed.

Lemma foldM_dec {A S : Type} (f : S -> A -> option S) (ok : A -> Prop)
      (g : S -> A -> S) (l : list A) (s s' : S) :
  (forall s a, f s a = None \/ (ok a /\ f s a = Some (g s a))) ->
  foldM f l s = Some s' -> Forall ok l /\ s' = fold_left g l s.
Proof.
  intros Hf. revert s; induction l as [|a l IH]; simpl; intros s H.
  - inversion H. split; [constructor|reflexivity].
  - apply bind_some in H as (s1 & H1 & H).
    destruct (Hf s a) as [Hn|[Hok Hs]]; [congruence|].
    rewrite Hs in H1. inversion H1; subst.
    apply IH in H as [Hall ->]. split; [constructor; assumption|reflexivity].
Qed.

Lemma cross_row_sepcut_layout (bond_array_2 : list (brow F))
      (bond_positions_3 : list (vec3 F)) (etypes : list Z)
      (cutoff_3 : list F) (nspecie : Z) (specie_mask cut3b_mask : list Z)
      (bcn : Z) (ind_3 m : nat) (r : list Z * list F * Z) :
  (m < ind_3)%nat ->
  cross_row_sepcut bond_array_2 bond_positions_3 etypes cutoff_3 nspecie
                   specie_mask cut3b_mask bcn ind_3 m = Some r ->
  let bcut := bond_cut etypes cutoff_3 specie_mask cut3b_mask bcn in
  let xcut := cross_cutoff_3 etypes cutoff_3 nspecie specie_mask
                             cut3b_mask m in
  bcut m <> None
  /\ Forall (fun n => bcut n <> None /\ xcut n <> None)
            (seq (S m) (ind_3 - S m))
  /\ r = row_layout ind_3 m
           (accepted (near_sepcut bond_array_2 bond_positions_3
                                  (or0 (bcut m)) (fun n => or0 (bcut n))
                                  (fun n => or0 (xcut n)) m)
                     (seq (S m) (ind_3 - S m))).
Proof.
  intros Hm H bcut xcut. unfold cross_row_sepcut in H.
  apply bind_some in H as (pos1 & Hpos1 & H).
  apply bind_some in H as (em & Hem & H).
  apply bind_some in H as (bm & Hbm & H).
  apply bind_some in H as (cut_m & Hcm & H).
  apply bind_some in H as (st & Hst & H).
  inversion H; subst r; clear H.
  assert (Hbcm : bcut m = Some cut_m).
  { unfold bcut, bond_cut. rewrite Hem. simpl. rewrite Hbm. simpl.
    assumption. }
  apply foldM_dec
    with (ok := fun n => bcut n <> None /\ xcut n <> None)
         (g := fun st n =>
                 match near_sepcut bond_array_2 bond_positions_3
                         (or0 (bcut m)) (fun n => or0 (bcut n))
                         (fun n => or0 (xcut n)) m n with
                 | Some d => row_store st n d
                 | None => st
                 end) in Hst.
  - destruct Hst as [Hall ->]. split; [congruence|]. split; [assumption|].
    rewrite row_init_split by assumption.
    rewrite row_fold_layout.
    + unfold row_layout, row_result. reflexivity.
    + now rewrite !repeat_length.
    + now rewrite length_seq.
  - intros s n.
    destruct (nth_error etypes n) as [en|] eqn:Een; [|now left].
    cbn [bind].
    destruct (py_get specie_mask en) as [bn|] eqn:Ebn; [|now left].
    cbn [bind].
    destruct (resolve_cutoff cutoff_3 cut3b_mask bn bcn) as [cut_n|] eqn:Ecn;
      [|now left].
    cbn [bind].
    destruct (resolve_cutoff cutoff_3 cut3b_mask bn (nspecie * bm))
      as [cut_mn|] eqn:Ecmn; [|now left].
    cbn [bind].
    destruct (nth_error bond_positions_3 n) as [pos2|] eqn:Ep2; [|now left].
    cbn [bind]. right.
    assert (Hbn : bcut n = Some cut_n).
    { unfold bcut, bond_cut. rewrite Een. simpl. rewrite Ebn. simpl.
      assumption. }
    assert (Hxn : xcut n = Some cut_mn).
    { unfold xcut, cross_cutoff_3. rewrite Hem. simpl. rewrite Hbm. simpl.
      rewrite Een. simpl. rewrite Ebn. simpl. assumption. }
    split; [split; congruence|].
    unfold near_sepcut. rewrite Hbcm, Hbn, Hxn. cbn [or0].
    rewrite (nth_error_nth _ _ _ Ep2), (nth_error_nth _ _ _ Hpos1).
    destruct ((norm (vsub pos2 pos1) <? cut_mn)
              && (dist_of (nth m bond_array_2 brow0) <? cut_m)
              && (dist_of (nth n bond_array_2 brow0) <? cut_n));
      reflexivity.
Qed.

End TripletTable.

Section TripletInvariant.

Context {F : Type} {NF : Num F}.
Local Open Scope num_scope.

Lemma nth_map_seq {A : Type} (f : nat -> A) (n m : nat) (d : A) :
  (m < n)%nat -> nth m (map f (seq 0 n)) d = f m.
Proof.
  intros H. rewrite nth_indep with (d' := f 0%nat)
    by (rewrite length_map, length_seq; assumption).
  rewrite map_nth, seq_nth by assumption. reflexivity.
Qed.

Lemma row_layout_cell (ind_3 m k : nat) (acc : list (nat * F)) :
  nth k (fst (fst (row_layout ind_3 m acc))) (-1)%Z <> (-1)%Z ->
  exists j n d, k = (S m + j)%nat /\ nth_error acc j = Some (n, d)
                /\ nth k (fst (fst (row_layout ind_3 m acc))) (-1)%Z
                   = Z.of_nat n.
Proof.
  unfold row_layout. cbn [fst]. intros H.
  destruct (Nat.lt_ge_cases k (S m)) as [Hk|Hk].
  - exfalso. apply H. rewrite app_nth1 by (rewrite repeat_length; lia).
    apply nth_repeat.
  - rewrite app_nth2 in H |- * by (rewrite repeat_length; lia).
    rewrite repeat_length in H |- *.
    destruct (Nat.lt_ge_cases (k - S m) (length acc)) as [Hj|Hj].
    + rewrite app_nth1 in H |- * by (rewrite length_map; lia).
      destruct (nth_error acc (k - S m)) as [[n d]|] eqn:E.
      2:{ apply nth_error_None in E. lia. }
      exists (k - S m)%nat, n, d. split; [lia|]. split; [assumption|].
      rewrite nth_indep with (d' := Z.of_nat (fst (n, d)))
        by (rewrite length_map; lia).
      rewrite map_nth with (f := fun e : nat * F => Z.of_nat (fst e)).
      rewrite (nth_error_nth _ _ _ E). reflexivity.
    + exfalso. apply H. rewrite app_nth2 by (rewrite length_map; lia).
      apply nth_repeat.
Qed.

(** The cells of a row that holds [acc] from column [m + 1] on. *)
Lemma row_layout_packed (ind_3 m : nat) (acc : list (nat * F)) :
  (m < ind_3)%nat -> (length acc <= ind_3 - S m)%nat ->
  let row := row_layout ind_3 m acc in
  length (fst (fst row)) = ind_3
  /\ length (snd (fst row)) = ind_3
  /\ (forall j : nat,
         (j < length acc)%nat ->
         nth (S m + j) (fst (fst row)) (-1)%Z
         = Z.of_nat (fst (nth j acc (O, fzero)))
         /\ nth (S m + j) (snd (fst row)) fzero = snd (nth j acc (O, fzero)))
  /\ (forall k : nat,
         (k <= m \/ m + length acc < k)%nat ->
         nth k (fst (fst row)) (-1)%Z = (-1)%Z
         /\ nth k (snd (fst row)) fzero = fzero).
Proof.
  intros Hm Hacc. unfold row_layout. cbn [fst snd].
  split; [|split; [|split]].
  - rewrite !length_app, !repeat_length, length_map. lia.
  - rewrite !length_app, !repeat_length, length_map. lia.
  - intros j Hj. split.
    + rewrite app_nth2 by (rewrite repeat_length; lia).
      rewrite repeat_length.
      replace (S m + j - S m)%nat with j by lia.
      rewrite app_nth1 by (rewrite length_map; lia).
      rewrite nth_indep with (d' := Z.of_nat (fst (O, fzero)))
        by (rewrite length_map; lia).
      apply (map_nth (fun e : nat * F => Z.of_nat (fst e))).
    + rewrite app_nth2 by (rewrite repeat_length; lia).
      rewrite repeat_length.
      replace (S m + j - S m)%nat with j by lia.
      rewrite app_nth1 by (rewrite length_map; lia).
      change fzero with (snd (O, fzero)) at 1.
      apply (map_nth (@snd nat F)).
  - intros k [Hk|Hk].
    + split; rewrite app_nth1 by (rewrite repeat_length; lia);
        apply nth_repeat.
    + destruct (Nat.lt_ge_cases k ind_3) as [Hlt|Hge].
      * split; rewrite app_nth2 by (rewrite repeat_length; lia);
          rewrite repeat_length;
          rewrite app_nth2 by (rewrite length_map; lia);
          apply nth_repeat.
      * split; apply nth_overflow;
          rewrite !length_app, !repeat_length, length_map; lia.
Qed.

Lemma dist_at_firstn (bond_array_2 : list (brow F)) (ind_3 i : nat) :
  (i < ind_3)%nat ->
  dist_at (firstn ind_3 bond_array_2) i = dist_at bond_array_2 i.
Proof.
  intros H. unfold dist_at. f_equal.
  revert ind_3 i H; induction bond_array_2 as [|r l IH]; intros ind_3 i H.
  - now rewrite firstn_nil.
  - destruct ind_3 as [|ind_3]; [lia|]. destruct i as [|i]; simpl; auto.
    apply IH. lia.
Qed.

Lemma dist_at_map (bond_array_2 : list (brow F)) (i : nat) :
  nth i (map dist_of bond_array_2) (dist_of brow0) = dist_at bond_array_2 i.
Proof. unfold dist_at. apply map_nth. Qed.

Lemma length_firstn_first_above (c : F) (bond_array_2 : list (brow F)) :
  length (firstn (first_above c (map dist_of bond_array_2)) bond_array_2)
  = first_above c (map dist_of bond_array_2).
Proof.
  rewrite length_firstn. pose proof (first_above_le c (map dist_of bond_array_2)).
  rewrite length_map in H. lia.
Qed.

Lemma scalar_triplet_invariant (bond_array_2 : list (brow F))
      (bond_positions_2 : list (vec3 F)) (cutoff_3 : F)
      (bond_array_3 : list (brow F)) (cross_bond_inds : list (list Z))
      (cross_bond_dists : list (list F)) (triplet_counts : list Z) :
  get_3_body_arrays bond_array_2 bond_positions_2 cutoff_3
  = Some (bond_array_3, cross_bond_inds, cross_bond_dists, triplet_counts) ->
  triplet_invariant bond_array_3 cross_bond_inds
                    (not_above cutoff_3 bond_array_3).
Proof.
  unfold get_3_body_arrays.
  set (ind_3 := first_above cutoff_3 (map dist_of bond_array_2)).
  destruct (ind_3 <=? length bond_positions_2)%nat; [|discriminate].
  unfold unzip3. intros H. inversion H; subst; clear H.
  assert (Hlen : length (firstn ind_3 bond_array_2) = ind_3)
    by apply length_firstn_first_above.
  intros m k Hm Hk Hv. rewrite Hlen in *.
  unfold cell_at in *. rewrite map_map in *.
  rewrite nth_map_seq in * by assumption.
  rewrite cross_row_layout in * by assumption.
  apply row_layout_cell in Hv as (j & n & d & -> & Hj & Hv).
  apply accepted_seq_nth in Hj as [Hn Hd].
  split; [lia|]. exists n. split; [assumption|]. split; [lia|].
  assert (Hb : forall i, (i < ind_3)%nat ->
                         not_above cutoff_3 (firstn ind_3 bond_array_2) i
                         = true).
  { intros i Hi. unfold not_above. rewrite dist_at_firstn by assumption.
    rewrite <- dist_at_map.
    rewrite (first_above_not_above cutoff_3 (dist_of brow0)
               (map dist_of bond_array_2) (i := i)) by assumption.
    reflexivity. }
  split; apply Hb; lia.
Qed.

Lemma sepcut_triplet_invariant (bond_array_2 : list (brow F))
      (bond_positions_2 : list (vec3 F)) (ctype : Z) (etypes : list Z)
      (cutoff_3 : list F) (nspecie : Z) (specie_mask cut3b_mask : list Z)
      (bond_array_3 : list (brow F)) (cross_bond_inds : list (list Z))
      (cross_bond_dists : list (list F)) (triplet_counts : list Z) :
  get_3_body_arrays_sepcut bond_array_2 bond_positions_2 ctype etypes
                           cutoff_3 nspecie specie_mask cut3b_mask
  = Some (bond_array_3, cross_bond_inds, cross_bond_dists, triplet_counts) ->
  triplet_invariant bond_array_3 cross_bond_inds
                    (below_resolved etypes cutoff_3 nspecie specie_mask
                                    cut3b_mask ctype bond_array_3).
Proof.
  unfold get_3_body_arrays_sepcut. intros H.
  apply bind_some in H as (bc & Hbc & H).
  apply bind_some in H as (cut3 & Hcut3 & H).
  set (ind_3 := first_above cut3 (map dist_of bond_array_2)) in *.
  apply bind_some in H as (rws & Hrows & H).
  unfold unzip3 in H. inversion H; subst; clear H.
  assert (Hlen : length (firstn ind_3 bond_array_2) = ind_3)
    by apply length_firstn_first_above.
  intros m k Hm Hk Hv. rewrite Hlen in *.
  unfold cell_at in *.
  destruct (mapM_some_nth _ _ m Hrows (a := m)) as (r & Hr & Hrow).
  { rewrite nth_error_nth' with (d := 0%nat) by (now rewrite length_seq).
    now rewrite seq_nth. }
  assert (Hnth : nth m (map (fun r => fst (fst r)) rws) [] = fst (fst r)).
  { rewrite nth_indep with (d' := fst (fst r)).
    - rewrite map_nth with (f := fun r : list Z * list F * Z => fst (fst r)).
      now rewrite (nth_error_nth _ _ _ Hr).
    - rewrite length_map, (mapM_some_length _ _ Hrows), length_seq.
      assumption. }
  rewrite Hnth in *.
  apply cross_row_sepcut_layout in Hrow as (Hbm & Hall & ->);
    [|assumption].
  apply row_layout_cell in Hv as (j & n & d & -> & Hj & Hv).
  apply accepted_seq_nth in Hj as [Hn Hd].
  split; [lia|]. exists n. split; [assumption|]. split; [lia|].
  rewrite Forall_forall in Hall.
  destruct (Hall n) as [Hbn _]; [apply in_seq; lia|].
  unfold near_sepcut in Hd.
  destruct (_ && _ && _) eqn:E in Hd; [|discriminate].
  apply andb_prop in E as [E E3]. apply andb_prop in E as [E1 E2].
  assert (Hb : forall i c,
             (i < ind_3)%nat ->
             bond_cut etypes cutoff_3 specie_mask cut3b_mask
                      (nspecie * bc) i = Some c ->
             (dist_of (nth i bond_array_2 brow0) <? c) = true ->
             below_resolved etypes cutoff_3 nspecie specie_mask cut3b_mask
                            ctype (firstn ind_3 bond_array_2) i = true).
  { intros i c Hi Hc Hlt. unfold below_resolved, bond_cutoff_3.
    rewrite Hbc. cbn [bind]. unfold bond_cut in Hc. rewrite Hc.
    rewrite dist_at_firstn by assumption. exact Hlt. }
  destruct (bond_cut etypes cutoff_3 specie_mask cut3b_mask (nspecie * bc) m)
    as [cm|] eqn:Ecm; [|congruence].
  destruct (bond_cut etypes cutoff_3 specie_mask cut3b_mask (nspecie * bc) n)
    as [cn|] eqn:Ecn; [|congruence].
  cbn [or0] in E2, E3.
  split; [apply (Hb m cm); [lia|assumption|assumption]|].
  apply (Hb n cn); [lia|assumption|assumption].
Qed.

End TripletInvariant.

(** C3 (as amended).  In the table either triplet builder returns, a cell
    [cross_bond_inds[m, k]] other than [-1] has [k > m] and holds an index
    [n] of the truncated list with [k <= n < ind_3].  The bonds whose
    distances are within their cutoffs are those of the row [m] and of the
    stored neighbour [n]: not above the cutoff in the scalar builder,
    strictly below the cutoffs resolved for them in the species-resolved
    builder. *)
Theorem triplet_table_invariant {F : Type} {NF : Num F} :
  (forall (bond_array_2 : list (brow F)) (bond_positions_2 : list (vec3 F))
          (cutoff_3 : F) (bond_array_3 : list (brow F))
          (cross_bond_inds : list (list Z)) (cross_bond_dists : list (list F))
          (triplet_counts : list Z),
      get_3_body_arrays bond_array_2 bond_positions_2 cutoff_3
      = Some (bond_array_3, cross_bond_inds, cross_bond_dists,
              triplet_counts) ->
      triplet_invariant bond_array_3 cross_bond_inds
                        (not_above cutoff_3 bond_array_3))
  /\ (forall (bond_array_2 : list (brow F))
             (bond_positions_2 : list (vec3 F)) (ctype : Z) (etypes : list Z)
             (cutoff_3 : list F) (nspecie : Z)
             (specie_mask cut3b_mask : list Z) (bond_array_3 : list (brow F))
             (cross_bond_inds : list (list Z))
             (cross_bond_dists : list (list F)) (triplet_counts : list Z),
         get_3_body_arrays_sepcut bond_array_2 bond_positions_2 ctype etypes
                                  cutoff_3 nspecie specie_mask cut3b_mask
         = Some (bond_array_3, cross_bond_inds, cross_bond_dists,
                 triplet_counts) ->
         triplet_invariant bond_array_3 cross_bond_inds
                           (below_resolved etypes cutoff_3 nspecie specie_mask
                                           cut3b_mask ctype bond_array_3)).
Proof.
  split; intros.
  - eapply scalar_triplet_invariant; eassumption.
  - eapply sepcut_triplet_invariant; eassumption.
Qed.

(** The invariant on the line of four atoms, for both builders. *)
Lemma triplet_table_invariant_witness :
  (get_3_body_arrays line4_ba2 line4_bp2 1%float
   = Some (line4_ba2, line4_inds, line4_dists, [2; 1; 0]%Z)
   /\ triplet_invariant line4_ba2 line4_inds (not_above 1%float line4_ba2))
  /\ (get_3_body_arrays_sepcut line4_ba2 line4_bp2 1 [1; 2; 1]%Z
        two_groups_cutoff_3 2 two_groups_mask two_groups_cut3b_mask
      = Some (line4_ba2, line4_inds_sepcut, line4_dists_sepcut, [1; 0; 0]%Z)
      /\ triplet_invariant line4_ba2 line4_inds_sepcut
           (below_resolved [1; 2; 1]%Z two_groups_cutoff_3 2 two_groups_mask
                           two_groups_cut3b_mask 1 line4_ba2)).
Proof.
  split; split.
  - vm_compute. reflexivity.
  - apply (proj1 (@triplet_table_invariant float _)
             line4_ba2 line4_bp2 1%float line4_ba2 line4_inds line4_dists
             [2; 1; 0]%Z).
    vm_compute. reflexivity.
  - vm_compute. reflexivity.
  - apply (proj2 (@triplet_table_invariant float _)
             line4_ba2 line4_bp2 1%Z [1; 2; 1]%Z two_groups_cutoff_3 2%Z
             two_groups_mask two_groups_cut3b_mask line4_ba2
             line4_inds_sepcut line4_dists_sepcut [1; 0; 0]%Z).
    vm_compute. reflexivity.
Defined.

(** C3, counterexample.  (1) Scalar builder, 3-body cutoff 1: the
    neighbour at distance exactly 1 stays in the truncated list and closes
    triplets, so [cross_bond_inds[0, 2] = 2] although [bond_array_3[2, 0]]
    is not below the cutoff.  (2) Species-resolved builder: row 0 skips
    neighbour 1, whose bond is beyond its own cutoff, and stores neighbour 2
    in column 1; [bond_array_3[1, 0]] is not below its resolved cutoff. *)
Lemma triplet_invariant_as_stated_fails :
  (get_3_body_arrays line4_ba2 line4_bp2 1%float
   = Some (line4_ba2, line4_inds, line4_dists, [2; 1; 0]%Z)
   /\ cell_at line4_inds 0 2 = 2%Z
   /\ (dist_at line4_ba2 2 <? 1%float)%num = false
   /\ ~ triplet_invariant_as_stated line4_ba2 line4_inds
          (fun i => dist_at line4_ba2 i <? 1%float)%num)
  /\ (get_3_body_arrays_sepcut line4_ba2 line4_bp2 1 [1; 2; 1]%Z
        two_groups_cutoff_3 2 two_groups_mask two_groups_cut3b_mask
      = Some (line4_ba2, line4_inds_sepcut, line4_dists_sepcut, [1; 0; 0]%Z)
      /\ cell_at line4_inds_sepcut 0 1 = 2%Z
      /\ below_resolved [1; 2; 1]%Z two_groups_cutoff_3 2 two_groups_mask
                        two_groups_cut3b_mask 1 line4_ba2 1 = false
      /\ ~ triplet_invariant_as_stated line4_ba2 line4_inds_sepcut
             (below_resolved [1; 2; 1]%Z two_groups_cutoff_3 2
                             two_groups_mask two_groups_cut3b_mask 1
                             line4_ba2)).
Proof.
  split.
  - split; [vm_compute; reflexivity|].
    split; [vm_compute; reflexivity|].
    split; [vm_compute; reflexivity|].
    intros H. destruct (H 0%nat 2%nat) as (_ & _ & _ & Hb).
    + vm_compute. lia.
    + vm_compute. lia.
    + vm_compute. discriminate.
    + vm_compute in Hb. discriminate.
  - split; [vm_compute; reflexivity|].
    split; [vm_compute; reflexivity|].
    split; [vm_compute; reflexivity|].
    intros H. destruct (H 0%nat 1%nat) as (_ & _ & _ & Hb).
    + vm_compute. lia.
    + vm_compute. lia.
    + vm_compute. discriminate.
    + vm_compute in Hb. discriminate.
Qed.

(** ** The registry *)

Local Open Scope string_scope.

(** C6 (as amended).  Each of the short names "2", "3", "2+3", "many" and
    "2+3+many", and each of the long names [two_body_mc], [three_body_mc]
    and [two_plus_three_plus_many_body_mc], is a key of the registry with
    and without the suffixes [_grad], [_en] and [_force_en], and maps to the
    force/force, gradient, energy/energy and force/energy kernel of its
    order; the long names of the 2+3 kernels are those of its four
    functions. *)
Theorem registry_variants :
  (forall (o : order) (m : mode),
      dict_get _str_to_kernel (String.append (short_name o) (suffix m))
      = Some (variant o m))
  /\ (forall (o : order) (m : mode),
         match long_name o with
         | Some base =>
             dict_get _str_to_kernel (String.append base (suffix m))
             = Some (variant o m)
         | None => True
         end)
  /\ dict_get _str_to_kernel "two_plus_three_body_mc"
     = Some (variant TwoPlusThree ForceForce)
  /\ dict_get _str_to_kernel "two_plus_three_body_mc_grad"
     = Some (variant TwoPlusThree Gradient)
  /\ dict_get _str_to_kernel "two_plus_three_mc_en"
     = Some (variant TwoPlusThree EnergyEnergy)
  /\ dict_get _str_to_kernel "two_plus_three_mc_force_en"
     = Some (variant TwoPlusThree ForceEnergy).
Proof.
  repeat split; try (intros [] []); vm_compute; reflexivity.
Qed.

(** C6, counterexample.  "mb" and "2+3+mb" are not keys of the registry,
    with any suffix: the many-body orders are registered as "many" and
    "2+3+many". *)
Lemma registry_has_no_mb :
  (forall m : mode,
      dict_get _str_to_kernel
               (String.append (short_name_spec ManyBody) (suffix m)) = None)
  /\ (forall m : mode,
         dict_get _str_to_kernel
                  (String.append (short_name_spec TwoPlusThreePlusMany)
                                 (suffix m)) = None)
  /\ ~ (forall (o : order) (m : mode),
           dict_get _str_to_kernel
                    (String.append (short_name_spec o) (suffix m))
           = Some (variant o m)).
Proof.
  split; [|split].
  - intros []; vm_compute; reflexivity.
  - intros []; vm_compute; reflexivity.
  - intros H. specialize (H ManyBody ForceForce). vm_compute in H.
    discriminate.
Qed.

Local Close Scope string_scope.

(** ** The arithmetic *)

(** The square root of binary64 is a NaN, a zero, plus infinity or a
    positive number. *)
Lemma SFsqrt_shape (x : spec_float) :
  match SFsqrt prec emax x with
  | S754_nan | S754_zero _ | S754_infinity false | S754_finite false _ _ =>
      True
  | _ => False
  end.
Proof.
  unfold SFsqrt. destruct x as [s|s| |s m e]; try exact I.
  - destruct s; exact I.
  - destruct s; [exact I|].
    destruct (SFsqrt_core_binary prec emax (Z.pos m) e) as [[mz ez] lz].
    unfold binary_round_aux.
    destruct (shr_fexp prec emax mz ez lz) as [mrs' e'].
    destruct (shr_fexp prec emax _ e' loc_Exact) as [mrs'' e''].
    destruct (shr_m mrs''); try exact I.
    destruct (e'' <=? emax - prec)%Z; exact I.
Qed.

Lemma float_sqrt_not_below (x c : float) :
  PrimFloat.ltb PrimFloat.zero c = false ->
  PrimFloat.ltb (PrimFloat.sqrt x) c = false.
Proof.
  rewrite !ltb_spec, sqrt_spec.
  pose proof (SFsqrt_shape (Prim2SF x)) as H.
  change (SFsqrt prec emax (Prim2SF x)) with (SF64sqrt (Prim2SF x)) in H.
  change (Prim2SF PrimFloat.zero) with (S754_zero false).
  destruct (SF64sqrt (Prim2SF x)) as [s|s| |s m e];
    destruct (Prim2SF c) as [s'|s'| |s' m' e'];
    try destruct s; try destruct s'; try contradiction;
    unfold SFltb, SFcompare; cbn; try reflexivity; try discriminate; auto.
Qed.

#[export] Instance NumLaws_float : NumLaws float.
Proof.
  constructor.
  - vm_compute. reflexivity.
  - exact float_sqrt_not_below.
Qed.

#[export] Instance NumLaws_R : NumLaws R.
Proof.
  constructor.
  - cbn. unfold Reqb. destruct (Req_dec_T 0 0); congruence.
  - intros x c. cbn. unfold Rltb.
    destruct (Rlt_dec 0 c) as [H|H]; [discriminate|]. intros _.
    destruct (Rlt_dec (R_sqrt.sqrt x) c) as [H'|H']; [|reflexivity].
    pose proof (sqrt_pos x). lra.
Qed.

(** ** The neighbour search *)

Section NeighbourSearch.

Context {F : Type} {NF : Num F}.
Local Open Scope num_scope.

Lemma within_zero {NL : NumLaws F} (cutoff : F) : within fzero cutoff = false.
Proof. unfold within. rewrite feqb_zero. apply andb_false_r. Qed.

(** The second pass reads back exactly the images the first pass stored. *)
Lemma fill_atom_record {NL : NumLaws F} (diff_curr : vec3 F) (cell : cell3 F)
      (cutoff : F) (sweep : list Z) (spec_curr : Z) (m : nat) :
  fill_atom cutoff spec_curr m (record_images diff_curr cell cutoff sweep)
  = map (fun im => (mk_row (norm im) im, im, wrap8 spec_curr,
                    wrap8 (Z.of_nat m)))
        (qualifying diff_curr cell cutoff sweep).
Proof.
  unfold fill_atom, record_images, qualifying.
  induction (sweep_images sweep) as [|s l IH]; [reflexivity|].
  cbn [map flat_map filter].
  destruct (within (norm (image diff_curr cell s)) cutoff) eqn:E.
  - rewrite E. cbn [app map]. now rewrite IH.
  - rewrite within_zero. cbn [app]. exact IH.
Qed.

Lemma flat_map_with_index_ext {A B : Type} (f g : nat * A -> list B)
      (l : list A) :
  (forall m a, nth_error l m = Some a -> f (m, a) = g (m, a)) ->
  flat_map f (with_index l) = flat_map g (with_index l).
Proof.
  intros H. unfold with_index.
  assert (Hgen : forall k, (forall m a, nth_error l m = Some a ->
                                        f ((k + m)%nat, a) = g ((k + m)%nat, a)) ->
                           flat_map f (combine (seq k (length l)) l)
                           = flat_map g (combine (seq k (length l)) l)).
  { clear H. induction l as [|a l IH]; intros k H; [reflexivity|].
    cbn [length seq combine flat_map].
    rewrite <- (Nat.add_0_r k) at 1 3. rewrite (H 0%nat a eq_refl).
    f_equal. apply IH. intros m b Hm.
    replace (S k + m)%nat with (k + S m)%nat by lia. apply H. exact Hm. }
  apply (Hgen 0%nat). intros m a. apply H.
Qed.

Lemma with_index_map {A B : Type} (f : A -> B) (l : list A) :
  with_index (map f l) = map (fun ma => (fst ma, f (snd ma))) (with_index l).
Proof.
  unfold with_index. rewrite length_map.
  generalize 0%nat. induction l as [|a l IH]; intros k; [reflexivity|].
  cbn [length seq map combine]. now rewrite IH.
Qed.

Lemma fill_rows_spec {NL : NumLaws F} (positions : list (vec3 F))
      (pos_atom : vec3 F) (cell : cell3 F) (cutoff_2 : F) (species : list Z)
      (sweep : list Z) :
  fill_rows positions pos_atom cell cutoff_2 species sweep
  = fill_spec positions pos_atom cell (fun _ => cutoff_2) species sweep.
Proof.
  unfold fill_rows, fill_spec. rewrite with_index_map, flat_map_concat_map.
  rewrite map_map, <- flat_map_concat_map.
  apply flat_map_ext. intros [m p]. cbn [fst snd].
  apply fill_atom_record.
Qed.

(** *** Sorting *)

Lemma map_nth_seq_id {A : Type} (l : list A) (d : A) :
  map (fun i => nth i l d) (seq 0 (length l)) = l.
Proof.
  induction l as [|a l IH]; [reflexivity|].
  cbn [length seq map nth]. f_equal.
  rewrite <- seq_shift, map_map. exact IH.
Qed.

Lemma take_by_perm {A : Type} (d : A) (l : list A) (sigma : list nat) :
  Permutation sigma (seq 0 (length l)) -> Permutation (take_by d l sigma) l.
Proof.
  intros H. unfold take_by.
  transitivity (map (fun i => nth i l d) (seq 0 (length l))).
  - now apply Permutation_map.
  - now rewrite map_nth_seq_id.
Qed.

Lemma take_by_map {A B : Type} (f : A -> B) (d : A) (l : list A)
      (sigma : list nat) :
  map f (take_by d l sigma) = take_by (f d) (map f l) sigma.
Proof.
  unfold take_by. rewrite map_map. apply map_ext. intros i.
  symmetry. apply map_nth.
Qed.

Lemma unzip4_take_by (rows : list (brow F * vec3 F * Z * Z))
      (sigma : list nat) :
  unzip4 (take_by entry0 rows sigma)
  = (take_by brow0 (fst (fst (fst (unzip4 rows)))) sigma,
     take_by vzero (snd (fst (fst (unzip4 rows)))) sigma,
     take_by 0%Z (snd (fst (unzip4 rows))) sigma,
     take_by 0%Z (snd (unzip4 rows)) sigma).
Proof.
  unfold unzip4. cbn [fst snd]. rewrite !take_by_map. reflexivity.
Qed.

Lemma keys_of_take_by (rows : list (brow F * vec3 F * Z * Z))
      (sigma : list nat) :
  keys_of (take_by entry0 rows sigma) = take_by fzero (keys_of rows) sigma.
Proof. unfold keys_of. rewrite take_by_map. reflexivity. Qed.

Lemma nth_take_by {A : Type} (d : A) (l : list A) (sigma : list nat)
      (i : nat) :
  (i < length sigma)%nat ->
  nth i (take_by d l sigma) d = nth (nth i sigma O) l d.
Proof.
  intros H. unfold take_by.
  rewrite nth_indep with (d' := nth O l d) by (rewrite length_map; lia).
  apply (map_nth (fun i => nth i l d)).
Qed.

Lemma sorted_rows_ascending (rows : list (brow F * vec3 F * Z * Z))
      (sigma : list nat) :
  is_argsort (keys_of rows) sigma ->
  ascending (keys_of (take_by entry0 rows sigma)).
Proof.
  intros [_ Hs] i j Hij. rewrite keys_of_take_by in *.
  assert (Hl : length (take_by fzero (keys_of rows) sigma) = length sigma)
    by (unfold take_by; apply length_map).
  rewrite Hl in Hij. rewrite !nth_take_by by lia.
  apply Hs. assumption.
Qed.

(** *** The 27 columns of the species-resolved first pass *)

Lemma fill_atom_app (cutoff : F) (spec_curr : Z) (m : nat)
      (a b : list (F * vec3 F)) :
  fill_atom cutoff spec_curr m (a ++ b)
  = fill_atom cutoff spec_curr m a ++ fill_atom cutoff spec_curr m b.
Proof. unfold fill_atom. apply flat_map_app. Qed.

Lemma fill_atom_zeros {NL : NumLaws F} (cutoff : F) (spec_curr : Z)
      (m k : nat) :
  fill_atom cutoff spec_curr m (repeat (fzero, vzero) k) = [].
Proof.
  induction k as [|k IH]; [reflexivity|].
  cbn [repeat]. unfold fill_atom in *. cbn [flat_map].
  rewrite within_zero. exact IH.
Qed.

Lemma upd_app {A : Type} (pre rest : list A) (d v : A) :
  upd (pre ++ d :: rest) (length pre) v = Some (pre ++ v :: rest).
Proof.
  induction pre as [|x pre IH]; cbn [app length upd]; [reflexivity|].
  rewrite IH. reflexivity.
Qed.

Lemma upd_past {A : Type} (a : list A) (i : nat) (v : A) :
  (length a <= i)%nat -> upd a i v = None.
Proof.
  revert i; induction a as [|x a IH]; intros i H; [destruct i; reflexivity|].
  destruct i as [|i]; cbn [length] in H; [lia|].
  cbn [upd]. rewrite IH by lia. reflexivity.
Qed.

(** While the loop runs, the row holds the stored images so far, cut or
    padded to 27 columns, and an image past column 27 never passed the
    test. *)
Lemma record_images_27_fold {NL : NumLaws F} (diff_curr : vec3 F)
      (cell : cell3 F) (rcut : F) (l done : list (Z * Z * Z))
      (row row' : list (F * vec3 F)) (c' : nat) (spec_curr : Z) (m : nat) :
  length row = 27%nat ->
  (exists k, row = firstn 27 (map (stored diff_curr cell rcut) done)
                   ++ repeat (fzero, vzero) k) ->
  fill_atom rcut spec_curr m row
  = fill_atom rcut spec_curr m (map (stored diff_curr cell rcut) done) ->
  foldM (store_27 diff_curr cell rcut) l (row, length done)
  = Some (row', c') ->
  fill_atom rcut spec_curr m row'
  = fill_atom rcut spec_curr m (map (stored diff_curr cell rcut) (done ++ l)).
Proof.
  revert done row. induction l as [|s l IH]; intros done row Hlen Hrow Hfill H.
  - cbn [foldM] in H. inversion H; subst. now rewrite app_nil_r.
  - cbn [foldM] in H. apply bind_some in H as ([row1 c1] & Hstep & H).
    unfold store_27 in Hstep.
    replace (done ++ s :: l) with ((done ++ [s]) ++ l)
      by (rewrite <- app_assoc; reflexivity).
    destruct Hrow as [k Hrow].
    assert (Hdone : length (map (stored diff_curr cell rcut) done)
                    = length done) by apply length_map.
    destruct (within (norm (image diff_curr cell s)) rcut) eqn:E.
    + apply bind_some in Hstep as (row2 & Hupd & Hstep).
      inversion Hstep; subst row1 c1; clear Hstep.
      destruct (Nat.lt_ge_cases (length done) 27) as [Hlt|Hge].
      2:{ rewrite upd_past in Hupd by lia. discriminate. }
      rewrite firstn_all2 in Hrow by lia.
      destruct k as [|k].
      { subst row. rewrite app_nil_r, length_map in Hlen. lia. }
      subst row. cbn [repeat] in Hupd.
      rewrite <- Hdone in Hupd. rewrite upd_app in Hupd.
      inversion Hupd; subst row2; clear Hupd.
      replace (S (length done)) with (length (done ++ [s])) in H
        by (rewrite length_app; cbn; lia).
      apply (IH _ _) in H; [exact H| | |].
      * rewrite length_app in *. cbn [length repeat] in *. lia.
      * exists k. rewrite map_app. cbn [map]. unfold stored at 3. rewrite E.
        rewrite firstn_all2
          by (rewrite length_app, length_map; cbn [length]; lia).
        rewrite <- app_assoc. reflexivity.
      * rewrite map_app, !fill_atom_app. cbn [map]. unfold stored at 3.
        rewrite E. f_equal.
        change ((norm (image diff_curr cell s), image diff_curr cell s)
                  :: repeat (fzero, vzero) k)
          with ([(norm (image diff_curr cell s), image diff_curr cell s)]
                  ++ repeat (fzero, vzero) k).
        rewrite fill_atom_app, fill_atom_zeros, app_nil_r. reflexivity.
    + inversion Hstep; subst row1 c1; clear Hstep.
      replace (S (length done)) with (length (done ++ [s])) in H
        by (rewrite length_app; cbn; lia).
      apply (IH _ _) in H; [exact H|assumption| |].
      * rewrite map_app. cbn [map]. unfold stored at 2. rewrite E.
        destruct (Nat.lt_ge_cases (length done) 27) as [Hlt|Hge].
        -- rewrite firstn_all2 in Hrow by lia.
           destruct k as [|k].
           { subst row. rewrite app_nil_r, length_map in Hlen. lia. }
           exists k. rewrite firstn_all2
             by (rewrite length_app, length_map; cbn [length]; lia).
           rewrite Hrow. cbn [repeat]. rewrite <- app_assoc. reflexivity.
        -- exists k. rewrite firstn_app.
           replace (27 - length (map (stored diff_curr cell rcut) done))%nat
             with 0%nat by lia.
           cbn [firstn]. rewrite app_nil_r. exact Hrow.
      * rewrite Hfill, map_app, fill_atom_app. cbn [map]. unfold stored at 3.
        rewrite E.
        change [(@fzero F NF, @vzero F NF)] with (repeat (@fzero F NF, @vzero F NF) 1).
        rewrite fill_atom_zeros, app_nil_r. reflexivity.
Qed.

Lemma record_images_map (diff_curr : vec3 F) (cell : cell3 F) (rcut : F)
      (sweep : list Z) :
  record_images diff_curr cell rcut sweep
  = map (stored diff_curr cell rcut) (sweep_images sweep).
Proof. reflexivity. Qed.

(** A first pass that does not run out of columns stores what the scalar
    first pass stores. *)
Lemma record_images_27_fill {NL : NumLaws F} (diff_curr : vec3 F)
      (cell : cell3 F) (rcut : F) (sweep : list Z)
      (row : list (F * vec3 F)) (spec_curr : Z) (m : nat) :
  record_images_27 diff_curr cell rcut sweep = Some row ->
  fill_atom rcut spec_curr m row
  = fill_atom rcut spec_curr m (record_images diff_curr cell rcut sweep).
Proof.
  unfold record_images_27. intros H.
  apply bind_some in H as ([row' c'] & H & Hr). inversion Hr; subst row'.
  rewrite record_images_map.
  apply record_images_27_fold
    with (done := []) (row := repeat (fzero, vzero) 27)
         (spec_curr := spec_curr) (m := m) in H; [exact H|reflexivity| |].
  - exists 27%nat. reflexivity.
  - cbn [map]. rewrite fill_atom_zeros. reflexivity.
Qed.

(** *** The rows of the two builders *)

Lemma dist_of_mk_row (d : F) (c : vec3 F) : dist_of (mk_row d c) = d.
Proof. destruct c as [[x y] z]. reflexivity. Qed.

Lemma with_index_in {A : Type} (l : list A) (m : nat) (a : A) :
  In (m, a) (with_index l) <-> nth_error l m = Some a.
Proof.
  unfold with_index.
  assert (Hgen : forall k, In (m, a) (combine (seq k (length l)) l)
                           <-> (k <= m)%nat /\ nth_error l (m - k) = Some a).
  { induction l as [|x l IH]; intros k.
    - cbn. split; [tauto|]. intros [_ H]. destruct (m - k)%nat; discriminate.
    - cbn [length seq combine In]. rewrite IH. split.
      + intros [H|[Hk H]].
        * inversion H; subst. rewrite Nat.sub_diag. split; [lia|reflexivity].
        * split; [lia|]. replace (m - k)%nat with (S (m - S k)) by lia.
          exact H.
      + intros [Hk H]. destruct (Nat.eq_dec k m) as [->|Hne].
        * rewrite Nat.sub_diag in H. cbn in H. inversion H. now left.
        * right. split; [lia|].
          replace (m - k)%nat with (S (m - S k)) in H by lia. exact H. }
  rewrite Hgen, Nat.sub_0_r. split; [tauto|]. intros H. split; [lia|exact H].
Qed.

Lemma fill_spec_in (positions : list (vec3 F)) (pos_atom : vec3 F)
      (cell : cell3 F) (cutoff : nat -> F) (species : list Z)
      (sweep : list Z) (r : brow F * vec3 F * Z * Z) :
  In r (fill_spec positions pos_atom cell cutoff species sweep) ->
  exists m p im,
    nth_error positions m = Some p
    /\ In im (map (image (vsub p pos_atom) cell) (sweep_images sweep))
    /\ within (norm im) (cutoff m) = true
    /\ r = entry_of species m im.
Proof.
  unfold fill_spec. rewrite in_flat_map. intros ([m p] & Hmp & Hr).
  cbn [fst snd] in Hr. rewrite in_map_iff in Hr.
  destruct Hr as (im & <- & Him). unfold qualifying in Him.
  apply filter_In in Him as [Him Hw].
  exists m, p, im. apply with_index_in in Hmp. auto.
Qed.

Lemma fill_spec_nonzero (positions : list (vec3 F)) (pos_atom : vec3 F)
      (cell : cell3 F) (cutoff : nat -> F) (species : list Z)
      (sweep : list Z) (r : brow F * vec3 F * Z * Z) :
  In r (fill_spec positions pos_atom cell cutoff species sweep) ->
  (dist_of (fst (fst (fst r))) =? fzero) = false.
Proof.
  intros H. apply fill_spec_in in H as (m & p & im & _ & _ & Hw & ->).
  unfold entry_of. cbn [fst]. rewrite dist_of_mk_row.
  unfold within in Hw. apply andb_prop in Hw as [_ Hw].
  now apply negb_true_iff in Hw.
Qed.

(** With an index array that sorts the fill distances, the output is
    the sorted rearrangement of the fill rows. *)
Lemma sort_rows_output (argsort : list F -> list nat)
      (positions : list (vec3 F)) (pos_atom : vec3 F) (cell : cell3 F)
      (cutoff : nat -> F) (species : list Z) (sweep : list Z) :
  let fill := fill_spec positions pos_atom cell cutoff species sweep in
  is_argsort (keys_of fill) (argsort (keys_of fill)) ->
  sorted_output argsort fill (unzip4 (sort_rows argsort fill)).
Proof.
  intros fill Hs. unfold sorted_output. unfold sort_rows.
  fold (keys_of fill). set (sigma := argsort (keys_of fill)) in *.
  assert (Hp : Permutation (take_by entry0 fill sigma) fill).
  { apply take_by_perm. destruct Hs as [Hs _].
    unfold keys_of in Hs. now rewrite length_map in Hs. }
  split; [apply unzip4_take_by|]. split; [eauto|]. split.
  - unfold unzip4 at 1. cbn [fst]. rewrite map_map.
    apply sorted_rows_ascending. exact Hs.
  - unfold unzip4. cbn [fst]. rewrite Forall_map, Forall_forall.
    intros r Hr. apply (Permutation_in _ Hp) in Hr.
    eapply fill_spec_nonzero. exact Hr.
Qed.

Lemma mapM2_with_index {A B C : Type} (f : nat * A -> option B)
      (g : nat * B -> option C) (h : nat * A -> C) (l : list A)
      (t : list B) (u : list C) :
  mapM f (with_index l) = Some t -> mapM g (with_index t) = Some u ->
  (forall m a b c, nth_error l m = Some a -> f (m, a) = Some b ->
                   g (m, b) = Some c -> c = h (m, a)) ->
  u = map h (with_index l).
Proof.
  unfold with_index. intros Hf Hg H.
  assert (Hgen : forall k t u,
             mapM f (combine (seq k (length l)) l) = Some t ->
             mapM g (combine (seq k (length t)) t) = Some u ->
             (forall m a b c, nth_error l m = Some a ->
                              f ((k + m)%nat, a) = Some b ->
                              g ((k + m)%nat, b) = Some c ->
                              c = h ((k + m)%nat, a)) ->
             u = map h (combine (seq k (length l)) l)).
  { clear. induction l as [|a l IH]; intros k t u Hf Hg H.
    - cbn in Hf. inversion Hf; subst. cbn in Hg. now inversion Hg.
    - cbn [length seq combine mapM] in Hf.
      apply bind_some in Hf as (b & Hb & Hf).
      apply bind_some in Hf as (t' & Ht' & Hf). inversion Hf; subst t.
      cbn [length seq combine mapM] in Hg.
      apply bind_some in Hg as (c & Hc & Hg).
      apply bind_some in Hg as (u' & Hu' & Hg). inversion Hg; subst u.
      cbn [length seq combine map]. f_equal.
      + specialize (H 0%nat a b c eq_refl). rewrite Nat.add_0_r in H. auto.
      + eapply IH; [eassumption|eassumption|].
        intros m a' b' c' Hm. replace (S k + m)%nat with (k + S m)%nat by lia.
        apply H. exact Hm. }
  eapply Hgen; [eassumption|eassumption|]. intros m a b c. apply H.
Qed.

Lemma fill_rows_sepcut_spec {NL : NumLaws F} (positions : list (vec3 F))
      (pos_atom : vec3 F) (cell : cell3 F) (cutoff_2 : list F)
      (species : list Z) (sweep : list Z) (specie_mask bond_mask : list Z)
      (bcn : Z) (rows : list (brow F * vec3 F * Z * Z)) :
  fill_rows_sepcut positions pos_atom cell cutoff_2 species sweep
                   specie_mask bond_mask bcn = Some rows ->
  rows = fill_spec positions pos_atom cell
           (fun n => or0 (bond_cutoff_2 cutoff_2 species specie_mask
                                        bond_mask bcn n))
           species sweep.
Proof.
  unfold fill_rows_sepcut. intros H.
  apply bind_some in H as (table & Ht & H).
  apply bind_some in H as (filled & Hf & H). inversion H; subst rows.
  unfold fill_spec. rewrite flat_map_concat_map. f_equal.
  eapply mapM2_with_index; [exact Ht|exact Hf|].
  intros m p row c Hm Hrow Hc. cbn [fst snd] in *.
  destruct (nth_error species m) as [sn|] eqn:Esn; [|discriminate].
  cbn [bind] in Hrow, Hc.
  destruct (py_get specie_mask sn) as [bn|] eqn:Ebn; [|discriminate].
  cbn [bind] in Hrow, Hc.
  destruct (resolve_cutoff cutoff_2 bond_mask bn bcn) as [rcut|] eqn:Erc;
    [|discriminate].
  cbn [bind] in Hrow, Hc. inversion Hc; subst c.
  rewrite (record_images_27_fill _ _ _ _ _ _ Hrow), fill_atom_record.
  unfold bond_cutoff_2. rewrite Esn. cbn [bind]. rewrite Ebn. cbn [bind].
  rewrite Erc. cbn [or0]. apply map_ext. intros im. unfold entry_of.
  now rewrite (nth_error_nth _ _ _ Esn).
Qed.

End NeighbourSearch.

(** ** Deciding [is_argsort] *)

Lemma pairwiseb_nth {A : Type} (r : A -> A -> bool) (l : list A) (d : A)
      (i j : nat) :
  pairwiseb r l = true -> (i < j < length l)%nat ->
  r (nth i l d) (nth j l d) = true.
Proof.
  revert i j; induction l as [|x l IH]; intros i j H Hij;
    [cbn in Hij; lia|].
  cbn [pairwiseb] in H. apply andb_prop in H as [Hx Hl].
  cbn [length] in Hij. destruct j as [|j]; [lia|].
  destruct i as [|i]; cbn [nth].
  - rewrite forallb_forall in Hx. apply Hx. apply nth_In. lia.
  - apply IH; [assumption|lia].
Qed.

Lemma is_argsortb_sound {F : Type} {NF : Num F} (keys : list F)
      (sigma : list nat) :
  is_argsortb keys sigma = true -> is_argsort keys sigma.
Proof.
  unfold is_argsortb. intros H.
  apply andb_prop in H as [H Hs]. apply andb_prop in H as [Hl Hi].
  apply Nat.eqb_eq in Hl. rewrite forallb_forall in Hi.
  assert (Hincl : incl (seq 0 (length keys)) sigma).
  { intros i Hin. apply Hi in Hin. apply existsb_exists in Hin.
    destruct Hin as (x & Hx & E). apply Nat.eqb_eq in E. now subst. }
  split.
  - symmetry. apply NoDup_Permutation_bis.
    + apply seq_NoDup.
    + rewrite length_seq. lia.
    + exact Hincl.
  - intros i j Hij.
    apply (pairwiseb_nth _ _ O) with (i := i) (j := j) in Hs; [|exact Hij].
    now apply negb_true_iff in Hs.
Qed.

(** ** Sorted output *)

(** [is_argsort] of explicit arrays, by evaluation. *)
Ltac small_argsort := apply is_argsortb_sound; vm_compute; reflexivity.

(** C4 (as amended).  Both neighbour searches return the fill arrays read
    through the one index array [argsort] gives for the distance column:
    whenever that index array sorts the column, the four outputs are the
    same rearrangement of the qualifying images, the distances ascend, and
    no entry has distance zero.  Nothing is said of the order among
    entries of equal distance. *)
Theorem neighbours_sorted_output {F : Type} {NF : Num F} {NL : NumLaws F} :
  (forall (argsort : list F -> list nat) (positions : list (vec3 F))
          (atom : nat) (cell : cell3 F) (cutoff_2 : F) (species : list Z)
          (sweep : list Z) (pos_atom : vec3 F),
      nth_error positions atom = Some pos_atom ->
      (length positions <= length species)%nat ->
      let fill := fill_spec positions pos_atom cell (fun _ => cutoff_2)
                            species sweep in
      is_argsort (keys_of fill) (argsort (keys_of fill)) ->
      exists out,
        get_2_body_arrays argsort positions atom cell cutoff_2 species sweep
        = Some out
        /\ sorted_output argsort fill out)
  /\ (forall (argsort : list F -> list nat) (positions : list (vec3 F))
             (atom : nat) (cell : cell3 F) (cutoff_2 : list F)
             (species : list Z) (sweep : list Z) (nspecie : Z)
             (specie_mask bond_mask : list Z) (pos_atom : vec3 F)
             (sa bc : Z) out,
         nth_error positions atom = Some pos_atom ->
         nth_error species atom = Some sa ->
         py_get specie_mask sa = Some bc ->
         get_2_body_arrays_sepcut argsort positions atom cell cutoff_2
                                  species sweep nspecie specie_mask bond_mask
         = Some out ->
         let fill :=
           fill_spec positions pos_atom cell
                     (fun n => or0 (bond_cutoff_2 cutoff_2 species specie_mask
                                                  bond_mask (nspecie * bc) n))
                     species sweep in
         is_argsort (keys_of fill) (argsort (keys_of fill)) ->
         sorted_output argsort fill out).
Proof.
  split.
  - intros argsort positions atom cell cutoff_2 species sweep pos_atom
           Hpos Hlen fill Hs.
    unfold get_2_body_arrays. rewrite Hpos. cbn [bind].
    rewrite (proj2 (Nat.leb_le _ _) Hlen).
    eexists. split; [reflexivity|].
    rewrite fill_rows_spec. apply sort_rows_output. exact Hs.
  - intros argsort positions atom cell cutoff_2 species sweep nspecie
           specie_mask bond_mask pos_atom sa bc out Hpos Hsa Hbc Hget fill Hs.
    unfold get_2_body_arrays_sepcut in Hget.
    rewrite Hpos, Hsa in Hget. cbn [bind] in Hget.
    rewrite Hbc in Hget. cbn [bind] in Hget.
    apply bind_some in Hget as (rows & Hrows & Hget).
    inversion Hget; subst out.
    apply fill_rows_sepcut_spec in Hrows. subst rows.
    apply sort_rows_output. exact Hs.
Qed.

(** The theorem on the line of four atoms, with one cutoff and with the
    cutoffs of two species groups. *)
Lemma neighbours_sorted_output_witness :
  (exists out,
      get_2_body_arrays argsort_stable line4 0 (cubic 1e7%float) 2%float
                        [1; 1; 1; 1]%Z sweep1 = Some out
      /\ sorted_output argsort_stable
           (fill_spec line4 (0, 0, 0)%float (cubic 1e7%float)
                      (fun _ => 2%float) [1; 1; 1; 1]%Z sweep1) out)
  /\ sorted_output argsort_stable
       (fill_spec line4 (0, 0, 0)%float (cubic 1e7%float)
          (fun n => or0 (bond_cutoff_2 [2; 0.125]%float [1; 1; 2; 1]%Z
                                       two_groups_mask two_groups_cut3b_mask
                                       (2 * 0) n))
          [1; 1; 2; 1]%Z sweep1)
       ([(0.5, 1, 0, 0); (1, 1, 0, 0)]%float,
        [(0.5, 0, 0); (1, 0, 0)]%float, [1; 1]%Z, [1; 3]%Z).
Proof.
  split.
  - apply (proj1 (@neighbours_sorted_output float _ _)
             argsort_stable line4 0%nat (cubic 1e7%float) 2%float
             [1; 1; 1; 1]%Z sweep1 (0, 0, 0)%float).
    + reflexivity.
    + vm_compute. lia.
    + small_argsort.
  - apply (proj2 (@neighbours_sorted_output float _ _)
             argsort_stable line4 0%nat (cubic 1e7%float) [2; 0.125]%float
             [1; 1; 2; 1]%Z sweep1 2%Z two_groups_mask two_groups_cut3b_mask
             (0, 0, 0)%float 1%Z 0%Z).
    + reflexivity.
    + reflexivity.
    + reflexivity.
    + vm_compute. reflexivity.
    + small_argsort.
Defined.

(** C4, counterexample.  One atom in a cubic cell of side 1, cutoff 1.5:
    the 18 neighbours are its images at distances 1 and [sqrt 2].  The
    quicksort partitions the 18 rows once, and the search returns the
    images at distance 1 in the order of fill rows 8, 2, 15, 6, 11, 9:
    the bond [(0, 0, -1)], filled after [(-1, 0, 0)], comes out before
    it. *)
Lemma stable_order_not_kept :
  let fill := fill_spec lone_atom (0, 0, 0)%float (cubic 1%float)
                        (fun _ => 1.5%float) [1%Z] sweep1 in
  length fill = 18%nat
  /\ nth 2 fill entry0
     = ((1, -1, 0, 0)%float, (-1, 0, 0)%float, 1%Z, 0%Z)
  /\ nth 8 fill entry0
     = ((1, 0, 0, -1)%float, (0, 0, -1)%float, 1%Z, 0%Z)
  /\ run_quicksort1 (keys_of fill)
     = Some [8; 2; 15; 6; 11; 9; 16; 14; 13; 12; 0; 17; 7; 5; 4; 3; 1; 10]%nat
  /\ is_argsort (keys_of fill) (numba_argsort (keys_of fill))
  /\ match get_2_body_arrays numba_argsort lone_atom 0 (cubic 1%float)
                             1.5%float [1%Z] sweep1 with
     | Some (bond_array_2, bond_positions_2, _, _) =>
         firstn 2 bond_array_2 = [(1, 0, 0, -1); (1, -1, 0, 0)]%float
         /\ firstn 2 bond_positions_2 = [(0, 0, -1); (-1, 0, 0)]%float
     | None => False
     end
  /\ ~ keeps_fill_order (keys_of fill) (numba_argsort (keys_of fill)).
Proof.
  intros fill.
  assert (Hs : numba_argsort (keys_of fill)
               = [8; 2; 15; 6; 11; 9; 16; 14; 13; 12; 0; 17; 7; 5; 4; 3; 1;
                  10]%nat) by (vm_compute; reflexivity).
  split; [vm_compute; reflexivity|]. split; [vm_compute; reflexivity|].
  split; [vm_compute; reflexivity|]. split; [vm_compute; reflexivity|].
  split; [small_argsort|]. split; [vm_compute; split; reflexivity|].
  intros H. specialize (H 0%nat 1%nat). rewrite Hs in H.
  cbn [length nth] in H.
  assert (8 < 2)%nat; [apply H; [lia|vm_compute; reflexivity]|lia].
Qed.

(** ** What the integer arrays hold *)

Section IntegerStorage.

Context {F : Type} {NF : Num F}.
Local Open Scope num_scope.

Lemma nth_map_in {A B : Type} (f : A -> B) (l : list A) (i : nat)
      (d : B) (d0 : A) :
  (i < length l)%nat -> nth i (map f l) d = f (nth i l d0).
Proof.
  intros H. rewrite nth_indep with (d' := f d0) by (now rewrite length_map).
  apply map_nth.
Qed.

Lemma sorted_output_int8 (argsort : list F -> list nat)
      (positions : list (vec3 F)) (pos_atom : vec3 F) (cell : cell3 F)
      (cutoff : nat -> F) (species : list Z) (sweep : list Z)
      (out : list (brow F) * list (vec3 F) * list Z * list Z) :
  sorted_output argsort
                (fill_spec positions pos_atom cell cutoff species sweep) out ->
  int8_rows positions pos_atom cell cutoff species sweep out.
Proof.
  intros (_ & (rows & -> & Hp) & _). unfold int8_rows.
  split; [exists rows; split; [reflexivity|exact Hp]|].
  unfold unzip4. cbn [fst snd]. rewrite length_map. intros i Hi.
  assert (Hin : In (nth i rows entry0) rows) by (apply nth_In; exact Hi).
  apply (Permutation_in _ Hp) in Hin.
  apply fill_spec_in in Hin as (m & p & im & Hm & Him & Hw & Hr).
  exists m, p, im. split; [exact Hm|].
  split; [unfold qualifying; apply filter_In; split; assumption|].
  rewrite !(nth_map_in _ _ _ entry0) by exact Hi.
  rewrite Hr. unfold entry_of. cbn [fst snd]. repeat split; reflexivity.
Qed.

Lemma row_layout_index_table (ind_3 m : nat) (dec : nat -> option F)
      (row : list Z * list F * Z) :
  (m < ind_3)%nat ->
  row = row_layout ind_3 m (accepted dec (seq (S m) (ind_3 - S m))) ->
  let found := accepted dec (seq (S m) (ind_3 - S m)) in
  snd row = wrap8 (Z.of_nat (length found))
  /\ (forall j : nat,
         (j < length found)%nat ->
         (S m + j <= fst (nth j found (O, fzero)) < ind_3)%nat
         /\ nth (S m + j) (fst (fst row)) (-1)%Z
            = Z.of_nat (fst (nth j found (O, fzero))))
  /\ (forall k : nat,
         (k <= m \/ m + length found < k)%nat ->
         nth k (fst (fst row)) (-1)%Z = (-1)%Z).
Proof.
  intros Hm -> found.
  assert (Hlen : (length found <= ind_3 - S m)%nat).
  { unfold found. etransitivity; [apply accepted_length|].
    now rewrite length_seq. }
  destruct (@row_layout_packed F NF ind_3 m found Hm Hlen)
    as (_ & _ & L3 & L4).
  split; [reflexivity|]. split.
  - intros j Hj. destruct (L3 j Hj) as [Hcell _]. split; [|exact Hcell].
    destruct (nth_error found j) as [[n d]|] eqn:E.
    2:{ apply nth_error_None in E. lia. }
    rewrite (nth_error_nth _ _ _ E). cbn [fst].
    apply accepted_seq_nth in E. lia.
  - intros k Hk. apply L4. exact Hk.
Qed.

Lemma scalar_index_table (bond_array_2 : list (brow F))
      (bond_positions_2 : list (vec3 F)) (cutoff_3 : F)
      (bond_array_3 : list (brow F)) (cross_bond_inds : list (list Z))
      (cross_bond_dists : list (list F)) (triplet_counts : list Z) :
  get_3_body_arrays bond_array_2 bond_positions_2 cutoff_3
  = Some (bond_array_3, cross_bond_inds, cross_bond_dists, triplet_counts) ->
  index_table (length bond_array_3)
    (fun m => accepted (near (firstn (length bond_array_3) bond_positions_2)
                             cutoff_3 m)
                       (seq (S m) (length bond_array_3 - S m)))
    cross_bond_inds triplet_counts.
Proof.
  unfold get_3_body_arrays.
  set (ind_3 := first_above cutoff_3 (map dist_of bond_array_2)).
  destruct (ind_3 <=? length bond_positions_2)%nat; [|discriminate].
  unfold unzip3. intros H. inversion H; subst; clear H.
  replace (length (firstn ind_3 bond_array_2)) with ind_3
    by (symmetry; apply length_firstn_first_above).
  intros m Hm. unfold cell_at. rewrite !map_map.
  rewrite !nth_map_seq by assumption.
  apply row_layout_index_table; [assumption|].
  apply cross_row_layout. assumption.
Qed.

Lemma sepcut_index_table (bond_array_2 : list (brow F))
      (bond_positions_2 : list (vec3 F)) (ctype : Z) (etypes : list Z)
      (cutoff_3 : list F) (nspecie : Z) (specie_mask cut3b_mask : list Z)
      (bc : Z) (bond_array_3 : list (brow F))
      (cross_bond_inds : list (list Z)) (cross_bond_dists : list (list F))
      (triplet_counts : list Z) :
  py_get specie_mask ctype = Some bc ->
  get_3_body_arrays_sepcut bond_array_2 bond_positions_2 ctype etypes
                           cutoff_3 nspecie specie_mask cut3b_mask
  = Some (bond_array_3, cross_bond_inds, cross_bond_dists, triplet_counts) ->
  index_table (length bond_array_3)
    (fun m =>
       let bcut := bond_cut etypes cutoff_3 specie_mask cut3b_mask
                            (nspecie * bc) in
       accepted
         (near_sepcut bond_array_2
            (firstn (length bond_array_3) bond_positions_2)
            (or0 (bcut m)) (fun n => or0 (bcut n))
            (fun n => or0 (cross_cutoff_3 etypes cutoff_3 nspecie
                                          specie_mask cut3b_mask m n)) m)
         (seq (S m) (length bond_array_3 - S m)))
    cross_bond_inds triplet_counts.
Proof.
  unfold get_3_body_arrays_sepcut. intros Hbc H.
  rewrite Hbc in H. cbn [bind] in H.
  apply bind_some in H as (cut3 & Hcut3 & H).
  set (ind_3 := first_above cut3 (map dist_of bond_array_2)) in *.
  apply bind_some in H as (rws & Hrows & H).
  unfold unzip3 in H. inversion H; subst; clear H.
  replace (length (firstn ind_3 bond_array_2)) with ind_3
    by (symmetry; apply length_firstn_first_above).
  intros m Hm. unfold cell_at.
  destruct (mapM_some_nth _ _ m Hrows (a := m)) as (r & Hr & Hrow).
  { rewrite nth_error_nth' with (d := 0%nat) by (now rewrite length_seq).
    now rewrite seq_nth. }
  assert (Hlen : length rws = ind_3)
    by (rewrite (mapM_some_length _ _ Hrows); apply length_seq).
  assert (Hi : nth m (map (fun r => fst (fst r)) rws) [] = fst (fst r)).
  { rewrite nth_indep with (d' := fst (fst r))
      by (rewrite length_map; lia).
    rewrite map_nth with (f := fun r : list Z * list F * Z => fst (fst r)).
    now rewrite (nth_error_nth _ _ _ Hr). }
  assert (Ht : nth m (map (fun r => snd r) rws) 0%Z = snd r).
  { rewrite nth_indep with (d' := snd r) by (rewrite length_map; lia).
    rewrite map_nth with (f := fun r : list Z * list F * Z => snd r).
    now rewrite (nth_error_nth _ _ _ Hr). }
  rewrite Hi, Ht.
  apply cross_row_sepcut_layout in Hrow as (_ & _ & Hrow); [|assumption].
  apply row_layout_index_table; assumption.
Qed.

End IntegerStorage.

(** C10 (as amended).  [bond_indices], [etypes] and [triplet_counts] are
    [int8] arrays: row [i] of the neighbour arrays is the bond to one
    image of one source atom [m], with [bond_indices[i]] the [int8] image
    of [m] and [etypes[i]] that of [species[m]], and [triplet_counts[m]]
    is the [int8] image of the number of neighbours accepted for row [m].
    The image of a value is congruent to it modulo 256 and lies in
    [-128 .. 127], so a non-negative index, code or count is stored
    unchanged exactly when it is at most 127.  [cross_bond_inds] is not
    reduced: column [m + 1 + j] of row [m] holds the index of the [j]-th
    accepted neighbour itself, and every other cell [-1]. *)
Theorem integer_arrays {F : Type} {NF : Num F} {NL : NumLaws F} :
  (forall z : Z,
      (-128 <= wrap8 z <= 127)%Z
      /\ ((wrap8 z - z) mod 256 = 0)%Z
      /\ ((0 <= z)%Z -> (wrap8 z = z <-> (z <= 127)%Z)))
  /\ (forall (argsort : list F -> list nat) (positions : list (vec3 F))
             (atom : nat) (cell : cell3 F) (cutoff_2 : F) (species : list Z)
             (sweep : list Z) (pos_atom : vec3 F),
         nth_error positions atom = Some pos_atom ->
         (length positions <= length species)%nat ->
         let fill := fill_spec positions pos_atom cell (fun _ => cutoff_2)
                               species sweep in
         is_argsort (keys_of fill) (argsort (keys_of fill)) ->
         exists out,
           get_2_body_arrays argsort positions atom cell cutoff_2 species
                             sweep = Some out
           /\ int8_rows positions pos_atom cell (fun _ => cutoff_2) species
                       sweep out)
  /\ (forall (argsort : list F -> list nat) (positions : list (vec3 F))
             (atom : nat) (cell : cell3 F) (cutoff_2 : list F)
             (species : list Z) (sweep : list Z) (nspecie : Z)
             (specie_mask bond_mask : list Z) (pos_atom : vec3 F)
             (sa bc : Z) out,
         nth_error positions atom = Some pos_atom ->
         nth_error species atom = Some sa ->
         py_get specie_mask sa = Some bc ->
         get_2_body_arrays_sepcut argsort positions atom cell cutoff_2
                                  species sweep nspecie specie_mask bond_mask
         = Some out ->
         let cutoff :=
           fun n => or0 (bond_cutoff_2 cutoff_2 species specie_mask
                                       bond_mask (nspecie * bc) n) in
         let fill := fill_spec positions pos_atom cell cutoff species sweep in
         is_argsort (keys_of fill) (argsort (keys_of fill)) ->
         int8_rows positions pos_atom cell cutoff species sweep out)
  /\ (forall (bond_array_2 : list (brow F))
             (bond_positions_2 : list (vec3 F)) (cutoff_3 : F)
             (bond_array_3 : list (brow F)) (cross_bond_inds : list (list Z))
             (cross_bond_dists : list (list F)) (triplet_counts : list Z),
         get_3_body_arrays bond_array_2 bond_positions_2 cutoff_3
         = Some (bond_array_3, cross_bond_inds, cross_bond_dists,
                 triplet_counts) ->
         index_table (length bond_array_3)
           (fun m =>
              accepted (near (firstn (length bond_array_3) bond_positions_2)
                             cutoff_3 m)
                       (seq (S m) (length bond_array_3 - S m)))
           cross_bond_inds triplet_counts)
  /\ (forall (bond_array_2 : list (brow F))
             (bond_positions_2 : list (vec3 F)) (ctype : Z) (etypes : list Z)
             (cutoff_3 : list F) (nspecie : Z)
             (specie_mask cut3b_mask : list Z) (bc : Z)
             (bond_array_3 : list (brow F)) (cross_bond_inds : list (list Z))
             (cross_bond_dists : list (list F)) (triplet_counts : list Z),
         py_get specie_mask ctype = Some bc ->
         get_3_body_arrays_sepcut bond_array_2 bond_positions_2 ctype etypes
                                  cutoff_3 nspecie specie_mask cut3b_mask
         = Some (bond_array_3, cross_bond_inds, cross_bond_dists,
                 triplet_counts) ->
         index_table (length bond_array_3)
           (fun m =>
              let bcut := bond_cut etypes cutoff_3 specie_mask cut3b_mask
                                   (nspecie * bc) in
              accepted
                (near_sepcut bond_array_2
                   (firstn (length bond_array_3) bond_positions_2)
                   (or0 (bcut m)) (fun n => or0 (bcut n))
                   (fun n => or0 (cross_cutoff_3 etypes cutoff_3 nspecie
                                                 specie_mask cut3b_mask m n))
                   m)
                (seq (S m) (length bond_array_3 - S m)))
           cross_bond_inds triplet_counts).
Proof.
  split; [|split; [|split; [|split]]].
  - intros z. split; [apply wrap8_range|]. split; [apply wrap8_congr|].
    intros Hz. rewrite wrap8_id_iff. lia.
  - intros argsort positions atom cell cutoff_2 species sweep pos_atom
           Hpos Hlen fill Hs.
    unfold get_2_body_arrays. rewrite Hpos. cbn [bind].
    rewrite (proj2 (Nat.leb_le _ _) Hlen).
    eexists. split; [reflexivity|].
    rewrite fill_rows_spec. eapply sorted_output_int8.
    apply sort_rows_output. exact Hs.
  - intros argsort positions atom cell cutoff_2 species sweep nspecie
           specie_mask bond_mask pos_atom sa bc out Hpos Hsa Hbc Hget
           cutoff fill Hs.
    unfold get_2_body_arrays_sepcut in Hget.
    rewrite Hpos, Hsa in Hget. cbn [bind] in Hget.
    rewrite Hbc in Hget. cbn [bind] in Hget.
    apply bind_some in Hget as (rows & Hrows & Hget).
    inversion Hget; subst out.
    apply fill_rows_sepcut_spec in Hrows. subst rows.
    eapply sorted_output_int8. apply sort_rows_output. exact Hs.
  - intros. eapply scalar_index_table. eassumption.
  - intros. eapply sepcut_index_table; eassumption.
Qed.

(** The theorem on the line of 131 atoms, where the indices of the last
    neighbours no longer fit in [int8], and on the line of four atoms. *)
Lemma integer_arrays_witness :
  (exists out,
      line131_bonds = Some out
      /\ int8_rows line131 (0, 0, 0)%float (cubic 1e7%float)
                   (fun _ => 3%float) (repeat 1%Z 131) sweep1 out)
  /\ int8_rows line4 (0, 0, 0)%float (cubic 1e7%float)
       (fun n => or0 (bond_cutoff_2 [2; 0.125]%float [1; 1; 2; 1]%Z
                                    two_groups_mask two_groups_cut3b_mask
                                    (2 * 0) n))
       [1; 1; 2; 1]%Z sweep1
       ([(0.5, 1, 0, 0); (1, 1, 0, 0)]%float,
        [(0.5, 0, 0); (1, 0, 0)]%float, [1; 1]%Z, [1; 3]%Z)
  /\ index_table 3
       (fun m => accepted (near (firstn 3 line4_bp2) 1%float m)
                          (seq (S m) (3 - S m)))
       line4_inds [2; 1; 0]%Z
  /\ index_table 3
       (fun m =>
          let bcut := bond_cut [1; 2; 1]%Z two_groups_cutoff_3 two_groups_mask
                               two_groups_cut3b_mask (2 * 0) in
          accepted
            (near_sepcut line4_ba2 (firstn 3 line4_bp2)
               (or0 (bcut m)) (fun n => or0 (bcut n))
               (fun n => or0 (cross_cutoff_3 [1; 2; 1]%Z two_groups_cutoff_3
                                             2 two_groups_mask
                                             two_groups_cut3b_mask m n)) m)
            (seq (S m) (3 - S m)))
       line4_inds_sepcut [1; 0; 0]%Z.
Proof.
  split; [|split; [|split]].
  - apply (proj1 (proj2 (@integer_arrays float _ _))
             argsort_stable line131 0%nat (cubic 1e7%float) 3%float
             (repeat 1%Z 131) sweep1 (0, 0, 0)%float).
    + reflexivity.
    + vm_compute. lia.
    + small_argsort.
  - apply (proj1 (proj2 (proj2 (@integer_arrays float _ _)))
             argsort_stable line4 0%nat (cubic 1e7%float) [2; 0.125]%float
             [1; 1; 2; 1]%Z sweep1 2%Z two_groups_mask two_groups_cut3b_mask
             (0, 0, 0)%float 1%Z 0%Z).
    + reflexivity.
    + reflexivity.
    + reflexivity.
    + vm_compute. reflexivity.
    + small_argsort.
  - apply (proj1 (proj2 (proj2 (proj2 (@integer_arrays float _ _))))
             line4_ba2 line4_bp2 1%float line4_ba2 line4_inds line4_dists
             [2; 1; 0]%Z).
    vm_compute. reflexivity.
  - apply (proj2 (proj2 (proj2 (proj2 (@integer_arrays float _ _))))
             line4_ba2 line4_bp2 1%Z [1; 2; 1]%Z two_groups_cutoff_3 2%Z
             two_groups_mask two_groups_cut3b_mask 0%Z line4_ba2
             line4_inds_sepcut line4_dists_sepcut [1; 0; 0]%Z).
    + reflexivity.
    + vm_compute. reflexivity.
Defined.

(** C10, counterexample.  The central atom and 130 neighbours on a line,
    sorted by the quicksort as by any sort, since no two distances are
    equal; 3-body cutoff 3.  The table has 130 rows, and the last neighbour
    accepted for row 0 is neighbour 129.  [cross_bond_inds[0, 129]] holds
    [129], not its [int8] image [-127]; the [int8] arrays do reduce: the
    bond to atom 129 has [bond_indices = -127], and row 0, which closes 129
    triplets, has [triplet_counts = -127]. *)
Lemma cross_bond_inds_not_reduced :
  get_2_body_arrays numba_argsort line131 0 (cubic 1e7%float) 3%float
                    (repeat 1%Z 131) sweep1
  = line131_bonds
  /\ match line131_bonds with
  | Some (ba2, bp2, _, bond_indices) =>
      nth 128 bond_indices 0%Z = (-127)%Z
      /\ match get_3_body_arrays ba2 bp2 3%float with
         | Some (ba3, inds, _, counts) =>
             let found := fun m =>
               accepted (near (firstn (length ba3) bp2) 3%float m)
                        (seq (S m) (length ba3 - S m)) in
             length ba3 = 130%nat
             /\ fst (nth 128 (found O) (O, 0%float)) = 129%nat
             /\ cell_at inds 0 129 = 129%Z
             /\ wrap8 129 = (-127)%Z
             /\ nth 0 counts 0%Z = (-127)%Z
             /\ ~ int8_table_as_stated (length ba3) found inds
         | None => False
         end
  | None => False
  end.
Proof.
  split; [vm_compute; reflexivity|].
  destruct line131_bonds as [[[[ba2 bp2] et] bi]|] eqn:E2;
    [|vm_compute in E2; discriminate].
  assert (Hbi : nth 128 bi 0%Z = (-127)%Z).
  { vm_compute in E2. inversion E2; subst. reflexivity. }
  split; [exact Hbi|].
  destruct (get_3_body_arrays ba2 bp2 3%float) as [[[[ba3 inds] ds] tc]|]
    eqn:E3.
  2:{ vm_compute in E2. inversion E2; subst. vm_compute in E3.
      discriminate. }
  cbn zeta.
  match goal with
  | |- context [int8_table_as_stated _ ?f _] => set (found := f)
  end.
  assert (Hl : length ba3 = 130%nat
               /\ fst (nth 128 (found O) (O, fzero)) = 129%nat
               /\ length (found O) = 129%nat
               /\ cell_at inds 0 (S 0 + 128) = 129%Z
               /\ nth 0 tc 0%Z = (-127)%Z).
  { vm_compute in E2. inversion E2; subst. vm_compute in E3.
    inversion E3; subst. repeat split; vm_compute; reflexivity. }
  destruct Hl as (Hl & Hf & Hfl & Hc & Ht).
  split; [exact Hl|]. split; [exact Hf|]. split; [exact Hc|].
  split; [reflexivity|]. split; [exact Ht|].
  intros H. specialize (H 0%nat 128%nat).
  rewrite Hf, Hc in H.
  assert (Hbad : 129%Z = wrap8 (Z.of_nat 129)).
  { apply H; [lia|]. rewrite Hfl. lia. }
  vm_compute in Hbad. discriminate.
Qed.

(** ** The builders under a trivial mask *)

Section TrivialMask.

Context {F : Type} {NF : Num F}.
Local Open Scope num_scope.

Lemma resolve_trivial (c : F) :
  resolve_cutoff [c] [0%Z] 0%Z (1 * 0)%Z = Some c.
Proof. reflexivity. Qed.

Lemma nth_split_at {A : Type} (row : list A) (c : nat) (d : A) :
  (c < length row)%nat ->
  exists pre rest, row = pre ++ nth c row d :: rest /\ length pre = c.
Proof.
  revert c; induction row as [|x row IH]; intros c H; [cbn in H; lia|].
  destruct c as [|c].
  - exists [], row. split; reflexivity.
  - cbn [length] in H. destruct (IH c ltac:(lia)) as (pre & rest & E & Hl).
    exists (x :: pre), rest. cbn [nth app length]. split; [|lia].
    f_equal. exact E.
Qed.

Lemma store_27_total (diff_curr : vec3 F) (cell : cell3 F) (rcut : F)
      (l : list (Z * Z * Z)) (row : list (F * vec3 F)) (c : nat) :
  (c + length l <= length row)%nat ->
  exists st, foldM (store_27 diff_curr cell rcut) l (row, c) = Some st.
Proof.
  revert row c; induction l as [|s l IH]; intros row c Hc; [cbn; eauto|].
  cbn [foldM length] in *. unfold store_27 at 1.
  destruct (within (norm (image diff_curr cell s)) rcut).
  - destruct (nth_split_at row (c := c) (fzero, vzero) ltac:(lia))
      as (pre & rest & E & Hpre).
    remember (nth c row (fzero, vzero)) as d0 eqn:Hd0. clear Hd0.
    subst row c. rewrite upd_app. cbn [bind].
    apply IH. rewrite length_app in *. cbn [length] in *. lia.
  - cbn [bind]. apply IH. lia.
Qed.

Lemma record_images_27_total (diff_curr : vec3 F) (cell : cell3 F) (rcut : F)
      (sweep : list Z) :
  (length (sweep_images sweep) <= 27)%nat ->
  exists row, record_images_27 diff_curr cell rcut sweep = Some row.
Proof.
  unfold record_images_27. intros Hlen.
  destruct (@store_27_total diff_curr cell rcut (sweep_images sweep)
                            (repeat (fzero, vzero) 27) 0%nat)
    as ([row c] & H).
  - rewrite repeat_length. lia.
  - rewrite H. cbn. eauto.
Qed.

Lemma mapM2_with_index_total {A B C : Type} (f : nat * A -> option B)
      (g : nat * B -> option C) (h : nat * A -> C) (l : list A) :
  (forall m a, nth_error l m = Some a ->
               exists b, f (m, a) = Some b /\ g (m, b) = Some (h (m, a))) ->
  exists t, mapM f (with_index l) = Some t
            /\ mapM g (with_index t) = Some (map h (with_index l)).
Proof.
  unfold with_index. intros H.
  assert (Hgen : forall k,
             (forall m a, nth_error l m = Some a ->
                          exists b, f ((k + m)%nat, a) = Some b
                                    /\ g ((k + m)%nat, b)
                                       = Some (h ((k + m)%nat, a))) ->
             exists t, mapM f (combine (seq k (length l)) l) = Some t
                       /\ mapM g (combine (seq k (length t)) t)
                          = Some (map h (combine (seq k (length l)) l))).
  { clear. induction l as [|a l IH]; intros k H.
    - exists []. split; reflexivity.
    - destruct (H 0%nat a eq_refl) as (b & Hb & Hg).
      rewrite Nat.add_0_r in Hb, Hg.
      destruct (IH (S k)) as (t & Ht & Hu).
      { intros m a' Hm. replace (S k + m)%nat with (k + S m)%nat by lia.
        apply H. exact Hm. }
      exists (b :: t). cbn [length seq combine mapM map].
      rewrite Hb, Hg. cbn [bind]. rewrite Ht, Hu. split; reflexivity. }
  apply (Hgen 0%nat). exact H.
Qed.

Lemma fill_rows_sepcut_trivial {NL : NumLaws F} (positions : list (vec3 F))
      (pos_atom : vec3 F) (cell : cell3 F) (c : F) (species : list Z)
      (sweep : list Z) (specie_mask : list Z) :
  (length positions <= length species)%nat ->
  trivial_mask specie_mask species ->
  (length sweep <= 3)%nat ->
  fill_rows_sepcut positions pos_atom cell [c] species sweep specie_mask
                   [0%Z] (1 * 0)%Z
  = Some (fill_rows positions pos_atom cell c species sweep).
Proof.
  intros Hlen Hmask Hsweep.
  assert (H27 : (length (sweep_images sweep) <= 27)%nat).
  { unfold sweep_images.
    assert (Hfm : forall (A B : Type) (f : A -> list B) (l : list A) k,
               (forall a, length (f a) = k) ->
               length (flat_map f l) = (length l * k)%nat).
    { intros A B f l k Hf. induction l as [|a l IH]; [reflexivity|].
      cbn [flat_map length]. rewrite length_app, Hf, IH. lia. }
    rewrite (Hfm _ _ _ _ (length sweep * length sweep)%nat).
    - nia.
    - intros a. rewrite (Hfm _ _ _ _ (length sweep)); [reflexivity|].
      intros b. apply length_map. }
  unfold fill_rows_sepcut.
  pose (h := fun mp : nat * vec3 F =>
               fill_atom c (nth (fst mp) species 0%Z) (fst mp)
                         (record_images (vsub (snd mp) pos_atom) cell c
                                        sweep)).
  lazymatch goal with
  | |- bind (mapM ?f _) (fun table => bind (mapM ?g _) _) = _ =>
      destruct (@mapM2_with_index_total _ _ _ f g h positions)
        as (table & Ht & Hf)
  end.
  { intros m p Hm. cbn [fst snd].
    assert (Hml : (m < length species)%nat).
    { assert (m < length positions)%nat
        by (apply nth_error_Some; congruence). lia. }
    rewrite (nth_error_nth' species 0%Z Hml). cbn [bind].
    rewrite (Hmask _ (nth_In species 0%Z Hml)). cbn [bind].
    rewrite resolve_trivial. cbn [bind].
    destruct (record_images_27_total (vsub p pos_atom) cell c sweep H27)
      as (row & Hrow).
    exists row. split; [exact Hrow|]. f_equal.
    apply record_images_27_fill. exact Hrow. }
  rewrite Ht. cbn [bind]. rewrite Hf. cbn [bind]. f_equal.
  unfold fill_rows. rewrite with_index_map.
  rewrite (flat_map_concat_map _ (map _ _)), map_map. reflexivity.
Qed.

Lemma cross_row_sepcut_trivial (bond_array_2 : list (brow F))
      (bond_positions_3 : list (vec3 F)) (etypes : list Z) (c : F)
      (specie_mask : list Z) (ind_3 m : nat) :
  (m < ind_3)%nat ->
  length bond_positions_3 = ind_3 ->
  (forall i, (i < ind_3)%nat ->
             exists e, nth_error etypes i = Some e
                       /\ py_get specie_mask e = Some 0%Z) ->
  (forall i, (i < ind_3)%nat -> (dist_at bond_array_2 i <? c) = true) ->
  cross_row_sepcut bond_array_2 bond_positions_3 etypes [c] 1 specie_mask
                   [0%Z] (1 * 0)%Z ind_3 m
  = Some (cross_row bond_positions_3 c ind_3 m).
Proof.
  intros Hm Hlen Het Hd. unfold cross_row_sepcut, cross_row.
  rewrite (nth_error_nth' bond_positions_3 vzero) by lia. cbn [bind].
  destruct (Het m Hm) as (em & Hem & Hpm).
  rewrite Hem. cbn [bind]. rewrite Hpm. cbn [bind].
  rewrite resolve_trivial. cbn [bind].
  erewrite foldM_total; [reflexivity|].
  intros st n Hn. apply in_seq in Hn.
  destruct (Het n ltac:(lia)) as (en & Hen & Hpn).
  rewrite Hen. cbn [bind]. rewrite Hpn. cbn [bind].
  rewrite !resolve_trivial. cbn [bind].
  rewrite (nth_error_nth' bond_positions_3 vzero) by lia. cbn [bind].
  fold (dist_at bond_array_2 m). fold (dist_at bond_array_2 n).
  rewrite (Hd m) by lia. rewrite (Hd n) by lia.
  rewrite !andb_true_r.
  destruct (norm (vsub (nth n bond_positions_3 vzero)
                       (nth m bond_positions_3 vzero)) <? c); reflexivity.
Qed.

Lemma get_3_body_arrays_sepcut_trivial (bond_array_2 : list (brow F))
      (bond_positions_2 : list (vec3 F)) (ctype : Z) (etypes : list Z)
      (c : F) (specie_mask : list Z) :
  py_get specie_mask ctype = Some 0%Z ->
  let ind_3 := first_above c (map dist_of bond_array_2) in
  (ind_3 <= length bond_positions_2)%nat ->
  (forall i, (i < ind_3)%nat ->
             exists e, nth_error etypes i = Some e
                       /\ py_get specie_mask e = Some 0%Z) ->
  (forall i, (i < ind_3)%nat -> (dist_at bond_array_2 i <? c) = true) ->
  get_3_body_arrays_sepcut bond_array_2 bond_positions_2 ctype etypes
                           [c] 1 specie_mask [0%Z]
  = get_3_body_arrays bond_array_2 bond_positions_2 c.
Proof.
  intros Hc ind_3 Hpos Het Hd.
  unfold get_3_body_arrays_sepcut, get_3_body_arrays.
  rewrite Hc. cbn [bind np_max fold_left]. fold ind_3.
  rewrite (proj2 (Nat.leb_le _ _) Hpos).
  rewrite mapM_total
    with (g := cross_row (firstn ind_3 bond_positions_2) c ind_3).
  - reflexivity.
  - intros m Hm. apply in_seq in Hm.
    apply cross_row_sepcut_trivial; try assumption; [lia|].
    rewrite length_firstn. lia.
Qed.

End TrivialMask.

(** X24.  With one species group, a mask that sends every species code
    to group 0 and one-element cutoff arrays, the species-resolved
    neighbour search returns what the scalar one returns whenever the sweep
    has at most three values (the 27 images its tables have columns for),
    and the species-resolved triplet builder returns what the scalar one
    returns whenever every bond of the truncated list is strictly below
    the 3-body cutoff. *)
Theorem trivial_mask_builders {F : Type} {NF : Num F} {NL : NumLaws F} :
  (forall (argsort : list F -> list nat) (positions : list (vec3 F))
          (atom : nat) (cell : cell3 F) (c : F) (species : list Z)
          (sweep : list Z) (specie_mask : list Z),
      (length positions <= length species)%nat ->
      trivial_mask specie_mask species ->
      (length sweep <= 3)%nat ->
      get_2_body_arrays_sepcut argsort positions atom cell [c] species sweep
                               1 specie_mask [0%Z]
      = get_2_body_arrays argsort positions atom cell c species sweep)
  /\ (forall (bond_array_2 : list (brow F))
             (bond_positions_2 : list (vec3 F)) (ctype : Z) (etypes : list Z)
             (c : F) (specie_mask : list Z),
         py_get specie_mask ctype = Some 0%Z ->
         (length bond_array_2 <= length bond_positions_2)%nat ->
         (length bond_array_2 <= length etypes)%nat ->
         trivial_mask specie_mask etypes ->
         (forall i : nat,
             (i < first_above c (map dist_of bond_array_2))%nat ->
             (dist_at bond_array_2 i <? c)%num = true) ->
         get_3_body_arrays_sepcut bond_array_2 bond_positions_2 ctype etypes
                                  [c] 1 specie_mask [0%Z]
         = get_3_body_arrays bond_array_2 bond_positions_2 c).
Proof.
  split.
  - intros argsort positions atom cell c species sweep specie_mask
           Hlen Hmask Hsweep.
    unfold get_2_body_arrays_sepcut, get_2_body_arrays.
    destruct (nth_error positions atom) as [pos_atom|] eqn:Epos;
      [|reflexivity].
    cbn [bind].
    assert (Ha : (atom < length species)%nat).
    { assert (atom < length positions)%nat
        by (apply nth_error_Some; congruence). lia. }
    rewrite (nth_error_nth' species 0%Z Ha). cbn [bind].
    rewrite (Hmask _ (nth_In species 0%Z Ha)). cbn [bind].
    rewrite fill_rows_sepcut_trivial by assumption. cbn [bind].
    rewrite (proj2 (Nat.leb_le _ _) Hlen). reflexivity.
  - intros bond_array_2 bond_positions_2 ctype etypes c specie_mask
           Hc Hpos Het Hmask Hd.
    pose proof (first_above_le c (map dist_of bond_array_2)) as Hle.
    rewrite length_map in Hle.
    apply get_3_body_arrays_sepcut_trivial; try assumption; [lia|].
    intros i Hi.
    assert (Hie : (i < length etypes)%nat) by lia.
    exists (nth i etypes 0%Z). split; [now apply nth_error_nth'|].
    apply Hmask. now apply nth_In.
Qed.

(** The line of four atoms: the two neighbour searches agree, and with a
    3-body cutoff above every bond so do the two triplet builders. *)
Lemma trivial_mask_builders_witness :
  get_2_body_arrays_sepcut argsort_stable line4 0 (cubic 1e7%float)
                           [2%float] [1; 1; 1; 1]%Z sweep1 1
                           single_group_mask [0%Z]
  = get_2_body_arrays argsort_stable line4 0 (cubic 1e7%float) 2%float
                      [1; 1; 1; 1]%Z sweep1
  /\ get_3_body_arrays_sepcut line4_ba2 line4_bp2 1 [1; 1; 1]%Z
                              [2%float] 1 single_group_mask [0%Z]
     = get_3_body_arrays line4_ba2 line4_bp2 2%float.
Proof.
  split.
  - apply (proj1 (@trivial_mask_builders float _ _)).
    + vm_compute. lia.
    + intros e He. cbn in He.
      repeat (destruct He as [<-|He]; [reflexivity|]). contradiction.
    + vm_compute. lia.
  - apply (proj2 (@trivial_mask_builders float _ _)).
    + reflexivity.
    + vm_compute. lia.
    + vm_compute. lia.
    + intros e He. cbn in He.
      repeat (destruct He as [<-|He]; [reflexivity|]). contradiction.
    + intros i Hi. vm_compute in Hi.
      do 3 (destruct i as [|i]; [vm_compute; reflexivity|]). lia.
Defined.


(** ** A cutoff that is not positive *)

Section NonPositiveCutoff.

Context {F : Type} {NF : Num F} {NL : NumLaws F}.
Local Open Scope num_scope.

Lemma norm_not_within (v : vec3 F) (cutoff : F) :
  (fzero <? cutoff) = false -> within (norm v) cutoff = false.
Proof.
  intros H. unfold within, norm. destruct v as [[v0 v1] v2].
  rewrite fsqrt_not_below by exact H. reflexivity.
Qed.

Lemma qualifying_none (diff_curr : vec3 F) (cell : cell3 F) (cutoff : F)
      (sweep : list Z) :
  (fzero <? cutoff) = false -> qualifying diff_curr cell cutoff sweep = [].
Proof.
  intros H. unfold qualifying.
  induction (map (image diff_curr cell) (sweep_images sweep)) as [|im l IH];
    [reflexivity|].
  cbn [filter]. rewrite norm_not_within by exact H. exact IH.
Qed.

Lemma fill_spec_none (positions : list (vec3 F)) (pos_atom : vec3 F)
      (cell : cell3 F) (cutoff : F) (species : list Z) (sweep : list Z) :
  (fzero <? cutoff) = false ->
  fill_spec positions pos_atom cell (fun _ => cutoff) species sweep = [].
Proof.
  intros H. unfold fill_spec.
  induction (with_index positions) as [|mp l IH]; [reflexivity|].
  cbn [flat_map]. rewrite qualifying_none by exact H. exact IH.
Qed.

End NonPositiveCutoff.

(** C9.  With a 2-body cutoff that is not positive, the neighbour search
    of a well-formed structure (the central atom is one of its atoms, every
    atom has a species) raises nothing and returns four empty arrays. *)
Theorem nonpositive_cutoff_empty {F : Type} {NF : Num F} {NL : NumLaws F}
        (argsort : list F -> list nat) (positions : list (vec3 F))
        (atom : nat) (cell : cell3 F) (cutoff_2 : F) (species : list Z)
        (sweep : list Z) :
  (atom < length positions)%nat ->
  (length positions <= length species)%nat ->
  (fzero <? cutoff_2)%num = false ->
  argsort [] = [] ->
  get_2_body_arrays argsort positions atom cell cutoff_2 species sweep
  = Some ([], [], [], []).
Proof.
  intros Hatom Hlen Hcut Hsort. unfold get_2_body_arrays.
  rewrite (nth_error_nth' positions vzero Hatom). cbn [bind].
  rewrite (proj2 (Nat.leb_le _ _) Hlen).
  rewrite fill_rows_spec, fill_spec_none by exact Hcut.
  unfold sort_rows. cbn [map]. rewrite Hsort. reflexivity.
Qed.

(** The line of four atoms searched with cutoff 0 and with cutoff -1. *)
Lemma nonpositive_cutoff_empty_witness :
  get_2_body_arrays argsort_stable line4 0 (cubic 1e7%float) 0%float
                    [1; 1; 1; 1]%Z sweep1 = Some ([], [], [], [])
  /\ get_2_body_arrays argsort_stable line4 0 (cubic 1e7%float) (-1)%float
                       [1; 1; 1; 1]%Z sweep1 = Some ([], [], [], []).
Proof.
  split; apply (@nonpositive_cutoff_empty float _ _); try reflexivity;
    vm_compute; lia.
Defined.

(** ** Two atoms in a large cell *)

Lemma filter_none {A : Type} (f : A -> bool) (l : list A) :
  (forall y, In y l -> f y = false) -> filter f l = [].
Proof.
  induction l as [|a l IH]; intros H; [reflexivity|].
  cbn [filter]. rewrite (H a (or_introl eq_refl)).
  apply IH. intros y Hy. apply H. now right.
Qed.

Lemma filter_flat_map_one {A B : Type} (f : B -> bool) (g : A -> list B)
      (l1 l2 : list A) (x : A) :
  (forall y b, In y (l1 ++ l2) -> In b (g y) -> f b = false) ->
  filter f (flat_map g (l1 ++ x :: l2)) = filter f (g x).
Proof.
  intros H. rewrite flat_map_app. cbn [flat_map]. rewrite !filter_app.
  rewrite (@filter_none _ f (flat_map g l1)), (@filter_none _ f (flat_map g l2)).
  - now rewrite app_nil_r.
  - intros b Hb. apply in_flat_map in Hb. destruct Hb as (y & Hy & Hb).
    apply (H y b); [apply in_or_app; now right|exact Hb].
  - intros b Hb. apply in_flat_map in Hb. destruct Hb as (y & Hy & Hb).
    apply (H y b); [apply in_or_app; now left|exact Hb].
Qed.

(** The only image of the sweep a test that rejects every shifted image
    can keep is the unshifted one. *)
Lemma filter_sweep_images (f : Z * Z * Z -> bool) (neg pos : list Z) :
  ~ In 0%Z (neg ++ pos) ->
  (forall s, s <> (0, 0, 0)%Z -> f s = false) ->
  filter f (sweep_images (neg ++ 0%Z :: pos))
  = if f (0, 0, 0)%Z then [(0, 0, 0)%Z] else [].
Proof.
  intros H0 Hf. unfold sweep_images.
  rewrite filter_flat_map_one.
  2:{ intros y b Hy Hb. apply Hf. intros ->.
      apply in_flat_map in Hb. destruct Hb as (s2 & _ & Hb).
      apply in_map_iff in Hb. destruct Hb as (s3 & E & _).
      inversion E; subst. contradiction. }
  rewrite filter_flat_map_one.
  2:{ intros y b Hy Hb. apply Hf. intros ->.
      apply in_map_iff in Hb. destruct Hb as (s3 & E & _).
      inversion E; subst. contradiction. }
  rewrite map_app. cbn [map]. rewrite filter_app. cbn [filter].
  rewrite !filter_none.
  - now destruct (f (0, 0, 0)%Z).
  - intros b Hb. apply Hf. intros ->.
    apply in_map_iff in Hb. destruct Hb as (s3 & E & Hs).
    inversion E; subst. apply H0, in_or_app. now right.
  - intros b Hb. apply Hf. intros ->.
    apply in_map_iff in Hb. destruct Hb as (s3 & E & Hs).
    inversion E; subst. apply H0, in_or_app. now left.
Qed.

(** [np.arange(-sweep, sweep+1, 1)] holds [0] once, between the negative
    and the positive shifts. *)
Lemma sweep_array_split (sweep : Z) :
  (0 <= sweep)%Z ->
  exists neg pos : list Z,
    sweep_array sweep = neg ++ 0%Z :: pos /\ ~ In 0%Z (neg ++ pos).
Proof.
  intros H. unfold sweep_array, range.
  replace (Z.to_nat (sweep + 1 - - sweep))
    with (Z.to_nat sweep + S (Z.to_nat sweep))%nat by lia.
  rewrite seq_app. cbn [seq]. rewrite !map_app. cbn [map].
  eexists. eexists. split.
  - f_equal. f_equal. lia.
  - intros Hin. apply in_app_or in Hin.
    destruct Hin as [Hin|Hin]; rewrite map_map in Hin;
      apply in_map_iff in Hin; destruct Hin as (i & E & Hi);
      apply in_seq in Hi; lia.
Qed.

Section TwoAtoms.

Local Open Scope R_scope.

Lemma Rltb_true (x y : R) : x < y -> Rltb x y = true.
Proof. intros H. unfold Rltb. now destruct (Rlt_dec x y). Qed.

Lemma Rltb_false (x y : R) : y <= x -> Rltb x y = false.
Proof. intros H. unfold Rltb. destruct (Rlt_dec x y); [lra|reflexivity]. Qed.

Lemma Reqb_false (x y : R) : x <> y -> Reqb x y = false.
Proof. intros H. unfold Reqb. now destruct (Req_dec_T x y). Qed.

Lemma sqrt_ge_3 (x : R) : 9 <= x -> 3 <= R_sqrt.sqrt x.
Proof.
  intros H. replace 3 with (R_sqrt.sqrt (3 * 3)) by (apply sqrt_square; lra).
  apply sqrt_le_1_alt. lra.
Qed.

Lemma shifted_square (d : R) (s : Z) :
  d * d <= 2.25 -> s <> 0%Z ->
  9 <= (d + IZR s * 1e7) * (d + IZR s * 1e7).
Proof.
  intros Hd Hs.
  assert (Hd' : -1.5 <= d <= 1.5) by (split; nra).
  destruct (Z_lt_le_dec s 0) as [Hn|Hp].
  - assert (IZR s <= -1) by (apply IZR_le; lia). nra.
  - assert (1 <= IZR s) by (apply IZR_le; lia). nra.
Qed.

(** Every shifted image of a displacement no longer than 1.5 is outside
    the cutoff. *)
Lemma shifted_image_far (d0 d1 d2 : R) (s : Z * Z * Z) :
  d0 * d0 + d1 * d1 + d2 * d2 <= 2.25 ->
  s <> (0, 0, 0)%Z ->
  within (norm (image (d0, d1, d2) (cubic 1e7) s)) 3 = false.
Proof.
  intros Hd Hs. destruct s as [[s1 s2] s3].
  unfold within. apply andb_false_intro1.
  cbn -[IZR]. apply Rltb_false, sqrt_ge_3.
  assert (H0 := Rle_0_sqr d0). assert (H1 := Rle_0_sqr d1).
  assert (H2 := Rle_0_sqr d2). unfold Rsqr in *.
  replace (d0 + IZR s1 * 1e7 + IZR s2 * 0 + IZR s3 * 0)
    with (d0 + IZR s1 * 1e7) by ring.
  replace (d1 + IZR s1 * 0 + IZR s2 * 1e7 + IZR s3 * 0)
    with (d1 + IZR s2 * 1e7) by ring.
  replace (d2 + IZR s1 * 0 + IZR s2 * 0 + IZR s3 * 1e7)
    with (d2 + IZR s3 * 1e7) by ring.
  assert (A0 := Rle_0_sqr (d0 + IZR s1 * 1e7)).
  assert (A1 := Rle_0_sqr (d1 + IZR s2 * 1e7)).
  assert (A2 := Rle_0_sqr (d2 + IZR s3 * 1e7)). unfold Rsqr in *.
  destruct (Z.eq_dec s1 0) as [E1|E1].
  - destruct (Z.eq_dec s2 0) as [E2|E2].
    + destruct (Z.eq_dec s3 0) as [E3|E3]; [subst; now elim Hs|].
      assert (B := @shifted_square d2 s3 ltac:(lra) E3). lra.
    + assert (B := @shifted_square d1 s2 ltac:(lra) E2). lra.
  - assert (B := @shifted_square d0 s1 ltac:(lra) E1). lra.
Qed.

Lemma unshifted_image (d : vec3 R) : image d (cubic 1e7) (0, 0, 0)%Z = d.
Proof.
  destruct d as [[d0 d1] d2]. cbn -[IZR]. f_equal; [f_equal|]; ring.
Qed.


Lemma qualifying_large_cell (d : vec3 R) (sweep : Z) :
  (let '(d0, d1, d2) := d in d0 * d0 + d1 * d1 + d2 * d2 <= 2.25) ->
  (0 <= sweep)%Z ->
  qualifying d (cubic 1e7) 3 (sweep_array sweep)
  = if within (norm d) 3 then [d] else [].
Proof.
  intros Hd Hs. unfold qualifying. rewrite filter_map_swap.
  destruct (sweep_array_split Hs) as (neg & pos & -> & H0).
  rewrite filter_sweep_images.
  - rewrite unshifted_image. destruct (within (norm d) 3); [|reflexivity].
    cbn [map]. now rewrite unshifted_image.
  - exact H0.
  - intros s Hne. destruct d as [[d0 d1] d2]. now apply shifted_image_far.
Qed.

Lemma norm_self (p : vec3 R) : norm (vsub p p) = 0.
Proof.
  destruct p as [[x y] z]. cbn.
  replace ((x - x) * (x - x) + (y - y) * (y - y) + (z - z) * (z - z))
    with 0 by ring.
  apply sqrt_0.
Qed.

Lemma norm_squares (d : vec3 R) (r : R) :
  norm d = r ->
  let '(d0, d1, d2) := d in d0 * d0 + d1 * d1 + d2 * d2 = r * r.
Proof.
  destruct d as [[d0 d1] d2]. cbn. intros <-.
  rewrite sqrt_sqrt; [reflexivity|].
  assert (H0 := Rle_0_sqr d0). assert (H1 := Rle_0_sqr d1).
  assert (H2 := Rle_0_sqr d2). unfold Rsqr in *. lra.
Qed.

Lemma norm_swap (p q : vec3 R) : norm (vsub p q) = norm (vsub q p).
Proof.
  destruct p as [[x y] z], q as [[x' y'] z']. cbn. f_equal. ring.
Qed.

(** The atom itself contributes no row; the other atom contributes one. *)
Lemma qualifying_self (p : vec3 R) (sweep : Z) :
  (0 <= sweep)%Z ->
  qualifying (vsub p p) (cubic 1e7) 3 (sweep_array sweep) = [].
Proof.
  intros Hs. rewrite qualifying_large_cell; [|
    destruct p as [[x y] z]; cbn; nra | exact Hs].
  rewrite norm_self. unfold within. cbn.
  unfold Reqb. destruct (Req_dec_T 0 0); [|contradiction].
  now rewrite andb_false_r.
Qed.

Lemma qualifying_other (p q : vec3 R) (sweep : Z) :
  (0 <= sweep)%Z -> norm (vsub q p) = 1.5 ->
  qualifying (vsub q p) (cubic 1e7) 3 (sweep_array sweep) = [vsub q p].
Proof.
  intros Hs Hn. rewrite qualifying_large_cell; [| |exact Hs].
  - rewrite Hn. unfold within. cbn -[IZR].
    rewrite Rltb_true by lra. rewrite Reqb_false by lra. reflexivity.
  - assert (H := norm_squares _ Hn). destruct (vsub q p) as [[d0 d1] d2]. lra.
Qed.

Lemma argsort_one (argsort : list R -> list nat) (k : R) :
  is_argsort [k] (argsort [k]) -> argsort [k] = [0%nat].
Proof.
  intros [Hp _]. cbn in Hp. apply Permutation_sym in Hp.
  now apply Permutation_length_1_inv in Hp.
Qed.

End TwoAtoms.

(** The triplet table of a single bond has no entry. *)
Lemma single_bond_triplets {F : Type} {NF : Num F} (row : brow F)
      (pos : vec3 F) (cutoff_3 : F) :
  exists inds dists counts,
    get_3_body_arrays [row] [pos] cutoff_3
    = Some (firstn (length counts) [row], inds, dists, counts)
    /\ Forall (fun c => c = 0%Z) counts
    /\ Forall (Forall (fun i => i = (-1)%Z)) inds.
Proof.
  unfold get_3_body_arrays. cbn [map first_above].
  destruct (fltb cutoff_3 (dist_of row)).
  - exists [], [], []. repeat split; constructor.
  - exists [[(-1)%Z]], [[fzero]], [0%Z]. repeat split; repeat constructor.
Qed.

Local Open Scope R_scope.

(** C2.  Two atoms of one species, 1.5 apart, in a cubic cell of lattice
    constant 1e7, searched with the 2-body cutoff 3.0 around either atom
    and over any sweep [np.arange(-sweep, sweep+1)]: [bond_array_2] has
    exactly one row, the distance 1.5 followed by the separation vector
    divided by it, and the triplet arrays built from it for any 3-body
    cutoff hold no triplet: every count is zero and every cell is -1. *)
Theorem two_atom_environment (argsort : list R -> list nat) (p0 p1 : vec3 R)
        (s sweep : Z) (atom : nat) (cutoff_3 : R) :
  (forall k : R, is_argsort [k] (argsort [k])) ->
  (0 <= sweep)%Z ->
  norm (vsub p1 p0) = 1.5 ->
  (atom < 2)%nat ->
  let other := (1 - atom)%nat in
  let sep := vsub (nth other [p0; p1] vzero) (nth atom [p0; p1] vzero) in
  exists row : brow R,
    get_2_body_arrays argsort [p0; p1] atom (cubic 1e7) 3 [s; s]
                      (sweep_array sweep)
    = Some ([row], [sep], [wrap8 s], [Z.of_nat other])
    /\ dist_of row = 1.5
    /\ dir_of row = vdiv sep 1.5
    /\ exists inds dists counts,
         get_3_body_arrays [row] [sep] cutoff_3
         = Some (firstn (length counts) [row], inds, dists, counts)
         /\ Forall (fun c => c = 0%Z) counts
         /\ Forall (Forall (fun i => i = (-1)%Z)) inds.
Proof.
  intros Hsort Hsweep Hdist Hatom other sep.
  exists (mk_row 1.5 sep).
  assert (Hsep : norm sep = 1.5).
  { subst sep other. destruct atom as [|[|atom]]; [exact Hdist| |lia].
    cbn [nth Nat.sub]. now rewrite norm_swap. }
  split; [|split; [apply dist_of_mk_row|split]].
  - unfold get_2_body_arrays.
    assert (Hrows : fill_rows [p0; p1] (nth atom [p0; p1] vzero) (cubic 1e7) 3
                              [s; s] (sweep_array sweep)
                    = [(mk_row 1.5 sep, sep, wrap8 s, Z.of_nat other)]).
    { rewrite fill_rows_spec. unfold fill_spec, with_index.
      cbn [length seq combine flat_map fst snd app].
      subst sep other. destruct atom as [|[|atom]]; [| |lia]; cbn [nth Nat.sub] in *.
      - rewrite qualifying_self, qualifying_other by assumption.
        cbn [map app]. unfold entry_of. rewrite Hsep. reflexivity.
      - rewrite qualifying_self, qualifying_other by assumption.
        cbn [map app]. unfold entry_of. rewrite Hsep. reflexivity. }
    destruct atom as [|[|atom]]; [| |lia]; cbn [nth_error bind length Nat.leb];
      cbn [nth] in Hrows; rewrite Hrows; unfold sort_rows; cbn [map fst];
      rewrite dist_of_mk_row, (@argsort_one argsort _ (Hsort _)); reflexivity.
  - unfold mk_row, dir_of. destruct (vdiv sep 1.5) as [[x y] z]. reflexivity.
  - apply single_bond_triplets.
Qed.

(** The atoms at the origin and at (1.5, 0, 0), seen from the first. *)
Lemma two_atom_environment_witness :
  exists row : brow R,
    get_2_body_arrays argsort_stable [(0, 0, 0); (1.5, 0, 0)] 0 (cubic 1e7) 3
                      [1%Z; 1%Z] (sweep_array 1)
    = Some ([row], [vsub (1.5, 0, 0) (0, 0, 0)], [1%Z], [1%Z])
    /\ dist_of row = 1.5.
Proof.
  destruct (@two_atom_environment argsort_stable (0, 0, 0) (1.5, 0, 0)
              1%Z 1%Z 0%nat 1) as (row & H2 & Hd & _).
  - intros k. split; [apply Permutation_refl|]. intros i j H. cbn in H. lia.
  - lia.
  - cbn -[IZR]. replace ((1.5 - 0) * (1.5 - 0) + (0 - 0) * (0 - 0)
                      + (0 - 0) * (0 - 0)) with (1.5 * 1.5) by lra.
    apply sqrt_square. lra.
  - lia.
  - exists row. split; [exact H2|exact Hd].
Defined.

(** The same structure evaluated in binary64, with the triplet arrays for
    the 3-body cutoff 3.0. *)
Example two_atoms_binary64 :
  get_2_body_arrays argsort_stable two_atoms 0 (cubic 1e7%float) 3%float
                    [1%Z; 1%Z] (sweep_array 1)
  = Some ([(1.5, 1, 0, 0)%float], [(1.5, 0, 0)%float], [1%Z], [1%Z])
  /\ get_2_body_arrays argsort_stable two_atoms 1 (cubic 1e7%float) 3%float
                       [1%Z; 1%Z] (sweep_array 1)
     = Some ([(1.5, -1, 0, 0)%float], [(-1.5, 0, 0)%float], [1%Z], [0%Z])
  /\ get_3_body_arrays [(1.5, 1, 0, 0)%float] [(1.5, 0, 0)%float] 3%float
     = Some ([(1.5, 1, 0, 0)%float], [[(-1)%Z]], [[0%float]], [0%Z]).
Proof. repeat split; vm_compute; reflexivity. Qed.

Local Close Scope R_scope.

(** ** The sums inside the kernels *)

Lemma getZ_0 (a : Z) (l : list Z) : getZ (a :: l) 0 = a.
Proof.
  unfold getZ, py_read, py_get, py_index. cbn [length].
  rewrite Nat2Z.inj_succ.
  replace ((0 <=? 0)%Z && (0 <? Z.succ (Z.of_nat (length l)))%Z) with true
    by (symmetry; apply andb_true_intro; split; [reflexivity|apply Z.ltb_lt; lia]).
  reflexivity.
Qed.

Lemma getZ_1 (a b : Z) (l : list Z) : getZ (a :: b :: l) 1 = b.
Proof.
  unfold getZ, py_read, py_get, py_index. cbn [length].
  rewrite !Nat2Z.inj_succ.
  replace ((0 <=? 1)%Z && (1 <? Z.succ (Z.succ (Z.of_nat (length l))))%Z)
    with true
    by (symmetry; apply andb_true_intro; split; [reflexivity|apply Z.ltb_lt; lia]).
  reflexivity.
Qed.

Ltac split_eqb :=
  repeat (rewrite ?Z.eqb_refl, ?getZ_0, ?getZ_1 in *;
          cbn [andb orb negb existsb remove_first] in *;
          match goal with
          | H : context [(?a =? ?b)%Z] |- _ =>
              destruct (Z.eqb_spec a b); [try congruence; subst|try congruence]
          | |- context [(?a =? ?b)%Z] =>
              destruct (Z.eqb_spec a b); [try congruence; subst|try congruence]
          end).

Section KernelSumProofs.

Context {F : Type} {NF : Num F}.
Local Open Scope num_scope.

Lemma fold_left_flat_map {A B S : Type} (f : S -> B -> S) (g : A -> list B)
      (l : list A) (s : S) :
  fold_left f (flat_map g l) s
  = fold_left (fun s a => fold_left f (g a) s) l s.
Proof.
  revert s. induction l as [|a l IH]; intros s; [reflexivity|].
  cbn [flat_map fold_left]. now rewrite fold_left_app, IH.
Qed.

Lemma fold_left_map {A B S : Type} (f : S -> B -> S) (g : A -> B)
      (l : list A) (s : S) :
  fold_left f (map g l) s = fold_left (fun s a => f s (g a)) l s.
Proof.
  revert s. induction l as [|a l IH]; intros s; [reflexivity|].
  cbn [map fold_left]. apply IH.
Qed.

Lemma fold_left_filter {A S : Type} (f : S -> A -> S) (c : A -> bool)
      (l : list A) (s : S) :
  fold_left f (filter c l) s
  = fold_left (fun s a => if c a then f s a else s) l s.
Proof.
  revert s. induction l as [|a l IH]; intros s; [reflexivity|].
  cbn [filter fold_left]. destruct (c a); cbn [fold_left]; apply IH.
Qed.

Lemma fold_left_id {A S : Type} (l : list A) (s : S) :
  fold_left (fun s _ => s) l s = s.
Proof. induction l as [|a l IH]; [reflexivity|exact IH]. Qed.

(** The loops over pairs of bonds add up the terms of the agreeing pairs. *)
Lemma pair_loops (term : Z * Z -> F) (c : Z * Z -> bool) (l1 l2 : list Z)
      (k : F) :
  fold_left (fun kern m =>
               fold_left (fun kern n =>
                            if c (m, n) then kern + term (m, n) else kern)
                         l2 kern) l1 k
  = fold_left fadd (map term (filter c (list_prod l1 l2))) k.
Proof.
  rewrite fold_left_map, fold_left_filter.
  revert k. induction l1 as [|m l1 IH]; intros k; [reflexivity|].
  cbn [list_prod fold_left]. rewrite fold_left_app, fold_left_map. apply IH.
Qed.


(** A pair of triplets the kernels skip has no matching. *)
Lemma matchings_prefilter (term : F -> F -> F -> F) (c1 : Z) (ei : Z * Z)
      (c2 : Z) (ej : Z * Z) (ri rj : F * F * F) :
  prefilter c1 ei c2 ej = false ->
  matched (matchings term c1 ei c2 ej ri rj) = [].
Proof.
  destruct ei as [ei1 ei2], ej as [ej1 ej2], ri as [[ri1 ri2] ri3],
    rj as [[rj1 rj2] rj3].
  unfold prefilter, matched, matchings, mem.
  cbn [fst snd existsb remove_first]. intros H.
  split_eqb; cbn [filter fst map snd andb orb] in *;
    rewrite ?Z.eqb_refl; cbn [filter fst map snd andb orb];
    try reflexivity; try discriminate; try congruence.
Qed.

Lemma add_if_six (b1 b2 b3 b4 b5 b6 : bool) (t1 t2 t3 t4 t5 t6 : F) (k : F) :
  add_if b6 t6 (add_if b5 t5 (add_if b4 t4 (add_if b3 t3
    (add_if b2 t2 (add_if b1 t1 k)))))
  = fold_left fadd
      (matched [(b1, t1); (b2, t2); (b3, t3); (b4, t4); (b5, t5); (b6, t6)]) k.
Proof. destruct b1, b2, b3, b4, b5, b6; reflexivity. Qed.

(** The loops over the triplets of the second environment, with their
    three tests, add up the terms of every triplet: a triplet a test
    skips has no term. *)
Lemma guarded_loops (terms : Z * Z -> list F) (six : Z -> Z -> F -> F)
      (g1 : bool) (g2 : Z -> bool) (g3 : Z -> Z -> bool)
      (lp : list Z) (lq : Z -> list Z) (k : F) :
  (forall p q k, g1 = true -> g2 p = true -> g3 p q = true ->
                 six p q k = fold_left fadd (terms (p, q)) k) ->
  (forall p q, g1 && (g2 p && g3 p q) = false -> terms (p, q) = []) ->
  (if g1
   then fold_left (fun kern p =>
                     if g2 p
                     then fold_left (fun kern q =>
                                       if g3 p q then six p q kern else kern)
                                    (lq p) kern
                     else kern) lp k
   else k)
  = fold_left fadd
      (flat_map terms (flat_map (fun p => map (fun q => (p, q)) (lq p)) lp)) k.
Proof.
  intros Hsix Hskip.
  rewrite !fold_left_flat_map.
  destruct g1.
  - apply fold_left_ext_in. intros kern p _. rewrite fold_left_map.
    destruct (g2 p) eqn:E2.
    + apply fold_left_ext_in. intros kern' q _.
      destruct (g3 p q) eqn:E3.
      * now apply Hsix.
      * rewrite Hskip; [reflexivity|]. now rewrite E2, E3.
    + rewrite <- (fold_left_id (lq p) kern) at 1.
      apply fold_left_ext_in. intros kern' q _.
      rewrite Hskip; [reflexivity|]. now rewrite E2.
  - rewrite <- (fold_left_id lp k) at 1.
    apply fold_left_ext_in. intros kern p _. rewrite fold_left_map.
    rewrite <- (fold_left_id (lq p) kern) at 1.
    apply fold_left_ext_in. intros kern' q _.
    rewrite Hskip; reflexivity.
Qed.

Section Sums.

Variable exp : F -> F.
Variable force_energy_helper : F -> F -> F -> F -> F -> F -> F -> F -> F.
Variable three_body_en_helper :
  F -> F -> F -> F -> F -> F -> F -> F -> F -> F -> F -> F.

Lemma two_body_en_sum (bond_array_1 : list (brow F)) (c1 : Z)
      (etypes1 : list Z) (bond_array_2 : list (brow F)) (c2 : Z)
      (etypes2 : list Z) (sig ls r_cut : F) (cutoff_func : cutoff_fn F) :
  two_body_mc_en_jit exp bond_array_1 c1 etypes1 bond_array_2 c2 etypes2
                     sig ls r_cut cutoff_func
  = pair_sum (two_body_en_term exp bond_array_1 bond_array_2 sig ls r_cut
                               cutoff_func)
             bond_array_1 c1 etypes1 bond_array_2 c2 etypes2.
Proof.
  unfold pair_sum, total, bond_pairs.
  rewrite <- (pair_loops (two_body_en_term exp bond_array_1 bond_array_2
                                           sig ls r_cut cutoff_func)
                         (agreeing c1 etypes1 c2 etypes2)).
  reflexivity.
Qed.

Lemma two_body_force_en_sum (bond_array_1 : list (brow F)) (c1 : Z)
      (etypes1 : list Z) (bond_array_2 : list (brow F)) (c2 : Z)
      (etypes2 : list Z) (d1 : Z) (sig ls r_cut : F)
      (cutoff_func : cutoff_fn F) :
  two_body_mc_force_en_jit force_energy_helper bond_array_1 c1 etypes1
                           bond_array_2 c2 etypes2 d1 sig ls r_cut cutoff_func
  = pair_sum (two_body_force_en_term force_energy_helper bond_array_1
                                     bond_array_2 d1 sig ls r_cut cutoff_func)
             bond_array_1 c1 etypes1 bond_array_2 c2 etypes2.
Proof.
  unfold pair_sum, total, bond_pairs.
  rewrite <- (pair_loops (two_body_force_en_term force_energy_helper
                            bond_array_1 bond_array_2 d1 sig ls r_cut
                            cutoff_func)
                         (agreeing c1 etypes1 c2 etypes2)).
  unfold two_body_mc_force_en_jit. apply fold_left_ext_in. intros kern m _.
  unfold two_body_force_en_term, agreeing. cbn [fst snd].
  destruct (cutoff_func r_cut (ba_get bond_array_1 m 0)
                        (ba_get bond_array_1 m d1)) as [fi fdi].
  reflexivity.
Qed.

Lemma three_body_en_sum (bond_array_1 : list (brow F)) (c1 : Z)
      (etypes1 : list Z) (bond_array_2 : list (brow F)) (c2 : Z)
      (etypes2 : list Z)
      (cross_bond_inds_1 cross_bond_inds_2 : list (list Z))
      (cross_bond_dists_1 cross_bond_dists_2 : list (list F))
      (triplets_1 triplets_2 : list Z) (sig ls r_cut : F)
      (cutoff_func : cutoff_fn F) :
  three_body_mc_en_jit exp bond_array_1 c1 etypes1 bond_array_2 c2 etypes2
                       cross_bond_inds_1 cross_bond_inds_2
                       cross_bond_dists_1 cross_bond_dists_2
                       triplets_1 triplets_2 sig ls r_cut cutoff_func
  = triplet_sum (three_body_en_terms exp bond_array_1 c1 etypes1
                                     bond_array_2 c2 etypes2
                                     cross_bond_inds_1 cross_bond_inds_2
                                     cross_bond_dists_1 cross_bond_dists_2
                                     sig ls r_cut cutoff_func)
                bond_array_1 bond_array_2 triplets_1 triplets_2.
Proof.
  unfold triplet_sum, total, three_body_mc_en_jit.
  set (T2 := triplets_of bond_array_2 triplets_2).
  unfold triplets_of. rewrite 2!fold_left_flat_map.
  apply fold_left_ext_in. intros kern m _. rewrite fold_left_map.
  apply fold_left_ext_in. intros kern' n _.
  subst T2. unfold triplets_of.
  apply (@guarded_loops
           (three_body_en_terms exp bond_array_1 c1 etypes1
                                bond_array_2 c2 etypes2
                                cross_bond_inds_1 cross_bond_inds_2
                                cross_bond_dists_1 cross_bond_dists_2
                                sig ls r_cut cutoff_func (m, n))).
  - intros p q k _ _ _. apply add_if_six.
  - intros p q H. unfold three_body_en_terms.
    apply matchings_prefilter. exact H.
Qed.

Lemma three_body_force_en_sum (bond_array_1 : list (brow F)) (c1 : Z)
      (etypes1 : list Z) (bond_array_2 : list (brow F)) (c2 : Z)
      (etypes2 : list Z)
      (cross_bond_inds_1 cross_bond_inds_2 : list (list Z))
      (cross_bond_dists_1 cross_bond_dists_2 : list (list F))
      (triplets_1 triplets_2 : list Z) (d1 : Z) (sig ls r_cut : F)
      (cutoff_func : cutoff_fn F) :
  three_body_mc_force_en_jit three_body_en_helper
                             bond_array_1 c1 etypes1 bond_array_2 c2 etypes2
                             cross_bond_inds_1 cross_bond_inds_2
                             cross_bond_dists_1 cross_bond_dists_2
                             triplets_1 triplets_2 d1 sig ls r_cut cutoff_func
  = triplet_sum (three_body_force_en_terms three_body_en_helper
                   bond_array_1 c1 etypes1 bond_array_2 c2 etypes2
                   cross_bond_inds_1 cross_bond_inds_2
                   cross_bond_dists_1 cross_bond_dists_2
                   d1 sig ls r_cut cutoff_func)
                bond_array_1 bond_array_2 triplets_1 triplets_2.
Proof.
  unfold triplet_sum, total, three_body_mc_force_en_jit.
  set (T2 := triplets_of bond_array_2 triplets_2).
  unfold triplets_of. rewrite 2!fold_left_flat_map.
  apply fold_left_ext_in. intros kern m _. rewrite fold_left_map.
  destruct (cutoff_func r_cut (ba_get bond_array_1 m 0)
                        (ba_get bond_array_1 m d1)) as [fi1 fdi1] eqn:E1.
  apply fold_left_ext_in. intros kern' n _.
  destruct (cutoff_func r_cut
              (ba_get bond_array_1
                      (get2Z cross_bond_inds_1 m (m + n + 1)) 0)
              (ba_get bond_array_1
                      (get2Z cross_bond_inds_1 m (m + n + 1)) d1))
    as [fi2 fdi2] eqn:E2.
  subst T2. unfold triplets_of.
  apply (@guarded_loops
           (three_body_force_en_terms three_body_en_helper
              bond_array_1 c1 etypes1 bond_array_2 c2 etypes2
              cross_bond_inds_1 cross_bond_inds_2
              cross_bond_dists_1 cross_bond_dists_2
              d1 sig ls r_cut cutoff_func (m, n))).
  - intros p q k _ _ _.
    unfold three_body_force_en_terms, envelope_dev, triplet_dists,
      second_bond.
    cbn [fst snd]. rewrite E1, E2. apply add_if_six.
  - intros p q H. unfold three_body_force_en_terms.
    destruct (envelope_dev _ _ _ _ _ _ _) as [fi fdi].
    apply matchings_prefilter. exact H.
Qed.

End Sums.

End KernelSumProofs.

(** C5.  The kernels on environments apply the normalisation themselves:
    once the hyperparameters and cutoffs are read, the 2-body force/energy
    kernel returns the pair sum divided by 2 and the 2-body energy/energy
    kernel the pair sum divided by 4, the 3-body force/energy kernel
    returns the triplet sum divided by 3 and the 3-body energy/energy
    kernel the triplet sum divided by 9, and each 2+3 kernel returns the
    sum of the normalised 2-body term for its first two and the normalised
    3-body term for its last two hyperparameters. *)
Theorem normalisation_inside_kernels {F : Type} {NF : Num F} (exp : F -> F)
        (force_energy_helper : F -> F -> F -> F -> F -> F -> F -> F -> F)
        (three_body_en_helper :
           F -> F -> F -> F -> F -> F -> F -> F -> F -> F -> F -> F)
        (env1 env2 : AtomicEnvironment) (d1 : Z) (hyps cutoffs : list F)
        (cutoff_func : cutoff_fn F) :
  two_body_mc_force_en force_energy_helper env1 env2 d1 hyps cutoffs
                       cutoff_func
  = (sig <- py_get hyps 0 ;;
     ls <- py_get hyps 1 ;;
     r_cut <- py_get cutoffs 0 ;;
     Some (force_en_pair_sum force_energy_helper env1 env2 d1 sig ls r_cut
                             cutoff_func / num 2)%num)
  /\ two_body_mc_en exp env1 env2 hyps cutoffs cutoff_func
     = (sig <- py_get hyps 0 ;;
        ls <- py_get hyps 1 ;;
        r_cut <- py_get cutoffs 0 ;;
        Some (en_pair_sum exp env1 env2 sig ls r_cut cutoff_func
              / num 4)%num)
  /\ three_body_mc_force_en three_body_en_helper env1 env2 d1 hyps cutoffs
                            cutoff_func
     = (sig <- py_get hyps 0 ;;
        ls <- py_get hyps 1 ;;
        r_cut <- py_get cutoffs 1 ;;
        Some (force_en_triplet_sum three_body_en_helper env1 env2 d1 sig ls
                                   r_cut cutoff_func / num 3)%num)
  /\ three_body_mc_en exp env1 env2 hyps cutoffs cutoff_func
     = (sig <- py_get hyps 0 ;;
        ls <- py_get hyps 1 ;;
        r_cut <- py_get cutoffs 1 ;;
        Some (en_triplet_sum exp env1 env2 sig ls r_cut cutoff_func
              / num 9)%num)
  /\ two_plus_three_mc_force_en force_energy_helper three_body_en_helper
                                env1 env2 d1 hyps cutoffs cutoff_func
     = (sig2 <- py_get hyps 0 ;;
        ls2 <- py_get hyps 1 ;;
        sig3 <- py_get hyps 2 ;;
        ls3 <- py_get hyps 3 ;;
        r_cut_2 <- py_get cutoffs 0 ;;
        r_cut_3 <- py_get cutoffs 1 ;;
        Some (force_en_pair_sum force_energy_helper env1 env2 d1 sig2 ls2
                                r_cut_2 cutoff_func / num 2
              + force_en_triplet_sum three_body_en_helper env1 env2 d1
                                     sig3 ls3 r_cut_3 cutoff_func
                / num 3)%num)
  /\ two_plus_three_mc_en exp env1 env2 hyps cutoffs cutoff_func
     = (sig2 <- py_get hyps 0 ;;
        ls2 <- py_get hyps 1 ;;
        sig3 <- py_get hyps 2 ;;
        ls3 <- py_get hyps 3 ;;
        r_cut_2 <- py_get cutoffs 0 ;;
        r_cut_3 <- py_get cutoffs 1 ;;
        Some (en_pair_sum exp env1 env2 sig2 ls2 r_cut_2 cutoff_func / num 4
              + en_triplet_sum exp env1 env2 sig3 ls3 r_cut_3 cutoff_func
                / num 9)%num).
Proof.
  unfold two_body_mc_force_en, two_body_mc_en, three_body_mc_force_en,
    three_body_mc_en, two_plus_three_mc_force_en, two_plus_three_mc_en,
    force_en_pair_sum, en_pair_sum, force_en_triplet_sum, en_triplet_sum.
  repeat split;
    destruct (py_get hyps 0) as [h0|], (py_get hyps 1) as [h1|],
      (py_get hyps 2) as [h2|], (py_get hyps 3) as [h3|],
      (py_get cutoffs 0) as [r2|], (py_get cutoffs 1) as [r3|];
    cbn [bind]; try reflexivity;
    rewrite ?two_body_force_en_sum, ?two_body_en_sum,
      ?three_body_force_en_sum, ?three_body_en_sum; reflexivity.
Qed.

(** ** The gradient with respect to the signal variance *)

Lemma fold_left_invariant {A S : Type} (P : S -> Prop) (f : S -> A -> S)
      (l : list A) (s : S) :
  P s -> (forall s a, P s -> P (f s a)) -> P (fold_left f l s).
Proof.
  revert s. induction l as [|a l IH]; intros s H0 Hstep; [exact H0|].
  cbn [fold_left]. apply IH; [apply Hstep, H0|exact Hstep].
Qed.

Section SigmaGradient.

Local Open Scope R_scope.

Lemma sigma_sums_zero (sig : R) : sigma_quadratic sig (0, 0, 0).
Proof. unfold sigma_quadratic. cbn. ring. Qed.

Lemma sigma_sums_add3_if (sig : R) (c : bool) (t acc : R * R * R) :
  sigma_quadratic sig t -> sigma_quadratic sig acc -> sigma_quadratic sig (add3_if c t acc).
Proof.
  unfold sigma_quadratic, add3_if.
  destruct c; [|tauto].
  destruct acc as [[kern sig_derv] ls_derv], t as [[kern_term sig_term] ls_term].
  cbn. intros Ht Hacc. lra.
Qed.

Lemma sigma_sums_entry (sig : R) (kern sig_derv ls_derv : R) :
  sig <> 0 -> sigma_quadratic sig (kern, sig_derv, ls_derv) ->
  sig_derv = 2 / sig * kern.
Proof.
  unfold sigma_quadratic. cbn. intros Hsig H.
  apply (Rmult_eq_reg_l sig); [|exact Hsig].
  rewrite H. field. exact Hsig.
Qed.

Variable grad_helper :
  R -> R -> R -> R -> R -> R -> R -> R ->
  R -> R -> R -> R -> R -> R -> R -> R -> R * R * R.
Variable grad_constants : R -> R -> R * R * R * R * R * R * R * R.
Variable three_body_grad_helper_1 three_body_grad_helper_2 :
  R -> R -> R -> R -> R -> R -> R -> R -> R -> R -> R ->
  R -> R -> R -> R -> R -> R -> R -> R -> R * R * R.

Lemma two_body_sigma_gradient (bond_array_1 : list (brow R)) (c1 : Z)
      (etypes1 : list Z) (bond_array_2 : list (brow R)) (c2 : Z)
      (etypes2 : list Z) (d1 d2 : Z) (sig ls r_cut : R)
      (cutoff_func : cutoff_fn R) :
  sig <> 0 ->
  (forall A B C D fi fj fdi fdj ls1 ls2 ls3 ls4 ls5 ls6,
      sigma_quadratic sig (grad_helper A B C D fi fj fdi fdj
                                       ls1 ls2 ls3 ls4 ls5 ls6
                                       (sig * sig) (2 * sig))) ->
  let '(kern, grad) :=
    two_body_mc_grad_jit grad_helper bond_array_1 c1 etypes1
                         bond_array_2 c2 etypes2 d1 d2 sig ls r_cut
                         cutoff_func in
  nth 0 grad 0 = 2 / sig * kern.
Proof.
  intros Hsig Hhelper. unfold two_body_mc_grad_jit.
  match goal with
  | |- context [fold_left ?f ?l (fzero, fzero, fzero)] =>
      assert (H : sigma_quadratic sig (fold_left f l (fzero, fzero, fzero)));
      [|destruct (fold_left f l (fzero, fzero, fzero))
          as [[kern sig_derv] ls_derv]]
  end.
  - apply fold_left_invariant; [apply sigma_sums_zero|].
    intros acc m Hacc.
    destruct (cutoff_func r_cut (ba_get bond_array_1 m 0)
                          (ba_get bond_array_1 m d1)) as [fi fdi].
    apply fold_left_invariant; [exact Hacc|].
    clear acc Hacc. intros [[kern sig_derv] ls_derv] n Hacc.
    destruct (bonds_agree c1 (getZ etypes1 m) c2 (getZ etypes2 n));
      [|exact Hacc].
    destruct (cutoff_func r_cut (ba_get bond_array_2 n 0)
                          (ba_get bond_array_2 n d2)) as [fj fdj].
    match goal with
    | |- context [grad_helper ?A ?B ?C ?D ?a ?b ?c ?d ?l1 ?l2 ?l3 ?l4 ?l5 ?l6
                              ?s2 ?s3] =>
        assert (Ht := Hhelper A B C D a b c d l1 l2 l3 l4 l5 l6);
        change s2 with (sig * sig) in *; change s3 with (2 * sig) in *;
        destruct (grad_helper A B C D a b c d l1 l2 l3 l4 l5 l6
                              (sig * sig) (2 * sig))
          as [[kern_term sig_term] ls_term]
    end.
    unfold sigma_quadratic in *. cbn in *. lra.
  - cbn [nth]. now apply sigma_sums_entry with ls_derv.
Qed.

Lemma three_body_sigma_gradient (bond_array_1 : list (brow R)) (c1 : Z)
      (etypes1 : list Z) (bond_array_2 : list (brow R)) (c2 : Z)
      (etypes2 : list Z)
      (cross_bond_inds_1 cross_bond_inds_2 : list (list Z))
      (cross_bond_dists_1 cross_bond_dists_2 : list (list R))
      (triplets_1 triplets_2 : list Z) (d1 d2 : Z) (sig ls r_cut : R)
      (cutoff_func : cutoff_fn R) :
  sig <> 0 ->
  (forall a b c d ra rb rc fi fj fdi fdj,
      let '(sig2, sig3, ls1, ls2, ls3, ls4, ls5, ls6) :=
        grad_constants sig ls in
      sigma_quadratic sig (three_body_grad_helper_1
                             a b c d ra rb rc fi fj fdi fdj
                             ls1 ls2 ls3 ls4 ls5 ls6 sig2 sig3)
      /\ sigma_quadratic sig (three_body_grad_helper_2
                                a b c d ra rb rc fi fj fdi fdj
                                ls1 ls2 ls3 ls4 ls5 ls6 sig2 sig3)) ->
  let '(kern, grad) :=
    three_body_mc_grad_jit grad_constants three_body_grad_helper_1
                           three_body_grad_helper_2
                           bond_array_1 c1 etypes1 bond_array_2 c2 etypes2
                           cross_bond_inds_1 cross_bond_inds_2
                           cross_bond_dists_1 cross_bond_dists_2
                           triplets_1 triplets_2 d1 d2 sig ls r_cut
                           cutoff_func in
  nth 0 grad 0 = 2 / sig * kern.
Proof.
  intros Hsig Hhelper. unfold three_body_mc_grad_jit.
  destruct (grad_constants sig ls)
    as [[[[[[[sig2 sig3] ls1] ls2] ls3] ls4] ls5] ls6].
  match goal with
  | |- context [fold_left ?f ?l (fzero, fzero, fzero)] =>
      assert (H : sigma_quadratic sig (fold_left f l (fzero, fzero, fzero)));
      [|destruct (fold_left f l (fzero, fzero, fzero))
          as [[kern sig_derv] ls_derv]]
  end.
  - apply fold_left_invariant; [apply sigma_sums_zero|].
    intros acc m Hacc.
    destruct (cutoff_func r_cut (ba_get bond_array_1 m 0)
                          (ba_get bond_array_1 m d1)) as [fi1 fdi1].
    apply fold_left_invariant; [exact Hacc|].
    clear acc Hacc. intros acc n Hacc.
    match goal with |- context [if ?g then _ else _] => destruct g end;
      [|exact Hacc].
    match goal with
    | |- context [let '(_, _) := ?p in _] => destruct p as [fi2 fdi2]
    end.
    apply fold_left_invariant; [exact Hacc|].
    clear acc Hacc. intros acc p Hacc.
    match goal with
    | |- context [let '(_, _) := ?p in _] => destruct p as [fj1 fdj1]
    end.
    match goal with |- context [if ?g then _ else _] => destruct g end;
      [|exact Hacc].
    apply fold_left_invariant; [exact Hacc|].
    clear acc Hacc. intros acc q Hacc.
    match goal with |- context [if ?g then _ else _] => destruct g end;
      [|exact Hacc].
    match goal with
    | |- context [let '(_, _) := ?p in _] => destruct p as [fj2 fdj2]
    end.
    repeat (apply sigma_sums_add3_if; [apply Hhelper|]).
    exact Hacc.
  - cbn [nth]. now apply sigma_sums_entry with ls_derv.
Qed.

End SigmaGradient.

Section ManyBodyGradient.

Context {F : Type} {NF : Num F}.
Local Open Scope num_scope.

Variable set_inter : list Z -> list Z -> list Z.
Variable k_sq_exp_double_dev : F -> F -> F -> F -> F.
Variable mb_grad_helper_ls_ : F -> F -> F -> F.

Lemma many_2body_sigma_gradient (array_1 array_2 : list F)
      (grads_1 grads_2 neigh_array_1 neigh_array_2 : list (list F))
      (neigh_grads_1 neigh_grads_2 : list (list F)) (c1 c2 : Z)
      (etypes1 etypes2 species1 species2 : list Z) (d1 d2 : Z) (sig ls : F) :
  species_columns set_inter species1 species2 c1 c2 <> None ->
  exists kern ls_derv : F,
    many_2body_mc_grad_jit set_inter k_sq_exp_double_dev mb_grad_helper_ls_
                           array_1 array_2 grads_1 grads_2
                           neigh_array_1 neigh_array_2
                           neigh_grads_1 neigh_grads_2 c1 c2
                           etypes1 etypes2 species1 species2 d1 d2 sig ls
    = Some (kern, [two / sig * kern; ls_derv]).
Proof.
  intros Hcols. unfold many_2body_mc_grad_jit.
  destruct (species_columns set_inter species1 species2 c1 c2)
    as [[[[[specs_ind sc1] sc2] sc12] sc21]|]; [|contradiction].
  cbn [bind].
  match goal with
  | |- context [let '(_, _) := ?p in _] => destruct p as [kern ls_derv]
  end.
  now exists kern, ls_derv.
Qed.

Lemma many_3body_sigma_gradient (array_1 array_2 : list (list F))
      (grads_1 grads_2 neigh_array_1 neigh_array_2 : list (list (list F)))
      (neigh_grads_1 neigh_grads_2 : list (list (list F))) (c1 c2 : Z)
      (etypes1 etypes2 species1 species2 : list Z) (d1 d2 : Z) (sig ls : F) :
  species_columns set_inter species1 species2 c1 c2 <> None ->
  exists kern ls_derv : F,
    many_3body_mc_grad_jit set_inter k_sq_exp_double_dev mb_grad_helper_ls_
                           array_1 array_2 grads_1 grads_2
                           neigh_array_1 neigh_array_2
                           neigh_grads_1 neigh_grads_2 c1 c2
                           etypes1 etypes2 species1 species2 d1 d2 sig ls
    = Some (kern, [two / sig * kern; ls_derv]).
Proof.
  intros Hcols. unfold many_3body_mc_grad_jit.
  destruct (species_columns set_inter species1 species2 c1 c2)
    as [[[[[specs_ind sc1] sc2] sc12] sc21]|]; [|contradiction].
  cbn [bind].
  match goal with
  | |- context [let '(_, _) := ?p in _] => destruct p as [kern ls_derv]
  end.
  now exists kern, ls_derv.
Qed.

End ManyBodyGradient.

(** ** The gradient kernels on environments *)

Section WrapperGradient.

Local Open Scope R_scope.

Variable grad_helper :
  R -> R -> R -> R -> R -> R -> R -> R ->
  R -> R -> R -> R -> R -> R -> R -> R -> R * R * R.
Variable grad_constants : R -> R -> R * R * R * R * R * R * R * R.
Variable three_body_grad_helper_1 three_body_grad_helper_2 :
  R -> R -> R -> R -> R -> R -> R -> R -> R -> R -> R ->
  R -> R -> R -> R -> R -> R -> R -> R -> R * R * R.

Lemma two_body_grad_on_sigma (env1 env2 : AtomicEnvironment) (d1 d2 : Z)
      (sig ls r_cut : R) (cutoff_func : cutoff_fn R) :
  sig <> 0 -> helper_quadratic sig grad_helper ->
  exists kern ls_derv,
    two_body_grad_on grad_helper env1 env2 d1 d2 sig ls r_cut cutoff_func
    = (kern, [2 / sig * kern; ls_derv]).
Proof.
  intros Hsig Hq.
  pose proof (@two_body_sigma_gradient grad_helper
                (bond_array_2 env1) (ctype env1) (etypes env1)
                (bond_array_2 env2) (ctype env2) (etypes env2)
                d1 d2 sig ls r_cut cutoff_func Hsig Hq) as H.
  unfold two_body_grad_on. revert H. unfold two_body_mc_grad_jit.
  match goal with
  | |- context [fold_left ?f ?l (fzero, fzero, fzero)] =>
      destruct (fold_left f l (fzero, fzero, fzero))
        as [[kern sig_derv] ls_derv]
  end.
  cbn [nth]. intros ->. now exists kern, ls_derv.
Qed.

Lemma three_body_grad_on_sigma (env1 env2 : AtomicEnvironment) (d1 d2 : Z)
      (sig ls r_cut : R) (cutoff_func : cutoff_fn R) :
  sig <> 0 ->
  helpers_quadratic_3 sig ls grad_constants three_body_grad_helper_1
                      three_body_grad_helper_2 ->
  exists kern ls_derv,
    three_body_grad_on grad_constants three_body_grad_helper_1
                       three_body_grad_helper_2 env1 env2 d1 d2 sig ls r_cut
                       cutoff_func
    = (kern, [2 / sig * kern; ls_derv]).
Proof.
  intros Hsig Hq.
  pose proof (@three_body_sigma_gradient grad_constants
                three_body_grad_helper_1 three_body_grad_helper_2
                (bond_array_3 env1) (ctype env1) (etypes env1)
                (bond_array_3 env2) (ctype env2) (etypes env2)
                (cross_bond_inds env1) (cross_bond_inds env2)
                (cross_bond_dists env1) (cross_bond_dists env2)
                (triplet_counts env1) (triplet_counts env2)
                d1 d2 sig ls r_cut cutoff_func Hsig Hq) as H.
  unfold three_body_grad_on. revert H. unfold three_body_mc_grad_jit.
  destruct (grad_constants sig ls)
    as [[[[[[[sig2 sig3] ls1] ls2] ls3] ls4] ls5] ls6].
  match goal with
  | |- context [fold_left ?f ?l (fzero, fzero, fzero)] =>
      destruct (fold_left f l (fzero, fzero, fzero))
        as [[kern sig_derv] ls_derv]
  end.
  cbn [nth]. intros ->. now exists kern, ls_derv.
Qed.

End WrapperGradient.

(** C8 (as amended).  For one order: in each of the four gradient kernels,
    and in [two_body_mc_grad], [three_body_mc_grad] and
    [many_3body_mc_grad], which return what their kernel returns, the
    entry of the gradient that belongs to the signal variance σ is 2/σ
    times the returned kernel value.  The many-body kernels, which return
    whenever their species lookups succeed, compute the entry as
    [2. / sig * kern] in the arithmetic of the source; the 2-body and
    3-body kernels add up what [grad_helper] and the two 3-body helpers
    return, and with helpers whose terms are quadratic in σ the sums obey
    the relation in exact arithmetic when σ is not zero.
    [many_2body_mc_grad] returns for no input.  For several orders
    ([two_plus_three_body_mc_grad], [many_body_mc_grad],
    [two_plus_three_plus_many_body_mc_grad]): the returned value is the sum
    of the kernel values of the orders, the gradient is the concatenation
    of their gradients, and the σ entry of each order is 2/σ times the
    kernel value of that order, not of the sum. *)
Theorem signal_variance_gradient :
  (forall (grad_helper :
             R -> R -> R -> R -> R -> R -> R -> R ->
             R -> R -> R -> R -> R -> R -> R -> R -> R * R * R)
          (bond_array_1 : list (brow R)) (c1 : Z) (etypes1 : list Z)
          (bond_array_2 : list (brow R)) (c2 : Z) (etypes2 : list Z)
          (d1 d2 : Z) (sig ls r_cut : R) (cutoff_func : cutoff_fn R),
      sig <> 0%R ->
      (forall A B C D fi fj fdi fdj ls1 ls2 ls3 ls4 ls5 ls6,
          sigma_quadratic sig (grad_helper A B C D fi fj fdi fdj
                                           ls1 ls2 ls3 ls4 ls5 ls6
                                           (sig * sig)%R (2 * sig)%R)) ->
      let '(kern, grad) :=
        two_body_mc_grad_jit grad_helper bond_array_1 c1 etypes1
                             bond_array_2 c2 etypes2 d1 d2 sig ls r_cut
                             cutoff_func in
      nth 0 grad 0%R = (2 / sig * kern)%R)
  /\ (forall (grad_constants : R -> R -> R * R * R * R * R * R * R * R)
             (three_body_grad_helper_1 three_body_grad_helper_2 :
                R -> R -> R -> R -> R -> R -> R -> R -> R -> R -> R ->
                R -> R -> R -> R -> R -> R -> R -> R -> R * R * R)
             (bond_array_1 : list (brow R)) (c1 : Z) (etypes1 : list Z)
             (bond_array_2 : list (brow R)) (c2 : Z) (etypes2 : list Z)
             (cross_bond_inds_1 cross_bond_inds_2 : list (list Z))
             (cross_bond_dists_1 cross_bond_dists_2 : list (list R))
             (triplets_1 triplets_2 : list Z) (d1 d2 : Z) (sig ls r_cut : R)
             (cutoff_func : cutoff_fn R),
         sig <> 0%R ->
         (forall a b c d ra rb rc fi fj fdi fdj,
             let '(sig2, sig3, ls1, ls2, ls3, ls4, ls5, ls6) :=
               grad_constants sig ls in
             sigma_quadratic sig (three_body_grad_helper_1
                                    a b c d ra rb rc fi fj fdi fdj
                                    ls1 ls2 ls3 ls4 ls5 ls6 sig2 sig3)
             /\ sigma_quadratic sig (three_body_grad_helper_2
                                       a b c d ra rb rc fi fj fdi fdj
                                       ls1 ls2 ls3 ls4 ls5 ls6 sig2 sig3)) ->
         let '(kern, grad) :=
           three_body_mc_grad_jit grad_constants three_body_grad_helper_1
                                  three_body_grad_helper_2
                                  bond_array_1 c1 etypes1
                                  bond_array_2 c2 etypes2
                                  cross_bond_inds_1 cross_bond_inds_2
                                  cross_bond_dists_1 cross_bond_dists_2
                                  triplets_1 triplets_2 d1 d2 sig ls r_cut
                                  cutoff_func in
         nth 0 grad 0%R = (2 / sig * kern)%R)
  /\ (forall (F : Type) (NF : Num F)
             (set_inter : list Z -> list Z -> list Z)
             (k_sq_exp_double_dev : F -> F -> F -> F -> F)
             (mb_grad_helper_ls_ : F -> F -> F -> F)
             (array_1 array_2 : list F)
             (grads_1 grads_2 neigh_array_1 neigh_array_2 : list (list F))
             (neigh_grads_1 neigh_grads_2 : list (list F)) (c1 c2 : Z)
             (etypes1 etypes2 species1 species2 : list Z) (d1 d2 : Z)
             (sig ls : F),
         species_columns set_inter species1 species2 c1 c2 <> None ->
         exists kern ls_derv : F,
           many_2body_mc_grad_jit set_inter k_sq_exp_double_dev
                                  mb_grad_helper_ls_
                                  array_1 array_2 grads_1 grads_2
                                  neigh_array_1 neigh_array_2
                                  neigh_grads_1 neigh_grads_2 c1 c2
                                  etypes1 etypes2 species1 species2
                                  d1 d2 sig ls
           = Some (kern, [(two / sig * kern)%num; ls_derv]))
  /\ (forall (F : Type) (NF : Num F)
             (set_inter : list Z -> list Z -> list Z)
             (k_sq_exp_double_dev : F -> F -> F -> F -> F)
             (mb_grad_helper_ls_ : F -> F -> F -> F)
             (array_1 array_2 : list (list F))
             (grads_1 grads_2 neigh_array_1 neigh_array_2
                : list (list (list F)))
             (neigh_grads_1 neigh_grads_2 : list (list (list F)))
             (c1 c2 : Z) (etypes1 etypes2 species1 species2 : list Z)
             (d1 d2 : Z) (sig ls : F),
         species_columns set_inter species1 species2 c1 c2 <> None ->
         exists kern ls_derv : F,
           many_3body_mc_grad_jit set_inter k_sq_exp_double_dev
                                  mb_grad_helper_ls_
                                  array_1 array_2 grads_1 grads_2
                                  neigh_array_1 neigh_array_2
                                  neigh_grads_1 neigh_grads_2 c1 c2
                                  etypes1 etypes2 species1 species2
                                  d1 d2 sig ls
           = Some (kern, [(two / sig * kern)%num; ls_derv]))
  /\ (forall (grad_helper :
                R -> R -> R -> R -> R -> R -> R -> R ->
                R -> R -> R -> R -> R -> R -> R -> R -> R * R * R)
             (env1 env2 : AtomicEnvironment) (d1 d2 : Z)
             (hyps cutoffs : list R) (cutoff_func : cutoff_fn R)
             (sig ls r_cut : R),
         py_get hyps 0 = Some sig -> py_get hyps 1 = Some ls ->
         py_get cutoffs 0 = Some r_cut ->
         sig <> 0%R -> helper_quadratic sig grad_helper ->
         exists kern ls_derv : R,
           two_body_grad_on grad_helper env1 env2 d1 d2 sig ls r_cut
                            cutoff_func
           = (kern, [(2 / sig * kern)%R; ls_derv])
           /\ two_body_mc_grad grad_helper env1 env2 d1 d2 hyps cutoffs
                               cutoff_func
              = Some (kern, [(2 / sig * kern)%R; ls_derv]))
  /\ (forall (grad_constants : R -> R -> R * R * R * R * R * R * R * R)
             (three_body_grad_helper_1 three_body_grad_helper_2 :
                R -> R -> R -> R -> R -> R -> R -> R -> R -> R -> R ->
                R -> R -> R -> R -> R -> R -> R -> R -> R * R * R)
             (env1 env2 : AtomicEnvironment) (d1 d2 : Z)
             (hyps cutoffs : list R) (cutoff_func : cutoff_fn R)
             (sig ls r_cut : R),
         py_get hyps 0 = Some sig -> py_get hyps 1 = Some ls ->
         py_get cutoffs 1 = Some r_cut ->
         sig <> 0%R ->
         helpers_quadratic_3 sig ls grad_constants three_body_grad_helper_1
                             three_body_grad_helper_2 ->
         exists kern ls_derv : R,
           three_body_grad_on grad_constants three_body_grad_helper_1
                              three_body_grad_helper_2 env1 env2 d1 d2
                              sig ls r_cut cutoff_func
           = (kern, [(2 / sig * kern)%R; ls_derv])
           /\ three_body_mc_grad grad_constants three_body_grad_helper_1
                                 three_body_grad_helper_2 env1 env2 d1 d2
                                 hyps cutoffs cutoff_func
              = Some (kern, [(2 / sig * kern)%R; ls_derv]))
  /\ (forall (F : Type) (env1 env2 : @AtomicEnvironment F) (d1 d2 : Z)
             (hyps cutoffs : list F) (cutoff_func : cutoff_fn F),
         many_2body_mc_grad env1 env2 d1 d2 hyps cutoffs cutoff_func = None)
  /\ (forall (F : Type) (NF : Num F)
             (set_inter : list Z -> list Z -> list Z)
             (k_sq_exp_double_dev : F -> F -> F -> F -> F)
             (mb_grad_helper_ls_ : F -> F -> F -> F)
             (env1 env2 : AtomicEnvironment) (d1 d2 : Z)
             (hyps cutoffs : list F) (cutoff_func : cutoff_fn F)
             (sig ls : F),
         py_get hyps 0 = Some sig -> py_get hyps 1 = Some ls ->
         species_columns set_inter (m3b_unique_species env1)
                         (m3b_unique_species env2) (ctype env1) (ctype env2)
         <> None ->
         exists kern ls_derv : F,
           many_3body_grad_on set_inter k_sq_exp_double_dev
                              mb_grad_helper_ls_ env1 env2 d1 d2 sig ls
           = Some (kern, [(two / sig * kern)%num; ls_derv])
           /\ many_3body_mc_grad set_inter k_sq_exp_double_dev
                                 mb_grad_helper_ls_ env1 env2 d1 d2
                                 hyps cutoffs cutoff_func
              = Some (kern, [(two / sig * kern)%num; ls_derv]))
  /\ (forall (grad_helper :
                R -> R -> R -> R -> R -> R -> R -> R ->
                R -> R -> R -> R -> R -> R -> R -> R -> R * R * R)
             (grad_constants : R -> R -> R * R * R * R * R * R * R * R)
             (three_body_grad_helper_1 three_body_grad_helper_2 :
                R -> R -> R -> R -> R -> R -> R -> R -> R -> R -> R ->
                R -> R -> R -> R -> R -> R -> R -> R -> R * R * R)
             (env1 env2 : AtomicEnvironment) (d1 d2 : Z)
             (hyps cutoffs : list R) (cutoff_func : cutoff_fn R)
             (sig2 ls2 sig3 ls3 r_cut_2 r_cut_3 : R),
         py_get hyps 0 = Some sig2 -> py_get hyps 1 = Some ls2 ->
         py_get hyps 2 = Some sig3 -> py_get hyps 3 = Some ls3 ->
         py_get cutoffs 0 = Some r_cut_2 ->
         py_get cutoffs 1 = Some r_cut_3 ->
         sig2 <> 0%R -> sig3 <> 0%R ->
         helper_quadratic sig2 grad_helper ->
         helpers_quadratic_3 sig3 ls3 grad_constants
                             three_body_grad_helper_1
                             three_body_grad_helper_2 ->
         exists kern2 ls2_derv kern3 ls3_derv : R,
           two_body_grad_on grad_helper env1 env2 d1 d2 sig2 ls2 r_cut_2
                            cutoff_func
           = (kern2, [(2 / sig2 * kern2)%R; ls2_derv])
           /\ three_body_grad_on grad_constants three_body_grad_helper_1
                                 three_body_grad_helper_2 env1 env2 d1 d2
                                 sig3 ls3 r_cut_3 cutoff_func
              = (kern3, [(2 / sig3 * kern3)%R; ls3_derv])
           /\ two_plus_three_body_mc_grad
                grad_helper grad_constants three_body_grad_helper_1
                three_body_grad_helper_2 env1 env2 d1 d2 hyps cutoffs
                cutoff_func
              = Some ((kern2 + kern3)%R,
                      [(2 / sig2 * kern2)%R; ls2_derv;
                       (2 / sig3 * kern3)%R; ls3_derv]))
  /\ (forall (F : Type) (NF : Num F)
             (set_inter : list Z -> list Z -> list Z)
             (k_sq_exp_double_dev : F -> F -> F -> F -> F)
             (mb_grad_helper_ls_ : F -> F -> F -> F)
             (env1 env2 : AtomicEnvironment) (d1 d2 : Z)
             (hyps cutoffs : list F) (cutoff_func : cutoff_fn F)
             (sig2 ls2 sig3 ls3 : F),
         py_get hyps 0 = Some sig2 -> py_get hyps 1 = Some ls2 ->
         py_get hyps 2 = Some sig3 -> py_get hyps 3 = Some ls3 ->
         species_columns set_inter (m2b_unique_species env1)
                         (m2b_unique_species env2) (ctype env1) (ctype env2)
         <> None ->
         species_columns set_inter (m3b_unique_species env1)
                         (m3b_unique_species env2) (ctype env1) (ctype env2)
         <> None ->
         exists m2b_term ls2_derv m3b_term ls3_derv : F,
           many_2body_grad_on set_inter k_sq_exp_double_dev
                              mb_grad_helper_ls_ env1 env2 d1 d2 sig2 ls2
           = Some (m2b_term, [(two / sig2 * m2b_term)%num; ls2_derv])
           /\ many_3body_grad_on set_inter k_sq_exp_double_dev
                                 mb_grad_helper_ls_ env1 env2 d1 d2 sig3 ls3
              = Some (m3b_term, [(two / sig3 * m3b_term)%num; ls3_derv])
           /\ many_body_mc_grad set_inter k_sq_exp_double_dev
                                mb_grad_helper_ls_ env1 env2 d1 d2
                                hyps cutoffs cutoff_func
              = Some ((m2b_term + m3b_term)%num,
                      [(two / sig2 * m2b_term)%num; ls2_derv;
                       (two / sig3 * m3b_term)%num; ls3_derv]))
  /\ (forall (set_inter : list Z -> list Z -> list Z)
             (grad_helper :
                R -> R -> R -> R -> R -> R -> R -> R ->
                R -> R -> R -> R -> R -> R -> R -> R -> R * R * R)
             (grad_constants : R -> R -> R * R * R * R * R * R * R * R)
             (three_body_grad_helper_1 three_body_grad_helper_2 :
                R -> R -> R -> R -> R -> R -> R -> R -> R -> R -> R ->
                R -> R -> R -> R -> R -> R -> R -> R -> R * R * R)
             (k_sq_exp_double_dev : R -> R -> R -> R -> R)
             (mb_grad_helper_ls_ : R -> R -> R -> R)
             (env1 env2 : AtomicEnvironment) (d1 d2 : Z)
             (hyps cutoffs : list R) (cutoff_func : cutoff_fn R)
             (sig2 ls2 sig3 ls3 sigm2 lsm2 sigm3 lsm3 r_cut_2 r_cut_3 : R),
         py_get hyps 0 = Some sig2 -> py_get hyps 1 = Some ls2 ->
         py_get hyps 2 = Some sig3 -> py_get hyps 3 = Some ls3 ->
         py_get hyps 4 = Some sigm2 -> py_get hyps 5 = Some lsm2 ->
         py_get hyps 6 = Some sigm3 -> py_get hyps 7 = Some lsm3 ->
         py_get cutoffs 0 = Some r_cut_2 ->
         py_get cutoffs 1 = Some r_cut_3 ->
         sig2 <> 0%R -> sig3 <> 0%R ->
         helper_quadratic sig2 grad_helper ->
         helpers_quadratic_3 sig3 ls3 grad_constants
                             three_body_grad_helper_1
                             three_body_grad_helper_2 ->
         species_columns set_inter (m2b_unique_species env1)
                         (m2b_unique_species env2) (ctype env1) (ctype env2)
         <> None ->
         species_columns set_inter (m3b_unique_species env1)
                         (m3b_unique_species env2) (ctype env1) (ctype env2)
         <> None ->
         exists kern2 ls2_derv kern3 ls3_derv kern_m2b lsm2_derv
                kern_m3b lsm3_derv : R,
           two_body_grad_on grad_helper env1 env2 d1 d2 sig2 ls2 r_cut_2
                            cutoff_func
           = (kern2, [(2 / sig2 * kern2)%R; ls2_derv])
           /\ three_body_grad_on grad_constants three_body_grad_helper_1
                                 three_body_grad_helper_2 env1 env2 d1 d2
                                 sig3 ls3 r_cut_3 cutoff_func
              = (kern3, [(2 / sig3 * kern3)%R; ls3_derv])
           /\ many_2body_grad_on set_inter k_sq_exp_double_dev
                                 mb_grad_helper_ls_ env1 env2 d1 d2
                                 sigm2 lsm2
              = Some (kern_m2b, [(2 / sigm2 * kern_m2b)%R; lsm2_derv])
           /\ many_3body_grad_on set_inter k_sq_exp_double_dev
                                 mb_grad_helper_ls_ env1 env2 d1 d2
                                 sigm3 lsm3
              = Some (kern_m3b, [(2 / sigm3 * kern_m3b)%R; lsm3_derv])
           /\ two_plus_three_plus_many_body_mc_grad
                set_inter grad_helper grad_constants
                three_body_grad_helper_1 three_body_grad_helper_2
                k_sq_exp_double_dev mb_grad_helper_ls_ env1 env2 d1 d2
                hyps cutoffs cutoff_func
              = Some ((kern2 + kern3 + kern_m2b + kern_m3b)%R,
                      [(2 / sig2 * kern2)%R; ls2_derv;
                       (2 / sig3 * kern3)%R; ls3_derv;
                       (2 / sigm2 * kern_m2b)%R; lsm2_derv;
                       (2 / sigm3 * kern_m3b)%R; lsm3_derv])).
Proof.
  split; [|split; [|split; [|split; [|split; [|split; [|split; [|split;
    [|split; [|split]]]]]]]]].
  - intros. now apply two_body_sigma_gradient.
  - intros. now apply three_body_sigma_gradient.
  - intros. now apply many_2body_sigma_gradient.
  - intros. now apply many_3body_sigma_gradient.
  - intros gh env1 env2 d1 d2 hyps cutoffs cf sig ls r_cut H0 H1 Hc Hsig Hq.
    destruct (@two_body_grad_on_sigma gh env1 env2 d1 d2 sig ls r_cut cf
                Hsig Hq) as (kern & ls_derv & E).
    exists kern, ls_derv. split; [exact E|].
    unfold two_body_mc_grad. rewrite H0, H1, Hc. cbn [bind].
    f_equal. exact E.
  - intros gc h1 h2 env1 env2 d1 d2 hyps cutoffs cf sig ls r_cut H0 H1 Hc
           Hsig Hq.
    destruct (@three_body_grad_on_sigma gc h1 h2 env1 env2 d1 d2 sig ls
                r_cut cf Hsig Hq) as (kern & ls_derv & E).
    exists kern, ls_derv. split; [exact E|].
    unfold three_body_mc_grad. rewrite H0, H1, Hc. cbn [bind].
    f_equal. exact E.
  - reflexivity.
  - intros F NF set_inter k mb env1 env2 d1 d2 hyps cutoffs cf sig ls H0 H1
           Hcols.
    destruct (@many_3body_sigma_gradient F NF set_inter k mb
                (m3b_array env1) (m3b_array env2)
                (m3b_grads env1) (m3b_grads env2)
                (m3b_neigh_array env1) (m3b_neigh_array env2)
                (m3b_neigh_grads env1) (m3b_neigh_grads env2)
                (ctype env1) (ctype env2)
                (etypes_m3b env1) (etypes_m3b env2)
                (m3b_unique_species env1) (m3b_unique_species env2)
                d1 d2 sig ls Hcols) as (kern & ls_derv & E).
    exists kern, ls_derv. split; [exact E|].
    unfold many_3body_mc_grad. rewrite H0, H1. cbn [bind]. exact E.
  - intros gh gc h1 h2 env1 env2 d1 d2 hyps cutoffs cf
           sig2 ls2 sig3 ls3 r2 r3 H0 H1 H2 H3 Hc0 Hc1 Hs2 Hs3 Hq2 Hq3.
    destruct (@two_body_grad_on_sigma gh env1 env2 d1 d2 sig2 ls2 r2 cf
                Hs2 Hq2) as (kern2 & l2 & E2).
    destruct (@three_body_grad_on_sigma gc h1 h2 env1 env2 d1 d2 sig3 ls3
                r3 cf Hs3 Hq3) as (kern3 & l3 & E3).
    exists kern2, l2, kern3, l3.
    split; [exact E2|]. split; [exact E3|].
    unfold two_plus_three_body_mc_grad.
    rewrite H0, H1, H2, H3, Hc0, Hc1. cbn [bind].
    unfold two_body_grad_on in E2. unfold three_body_grad_on in E3.
    rewrite E2, E3. reflexivity.
  - intros F NF set_inter k mb env1 env2 d1 d2 hyps cutoffs cf
           sig2 ls2 sig3 ls3 H0 H1 H2 H3 Hc2 Hc3.
    destruct (@many_2body_sigma_gradient F NF set_inter k mb
                (m2b_array env1) (m2b_array env2)
                (m2b_grads env1) (m2b_grads env2)
                (m2b_neigh_array env1) (m2b_neigh_array env2)
                (m2b_neigh_grads env1) (m2b_neigh_grads env2)
                (ctype env1) (ctype env2)
                (etypes_m2b env1) (etypes_m2b env2)
                (m2b_unique_species env1) (m2b_unique_species env2)
                d1 d2 sig2 ls2 Hc2) as (k2 & l2 & E2).
    destruct (@many_3body_sigma_gradient F NF set_inter k mb
                (m3b_array env1) (m3b_array env2)
                (m3b_grads env1) (m3b_grads env2)
                (m3b_neigh_array env1) (m3b_neigh_array env2)
                (m3b_neigh_grads env1) (m3b_neigh_grads env2)
                (ctype env1) (ctype env2)
                (etypes_m3b env1) (etypes_m3b env2)
                (m3b_unique_species env1) (m3b_unique_species env2)
                d1 d2 sig3 ls3 Hc3) as (k3 & l3 & E3).
    exists k2, l2, k3, l3.
    split; [exact E2|]. split; [exact E3|].
    unfold many_body_mc_grad. rewrite H0, H1. cbn [bind].
    rewrite E2. cbn [bind]. rewrite H2, H3. cbn [bind].
    rewrite E3. reflexivity.
  - intros set_inter gh gc h1 h2 k mb env1 env2 d1 d2 hyps cutoffs cf
           sig2 ls2 sig3 ls3 sigm2 lsm2 sigm3 lsm3 r2 r3
           H0 H1 H2 H3 H4 H5 H6 H7 Hc0 Hc1 Hs2 Hs3 Hq2 Hq3 Hcm2 Hcm3.
    destruct (@two_body_grad_on_sigma gh env1 env2 d1 d2 sig2 ls2 r2 cf
                Hs2 Hq2) as (kern2 & l2 & E2).
    destruct (@three_body_grad_on_sigma gc h1 h2 env1 env2 d1 d2 sig3 ls3
                r3 cf Hs3 Hq3) as (kern3 & l3 & E3).
    destruct (@many_2body_sigma_gradient R _ set_inter k mb
                (m2b_array env1) (m2b_array env2)
                (m2b_grads env1) (m2b_grads env2)
                (m2b_neigh_array env1) (m2b_neigh_array env2)
                (m2b_neigh_grads env1) (m2b_neigh_grads env2)
                (ctype env1) (ctype env2)
                (etypes_m2b env1) (etypes_m2b env2)
                (m2b_unique_species env1) (m2b_unique_species env2)
                d1 d2 sigm2 lsm2 Hcm2) as (km2 & lm2 & Em2).
    destruct (@many_3body_sigma_gradient R _ set_inter k mb
                (m3b_array env1) (m3b_array env2)
                (m3b_grads env1) (m3b_grads env2)
                (m3b_neigh_array env1) (m3b_neigh_array env2)
                (m3b_neigh_grads env1) (m3b_neigh_grads env2)
                (ctype env1) (ctype env2)
                (etypes_m3b env1) (etypes_m3b env2)
                (m3b_unique_species env1) (m3b_unique_species env2)
                d1 d2 sigm3 lsm3 Hcm3) as (km3 & lm3 & Em3).
    exists kern2, l2, kern3, l3, km2, lm2, km3, lm3.
    split; [exact E2|]. split; [exact E3|].
    split; [exact Em2|]. split; [exact Em3|].
    unfold two_plus_three_plus_many_body_mc_grad.
    rewrite H0, H1, Hc0. cbn [bind].
    unfold two_body_grad_on in E2. rewrite E2.
    rewrite H2, H3, Hc1. cbn [bind].
    unfold three_body_grad_on in E3. rewrite E3.
    rewrite H4, H5. cbn [bind]. rewrite Em2. cbn [bind].
    rewrite H6, H7. cbn [bind]. rewrite Em3. reflexivity.
Qed.

(** Environments of one bond and of one triplet with σ = 2 and helpers
    that are quadratic in σ, and many-body descriptors of one species
    evaluated in binary64. *)
Lemma signal_variance_gradient_witness :
  (let '(kern, grad) :=
     two_body_mc_grad_jit grad_helper_quadratic
                          [(1, 1, 0, 0)%R] 1 [1%Z] [(2, 1, 0, 0)%R] 1 [1%Z]
                          1 1 2%R 1%R 3%R (fun _ _ _ => (1, 0)%R) in
   nth 0 grad 0%R = (2 / 2 * kern)%R)
  /\ (let '(kern, grad) :=
        three_body_mc_grad_jit grad_constants_quadratic
          three_body_grad_helper_quadratic three_body_grad_helper_quadratic
          [(1, 1, 0, 0)%R; (1, 0, 1, 0)%R] 1 [1%Z; 1%Z]
          [(2, 1, 0, 0)%R; (2, 0, 1, 0)%R] 1 [1%Z; 1%Z]
          [[(-1)%Z; 1%Z]; [(-1)%Z; (-1)%Z]] [[(-1)%Z; 1%Z]; [(-1)%Z; (-1)%Z]]
          [[0; 1]%R; [0; 0]%R] [[0; 2]%R; [0; 0]%R]
          [1%Z; 0%Z] [1%Z; 0%Z] 1 1 2%R 1%R 3%R (fun _ _ _ => (1, 0)%R) in
      nth 0 grad 0%R = (2 / 2 * kern)%R)
  /\ (exists kern ls_derv : float,
         many_2body_mc_grad_jit inter_first (fun _ _ _ _ => 1%float)
                                (fun _ _ _ => 1%float)
                                [1%float] [2%float]
                                [[1; 0; 0]%float] [[1; 0; 0]%float]
                                [[1%float]] [[2%float]]
                                [[1; 0; 0]%float] [[1; 0; 0]%float]
                                1 1 [1%Z] [1%Z] [1%Z] [1%Z] 1 1
                                3%float 1%float
         = Some (kern, [fmul (fdiv two 3%float) kern; ls_derv]))
  /\ (exists kern ls_derv : float,
         many_3body_mc_grad_jit inter_first (fun _ _ _ _ => 1%float)
                                (fun _ _ _ => 1%float)
                                [[1%float]] [[2%float]]
                                [[[1; 0; 0]%float]] [[[1; 0; 0]%float]]
                                [[[1%float]]] [[[2%float]]]
                                [[[1; 0; 0]%float]] [[[1; 0; 0]%float]]
                                1 1 [1%Z] [1%Z] [1%Z] [1%Z] 1 1
                                3%float 1%float
         = Some (kern, [fmul (fdiv two 3%float) kern; ls_derv]))
  /\ (exists kern2 ls2_derv kern3 ls3_derv : R,
         two_body_grad_on grad_helper_quadratic env_one_triplet env_one_bond
                          1 1 2%R 1%R 4%R (fun _ _ _ => (1, 0)%R)
         = (kern2, [(2 / 2 * kern2)%R; ls2_derv])
         /\ three_body_grad_on grad_constants_quadratic
              three_body_grad_helper_quadratic
              three_body_grad_helper_quadratic env_one_triplet env_one_bond
              1 1 3%R 1%R 4%R (fun _ _ _ => (1, 0)%R)
            = (kern3, [(2 / 3 * kern3)%R; ls3_derv])
         /\ two_plus_three_body_mc_grad
              grad_helper_quadratic grad_constants_quadratic
              three_body_grad_helper_quadratic
              three_body_grad_helper_quadratic env_one_triplet env_one_bond
              1 1 [2; 1; 3; 1]%R [4; 4]%R (fun _ _ _ => (1, 0)%R)
            = Some ((kern2 + kern3)%R,
                    [(2 / 2 * kern2)%R; ls2_derv;
                     (2 / 3 * kern3)%R; ls3_derv]))
  /\ (exists m2b_term ls2_derv m3b_term ls3_derv : float,
         many_2body_grad_on inter_first (fun _ _ _ _ => 1%float)
                            (fun _ _ _ => 1%float) env_near env_far 1 1
                            2%float 1%float
         = Some (m2b_term, [fmul (fdiv two 2%float) m2b_term; ls2_derv])
         /\ many_3body_grad_on inter_first (fun _ _ _ _ => 1%float)
                               (fun _ _ _ => 1%float) env_near env_far 1 1
                               4%float 1%float
            = Some (m3b_term, [fmul (fdiv two 4%float) m3b_term; ls3_derv])
         /\ many_body_mc_grad inter_first (fun _ _ _ _ => 1%float)
                              (fun _ _ _ => 1%float) env_near env_far 1 1
                              [2; 1; 4; 1]%float [3; 3]%float
                              quadratic_envelope
            = Some (fadd m2b_term m3b_term,
                    [fmul (fdiv two 2%float) m2b_term; ls2_derv;
                     fmul (fdiv two 4%float) m3b_term; ls3_derv])).
Proof.
  destruct signal_variance_gradient
    as (H2 & H3 & Hm2 & Hm3 & _ & _ & _ & _ & H23 & Hm & _).
  split; [|split; [|split; [|split; [|split]]]].
  - apply H2; [lra|].
    intros. unfold sigma_quadratic, grad_helper_quadratic. cbn. ring.
  - apply H3; [lra|].
    intros. unfold sigma_quadratic, three_body_grad_helper_quadratic.
    cbn. split; ring.
  - apply (Hm2 float _). vm_compute. discriminate.
  - apply (Hm3 float _). vm_compute. discriminate.
  - apply (H23 grad_helper_quadratic grad_constants_quadratic
               three_body_grad_helper_quadratic
               three_body_grad_helper_quadratic env_one_triplet env_one_bond
               1%Z 1%Z [2; 1; 3; 1]%R [4; 4]%R (fun _ _ _ => (1, 0)%R)
               2%R 1%R 3%R 1%R 4%R 4%R);
      try reflexivity; try lra.
    + intros A B C D fi fj fdi fdj ls1 ls2 ls3 ls4 ls5 ls6.
      unfold sigma_quadratic, grad_helper_quadratic. cbn. ring.
    + intros a b c d ra rb rc fi fj fdi fdj.
      unfold sigma_quadratic, three_body_grad_helper_quadratic.
      cbn. split; ring.
  - apply (Hm float _ inter_first (fun _ _ _ _ => 1%float)
              (fun _ _ _ => 1%float) env_near env_far 1%Z 1%Z
              [2; 1; 4; 1]%float [3; 3]%float quadratic_envelope
              2%float 1%float 4%float 1%float);
      try reflexivity; vm_compute; discriminate.
Defined.

(** C8, counterexample.  (1) [two_body_mc_grad_jit] in binary64 with a
    helper quadratic in σ, one bond in each environment, σ = 0.1: the
    kernel value is 0.010000000000000002 and the σ entry 0.2, while 2/σ
    times the kernel value is 0.20000000000000004.  (2)
    [two_plus_three_body_mc_grad] with σ = 2 for the 2-body and σ = 4 for
    the 3-body order: the returned value is 4 + 32 = 36 and the entry of
    the 2-body σ is 4, which is 2/σ times the 2-body term 4 and not 2/σ
    times 36.  (3) [many_body_mc_grad]: the returned value is 8, the entry
    of the first σ is 4, and 2/σ times 8 is 8. *)
Lemma sigma_entry_differs :
  (two_body_mc_grad_jit grad_helper_quadratic
                        [(1, 1, 0, 0)%float] 1 [1%Z]
                        [(2, 1, 0, 0)%float] 1 [1%Z]
                        1 1 0.1%float 1%float 3%float
                        (fun _ _ _ => (1, 0)%float)
   = (0.010000000000000002%float, [0.2%float; 0%float])
   /\ fmul (fdiv two 0.1%float) 0.010000000000000002%float
      = 0.20000000000000004%float
   /\ PrimFloat.eqb 0.2 0.20000000000000004 = false)
  /\ (two_plus_three_body_mc_grad
        grad_helper_quadratic grad_constants_quadratic
        three_body_grad_helper_quadratic three_body_grad_helper_quadratic
        env_near env_far 1 1 [2; 1; 4; 1]%float [3; 3]%float
        quadratic_envelope
      = Some (36%float, [4; 0; 16; 0]%float)
      /\ two_body_grad_on grad_helper_quadratic env_near env_far 1 1
                          2%float 1%float 3%float quadratic_envelope
         = (4%float, [4; 0]%float)
      /\ three_body_grad_on grad_constants_quadratic
           three_body_grad_helper_quadratic three_body_grad_helper_quadratic
           env_near env_far 1 1 4%float 1%float 3%float quadratic_envelope
         = (32%float, [16; 0]%float)
      /\ fmul (fdiv two 2%float) 36%float = 36%float
      /\ PrimFloat.eqb 4 36 = false)
  /\ (many_body_mc_grad inter_first (fun _ _ _ _ => 1%float)
                        (fun _ _ _ => 1%float) env_near env_far 1 1
                        [2; 1; 4; 1]%float [3; 3]%float quadratic_envelope
      = Some (8%float, [4; 4; 2; 4]%float)
      /\ fmul (fdiv two 2%float) 8%float = 8%float
      /\ PrimFloat.eqb 4 8 = false).
Proof. repeat split; vm_compute; reflexivity. Qed.

(** ** Symmetry of the energy/energy kernels *)

Section RealSums.

Local Open Scope R_scope.

Lemma fold_left_Rplus (l : list R) (a : R) :
  fold_left Rplus l a = a + fold_left Rplus l 0.
Proof.
  revert a. induction l as [|x l IH]; intros a; cbn [fold_left]; [ring|].
  rewrite (IH (a + x)), (IH (0 + x)). ring.
Qed.

Lemma total_cons (x : R) (l : list R) : total (x :: l) = x + total l.
Proof.
  unfold total. cbn [fold_left]. change (@fadd R Num_R) with Rplus.
  change (@fzero R Num_R) with 0. rewrite fold_left_Rplus. ring.
Qed.

Lemma total_app (l1 l2 : list R) : total (l1 ++ l2) = total l1 + total l2.
Proof.
  induction l1 as [|x l1 IH]; cbn [app].
  - unfold total at 2. cbn. ring.
  - rewrite !total_cons, IH. ring.
Qed.

Lemma total_flat_map {A : Type} (g : A -> list R) (l : list A) :
  total (flat_map g l) = total (map (fun a => total (g a)) l).
Proof.
  induction l as [|a l IH]; [reflexivity|].
  cbn [flat_map map]. now rewrite total_app, total_cons, IH.
Qed.

Lemma total_map_ext {A : Type} (f g : A -> R) (l : list A) :
  (forall a, In a l -> f a = g a) -> total (map f l) = total (map g l).
Proof.
  intros H. f_equal. apply map_ext_in. exact H.
Qed.

Lemma total_map_plus {A : Type} (f g : A -> R) (l : list A) :
  total (map (fun a => f a + g a) l) = total (map f l) + total (map g l).
Proof.
  induction l as [|a l IH]; cbn [map].
  - unfold total. cbn. ring.
  - rewrite !total_cons, IH. ring.
Qed.

Lemma total_map_zero {A : Type} (l : list A) : total (map (fun _ => 0) l) = 0.
Proof.
  induction l as [|a l IH]; cbn [map]; [reflexivity|].
  rewrite total_cons, IH. ring.
Qed.

(** Two nested sums can be taken in either order. *)
Lemma total_exchange {A B : Type} (f : A -> B -> R) (l1 : list A)
      (l2 : list B) :
  total (map (fun a => total (map (f a) l2)) l1)
  = total (map (fun b => total (map (fun a => f a b) l1)) l2).
Proof.
  induction l1 as [|a l1 IH]; cbn [map].
  - now rewrite total_map_zero.
  - rewrite total_cons, IH.
    rewrite <- total_map_plus. apply total_map_ext. intros b _.
    now rewrite total_cons.
Qed.

Lemma total_perm (l l' : list R) : Permutation l l' -> total l = total l'.
Proof.
  induction 1 as [|x l l' _ IH|x y l|l l' l'' _ IH1 _ IH2].
  - reflexivity.
  - now rewrite !total_cons, IH.
  - rewrite !total_cons. ring.
  - now rewrite IH1.
Qed.

(** The sum over all pairs of what each pair adds does not depend on which
    list the outer loop runs over. *)
Lemma total_double_sym {A B : Type} (g : A -> B -> list R)
      (h : B -> A -> list R) (l1 : list A) (l2 : list B) :
  (forall a b, total (g a b) = total (h b a)) ->
  total (flat_map (fun a => flat_map (g a) l2) l1)
  = total (flat_map (fun b => flat_map (h b) l1) l2).
Proof.
  intros H. rewrite !total_flat_map.
  rewrite (total_map_ext (fun a => total (flat_map (g a) l2))
                         (fun a => total (map (fun b => total (g a b)) l2)))
    by (intros; apply total_flat_map).
  rewrite (total_map_ext (fun b => total (flat_map (h b) l1))
                         (fun b => total (map (fun a => total (g a b)) l1))).
  - apply total_exchange.
  - intros b _. rewrite total_flat_map. apply total_map_ext.
    intros a _. symmetry. apply H.
Qed.

Lemma pairs_flat_map {A B : Type} (t : A * B -> R) (c : A * B -> bool)
      (l1 : list A) (l2 : list B) :
  map t (filter c (list_prod l1 l2))
  = flat_map (fun m => flat_map (fun n => if c (m, n) then [t (m, n)] else [])
                                l2) l1.
Proof.
  induction l1 as [|m l1 IH]; [reflexivity|].
  cbn [list_prod flat_map]. rewrite filter_app, map_app, IH. f_equal.
  clear IH. induction l2 as [|n l2 IH]; [reflexivity|].
  cbn [map filter flat_map]. destruct (c (m, n)); cbn [map app]; now rewrite IH.
Qed.

End RealSums.

Section TwoBodySymmetry.

Local Open Scope R_scope.
Variable exp : R -> R.

Lemma bonds_agree_sym (c1 e1 c2 e2 : Z) :
  bonds_agree c1 e1 c2 e2 = bonds_agree c2 e2 c1 e1.
Proof.
  unfold bonds_agree.
  rewrite (Z.eqb_sym c2 c1), (Z.eqb_sym e2 e1), (Z.eqb_sym c2 e1),
    (Z.eqb_sym c1 e2).
  now rewrite (andb_comm (e1 =? c2)%Z).
Qed.

Lemma two_body_en_jit_sym (bond_array_1 : list (brow R)) (c1 : Z)
      (etypes1 : list Z) (bond_array_2 : list (brow R)) (c2 : Z)
      (etypes2 : list Z) (sig ls r_cut : R) (cutoff_func : cutoff_fn R) :
  two_body_mc_en_jit exp bond_array_1 c1 etypes1 bond_array_2 c2 etypes2
                     sig ls r_cut cutoff_func
  = two_body_mc_en_jit exp bond_array_2 c2 etypes2 bond_array_1 c1 etypes1
                       sig ls r_cut cutoff_func.
Proof.
  rewrite !two_body_en_sum. unfold pair_sum, bond_pairs.
  rewrite !pairs_flat_map. apply total_double_sym. intros m n.
  unfold agreeing. cbn [fst snd]. rewrite (bonds_agree_sym c2).
  destruct (bonds_agree c1 (getZ etypes1 m) c2 (getZ etypes2 n));
    [|reflexivity].
  f_equal. f_equal. unfold two_body_en_term. cbn [fst snd].
  cbn -[ba_get].
  replace (- (ba_get bond_array_2 n 0 - ba_get bond_array_1 m 0)
           * (ba_get bond_array_2 n 0 - ba_get bond_array_1 m 0))
    with (- (ba_get bond_array_1 m 0 - ba_get bond_array_2 n 0)
          * (ba_get bond_array_1 m 0 - ba_get bond_array_2 n 0)) by ring.
  ring.
Qed.

End TwoBodySymmetry.

Section ThreeBodySymmetry.

Local Open Scope R_scope.
Variable exp : R -> R.

(** Seen from the other environment the six matchings are the same six:
    the third and the sixth trade places. *)
Lemma six_matchings_sym (c1 ei1 ei2 c2 ej1 ej2 : Z) (t1 t2 t3 t4 t5 t6 : R) :
  total (matched
    [((c1 =? c2)%Z && ((ei1 =? ej1)%Z && (ei2 =? ej2)%Z), t1);
     ((c1 =? c2)%Z && ((ei1 =? ej2)%Z && (ei2 =? ej1)%Z), t2);
     ((c1 =? ej1)%Z && ((ei1 =? ej2)%Z && (ei2 =? c2)%Z), t3);
     ((c1 =? ej1)%Z && ((ei1 =? c2)%Z && (ei2 =? ej2)%Z), t4);
     ((c1 =? ej2)%Z && ((ei1 =? ej1)%Z && (ei2 =? c2)%Z), t5);
     ((c1 =? ej2)%Z && ((ei1 =? c2)%Z && (ei2 =? ej1)%Z), t6)])
  = total (matched
    [((c2 =? c1)%Z && ((ej1 =? ei1)%Z && (ej2 =? ei2)%Z), t1);
     ((c2 =? c1)%Z && ((ej1 =? ei2)%Z && (ej2 =? ei1)%Z), t2);
     ((c2 =? ei1)%Z && ((ej1 =? ei2)%Z && (ej2 =? c1)%Z), t6);
     ((c2 =? ei1)%Z && ((ej1 =? c1)%Z && (ej2 =? ei2)%Z), t4);
     ((c2 =? ei2)%Z && ((ej1 =? ei1)%Z && (ej2 =? c1)%Z), t5);
     ((c2 =? ei2)%Z && ((ej1 =? c1)%Z && (ej2 =? ei1)%Z), t3)]).
Proof.
  unfold matched, total.
  split_eqb; rewrite ?Z.eqb_refl; cbn; try ring.
Qed.

Lemma matchings_sym (term12 term21 : R -> R -> R -> R) (c1 : Z) (ei : Z * Z)
      (c2 : Z) (ej : Z * Z) (ri rj : R * R * R) :
  (forall a b c a' b' c',
      a * a + b * b + c * c = a' * a' + b' * b' + c' * c' ->
      term12 a b c = term21 a' b' c') ->
  total (matched (matchings term12 c1 ei c2 ej ri rj))
  = total (matched (matchings term21 c2 ej c1 ei rj ri)).
Proof.
  intros H.
  destruct ei as [ei1 ei2], ej as [ej1 ej2], ri as [[ri1 ri2] ri3],
    rj as [[rj1 rj2] rj3].
  unfold matchings. cbn [fsub Num_R].
  rewrite <- (H (ri1 - rj1) (ri2 - rj2) (ri3 - rj3)
                (rj1 - ri1) (rj2 - ri2) (rj3 - ri3)) by ring.
  rewrite <- (H (ri1 - rj2) (ri2 - rj1) (ri3 - rj3)
                (rj1 - ri2) (rj2 - ri1) (rj3 - ri3)) by ring.
  rewrite <- (H (ri1 - rj2) (ri2 - rj3) (ri3 - rj1)
                (rj1 - ri3) (rj2 - ri1) (rj3 - ri2)) by ring.
  rewrite <- (H (ri1 - rj1) (ri2 - rj3) (ri3 - rj2)
                (rj1 - ri1) (rj2 - ri3) (rj3 - ri2)) by ring.
  rewrite <- (H (ri1 - rj3) (ri2 - rj2) (ri3 - rj1)
                (rj1 - ri3) (rj2 - ri2) (rj3 - ri1)) by ring.
  rewrite <- (H (ri1 - rj3) (ri2 - rj1) (ri3 - rj2)
                (rj1 - ri2) (rj2 - ri3) (rj3 - ri1)) by ring.
  apply six_matchings_sym.
Qed.

Lemma three_body_en_term_sym (sig ls fi fj a b c a' b' c' : R) :
  a * a + b * b + c * c = a' * a' + b' * b' + c' * c' ->
  three_body_en_term exp sig ls fi fj a b c
  = three_body_en_term exp sig ls fj fi a' b' c'.
Proof.
  intros H. unfold three_body_en_term. cbn. rewrite H. ring.
Qed.

Lemma three_body_en_jit_sym (bond_array_1 : list (brow R)) (c1 : Z)
      (etypes1 : list Z) (bond_array_2 : list (brow R)) (c2 : Z)
      (etypes2 : list Z)
      (cross_bond_inds_1 cross_bond_inds_2 : list (list Z))
      (cross_bond_dists_1 cross_bond_dists_2 : list (list R))
      (triplets_1 triplets_2 : list Z) (sig ls r_cut : R)
      (cutoff_func : cutoff_fn R) :
  three_body_mc_en_jit exp bond_array_1 c1 etypes1 bond_array_2 c2 etypes2
                       cross_bond_inds_1 cross_bond_inds_2
                       cross_bond_dists_1 cross_bond_dists_2
                       triplets_1 triplets_2 sig ls r_cut cutoff_func
  = three_body_mc_en_jit exp bond_array_2 c2 etypes2 bond_array_1 c1 etypes1
                         cross_bond_inds_2 cross_bond_inds_1
                         cross_bond_dists_2 cross_bond_dists_1
                         triplets_2 triplets_1 sig ls r_cut cutoff_func.
Proof.
  rewrite !three_body_en_sum. unfold triplet_sum.
  apply total_double_sym. intros mn pq. unfold three_body_en_terms.
  apply matchings_sym. intros. now apply three_body_en_term_sym.
Qed.

End ThreeBodySymmetry.

Section OptionSums.

Context {F : Type} {NF : Num F}.
Local Open Scope num_scope.

Lemma foldM_ext {A S : Type} (f g : S -> A -> option S) (l : list A) (s : S) :
  (forall s a, f s a = g s a) -> foldM f l s = foldM g l s.
Proof.
  intros H. revert s. induction l as [|a l IH]; intros s; [reflexivity|].
  cbn [foldM]. rewrite H. destruct (g s a); cbn [bind]; [apply IH|reflexivity].
Qed.

Lemma foldM_upper_ext {S B : Type} (outer : Z -> option B)
      (f g : S -> B -> Z -> option S) (l : list Z) (s : S) :
  (forall s b sj, f s b sj = g s b sj) ->
  foldM_upper outer f l s = foldM_upper outer g l s.
Proof.
  intros H. revert s. induction l as [|si l IH]; intros s; [reflexivity|].
  cbn [foldM_upper]. destruct (outer si) as [b|]; cbn [bind]; [|reflexivity].
  rewrite (foldM_ext (fun s sj => f s b sj) (fun s sj => g s b sj))
    by (intros; apply H).
  destruct (foldM _ _ _); cbn [bind]; [apply IH|reflexivity].
Qed.

Lemma mapM_perm {A B : Type} (f : A -> option B) (l l' : list A) :
  Permutation l l' ->
  (mapM f l = None /\ mapM f l' = None)
  \/ exists bs bs', mapM f l = Some bs /\ mapM f l' = Some bs'
                    /\ Permutation bs bs'.
Proof.
  induction 1 as [|x l l' _ IH|x y l|l l' l'' _ IH1 _ IH2].
  - right. exists [], []. repeat split. constructor.
  - cbn [mapM]. destruct (f x) as [b|]; cbn [bind]; [|now left].
    destruct IH as [[-> ->]|(bs & bs' & -> & -> & Hp)]; cbn [bind];
      [now left|].
    right. exists (b :: bs), (b :: bs'). repeat split. now constructor.
  - cbn [mapM]. destruct (f x) as [bx|], (f y) as [by_|]; cbn [bind];
      try (now left).
    destruct (mapM f l) as [bs|]; cbn [bind]; [|now left].
    right. exists (by_ :: bx :: bs), (bx :: by_ :: bs). repeat split.
    constructor.
  - destruct IH1 as [[-> E1]|(bs & bs' & -> & E1 & Hp1)];
      destruct IH2 as [[E2 ->]|(cs & cs' & E2 & -> & Hp2)];
      try congruence; [now left|].
    right. exists bs, cs'. repeat split.
    rewrite E1 in E2. inversion E2; subst. now apply perm_trans with cs.
Qed.

Lemma mapM_columns_swap (species1 species2 : list Z) (l : list Z) :
  mapM (columns_of species2 species1) l
  = match mapM (columns_of species1 species2) l with
    | Some bs => Some (map (fun b => (snd b, fst b)) bs)
    | None => None
    end.
Proof.
  induction l as [|s l IH]; [reflexivity|].
  cbn [mapM]. rewrite IH.
  destruct (mapM (columns_of species1 species2) l) as [bs|];
    unfold columns_of;
    destruct (where_first species1 s), (where_first species2 s);
    reflexivity.
Qed.

Lemma upper_map {A B : Type} (T : B -> B -> F) (g : A -> B) (l : list A) :
  upper T (map g l) = upper (fun a b => T (g a) (g b)) l.
Proof.
  induction l as [|a l IH]; [reflexivity|].
  cbn [map upper]. now rewrite IH, map_map.
Qed.

Lemma upper_ext {B : Type} (T T' : B -> B -> F) (l : list B) :
  (forall a b, T a b = T' a b) -> upper T l = upper T' l.
Proof.
  intros H. induction l as [|b l IH]; [reflexivity|].
  cbn [upper map]. rewrite IH, H. f_equal. f_equal. apply map_ext. apply H.
Qed.

End OptionSums.

Section ManyBodySymmetry.

Local Open Scope R_scope.
Variable exp : R -> R.
Variable set_inter : list Z -> list Z -> list Z.
Hypothesis set_inter_spec : set_inter_ok set_inter.

Lemma useful_species_perm (species1 species2 : list Z) :
  Permutation (useful_species set_inter species1 species2)
              (useful_species set_inter species2 species1).
Proof.
  unfold useful_species. apply Permutation_map.
  destruct (set_inter_spec species1 species2) as [N1 I1].
  destruct (set_inter_spec species2 species1) as [N2 I2].
  apply NoDup_Permutation; [exact N1|exact N2|].
  intros x. rewrite I1, I2. tauto.
Qed.

(** A loop that looks a species up and adds a term. *)
Lemma foldM_sum {A B : Type} (look : A -> option B) (T : B -> R)
      (l : list A) (k : R) :
  foldM (fun kern s => b <- look s ;; Some (kern + T b)) l k
  = match mapM look l with
    | Some bs => Some (k + total (map T bs))
    | None => None
    end.
Proof.
  revert k. induction l as [|s l IH]; intros k.
  - cbn. f_equal. unfold total. cbn. ring.
  - cbn [foldM mapM]. destruct (look s) as [b|]; cbn [bind]; [|reflexivity].
    rewrite IH. destruct (mapM look l) as [bs|]; cbn [bind]; [|reflexivity].
    cbn [map]. rewrite total_cons. f_equal. ring.
Qed.

(** The loops over the upper triangle of the species list. *)
Lemma foldM_upper_sum {B : Type} (look : Z -> option B) (T : B -> B -> R)
      (l : list Z) (k : R) :
  foldM_upper look (fun kern b sj => b' <- look sj ;; Some (kern + T b b'))
              l k
  = match mapM look l with
    | Some bs => Some (k + total (upper T bs))
    | None => None
    end.
Proof.
  revert k. induction l as [|si l IH]; intros k.
  - cbn. f_equal. unfold total. cbn. ring.
  - cbn [foldM_upper]. destruct (look si) as [b|] eqn:E; cbn [bind].
    + rewrite (foldM_sum look (T b)). cbn [mapM]. rewrite E. cbn [bind].
      destruct (mapM look l) as [bs|]; cbn [bind]; [|reflexivity].
      rewrite IH. cbn [upper map]. rewrite total_app, !total_cons.
      f_equal. ring.
    + cbn [mapM]. rewrite E. reflexivity.
Qed.

Lemma upper_perm {B : Type} (T : B -> B -> R) (l l' : list B) :
  (forall a b, T a b = T b a) ->
  Permutation l l' -> total (upper T l) = total (upper T l').
Proof.
  intros Hsym.
  induction 1 as [|x l l' Hp IH|x y l|l l' l'' _ IH1 _ IH2].
  - reflexivity.
  - cbn [upper map]. rewrite !total_app, !total_cons, IH. f_equal. f_equal.
    apply total_perm. now apply Permutation_map.
  - cbn [upper map]. rewrite !total_app, !total_cons.
    rewrite (Hsym y x). ring.
  - now rewrite IH1.
Qed.

Lemma py_read_nat {A : Type} (d : A) (a : list A) (i : nat) :
  py_read d a (Z.of_nat i) = nth i a d.
Proof.
  unfold py_read, py_get, py_index.
  destruct (Nat.lt_ge_cases i (length a)) as [Hlt|Hge].
  - replace ((0 <=? Z.of_nat i)%Z && (Z.of_nat i <? Z.of_nat (length a))%Z)
      with true
      by (symmetry; apply andb_true_intro; split;
          [apply Z.leb_le|apply Z.ltb_lt]; lia).
    cbn [bind]. rewrite Nat2Z.id.
    now rewrite (nth_error_nth' a d Hlt).
  - replace ((0 <=? Z.of_nat i)%Z && (Z.of_nat i <? Z.of_nat (length a))%Z)
      with false
      by (symmetry; apply andb_false_intro2; apply Z.ltb_ge; lia).
    replace ((- Z.of_nat (length a) <=? Z.of_nat i)%Z && (Z.of_nat i <? 0)%Z)
      with false
      by (symmetry; apply andb_false_intro2; apply Z.ltb_ge; lia).
    cbn [bind]. now rewrite nth_overflow.
Qed.

Lemma get2F_symmetric (M : list (list R)) (i j : nat) :
  symmetric_array M ->
  get2F M (Z.of_nat i) (Z.of_nat j) = get2F M (Z.of_nat j) (Z.of_nat i).
Proof.
  intros H. unfold get2F, getF. rewrite !py_read_nat. apply H.
Qed.

Lemma many_2body_en_sum (q_array_1 q_array_2 : list R) (c1 c2 : Z)
      (species1 species2 : list Z) (sig ls : R) :
  many_2body_mc_en_jit exp set_inter q_array_1 q_array_2 c1 c2
                       species1 species2 sig ls
  = if (c1 =? c2)%Z
    then match mapM (columns_of species1 species2)
                    (useful_species set_inter species1 species2) with
         | Some bs =>
             Some (0 + total (map (many_2body_en_term exp q_array_1 q_array_2
                                                      sig ls) bs))
         | None => None
         end
    else Some 0.
Proof.
  unfold many_2body_mc_en_jit. destruct (c1 =? c2)%Z; [|reflexivity].
  rewrite <- foldM_sum. apply foldM_ext. intros kern s.
  unfold columns_of, many_2body_en_term.
  destruct (where_first species1 s), (where_first species2 s); reflexivity.
Qed.

Lemma many_3body_en_sum (m3b_array_1 m3b_array_2 : list (list R)) (c1 c2 : Z)
      (species1 species2 : list Z) (sig ls : R) :
  many_3body_mc_en_jit exp set_inter m3b_array_1 m3b_array_2 c1 c2
                       species1 species2 sig ls
  = if (c1 =? c2)%Z
    then match mapM (columns_of species1 species2)
                    (useful_species set_inter species1 species2) with
         | Some bs =>
             Some (0 + total (upper (many_3body_en_term exp m3b_array_1
                                                        m3b_array_2 sig ls)
                                    bs))
         | None => None
         end
    else Some 0.
Proof.
  unfold many_3body_mc_en_jit. destruct (c1 =? c2)%Z; [|reflexivity].
  rewrite <- foldM_upper_sum. apply foldM_upper_ext. intros kern [si1 si2] sj.
  unfold columns_of, many_3body_en_term.
  destruct (where_first species1 sj), (where_first species2 sj); reflexivity.
Qed.

Lemma many_2body_en_term_swap (q_array_1 q_array_2 : list R) (sig ls : R)
      (b : nat * nat) :
  many_2body_en_term exp q_array_2 q_array_1 sig ls (snd b, fst b)
  = many_2body_en_term exp q_array_1 q_array_2 sig ls b.
Proof.
  unfold many_2body_en_term. cbn [fst snd]. cbn -[getF].
  f_equal. f_equal. f_equal. ring.
Qed.

Lemma many_3body_en_term_swap (m3b_array_1 m3b_array_2 : list (list R))
      (sig ls : R) (si sj : nat * nat) :
  many_3body_en_term exp m3b_array_2 m3b_array_1 sig ls
                     (snd si, fst si) (snd sj, fst sj)
  = many_3body_en_term exp m3b_array_1 m3b_array_2 sig ls si sj.
Proof.
  unfold many_3body_en_term. cbn [fst snd]. cbn -[get2F].
  f_equal. f_equal. f_equal. ring.
Qed.

Lemma many_3body_en_term_sym (m3b_array_1 m3b_array_2 : list (list R))
      (sig ls : R) (si sj : nat * nat) :
  symmetric_array m3b_array_1 -> symmetric_array m3b_array_2 ->
  many_3body_en_term exp m3b_array_1 m3b_array_2 sig ls si sj
  = many_3body_en_term exp m3b_array_1 m3b_array_2 sig ls sj si.
Proof.
  intros H1 H2. unfold many_3body_en_term.
  now rewrite (get2F_symmetric (fst si) (fst sj) H1),
    (get2F_symmetric (snd si) (snd sj) H2).
Qed.

Lemma many_2body_en_jit_sym (q_array_1 q_array_2 : list R) (c1 c2 : Z)
      (species1 species2 : list Z) (sig ls : R) :
  many_2body_mc_en_jit exp set_inter q_array_1 q_array_2 c1 c2
                       species1 species2 sig ls
  = many_2body_mc_en_jit exp set_inter q_array_2 q_array_1 c2 c1
                         species2 species1 sig ls.
Proof.
  rewrite !many_2body_en_sum, (Z.eqb_sym c2 c1).
  destruct (c1 =? c2)%Z; [|reflexivity].
  rewrite (mapM_columns_swap species1 species2).
  destruct (mapM_perm (columns_of species1 species2)
                      (useful_species_perm species1 species2))
    as [[-> ->]|(bs & bs' & -> & -> & Hp)]; [reflexivity|].
  f_equal. f_equal. rewrite map_map.
  rewrite (map_ext _ _ (many_2body_en_term_swap q_array_1 q_array_2 sig ls)).
  apply total_perm. now apply Permutation_map.
Qed.

Lemma many_3body_en_jit_sym (m3b_array_1 m3b_array_2 : list (list R))
      (c1 c2 : Z) (species1 species2 : list Z) (sig ls : R) :
  symmetric_array m3b_array_1 -> symmetric_array m3b_array_2 ->
  many_3body_mc_en_jit exp set_inter m3b_array_1 m3b_array_2 c1 c2
                       species1 species2 sig ls
  = many_3body_mc_en_jit exp set_inter m3b_array_2 m3b_array_1 c2 c1
                         species2 species1 sig ls.
Proof.
  intros H1 H2. rewrite !many_3body_en_sum, (Z.eqb_sym c2 c1).
  destruct (c1 =? c2)%Z; [|reflexivity].
  rewrite (mapM_columns_swap species1 species2).
  destruct (mapM_perm (columns_of species1 species2)
                      (useful_species_perm species1 species2))
    as [[-> ->]|(bs & bs' & -> & -> & Hp)]; [reflexivity|].
  f_equal. f_equal. rewrite upper_map.
  rewrite (upper_ext _ _ bs'
             (many_3body_en_term_swap m3b_array_1 m3b_array_2 sig ls)).
  apply upper_perm; [|exact Hp].
  intros a b. now apply many_3body_en_term_sym.
Qed.

End ManyBodySymmetry.

(** ** The descriptor array of [q3_value_mc] is symmetric *)

Section DescriptorSymmetry.

Context {F : Type} {NF : Num F}.
Local Open Scope num_scope.

Lemma foldM_invariant {A S : Type} (P : S -> Prop) (f : S -> A -> option S)
      (l : list A) (s r : S) :
  P s -> (forall s a s', P s -> f s a = Some s' -> P s') ->
  foldM f l s = Some r -> P r.
Proof.
  revert s. induction l as [|a l IH]; intros s H0 Hstep H.
  - cbn in H. now inversion H; subst.
  - cbn [foldM] in H. apply bind_some in H as (s' & Hs' & H).
    apply (IH s'); [now apply (Hstep s a)|exact Hstep|exact H].
Qed.

Lemma where_first_lt (l : list Z) (v : Z) (k : nat) :
  where_first l v = Some k -> (k < length l)%nat.
Proof.
  revert k. induction l as [|x l IH]; intros k H; [discriminate|].
  cbn [where_first] in H. destruct (x =? v)%Z.
  - inversion H. cbn. lia.
  - apply bind_some in H as (k' & Hk' & H). inversion H; subst.
    cbn. apply IH in Hk'. lia.
Qed.

Lemma Forall_set_nth {A : Type} (P : A -> Prop) (a : list A) (i : nat)
      (v : A) :
  Forall P a -> P v -> Forall P (set_nth a i v).
Proof.
  intros Ha Hv. revert i. induction Ha as [|x a Hx Ha IH]; intros [|i];
    cbn [set_nth]; constructor; auto.
Qed.

Lemma square_row (n : nat) (M : list (list F)) (i : nat) :
  square_array n M -> (i < n)%nat -> length (nth i M []) = n.
Proof.
  intros [Hlen Hrows] Hi. rewrite Forall_forall in Hrows.
  apply Hrows, nth_In. lia.
Qed.

Lemma square_add_at2 (n : nat) (M : list (list F)) (i j : nat) (v : F) :
  square_array n M -> (i < n)%nat -> square_array n (add_at2 M i j v).
Proof.
  intros HM Hi. pose proof (square_row HM Hi) as Hrow.
  destruct HM as [Hlen Hrows]. unfold add_at2. split.
  - now rewrite set_nth_length.
  - apply Forall_set_nth; [exact Hrows|]. now rewrite set_nth_length.
Qed.

Lemma nth_add_at2 (n : nat) (M : list (list F)) (i j i' j' : nat) (v : F) :
  square_array n M -> (i < n)%nat -> (j < n)%nat ->
  nth j' (nth i' (add_at2 M i j v) []) fzero
  = if (i' =? i)%nat && (j' =? j)%nat
    then nth j (nth i M []) fzero + v
    else nth j' (nth i' M []) fzero.
Proof.
  intros HM Hi Hj. pose proof (square_row HM Hi) as Hrow.
  destruct HM as [Hlen Hrows]. unfold add_at2.
  destruct (Nat.eqb_spec i' i) as [->|Hne]; cbn [andb].
  - rewrite nth_set_nth_eq by lia.
    destruct (Nat.eqb_spec j' j) as [->|Hne].
    + now rewrite nth_set_nth_eq by lia.
    + now rewrite nth_set_nth_neq by auto.
  - now rewrite nth_set_nth_neq by auto.
Qed.

Lemma symmetric_add_diagonal (n : nat) (M : list (list F)) (s : nat) (v : F) :
  square_array n M -> symmetric_array M -> (s < n)%nat ->
  symmetric_array (add_at2 M s s v).
Proof.
  intros HM Hsym Hs i j. rewrite !(nth_add_at2 _ _ _ HM Hs Hs).
  destruct (Nat.eqb_spec i s), (Nat.eqb_spec j s); cbn [andb]; subst;
    auto.
Qed.

Lemma symmetric_add_pair (n : nat) (M : list (list F)) (s1 s2 : nat) (v : F) :
  square_array n M -> symmetric_array M -> (s1 < n)%nat -> (s2 < n)%nat ->
  s1 <> s2 ->
  symmetric_array (add_at2 (add_at2 M s1 s2 v) s2 s1 v).
Proof.
  intros HM Hsym H1 H2 Hne i j.
  pose proof (square_add_at2 s2 v HM H1) as HM'.
  rewrite !(nth_add_at2 _ _ _ HM' H2 H1), !(nth_add_at2 _ _ _ HM H1 H2).
  destruct (Nat.eqb_spec i s1), (Nat.eqb_spec j s2), (Nat.eqb_spec i s2),
    (Nat.eqb_spec j s1), (Nat.eqb_spec s2 s1), (Nat.eqb_spec s1 s2);
    cbn [andb]; subst; try congruence; auto;
    try (rewrite Hsym; reflexivity).
Qed.

Lemma zeros_square_symmetric (n : nat) :
  square_array n (repeat (repeat (@fzero F NF) n) n)
  /\ symmetric_array (repeat (repeat (@fzero F NF) n) n).
Proof.
  split; [split|].
  - apply repeat_length.
  - apply Forall_forall. intros row Hrow. apply repeat_spec in Hrow.
    subst. apply repeat_length.
  - assert (Hzero : forall i j : nat,
               nth j (nth i (repeat (repeat (@fzero F NF) n) n) []) fzero
               = fzero).
    { intros i j. destruct (Nat.lt_ge_cases i n) as [Hi|Hi].
      - rewrite nth_repeat_lt by exact Hi.
        destruct (Nat.lt_ge_cases j n) as [Hj|Hj].
        + now rewrite nth_repeat_lt.
        + rewrite nth_overflow; [reflexivity|]. now rewrite repeat_length.
      - rewrite (nth_overflow _ []) by now rewrite repeat_length.
        now destruct j. }
    intros i j. now rewrite !Hzero.
Qed.

(** [q3_value_mc] adds every product to [mb3_array[s1, s2]] and to
    [mb3_array[s2, s1]]: the array it returns is symmetric. *)
Lemma q3_value_mc_symmetric (distances : list F)
      (cross_bond_inds : list (list Z)) (cross_bond_dists : list (list F))
      (triplets : list Z) (r_cut : F) (species_list etypes : list Z)
      (cutoff_func : cutoff_fn F) (q_func : q_fn F) (M : list (list F)) :
  q3_value_mc distances cross_bond_inds cross_bond_dists triplets r_cut
              species_list etypes cutoff_func q_func = Some M ->
  symmetric_array M.
Proof.
  unfold q3_value_mc. intros H.
  set (n := length species_list) in *.
  enough (square_array n M /\ symmetric_array M) by tauto.
  revert H.
  apply foldM_invariant
    with (P := fun M => square_array n M /\ symmetric_array M);
    [apply zeros_square_symmetric|].
  intros M0 m M1 HM0 Hm.
  apply bind_some in Hm as (s1 & Hs1 & Hm).
  apply where_first_lt in Hs1. fold n in Hs1.
  revert Hm.
  apply foldM_invariant
    with (P := fun M => square_array n M /\ symmetric_array M);
    [exact HM0|].
  clear M0 M1 HM0. intros M0 k M1 [Hsq Hsym] Hk.
  apply bind_some in Hk as (s2 & Hs2 & Hk).
  apply where_first_lt in Hs2. fold n in Hs2.
  inversion Hk as [HM1]. clear Hk HM1.
  destruct (Nat.eqb_spec s1 s2) as [<-|Hne].
  - split; [now apply square_add_at2|now apply symmetric_add_diagonal with n].
  - split.
    + apply square_add_at2; [now apply square_add_at2|exact Hs2].
    + now apply symmetric_add_pair with n.
Qed.

End DescriptorSymmetry.

Lemma inter_first_ok : set_inter_ok inter_first.
Proof.
  intros a b. unfold inter_first. split; [apply NoDup_nodup|].
  intros x. rewrite nodup_In, filter_In. unfold mem.
  rewrite existsb_exists. split.
  - intros [Ha (y & Hy & E)]. apply Z.eqb_eq in E. now subst.
  - intros [Ha Hb]. split; [exact Ha|]. exists x. split; [exact Hb|].
    apply Z.eqb_refl.
Qed.

(** C1 (as amended).  In exact arithmetic every energy/energy kernel
    gives the same result, a value or an error, for [(env1, env2)] and for
    [(env2, env1)]:
    the 2-body, the 3-body and the 2+3 kernel for any two environments, and
    the many-body kernels (one-species descriptor, two-species descriptor,
    their sum, and 2+3+many) for environments whose two-species descriptor
    array is symmetric, as [q3_value_mc] builds it, whatever order the
    intersection of the species sets comes in. *)
Theorem energy_kernels_symmetric (exp : R -> R)
        (set_inter : list Z -> list Z -> list Z)
        (env1 env2 : AtomicEnvironment) (hyps cutoffs : list R)
        (cutoff_func : cutoff_fn R) :
  set_inter_ok set_inter ->
  symmetric_array (m3b_array env1) ->
  symmetric_array (m3b_array env2) ->
  two_body_mc_en exp env1 env2 hyps cutoffs cutoff_func
  = two_body_mc_en exp env2 env1 hyps cutoffs cutoff_func
  /\ three_body_mc_en exp env1 env2 hyps cutoffs cutoff_func
     = three_body_mc_en exp env2 env1 hyps cutoffs cutoff_func
  /\ two_plus_three_mc_en exp env1 env2 hyps cutoffs cutoff_func
     = two_plus_three_mc_en exp env2 env1 hyps cutoffs cutoff_func
  /\ many_2body_mc_en exp set_inter env1 env2 hyps cutoffs cutoff_func
     = many_2body_mc_en exp set_inter env2 env1 hyps cutoffs cutoff_func
  /\ many_3body_mc_en exp set_inter env1 env2 hyps cutoffs cutoff_func
     = many_3body_mc_en exp set_inter env2 env1 hyps cutoffs cutoff_func
  /\ many_body_mc_en exp set_inter env1 env2 hyps cutoffs cutoff_func
     = many_body_mc_en exp set_inter env2 env1 hyps cutoffs cutoff_func
  /\ two_plus_three_plus_many_body_mc_en exp set_inter env1 env2 hyps
                                         cutoffs cutoff_func
     = two_plus_three_plus_many_body_mc_en exp set_inter env2 env1 hyps
                                           cutoffs cutoff_func.
Proof.
  intros Hinter H1 H2.
  assert (E2 := fun sig ls r_cut =>
            two_body_en_jit_sym exp (bond_array_2 env1) (ctype env1)
              (etypes env1) (bond_array_2 env2) (ctype env2) (etypes env2)
              sig ls r_cut cutoff_func).
  assert (E3 := fun sig ls r_cut =>
            three_body_en_jit_sym exp (bond_array_3 env1) (ctype env1)
              (etypes env1) (bond_array_3 env2) (ctype env2) (etypes env2)
              (cross_bond_inds env1) (cross_bond_inds env2)
              (cross_bond_dists env1) (cross_bond_dists env2)
              (triplet_counts env1) (triplet_counts env2)
              sig ls r_cut cutoff_func).
  assert (Em2 := fun sig ls =>
            many_2body_en_jit_sym exp Hinter (m2b_array env1) (m2b_array env2)
              (ctype env1) (ctype env2) (m2b_unique_species env1)
              (m2b_unique_species env2) sig ls).
  assert (Em3 := fun sig ls =>
            many_3body_en_jit_sym exp Hinter (ctype env1) (ctype env2)
              (m3b_unique_species env1) (m3b_unique_species env2) sig ls
              H1 H2).
  unfold two_body_mc_en, three_body_mc_en, two_plus_three_mc_en,
    many_2body_mc_en, many_3body_mc_en, many_body_mc_en,
    two_plus_three_plus_many_body_mc_en.
  repeat split;
    repeat match goal with
           | |- context [py_get ?a ?k] => destruct (py_get a k); cbn [bind]
           end;
    rewrite ?E2, ?E3, ?Em2, ?Em3; reflexivity.
Qed.

Lemma symmetric_2x2 (a b d : R) : symmetric_array [[a; b]; [b; d]].
Proof. intros [|[|[|i]]] [|[|[|j]]]; reflexivity. Qed.

(** The two environments, with the intersection that keeps the order of
    its first argument. *)
Lemma energy_kernels_symmetric_witness :
  two_body_mc_en Rtrigo_def.exp env_one_triplet env_one_bond [2; 1]%R [4]%R
                 (fun _ _ _ => (1, 0)%R)
  = two_body_mc_en Rtrigo_def.exp env_one_bond env_one_triplet [2; 1]%R [4]%R
                   (fun _ _ _ => (1, 0)%R)
  /\ many_3body_mc_en Rtrigo_def.exp inter_first env_one_triplet env_one_bond
                      [2; 1]%R [4]%R (fun _ _ _ => (1, 0)%R)
     = many_3body_mc_en Rtrigo_def.exp inter_first env_one_bond env_one_triplet
                        [2; 1]%R [4]%R (fun _ _ _ => (1, 0)%R).
Proof.
  destruct (@energy_kernels_symmetric Rtrigo_def.exp inter_first
              env_one_triplet env_one_bond [2; 1]%R [4]%R
              (fun _ _ _ => (1, 0)%R))
    as (H2 & _ & _ & _ & Hm3 & _).
  - exact inter_first_ok.
  - apply symmetric_2x2.
  - apply symmetric_2x2.
  - split; [exact H2|exact Hm3].
Defined.

(** C1, counterexample.  The 2-body energy kernel in binary64 on two
    environments of two bonds each, with a length scale so large that
    every exponential is [exp(-0.0) = 1]: the four terms are added in the
    order of the first environment's bonds, and the two orders round
    differently. *)
Lemma energy_kernel_order_binary64 :
  two_body_mc_en exp_at_zero env_near env_far [1; 1e200]%float [3]%float
                 quadratic_envelope
  = Some 18.3828125%float
  /\ two_body_mc_en exp_at_zero env_far env_near [1; 1e200]%float [3]%float
                    quadratic_envelope
     = Some 18.382812499999996%float
  /\ two_body_mc_en_jit exp_at_zero (bond_array_2 env_near) 1 [1; 1]%Z
                        (bond_array_2 env_far) 1 [1; 1]%Z
                        1%float 1e200%float 3%float quadratic_envelope
     = 73.53125%float
  /\ two_body_mc_en_jit exp_at_zero (bond_array_2 env_far) 1 [1; 1]%Z
                        (bond_array_2 env_near) 1 [1; 1]%Z
                        1%float 1e200%float 3%float quadratic_envelope
     = 73.531249999999986%float
  /\ PrimFloat.eqb 18.3828125 18.382812499999996 = false.
Proof. repeat split; vm_compute; reflexivity. Qed.

(* ------------------------------------------------------------------ *)
(** ** The stable insertion sort is an [argsort] *)
(* ------------------------------------------------------------------ *)

Section StableSort.

Context {F : Type} {NF : Num F}.
Local Open Scope num_scope.

Lemma insert_first_perm (x : F * nat) (l : list (F * nat)) :
  Permutation (insert_first x l) (x :: l).
Proof.
  induction l as [|y l IH]; [reflexivity|]. cbn [insert_first].
  destruct (fst y <? fst x); [|reflexivity].
  rewrite IH. apply perm_swap.
Qed.

Lemma insertion_perm (l : list (F * nat)) :
  Permutation (fold_right insert_first [] l) l.
Proof.
  induction l as [|x l IH]; [reflexivity|]. cbn [fold_right].
  rewrite insert_first_perm. now constructor.
Qed.

Lemma snd_combine_seq (keys : list F) (k : nat) :
  map snd (combine keys (seq k (length keys))) = seq k (length keys).
Proof.
  revert k; induction keys as [|x l IH]; intros k; [reflexivity|].
  cbn [length seq combine map snd]. now rewrite IH.
Qed.

Lemma argsort_stable_perm (keys : list F) :
  Permutation (argsort_stable keys) (seq 0 (length keys)).
Proof.
  unfold argsort_stable. rewrite insertion_perm. now rewrite snd_combine_seq.
Qed.

Lemma combine_seq_key (keys : list F) (k : nat) (e : F * nat) :
  In e (combine keys (seq k (length keys))) ->
  (k <= snd e)%nat /\ nth (snd e - k) keys fzero = fst e.
Proof.
  revert k; induction keys as [|x l IH]; intros k; [intros []|].
  cbn [length seq combine In]. intros [<-|H].
  - cbn [fst snd]. rewrite Nat.sub_diag. split; [lia|reflexivity].
  - apply IH in H as [Hk H]. split; [lia|].
    replace (snd e - k)%nat with (S (snd e - S k)) by lia. exact H.
Qed.

End StableSort.

Section StableSortReal.

Lemma Rltb_false_iff (x y : R) : Rltb x y = false <-> (y <= x)%R.
Proof. unfold Rltb. destruct (Rlt_dec x y); split; intros; try lra; congruence. Qed.

Lemma Rltb_true_iff (x y : R) : Rltb x y = true <-> (x < y)%R.
Proof. unfold Rltb. destruct (Rlt_dec x y); split; intros; try lra; congruence. Qed.

Lemma insert_first_sorted (x : R * nat) (l : list (R * nat)) :
  StronglySorted key_le l -> StronglySorted key_le (insert_first x l).
Proof.
  induction 1 as [|y l Hl IH Hy]; cbn [insert_first].
  - constructor; constructor.
  - cbn [fltb Num_R]. destruct (Rltb (fst y) (fst x)) eqn:E.
    + constructor; [exact IH|].
      rewrite Forall_forall. intros z Hz.
      apply (Permutation_in _ (insert_first_perm x l)) in Hz.
      destruct Hz as [<-|Hz].
      * apply Rltb_true_iff in E. unfold key_le. lra.
      * rewrite Forall_forall in Hy. now apply Hy.
    + apply Rltb_false_iff in E. constructor; [now constructor|].
      constructor; [exact E|]. rewrite Forall_forall in Hy |- *.
      intros z Hz. specialize (Hy z Hz). unfold key_le in *. lra.
Qed.

Lemma insertion_sorted (l : list (R * nat)) :
  StronglySorted key_le (fold_right insert_first [] l).
Proof.
  induction l as [|x l IH]; [constructor|]. cbn [fold_right].
  now apply insert_first_sorted.
Qed.

Lemma strongly_sorted_nth (l : list (R * nat)) (i j : nat) (d : R * nat) :
  StronglySorted key_le l -> (i < j < length l)%nat ->
  key_le (nth i l d) (nth j l d).
Proof.
  intros H; revert i j; induction H as [|x l Hl IH Hx]; intros i j Hij.
  - cbn in Hij. lia.
  - destruct j as [|j]; [lia|]. cbn [length] in Hij. destruct i as [|i].
    + cbn [nth]. rewrite Forall_forall in Hx. apply Hx, nth_In. lia.
    + cbn [nth]. apply IH. lia.
Qed.

(** Over the reals the stable insertion sort meets the contract of
    [argsort] on every array of keys. *)
Lemma argsort_stable_is_argsort (keys : list R) :
  is_argsort keys (argsort_stable keys).
Proof.
  split; [apply argsort_stable_perm|].
  unfold argsort_stable.
  set (S := fold_right insert_first [] (combine keys (seq 0 (length keys)))).
  rewrite length_map. intros i j Hij.
  assert (Hkey : forall k, (k < length S)%nat ->
                           nth (nth k (map snd S) O) keys 0%R
                           = fst (nth k S (0%R, O))).
  { intros k Hk.
    change O with (snd (0%R, O)) at 1. rewrite map_nth.
    assert (Hin : In (nth k S (0%R, O))
                     (combine keys (seq 0 (length keys)))).
    { apply (Permutation_in _ (insertion_perm _)). now apply nth_In. }
    apply combine_seq_key in Hin as [_ Hin].
    now rewrite Nat.sub_0_r in Hin. }
  cbn [fzero Num_R fltb]. rewrite !Hkey by lia.
  apply Rltb_false_iff.
  apply (strongly_sorted_nth (0%R, O) (insertion_sorted _) Hij).
Qed.

End StableSortReal.
(* ------------------------------------------------------------------ *)
(** ** The rows of the neighbour arrays *)
(* ------------------------------------------------------------------ *)

Section OutputRows.

Context {F : Type} {NF : Num F} {NL : NumLaws F}.
Local Open Scope num_scope.

(** What the scalar builder returns is the sorted rearrangement of the
    fill rows. *)
Lemma get_2_body_rows (argsort : list F -> list nat)
      (positions : list (vec3 F)) (atom : nat) (cell : cell3 F)
      (cutoff_2 : F) (species : list Z) (sweep : list Z)
      (pos_atom : vec3 F)
      (out : list (brow F) * list (vec3 F) * list Z * list Z) :
  nth_error positions atom = Some pos_atom ->
  is_argsort
    (keys_of (fill_spec positions pos_atom cell (fun _ => cutoff_2)
                        species sweep))
    (argsort (keys_of (fill_spec positions pos_atom cell (fun _ => cutoff_2)
                                 species sweep))) ->
  get_2_body_arrays argsort positions atom cell cutoff_2 species sweep
  = Some out ->
  exists rows,
    out = unzip4 rows
    /\ Permutation rows (fill_spec positions pos_atom cell (fun _ => cutoff_2)
                                   species sweep).
Proof.
  intros Hpos Hs Hget. unfold get_2_body_arrays in Hget.
  rewrite Hpos in Hget. cbn [bind] in Hget.
  destruct (length positions <=? length species)%nat; [|discriminate].
  inversion Hget; subst out. rewrite fill_rows_spec.
  destruct (sort_rows_output argsort positions pos_atom cell
              (fun _ => cutoff_2) species sweep Hs) as (_ & H & _).
  exact H.
Qed.

Lemma unzip4_nth (rows : list (brow F * vec3 F * Z * Z)) (k : nat) :
  let '(ba, bp, et, bi) := unzip4 rows in
  nth k rows entry0 = (nth k ba brow0, nth k bp vzero, nth k et 0%Z,
                       nth k bi 0%Z).
Proof.
  unfold unzip4.
  pose proof (map_nth (fun r : brow F * vec3 F * Z * Z => fst (fst (fst r)))
                      rows entry0 k) as H1.
  pose proof (map_nth (fun r : brow F * vec3 F * Z * Z => snd (fst (fst r)))
                      rows entry0 k) as H2.
  pose proof (map_nth (fun r : brow F * vec3 F * Z * Z => snd (fst r))
                      rows entry0 k) as H3.
  pose proof (map_nth (fun r : brow F * vec3 F * Z * Z => snd r)
                      rows entry0 k) as H4.
  cbn [entry0 fst snd] in H1, H2, H3, H4. rewrite H1, H2, H3, H4.
  now destruct (nth k rows entry0) as [[[a b] c] d].
Qed.

Lemma unzip4_lengths (rows : list (brow F * vec3 F * Z * Z)) :
  let '(ba, bp, et, bi) := unzip4 rows in
  length ba = length rows /\ length bp = length rows
  /\ length et = length rows /\ length bi = length rows.
Proof. unfold unzip4. now rewrite !length_map. Qed.

Lemma fill_spec_complete (positions : list (vec3 F)) (pos_atom : vec3 F)
      (cell : cell3 F) (cutoff : nat -> F) (species : list Z)
      (sweep : list Z) (m : nat) (p : vec3 F) (s : Z * Z * Z) :
  nth_error positions m = Some p ->
  In s (sweep_images sweep) ->
  within (norm (image (vsub p pos_atom) cell s)) (cutoff m) = true ->
  In (entry_of species m (image (vsub p pos_atom) cell s))
     (fill_spec positions pos_atom cell cutoff species sweep).
Proof.
  intros Hm Hs Hw. unfold fill_spec. apply in_flat_map.
  exists (m, p). split; [now apply with_index_in|].
  cbn [fst snd]. apply in_map. unfold qualifying.
  apply filter_In. split; [now apply in_map|exact Hw].
Qed.

End OutputRows.

Section OutputRowsTotal.

Context {F : Type} {NF : Num F} {NL : NumLaws F}.
Local Open Scope num_scope.

Lemma get_2_body_returns (argsort : list F -> list nat)
      (positions : list (vec3 F)) (atom : nat) (cell : cell3 F)
      (cutoff_2 : F) (species : list Z) (sweep : list Z)
      (pos_atom : vec3 F) :
  nth_error positions atom = Some pos_atom ->
  (length positions <= length species)%nat ->
  is_argsort
    (keys_of (fill_spec positions pos_atom cell (fun _ => cutoff_2)
                        species sweep))
    (argsort (keys_of (fill_spec positions pos_atom cell (fun _ => cutoff_2)
                                 species sweep))) ->
  exists rows,
    get_2_body_arrays argsort positions atom cell cutoff_2 species sweep
    = Some (unzip4 rows)
    /\ Permutation rows (fill_spec positions pos_atom cell (fun _ => cutoff_2)
                                   species sweep).
Proof.
  intros Hpos Hlen Hs.
  destruct (get_2_body_arrays argsort positions atom cell cutoff_2 species
                              sweep) as [out|] eqn:E.
  - destruct (get_2_body_rows _ _ _ _ _ _ _ Hpos Hs E) as (rows & -> & Hp).
    now exists rows.
  - unfold get_2_body_arrays in E. rewrite Hpos in E. cbn [bind] in E.
    rewrite (proj2 (Nat.leb_le _ _) Hlen) in E. discriminate.
Qed.

Lemma row_at_unzip4 (rows : list (brow F * vec3 F * Z * Z)) (k : nat) :
  row_at (unzip4 rows) k = nth k rows entry0.
Proof.
  pose proof (unzip4_nth rows k) as H. unfold row_at.
  destruct (unzip4 rows) as [[[ba bp] et] bi]. now rewrite H.
Qed.

Lemma sweep_images_in (sweep : list Z) (s1 s2 s3 : Z) :
  In (s1, s2, s3) (sweep_images sweep)
  <-> In s1 sweep /\ In s2 sweep /\ In s3 sweep.
Proof.
  unfold sweep_images. rewrite in_flat_map. split.
  - intros (a & Ha & H). apply in_flat_map in H as (b & Hb & H).
    apply in_map_iff in H as (c & E & Hc). inversion E; subst. auto.
  - intros (H1 & H2 & H3). exists s1. split; [exact H1|].
    apply in_flat_map. exists s2. split; [exact H2|].
    apply in_map_iff. now exists s3.
Qed.

End OutputRowsTotal.
Section NeighbourGeometry.

Local Open Scope R_scope.

Lemma within_real (d c : R) : within d c = true <-> d < c /\ d <> 0.
Proof.
  unfold within. cbn [fltb feqb fzero Num_R]. unfold Rltb, Reqb.
  destruct (Rlt_dec d c), (Req_dec_T d 0); cbn; split;
    try intros [? ?]; try intros ?; try split; try lra; try congruence;
    try discriminate.
Qed.

Lemma norm_nonneg (v : vec3 R) : 0 <= norm v.
Proof. destruct v as [[x y] z]. cbn. apply sqrt_pos. Qed.

Lemma vsub_translate (p a t : vec3 R) : vsub (vadd p t) (vadd a t) = vsub p a.
Proof.
  destruct p as [[p0 p1] p2], a as [[a0 a1] a2], t as [[t0 t1] t2]. cbn.
  f_equal; [f_equal|]; ring.
Qed.

End NeighbourGeometry.

(** X1.  Over the reals, moving every atom by the same vector changes
    nothing in what either neighbour search returns: the arrays hold
    displacements from the central atom. *)
Theorem translation_invariance (argsort : list R -> list nat)
        (positions : list (vec3 R)) (t : vec3 R) (atom : nat)
        (cell : cell3 R) (species : list Z) (sweep : list Z) :
  (forall cutoff_2 : R,
      get_2_body_arrays argsort (map (fun p => vadd p t) positions) atom cell
                        cutoff_2 species sweep
      = get_2_body_arrays argsort positions atom cell cutoff_2 species sweep)
  /\ (forall (cutoff_2 : list R) (nspecie : Z)
             (specie_mask bond_mask : list Z),
         get_2_body_arrays_sepcut argsort (map (fun p => vadd p t) positions)
                                  atom cell cutoff_2 species sweep nspecie
                                  specie_mask bond_mask
         = get_2_body_arrays_sepcut argsort positions atom cell cutoff_2
                                    species sweep nspecie specie_mask
                                    bond_mask).
Proof.
  split.
  - intros cutoff_2. unfold get_2_body_arrays.
    rewrite nth_error_map, length_map.
    destruct (nth_error positions atom) as [pa|]; [|reflexivity].
    cbn [option_map bind].
    destruct (length positions <=? length species)%nat; [|reflexivity].
    do 3 f_equal. unfold fill_rows. rewrite map_map.
    do 2 f_equal. apply map_ext. intros p. now rewrite vsub_translate.
  - intros cutoff_2 nspecie specie_mask bond_mask.
    unfold get_2_body_arrays_sepcut. rewrite nth_error_map.
    destruct (nth_error positions atom) as [pa|]; [|reflexivity].
    cbn [option_map bind].
    destruct (nth_error species atom) as [sa|]; [|reflexivity]. cbn [bind].
    destruct (py_get specie_mask sa) as [bc|]; [|reflexivity]. cbn [bind].
    f_equal. unfold fill_rows_sepcut. f_equal.
    rewrite with_index_map.
    generalize (with_index positions). intros l.
    induction l as [|[m p] l IH]; [reflexivity|].
    cbn [map mapM fst snd]. rewrite IH, vsub_translate. reflexivity.
Qed.
Section NeighbourGeometry2.

Local Open Scope R_scope.

Lemma norm_opposite (v : vec3 R) : norm (vscale (-1) v) = norm v.
Proof. destruct v as [[x y] z]. cbn -[IZR]. f_equal. ring. Qed.

Lemma image_opposite (p q : vec3 R) (cell : cell3 R) (s1 s2 s3 : Z) :
  image (vsub p q) cell (- s1, - s2, - s3)%Z
  = vscale (-1) (image (vsub q p) cell (s1, s2, s3)).
Proof.
  destruct p as [[p0 p1] p2], q as [[q0 q1] q2].
  destruct cell as [[[[a0 a1] a2] [[b0 b1] b2]] [[c0 c1] c2]].
  cbn -[IZR]. rewrite !opp_IZR. f_equal; [f_equal|]; ring.
Qed.

Lemma unit_direction (x y z : R) :
  let r := R_sqrt.sqrt (x * x + y * y + z * z) in
  r <> 0 ->
  r * (x / r) = x /\ r * (y / r) = y /\ r * (z / r) = z
  /\ x / r * (x / r) + y / r * (y / r) + z / r * (z / r) = 1.
Proof.
  intros r Hr.
  assert (Hs : r * r = x * x + y * y + z * z).
  { apply sqrt_sqrt. assert (H0 := Rle_0_sqr x). assert (H1 := Rle_0_sqr y).
    assert (H2 := Rle_0_sqr z). unfold Rsqr in *. lra. }
  repeat split; try (field; exact Hr).
  replace (x / r * (x / r) + y / r * (y / r) + z / r * (z / r))
    with ((x * x + y * y + z * z) / (r * r)) by (field; exact Hr).
  rewrite <- Hs. field. exact Hr.
Qed.

End NeighbourGeometry2.

(** X2.  Over the reals every row of the arrays [get_2_body_arrays]
    returns is consistent: the distance is the length of the bond vector,
    it is positive and below the cutoff, and the three remaining columns
    are the bond vector divided by it, a unit vector. *)
Theorem bond_rows_geometry (argsort : list R -> list nat)
        (positions : list (vec3 R)) (atom : nat) (cell : cell3 R)
        (cutoff_2 : R) (species : list Z) (sweep : list Z)
        (pos_atom : vec3 R) :
  nth_error positions atom = Some pos_atom ->
  (length positions <= length species)%nat ->
  is_argsort
    (keys_of (fill_spec positions pos_atom cell (fun _ => cutoff_2)
                        species sweep))
    (argsort (keys_of (fill_spec positions pos_atom cell (fun _ => cutoff_2)
                                 species sweep))) ->
  exists bond_array_2 bond_positions_2 etypes bond_indices,
    get_2_body_arrays argsort positions atom cell cutoff_2 species sweep
    = Some (bond_array_2, bond_positions_2, etypes, bond_indices)
    /\ length bond_positions_2 = length bond_array_2
    /\ forall k : nat,
         (k < length bond_array_2)%nat ->
         let '(x, y, z) := nth k bond_positions_2 vzero in
         let '(r, cx, cy, cz) := nth k bond_array_2 brow0 in
         (r = R_sqrt.sqrt (x * x + y * y + z * z)
          /\ 0 < r < cutoff_2
          /\ r * cx = x /\ r * cy = y /\ r * cz = z
          /\ cx * cx + cy * cy + cz * cz = 1)%R.
Proof.
  intros Hpos Hlen Hs.
  destruct (get_2_body_returns _ _ _ _ _ _ _ Hpos Hlen Hs) as (rows & Hget & Hp).
  pose proof (unzip4_lengths rows) as Hl.
  assert (Hrow := row_at_unzip4 rows).
  destruct (unzip4 rows) as [[[ba bp] et] bi].
  exists ba, bp, et, bi. split; [exact Hget|].
  destruct Hl as (Hba & Hbp & _). split; [congruence|].
  intros k Hk. specialize (Hrow k). unfold row_at in Hrow.
  assert (Hin : In (nth k rows entry0) rows) by (apply nth_In; lia).
  apply (Permutation_in _ Hp) in Hin.
  apply fill_spec_in in Hin as (m & p & im & _ & _ & Hw & E).
  rewrite E in Hrow. unfold entry_of in Hrow. inversion Hrow as [[Hr Hb He Hi]].
  apply within_real in Hw as [Hlt Hne].
  pose proof (norm_nonneg im) as Hge.
  destruct im as [[x y] z]. cbn [mk_row vdiv fdiv Num_R] in *.
  pose proof (@unit_direction x y z) as Hu. cbn zeta in Hu.
  cbn [norm fsqrt fadd fmul Num_R] in *.
  specialize (Hu Hne). destruct Hu as (U1 & U2 & U3 & U4).
  rewrite Hb, Hr. repeat split; try assumption; lra.
Qed.

(** Two atoms 1.5 apart, with the stable insertion sort. *)
Lemma bond_rows_geometry_witness :
  exists bond_array_2 bond_positions_2 etypes bond_indices,
    get_2_body_arrays argsort_stable [(0, 0, 0); (1.5, 0, 0)]%R 0
                      (cubic 10%R) 3%R [1; 2]%Z (sweep_array 1)
    = Some (bond_array_2, bond_positions_2, etypes, bond_indices)
    /\ length bond_positions_2 = length bond_array_2
    /\ forall k : nat,
         (k < length bond_array_2)%nat ->
         let '(x, y, z) := nth k bond_positions_2 vzero in
         let '(r, cx, cy, cz) := nth k bond_array_2 brow0 in
         (r = R_sqrt.sqrt (x * x + y * y + z * z)
          /\ 0 < r < 3
          /\ r * cx = x /\ r * cy = y /\ r * cz = z
          /\ cx * cx + cy * cy + cz * cz = 1)%R.
Proof.
  apply (@bond_rows_geometry argsort_stable [(0, 0, 0); (1.5, 0, 0)]%R 0
           (cubic 10%R) 3%R [1; 2]%Z (sweep_array 1) (0, 0, 0)%R).
  - reflexivity.
  - cbn. lia.
  - apply argsort_stable_is_argsort.
Defined.

(** X3.  Over the reals a larger cutoff only adds neighbours: every row
    [get_2_body_arrays] returns for a cutoff is a row of what it returns
    for any larger one. *)
Theorem larger_cutoff_keeps_neighbours (argsort : list R -> list nat)
        (positions : list (vec3 R)) (atom : nat) (cell : cell3 R)
        (cutoff cutoff' : R) (species : list Z) (sweep : list Z)
        (pos_atom : vec3 R) :
  nth_error positions atom = Some pos_atom ->
  (length positions <= length species)%nat ->
  (cutoff <= cutoff')%R ->
  is_argsort
    (keys_of (fill_spec positions pos_atom cell (fun _ => cutoff)
                        species sweep))
    (argsort (keys_of (fill_spec positions pos_atom cell (fun _ => cutoff)
                                 species sweep))) ->
  is_argsort
    (keys_of (fill_spec positions pos_atom cell (fun _ => cutoff')
                        species sweep))
    (argsort (keys_of (fill_spec positions pos_atom cell (fun _ => cutoff')
                                 species sweep))) ->
  exists out out',
    get_2_body_arrays argsort positions atom cell cutoff species sweep
    = Some out
    /\ get_2_body_arrays argsort positions atom cell cutoff' species sweep
       = Some out'
    /\ forall k : nat,
         (k < length (fst (fst (fst out))))%nat ->
         exists k' : nat,
           (k' < length (fst (fst (fst out'))))%nat
           /\ row_at out' k' = row_at out k.
Proof.
  intros Hpos Hlen Hc Hs Hs'.
  destruct (get_2_body_returns _ _ _ _ _ _ _ Hpos Hlen Hs) as (rows & Hget & Hp).
  destruct (get_2_body_returns _ _ _ _ _ _ _ Hpos Hlen Hs')
    as (rows' & Hget' & Hp').
  exists (unzip4 rows), (unzip4 rows'). split; [exact Hget|].
  split; [exact Hget'|]. intros k Hk.
  unfold unzip4 in Hk at 1. cbn [fst] in Hk. rewrite length_map in Hk.
  assert (Hin : In (nth k rows entry0) rows) by (apply nth_In; lia).
  apply (Permutation_in _ Hp) in Hin.
  apply fill_spec_in in Hin as (m & p & im & Hm & Him & Hw & E).
  apply in_map_iff in Him as (s & <- & Hsw).
  assert (Hin' : In (nth k rows entry0) rows').
  { apply (Permutation_in _ (Permutation_sym Hp')). rewrite E.
    apply fill_spec_complete; [exact Hm|exact Hsw|].
    apply within_real in Hw as [Hlt Hne]. apply within_real. split; lra. }
  apply (In_nth _ _ entry0) in Hin' as (k' & Hk' & Ek').
  exists k'. split.
  - unfold unzip4. cbn [fst]. now rewrite length_map.
  - now rewrite !row_at_unzip4.
Qed.

Lemma larger_cutoff_keeps_neighbours_witness :
  exists out out',
    get_2_body_arrays argsort_stable [(0, 0, 0); (1.5, 0, 0)]%R 0
                      (cubic 10%R) 3%R [1; 2]%Z (sweep_array 1)
    = Some out
    /\ get_2_body_arrays argsort_stable [(0, 0, 0); (1.5, 0, 0)]%R 0
                         (cubic 10%R) 4%R [1; 2]%Z (sweep_array 1)
       = Some out'
    /\ forall k : nat,
         (k < length (fst (fst (fst out))))%nat ->
         exists k' : nat,
           (k' < length (fst (fst (fst out'))))%nat
           /\ row_at out' k' = row_at out k.
Proof.
  apply (@larger_cutoff_keeps_neighbours argsort_stable
           [(0, 0, 0); (1.5, 0, 0)]%R 0 (cubic 10%R) 3%R 4%R [1; 2]%Z
           (sweep_array 1) (0, 0, 0)%R).
  - reflexivity.
  - cbn. lia.
  - lra.
  - apply argsort_stable_is_argsort.
  - apply argsort_stable_is_argsort.
Defined.

(** X4.  Over the reals, with a sweep that holds [-s] whenever it holds
    [s], neighbours are mutual: a row of the environment of atom [i] stems
    from an atom [j] whose own environment has a row for [i] with the
    opposite bond vector and the same distance. *)
Theorem neighbours_reciprocal (argsort : list R -> list nat)
        (positions : list (vec3 R)) (cell : cell3 R) (cutoff_2 : R)
        (species : list Z) (sweep : list Z) (i : nat) (pos_i : vec3 R) :
  (forall keys : list R, is_argsort keys (argsort keys)) ->
  (forall s : Z, In s sweep -> In (- s)%Z sweep) ->
  (length positions <= length species)%nat ->
  nth_error positions i = Some pos_i ->
  exists out_i,
    get_2_body_arrays argsort positions i cell cutoff_2 species sweep
    = Some out_i
    /\ forall k : nat,
         (k < length (fst (fst (fst out_i))))%nat ->
         exists (j : nat) out_j (k' : nat),
           (j < length positions)%nat
           /\ snd (row_at out_i k) = wrap8 (Z.of_nat j)
           /\ get_2_body_arrays argsort positions j cell cutoff_2 species
                                sweep = Some out_j
           /\ (k' < length (fst (fst (fst out_j))))%nat
           /\ snd (row_at out_j k') = wrap8 (Z.of_nat i)
           /\ snd (fst (fst (row_at out_j k')))
              = vscale (-1) (snd (fst (fst (row_at out_i k))))
           /\ dist_of (fst (fst (fst (row_at out_j k'))))
              = dist_of (fst (fst (fst (row_at out_i k)))).
Proof.
  intros Hsort Hsym Hlen Hpos.
  destruct (get_2_body_returns argsort _ _ cell cutoff_2 _ sweep Hpos Hlen
                               (Hsort _)) as (rows & Hget & Hp).
  exists (unzip4 rows). split; [exact Hget|]. intros k Hk.
  unfold unzip4 in Hk at 1. cbn [fst] in Hk. rewrite length_map in Hk.
  assert (Hin : In (nth k rows entry0) rows) by (apply nth_In; lia).
  apply (Permutation_in _ Hp) in Hin.
  apply fill_spec_in in Hin as (j & pos_j & im & Hj & Him & Hw & E).
  apply in_map_iff in Him as ([[s1 s2] s3] & <- & Hsw).
  destruct (get_2_body_returns argsort _ _ cell cutoff_2 _ sweep Hj Hlen
                               (Hsort _)) as (rows' & Hget' & Hp').
  assert (Hin' : In (entry_of species i
                       (image (vsub pos_i pos_j) cell (- s1, - s2, - s3)%Z))
                    rows').
  { apply (Permutation_in _ (Permutation_sym Hp')).
    apply fill_spec_complete; [exact Hpos| |].
    - apply sweep_images_in in Hsw as (H1 & H2 & H3).
      apply sweep_images_in. auto.
    - now rewrite image_opposite, norm_opposite. }
  apply (In_nth _ _ entry0) in Hin' as (k' & Hk' & Ek').
  exists j, (unzip4 rows'), k'.
  rewrite !row_at_unzip4, Ek', E. unfold entry_of. cbn [fst snd].
  rewrite !dist_of_mk_row.
  split; [apply nth_error_Some; congruence|].
  split; [reflexivity|]. split; [exact Hget'|]. split.
  { unfold unzip4. cbn [fst]. now rewrite length_map. }
  split; [reflexivity|]. split; [apply image_opposite|].
  now rewrite image_opposite, norm_opposite.
Qed.

Lemma in_range (n : Z) (i : Z) :
  In i (range n) <-> (0 <= i < n)%Z.
Proof.
  unfold range. rewrite in_map_iff. split.
  - intros (k & <- & Hk). apply in_seq in Hk. lia.
  - intros H. exists (Z.to_nat i). split; [lia|]. apply in_seq. lia.
Qed.

(** [np.arange(-sweep, sweep + 1, 1)] holds the integers from [-sweep] to
    [sweep], so it holds [-s] whenever it holds [s]. *)
Lemma sweep_array_in (sweep s : Z) :
  In s (sweep_array sweep) <-> (- sweep <= s <= sweep)%Z.
Proof.
  unfold sweep_array. rewrite in_map_iff. split.
  - intros (i & <- & Hi). apply in_range in Hi. lia.
  - intros H. exists (s + sweep)%Z. split; [lia|]. apply in_range. lia.
Qed.

Lemma sweep_array_symmetric (sweep s : Z) :
  In s (sweep_array sweep) -> In (- s)%Z (sweep_array sweep).
Proof. rewrite !sweep_array_in. lia. Qed.

Lemma neighbours_reciprocal_witness :
  exists out_i,
    get_2_body_arrays argsort_stable [(0, 0, 0); (1.5, 0, 0)]%R 0
                      (cubic 10%R) 3%R [1; 2]%Z (sweep_array 1)
    = Some out_i
    /\ forall k : nat,
         (k < length (fst (fst (fst out_i))))%nat ->
         exists (j : nat) out_j (k' : nat),
           (j < 2)%nat
           /\ snd (row_at out_i k) = wrap8 (Z.of_nat j)
           /\ get_2_body_arrays argsort_stable [(0, 0, 0); (1.5, 0, 0)]%R j
                                (cubic 10%R) 3%R [1; 2]%Z (sweep_array 1)
              = Some out_j
           /\ (k' < length (fst (fst (fst out_j))))%nat
           /\ snd (row_at out_j k') = wrap8 0
           /\ snd (fst (fst (row_at out_j k')))
              = vscale (-1) (snd (fst (fst (row_at out_i k))))
           /\ dist_of (fst (fst (fst (row_at out_j k'))))
              = dist_of (fst (fst (fst (row_at out_i k)))).
Proof.
  apply (@neighbours_reciprocal argsort_stable [(0, 0, 0); (1.5, 0, 0)]%R
           (cubic 10%R) 3%R [1; 2]%Z (sweep_array 1) 0 (0, 0, 0)%R).
  - apply argsort_stable_is_argsort.
  - apply sweep_array_symmetric.
  - cbn. lia.
  - reflexivity.
Defined.
(* ------------------------------------------------------------------ *)
(** ** The triplet table, row by row *)
(* ------------------------------------------------------------------ *)

Section PackedRows.

Context {F : Type} {NF : Num F}.
Local Open Scope num_scope.

Lemma accepted_near_filter (bond_positions_3 : list (vec3 F)) (cutoff_3 : F)
      (m : nat) (l : list nat) :
  accepted (near bond_positions_3 cutoff_3 m) l
  = map (fun n => (n, norm (vsub (nth n bond_positions_3 vzero)
                                 (nth m bond_positions_3 vzero))))
        (filter (fun n => norm (vsub (nth n bond_positions_3 vzero)
                                     (nth m bond_positions_3 vzero))
                          <? cutoff_3) l).
Proof.
  induction l as [|a l IH]; [reflexivity|].
  rewrite accepted_cons, IH. cbn [filter]. unfold near.
  destruct (norm (vsub (nth a bond_positions_3 vzero)
                       (nth m bond_positions_3 vzero)) <? cutoff_3);
    reflexivity.
Qed.

Lemma nth_firstn_lt {A : Type} (l : list A) (n k : nat) (d : A) :
  (k < n)%nat -> nth k (firstn n l) d = nth k l d.
Proof.
  revert n k; induction l as [|x l IH]; intros n k H.
  - now rewrite firstn_nil.
  - destruct n as [|n]; [lia|]. destruct k as [|k]; [reflexivity|].
    cbn [firstn nth]. apply IH. lia.
Qed.

Lemma filter_seq_bound (f : nat -> bool) (a len j : nat) :
  (j < length (filter f (seq a len)))%nat ->
  (a + j <= nth j (filter f (seq a len)) O < a + len)%nat.
Proof.
  revert a j; induction len as [|len IH]; intros a j H; cbn [seq filter] in *.
  - cbn in H. lia.
  - destruct (f a).
    + destruct j as [|j]; cbn [nth length] in *; [lia|].
      specialize (IH (S a) j ltac:(lia)). lia.
    + specialize (IH (S a) j H). lia.
Qed.

Lemma filter_ext_seq (f g : nat -> bool) (a len : nat) :
  (forall n, (a <= n < a + len)%nat -> f n = g n) ->
  filter f (seq a len) = filter g (seq a len).
Proof.
  intros H. apply filter_ext_in. intros n Hn. apply in_seq in Hn. now apply H.
Qed.

End PackedRows.

(** The rows of the table [get_3_body_arrays] returns, each as the layout
    of the neighbours it accepts. *)
Lemma get_3_rows {F : Type} {NF : Num F}
      (bond_array_2 : list (brow F)) (bond_positions_2 : list (vec3 F))
      (cutoff_3 : F) (bond_array_3 : list (brow F))
      (cross_bond_inds : list (list Z)) (cross_bond_dists : list (list F))
      (triplet_counts : list Z) :
  get_3_body_arrays bond_array_2 bond_positions_2 cutoff_3
  = Some (bond_array_3, cross_bond_inds, cross_bond_dists, triplet_counts) ->
  let ind_3 := length bond_array_3 in
  let dist (m n : nat) :=
    norm (vsub (nth n bond_positions_2 vzero)
               (nth m bond_positions_2 vzero)) in
  length cross_bond_inds = ind_3
  /\ length cross_bond_dists = ind_3
  /\ length triplet_counts = ind_3
  /\ forall m : nat,
       (m < ind_3)%nat ->
       (nth m cross_bond_inds [], nth m cross_bond_dists [],
        nth m triplet_counts 0%Z)
       = row_layout ind_3 m
           (map (fun n => (n, dist m n))
                (filter (fun n => fltb (dist m n) cutoff_3)
                        (seq (S m) (ind_3 - S m)))).
Proof.
  unfold get_3_body_arrays.
  set (ind := first_above cutoff_3 (map dist_of bond_array_2)).
  destruct (ind <=? length bond_positions_2)%nat; [|discriminate].
  unfold unzip3. intros H. inversion H; subst; clear H.
  replace (length (firstn ind bond_array_2)) with ind
    by (symmetry; apply length_firstn_first_above).
  cbn zeta. rewrite !length_map, length_seq.
  split; [reflexivity|]. split; [reflexivity|]. split; [reflexivity|].
  intros m Hm. rewrite !map_map.
  rewrite !nth_map_seq by assumption.
  rewrite cross_row_layout by assumption.
  rewrite accepted_near_filter.
  rewrite (@filter_ext_seq
             (fun n => fltb (norm (vsub (nth n (firstn ind bond_positions_2)
                                             vzero)
                                        (nth m (firstn ind bond_positions_2)
                                             vzero))) cutoff_3)
             (fun n => fltb (norm (vsub (nth n bond_positions_2 vzero)
                                        (nth m bond_positions_2 vzero)))
                            cutoff_3))
    by (intros n Hn; rewrite !nth_firstn_lt by lia; reflexivity).
  match goal with
  | |- context [row_layout ind m (map ?f ?l)] =>
      rewrite (map_ext_in f
                 (fun n => (n, norm (vsub (nth n bond_positions_2 vzero)
                                          (nth m bond_positions_2 vzero)))) l)
  end.
  - now destruct (row_layout ind m _) as [[a b] c].
  - intros n Hn. apply filter_In in Hn as [Hn _]. apply in_seq in Hn.
    rewrite !nth_firstn_lt by lia. reflexivity.
Qed.

(** X5.  In the table [get_3_body_arrays] returns, row [m] lists, from
    column [m + 1] on and without gaps, the neighbours [n > m] of the
    truncated list that lie closer than [cutoff_3] to neighbour [m], in
    increasing order of [n]: column [m + 1 + j] of [cross_bond_inds] holds
    the index of the [j]-th of them and the same column of
    [cross_bond_dists] their distance; every other cell holds [-1] and
    [0]; [triplet_counts[m]] is the [int8] image of their number. *)
Theorem triplet_rows_packed {F : Type} {NF : Num F}
        (bond_array_2 : list (brow F)) (bond_positions_2 : list (vec3 F))
        (cutoff_3 : F) (bond_array_3 : list (brow F))
        (cross_bond_inds : list (list Z)) (cross_bond_dists : list (list F))
        (triplet_counts : list Z) :
  get_3_body_arrays bond_array_2 bond_positions_2 cutoff_3
  = Some (bond_array_3, cross_bond_inds, cross_bond_dists, triplet_counts) ->
  let ind_3 := length bond_array_3 in
  let dist (m n : nat) :=
    norm (vsub (nth n bond_positions_2 vzero)
               (nth m bond_positions_2 vzero)) in
  length cross_bond_inds = ind_3
  /\ length cross_bond_dists = ind_3
  /\ length triplet_counts = ind_3
  /\ forall m : nat,
       (m < ind_3)%nat ->
       let close :=
         filter (fun n => fltb (dist m n) cutoff_3)
                (seq (S m) (ind_3 - S m)) in
       length (nth m cross_bond_inds []) = ind_3
       /\ length (nth m cross_bond_dists []) = ind_3
       /\ nth m triplet_counts 0%Z = wrap8 (Z.of_nat (length close))
       /\ (forall j : nat,
              (j < length close)%nat ->
              (S m + j <= nth j close O < ind_3)%nat
              /\ cell_at cross_bond_inds m (S m + j)
                 = Z.of_nat (nth j close O)
              /\ nth (S m + j) (nth m cross_bond_dists []) fzero
                 = dist m (nth j close O))
       /\ (forall k : nat,
              (k <= m \/ m + length close < k)%nat ->
              cell_at cross_bond_inds m k = (-1)%Z
              /\ nth k (nth m cross_bond_dists []) fzero = fzero).
Proof.
  intros H. apply get_3_rows in H. cbn zeta in H |- *.
  destruct H as (Li & Ld & Lc & Hrows).
  split; [exact Li|]. split; [exact Ld|]. split; [exact Lc|].
  intros m Hm. specialize (Hrows m Hm).
  set (ind := length bond_array_3) in *.
  set (close := filter _ (seq (S m) (ind - S m))) in *.
  assert (Hlen : (length close <= ind - S m)%nat).
  { unfold close. etransitivity; [apply filter_length_le|].
    now rewrite length_seq. }
  match type of Hrows with
  | _ = row_layout ind m ?acc =>
      destruct (@row_layout_packed F NF ind m acc Hm) as (L1 & L2 & L3 & L4);
        [now rewrite length_map|];
        assert (Hcount : snd (row_layout ind m acc)
                         = wrap8 (Z.of_nat (length close)))
          by (unfold row_layout; cbn [snd]; now rewrite length_map);
        destruct (row_layout ind m acc) as [[row_i row_d] count]
  end.
  inversion Hrows as [[Hi Hd Hc]]. clear Hrows.
  cbn [fst snd] in L1, L2, L3, L4, Hcount. rewrite length_map in L3, L4.
  unfold cell_at. rewrite Hi, Hd.
  split; [exact L1|]. split; [exact L2|]. split; [congruence|].
  split.
  - intros j Hj. destruct (L3 j Hj) as [Hcell Hdist].
    pose proof (@filter_seq_bound _ (S m) (ind - S m) j Hj) as Hb.
    fold close in Hb. split; [lia|]. rewrite Hcell, Hdist.
    rewrite nth_indep
      with (d' := (fun n => (n, norm (vsub (nth n bond_positions_2 vzero)
                                           (nth m bond_positions_2 vzero))))
                    O)
      by (rewrite length_map; exact Hj).
    rewrite (map_nth (fun n => (n, norm (vsub (nth n bond_positions_2 vzero)
                                              (nth m bond_positions_2
                                                   vzero))))).
    cbn [fst snd]. split; reflexivity.
  - intros k Hk. apply L4. exact Hk.
Qed.

(** The line of four atoms: row 0 lists neighbours 1 and 2, row 1
    neighbour 2. *)
Lemma triplet_rows_packed_witness :
  let ind_3 := length line4_ba2 in
  let dist (m n : nat) :=
    norm (vsub (nth n line4_bp2 vzero) (nth m line4_bp2 vzero)) in
  length line4_inds = ind_3
  /\ length line4_dists = ind_3
  /\ length [2; 1; 0]%Z = ind_3
  /\ forall m : nat,
       (m < ind_3)%nat ->
       let close :=
         filter (fun n => fltb (dist m n) 1%float)
                (seq (S m) (ind_3 - S m)) in
       length (nth m line4_inds []) = ind_3
       /\ length (nth m line4_dists []) = ind_3
       /\ nth m [2; 1; 0]%Z 0%Z = wrap8 (Z.of_nat (length close))
       /\ (forall j : nat,
              (j < length close)%nat ->
              (S m + j <= nth j close O < ind_3)%nat
              /\ cell_at line4_inds m (S m + j)
                 = Z.of_nat (nth j close O)
              /\ nth (S m + j) (nth m line4_dists []) fzero
                 = dist m (nth j close O))
       /\ (forall k : nat,
              (k <= m \/ m + length close < k)%nat ->
              cell_at line4_inds m k = (-1)%Z
              /\ nth k (nth m line4_dists []) fzero = fzero).
Proof.
  apply (@triplet_rows_packed float _ line4_ba2 line4_bp2 1%float line4_ba2
           line4_inds line4_dists [2; 1; 0]%Z).
  vm_compute. reflexivity.
Defined.

(** X6.  [get_3_body_arrays] never fails on the arrays
    [get_2_body_arrays] returns, whatever order [argsort] gives them: the
    triplet list is a prefix of the neighbour list, and the table is
    square with one row and one count for each of its bonds. *)
Theorem triplets_of_neighbour_list {F : Type} {NF : Num F}
        (argsort : list F -> list nat) (positions : list (vec3 F))
        (atom : nat) (cell : cell3 F) (cutoff_2 cutoff_3 : F)
        (species : list Z) (sweep : list Z) (bond_array_2 : list (brow F))
        (bond_positions_2 : list (vec3 F)) (etypes bond_indices : list Z) :
  get_2_body_arrays argsort positions atom cell cutoff_2 species sweep
  = Some (bond_array_2, bond_positions_2, etypes, bond_indices) ->
  exists bond_array_3 cross_bond_inds cross_bond_dists triplet_counts,
    get_3_body_arrays bond_array_2 bond_positions_2 cutoff_3
    = Some (bond_array_3, cross_bond_inds, cross_bond_dists, triplet_counts)
    /\ bond_array_3 = firstn (length bond_array_3) bond_array_2
    /\ (length bond_array_3 <= length etypes)%nat
    /\ length triplet_counts = length bond_array_3
    /\ length cross_bond_inds = length bond_array_3
    /\ length cross_bond_dists = length bond_array_3
    /\ Forall (fun row => length row = length bond_array_3) cross_bond_inds
    /\ Forall (fun row => length row = length bond_array_3) cross_bond_dists.
Proof.
  unfold get_2_body_arrays. intros H.
  destruct (nth_error positions atom) as [pos_atom|]; [|discriminate].
  cbn [bind] in H.
  destruct (length positions <=? length species)%nat; [|discriminate].
  inversion H; subst; clear H.
  set (rows := sort_rows argsort _).
  unfold get_3_body_arrays.
  set (ba := map (fun r => fst (fst (fst r))) rows).
  set (ind := first_above cutoff_3 (map dist_of ba)).
  assert (Hind : (ind <= length rows)%nat).
  { unfold ind. etransitivity; [apply first_above_le|].
    unfold ba. now rewrite !length_map. }
  rewrite length_map.
  rewrite (proj2 (Nat.leb_le _ _) Hind). unfold unzip3.
  do 4 eexists. split; [reflexivity|].
  assert (Hl : length (firstn ind ba) = ind)
    by apply length_firstn_first_above.
  rewrite Hl, !length_map, length_seq.
  split; [reflexivity|]. split; [exact Hind|].
  split; [reflexivity|]. split; [reflexivity|]. split; [reflexivity|].
  split; rewrite map_map, Forall_map, Forall_forall; intros m Hm;
    apply in_seq in Hm; rewrite cross_row_layout by lia;
    unfold row_layout; cbn [fst snd];
    rewrite !length_app, !repeat_length, length_map;
    pose proof (accepted_length
                  (near (firstn ind (map (fun r => snd (fst (fst r))) rows))
                        cutoff_3 m) (seq (S m) (ind - S m))) as Ha;
    rewrite length_seq in Ha; lia.
Qed.

Lemma triplets_of_neighbour_list_witness :
  exists bond_array_3 cross_bond_inds cross_bond_dists triplet_counts,
    get_3_body_arrays line4_ba2 line4_bp2 1%float
    = Some (bond_array_3, cross_bond_inds, cross_bond_dists, triplet_counts)
    /\ bond_array_3 = firstn (length bond_array_3) line4_ba2
    /\ (length bond_array_3 <= length [1; 1; 1]%Z)%nat
    /\ length triplet_counts = length bond_array_3
    /\ length cross_bond_inds = length bond_array_3
    /\ length cross_bond_dists = length bond_array_3
    /\ Forall (fun row => length row = length bond_array_3) cross_bond_inds
    /\ Forall (fun row => length row = length bond_array_3) cross_bond_dists.
Proof.
  apply (@triplets_of_neighbour_list float _ argsort_stable line4 0
           (cubic 1e7%float) 2%float 1%float [1; 1; 1; 1]%Z sweep1
           line4_ba2 line4_bp2 [1; 1; 1]%Z [1; 2; 3]%Z).
  vm_compute. reflexivity.
Defined.
Section Truncation.

Local Open Scope R_scope.

Lemma ascending_tail (d : R) (l : list R) :
  ascending (d :: l) -> ascending l /\ Forall (fun x => d <= x) l.
Proof.
  intros H. split.
  - intros i j Hij. apply (H (S i) (S j)). cbn [length]. lia.
  - rewrite Forall_forall. intros x Hx.
    apply (In_nth _ _ 0) in Hx as (j & Hj & <-).
    specialize (H O (S j)). cbn [length nth] in H.
    specialize (H ltac:(lia)). cbn [fltb fzero Num_R] in H.
    unfold Rltb in H.
    match type of H with
    | context [Rlt_dec ?a ?b] => destruct (Rlt_dec a b); [discriminate|lra]
    end.
Qed.

(** In an ascending list the rows before the first distance above the
    cutoff are the rows not above it. *)
Lemma firstn_first_above_filter (c : R) (l : list (brow R)) :
  ascending (map dist_of l) ->
  firstn (first_above c (map dist_of l)) l
  = filter (fun r => negb (Rltb c (dist_of r))) l.
Proof.
  induction l as [|r l IH]; intros H; [reflexivity|].
  cbn [map] in H. apply ascending_tail in H as [Ht Hall].
  cbn [map first_above filter fltb Num_R].
  destruct (Rltb c (dist_of r)) eqn:E; cbn [negb firstn].
  - symmetry. clear IH Ht.
    assert (Hall' : Forall (fun x : brow R => dist_of r <= dist_of x) l)
      by (rewrite Forall_map in Hall; exact Hall).
    clear Hall. induction Hall' as [|x l Hx _ IH]; [reflexivity|].
    cbn [filter]. rewrite IH.
    unfold Rltb in E |- *. destruct (Rlt_dec c (dist_of r)); [|discriminate].
    destruct (Rlt_dec c (dist_of x)); [reflexivity|lra].
  - f_equal. now apply IH.
Qed.

Lemma filter_all {A : Type} (f : A -> bool) (l : list A) :
  Forall (fun x => f x = true) l -> filter f l = l.
Proof.
  induction 1 as [|x l Hx _ IH]; [reflexivity|].
  cbn [filter]. now rewrite Hx, IH.
Qed.

End Truncation.

(** X7.  Over the reals, with distances sorted by [argsort], the triplet
    list [get_3_body_arrays] cuts from the neighbour list of
    [get_2_body_arrays] holds exactly the neighbours whose distance is
    not above [cutoff_3]; with [cutoff_3] at least [cutoff_2] it is the
    whole neighbour list. *)
Theorem triplet_list_within_cutoff (argsort : list R -> list nat)
        (positions : list (vec3 R)) (atom : nat) (cell : cell3 R)
        (cutoff_2 cutoff_3 : R) (species : list Z) (sweep : list Z)
        (pos_atom : vec3 R) :
  nth_error positions atom = Some pos_atom ->
  (length positions <= length species)%nat ->
  is_argsort
    (keys_of (fill_spec positions pos_atom cell (fun _ => cutoff_2)
                        species sweep))
    (argsort (keys_of (fill_spec positions pos_atom cell (fun _ => cutoff_2)
                                 species sweep))) ->
  exists bond_array_2 bond_positions_2 etypes bond_indices
         bond_array_3 cross_bond_inds cross_bond_dists triplet_counts,
    get_2_body_arrays argsort positions atom cell cutoff_2 species sweep
    = Some (bond_array_2, bond_positions_2, etypes, bond_indices)
    /\ get_3_body_arrays bond_array_2 bond_positions_2 cutoff_3
       = Some (bond_array_3, cross_bond_inds, cross_bond_dists,
               triplet_counts)
    /\ bond_array_3
       = filter (fun r => negb (Rltb cutoff_3 (dist_of r))) bond_array_2
    /\ ((cutoff_2 <= cutoff_3)%R -> bond_array_3 = bond_array_2).
Proof.
  intros Hpos Hlen Hs.
  pose proof (sort_rows_output argsort positions pos_atom cell
                (fun _ => cutoff_2) species sweep Hs) as Hout.
  assert (Hget : get_2_body_arrays argsort positions atom cell cutoff_2
                                   species sweep
                 = Some (unzip4 (sort_rows argsort
                           (fill_spec positions pos_atom cell
                                      (fun _ => cutoff_2) species sweep)))).
  { unfold get_2_body_arrays. rewrite Hpos. cbn [bind].
    rewrite (proj2 (Nat.leb_le _ _) Hlen). now rewrite fill_rows_spec. }
  destruct Hout as (_ & (rows & Erows & Hp) & Hasc & _).
  rewrite Erows in Hget, Hasc. clear Erows.
  pose proof (unzip4_lengths rows) as Hl.
  assert (Hrow := row_at_unzip4 rows).
  destruct (unzip4 rows) as [[[ba bp] et] bi] eqn:Eu.
  cbn [fst] in Hasc. destruct Hl as (Hba & Hbp & _).
  exists ba, bp, et, bi. unfold get_3_body_arrays.
  set (ind := first_above cutoff_3 (map dist_of ba)).
  assert (Hind : (ind <= length bp)%nat).
  { unfold ind. etransitivity; [apply first_above_le|].
    rewrite length_map. lia. }
  rewrite (proj2 (Nat.leb_le _ _) Hind). unfold unzip3.
  do 4 eexists. split; [exact Hget|]. split; [reflexivity|].
  assert (Hf : firstn ind ba
               = filter (fun r => negb (Rltb cutoff_3 (dist_of r))) ba)
    by (apply firstn_first_above_filter; exact Hasc).
  split; [exact Hf|]. intros Hc. rewrite Hf. apply filter_all.
  rewrite Forall_forall. intros r Hr.
  apply (In_nth _ _ brow0) in Hr as (k & Hk & <-).
  specialize (Hrow k). unfold row_at in Hrow.
  assert (Hin : In (nth k rows entry0) rows) by (apply nth_In; lia).
  apply (Permutation_in _ Hp) in Hin.
  apply fill_spec_in in Hin as (m & p & im & _ & _ & Hw & E).
  rewrite E in Hrow. unfold entry_of in Hrow. inversion Hrow as [[Hr Hb He Hi]].
  rewrite Hr, dist_of_mk_row. apply within_real in Hw as [Hlt _].
  apply negb_true_iff. unfold Rltb.
  destruct (Rlt_dec cutoff_3 (norm im)); [lra|reflexivity].
Qed.

Lemma triplet_list_within_cutoff_witness :
  exists bond_array_2 bond_positions_2 etypes bond_indices
         bond_array_3 cross_bond_inds cross_bond_dists triplet_counts,
    get_2_body_arrays argsort_stable [(0, 0, 0); (1.5, 0, 0)]%R 0
                      (cubic 10%R) 3%R [1; 2]%Z (sweep_array 1)
    = Some (bond_array_2, bond_positions_2, etypes, bond_indices)
    /\ get_3_body_arrays bond_array_2 bond_positions_2 2%R
       = Some (bond_array_3, cross_bond_inds, cross_bond_dists,
               triplet_counts)
    /\ bond_array_3
       = filter (fun r => negb (Rltb 2%R (dist_of r))) bond_array_2
    /\ ((3 <= 2)%R -> bond_array_3 = bond_array_2).
Proof.
  apply (@triplet_list_within_cutoff argsort_stable
           [(0, 0, 0); (1.5, 0, 0)]%R 0 (cubic 10%R) 3%R 2%R [1; 2]%Z
           (sweep_array 1) (0, 0, 0)%R).
  - reflexivity.
  - cbn. lia.
  - apply argsort_stable_is_argsort.
Defined.
(* ------------------------------------------------------------------ *)
(** ** Gradients of the descriptors, species by species *)
(* ------------------------------------------------------------------ *)

Section SpeciesLookup.

Lemma where_first_none (l : list Z) (v : Z) :
  where_first l v = None <-> ~ In v l.
Proof.
  induction l as [|x l IH]; cbn [where_first In]; [tauto|].
  destruct (Z.eqb_spec x v) as [->|Hne].
  - split; [discriminate|]. intros H. exfalso. apply H. now left.
  - destruct (where_first l v) as [k|]; cbn [bind].
    + split; [discriminate|]. intros H. exfalso. apply H. right.
      apply Decidable.not_not; [|intros Hn; now apply IH in Hn].
      destruct (in_dec Z.eq_dec v l); [now left|now right].
    + split; [|reflexivity]. intros _ [E|Hin]; [congruence|].
      now apply (proj1 IH).
Qed.

Lemma where_first_some (l : list Z) (v : Z) :
  In v l -> exists k, where_first l v = Some k.
Proof.
  intros H. destruct (where_first l v) as [k|] eqn:E; [eauto|].
  apply where_first_none in E. contradiction.
Qed.

Lemma where_first_nth (l : list Z) (v : Z) (k : nat) :
  where_first l v = Some k -> nth k l 0%Z = v.
Proof.
  revert k; induction l as [|x l IH]; intros k H; [discriminate|].
  cbn [where_first] in H. destruct (Z.eqb_spec x v) as [->|Hne].
  - now inversion H.
  - apply bind_some in H as (k' & Hk' & H). inversion H; subst.
    cbn [nth]. now apply IH.
Qed.

(** In a list without repetition the position found is the position. *)
Lemma where_first_NoDup (l : list Z) (k : nat) :
  NoDup l -> (k < length l)%nat -> where_first l (nth k l 0%Z) = Some k.
Proof.
  intros Hnd; revert k; induction Hnd as [|x l Hx Hnd IH]; intros k Hk.
  - cbn in Hk. lia.
  - destruct k as [|k]; cbn [nth where_first].
    + now rewrite Z.eqb_refl.
    + cbn [length] in Hk. destruct (Z.eqb_spec x (nth k l 0%Z)) as [E|_].
      * exfalso. apply Hx. rewrite E. apply nth_In. lia.
      * rewrite IH by lia. reflexivity.
Qed.

Lemma foldM_none {A S : Type} (f : S -> A -> option S) (l : list A) (s : S) :
  foldM f l s = None -> exists a s', In a l /\ f s' a = None.
Proof.
  revert s; induction l as [|a l IH]; intros s H; [discriminate|].
  cbn [foldM] in H. destruct (f s a) as [s1|] eqn:E.
  - cbn [bind] in H. apply IH in H as (b & s' & Hb & H).
    exists b, s'. split; [now right|exact H].
  - exists a, s. split; [now left|exact E].
Qed.

Lemma foldM_fails {A S : Type} (f : S -> A -> option S) (l : list A) (s : S)
      (a : A) :
  In a l -> (forall s', f s' a = None) -> foldM f l s = None.
Proof.
  revert s; induction l as [|b l IH]; intros s Hin Hf; [destruct Hin|].
  cbn [foldM]. destruct Hin as [->|Hin].
  - now rewrite Hf.
  - destruct (f s b); [|reflexivity]. cbn [bind]. now apply IH.
Qed.


End SpeciesLookup.

Section GradientsBySpecies.

Context {F : Type} {NF : Num F}.
Local Open Scope num_scope.

Lemma q2_step_rows (neigh_grads : list (vec3 F))
      (species_list etypes : list Z) (l : list Z) (g0 g : list (vec3 F)) :
  length g0 = length species_list ->
  foldM (fun grads i =>
           si <- where_first species_list (getZ etypes i) ;;
           Some (set_nth grads si
                         (vadd (nth si grads vzero)
                               (py_read vzero neigh_grads i))))
        l g0 = Some g ->
  length g = length species_list
  /\ forall s : nat,
       (s < length species_list)%nat ->
       nth s g vzero
       = fold_left vadd
           (map (fun i => py_read vzero neigh_grads i)
                (filter (species_row species_list etypes s) l))
           (nth s g0 vzero).
Proof.
  revert g0; induction l as [|i l IH]; intros g0 Hlen H.
  - cbn in H. inversion H; subst. split; [exact Hlen|reflexivity].
  - cbn [foldM] in H. apply bind_some in H as (g1 & Hg1 & H).
    apply bind_some in Hg1 as (si & Hsi & Hg1). inversion Hg1; subst g1.
    pose proof (where_first_lt _ _ Hsi) as Hlt.
    apply IH in H; [|now rewrite set_nth_length].
    destruct H as [Hl Hrows]. split; [exact Hl|].
    intros s Hs. rewrite (Hrows s Hs). cbn [filter].
    unfold species_row at 2. rewrite Hsi.
    destruct (Nat.eqb_spec si s) as [->|Hne].
    + cbn [map fold_left]. rewrite nth_set_nth_eq by lia. reflexivity.
    + rewrite nth_set_nth_neq by exact Hne. reflexivity.
Qed.

End GradientsBySpecies.

(** X8.  [q2_grads_mc] fails exactly when a neighbour has a species that
    is not in [species_list].  Otherwise it returns one row for each
    position of [species_list]: the sum, in neighbour order, of the rows
    of [neigh_grads] of the neighbours whose species is first found at
    that position. *)
Theorem q2_grads_by_species {F : Type} {NF : Num F}
        (neigh_grads : list (vec3 F)) (species_list etypes : list Z) :
  (q2_grads_mc neigh_grads species_list etypes = None
   <-> exists i : Z, (0 <= i < rows neigh_grads)%Z
                     /\ ~ In (getZ etypes i) species_list)
  /\ forall grads : list (vec3 F),
       q2_grads_mc neigh_grads species_list etypes = Some grads ->
       length grads = length species_list
       /\ forall s : nat,
            (s < length species_list)%nat ->
            nth s grads vzero
            = vsum (map (fun i => py_read vzero neigh_grads i)
                        (filter (species_row species_list etypes s)
                                (range (rows neigh_grads)))).
Proof.
  split.
  - unfold q2_grads_mc. split.
    + intros H. apply foldM_none in H as (i & g & Hi & H).
      exists i. split; [now apply in_range|].
      apply where_first_none.
      destruct (where_first species_list (getZ etypes i)); [discriminate|].
      reflexivity.
    + intros (i & Hi & Hnot). apply foldM_fails with (a := i).
      * now apply in_range.
      * intros g. apply where_first_none in Hnot. now rewrite Hnot.
  - intros grads H. unfold q2_grads_mc in H.
    apply q2_step_rows in H; [|apply repeat_length].
    destruct H as [Hl Hrows]. split; [exact Hl|].
    intros s Hs. rewrite (Hrows s Hs). unfold vsum.
    now rewrite nth_repeat.
Qed.

(** Three neighbours of species 1, 2, 1 and the species list [2; 1]. *)
Lemma q2_grads_by_species_witness :
  q2_grads_mc [(1, 0, 0); (0, 1, 0); (0, 0, 1)]%float [2; 1]%Z [1; 2; 1]%Z
  = Some [(0, 1, 0); (1, 0, 1)]%float
  /\ length [(0, 1, 0); (1, 0, 1)]%float = length [2; 1]%Z
  /\ forall s : nat,
       (s < length [2; 1]%Z)%nat ->
       nth s [(0, 1, 0); (1, 0, 1)]%float vzero
       = vsum (map (fun i => py_read vzero
                               [(1, 0, 0); (0, 1, 0); (0, 0, 1)]%float i)
                   (filter (species_row [2; 1]%Z [1; 2; 1]%Z s)
                           (range (rows [(1, 0, 0); (0, 1, 0);
                                         (0, 0, 1)]%float)))).
Proof.
  split; [vm_compute; reflexivity|].
  apply (proj2 (@q2_grads_by_species float _
                  [(1, 0, 0); (0, 1, 0); (0, 0, 1)]%float [2; 1]%Z
                  [1; 2; 1]%Z)).
  vm_compute. reflexivity.
Defined.
Section TwoIndexArrays.

Context {A : Type}.

Lemma shape2_row (n k : nat) (a : list (list A)) (i : nat) :
  shape2 n k a -> (i < n)%nat -> length (nth i a []) = k.
Proof.
  intros [Hl Hr] Hi. rewrite Forall_forall in Hr. apply Hr, nth_In. lia.
Qed.

Lemma shape2_repeat (n k : nat) (d : A) :
  shape2 n k (repeat (repeat d k) n).
Proof.
  split; [apply repeat_length|]. apply Forall_forall. intros row Hrow.
  apply repeat_spec in Hrow. subst. apply repeat_length.
Qed.

Lemma zeros2_nth (n k s t : nat) (d : A) :
  nth t (nth s (repeat (repeat d k) n) []) d = d.
Proof.
  destruct (Nat.lt_ge_cases s n) as [Hs|Hs].
  - rewrite (nth_indep (repeat (repeat d k) n) [] (repeat d k))
      by (rewrite repeat_length; lia).
    rewrite (nth_repeat (repeat d k)). apply nth_repeat.
  - rewrite (nth_overflow (repeat (repeat d k) n))
      by (rewrite repeat_length; lia).
    now destruct t.
Qed.

Lemma shape2_set (n k : nat) (a : list (list A)) (i j : nat) (v : A) :
  shape2 n k a -> (i < n)%nat ->
  shape2 n k (set_nth a i (set_nth (nth i a []) j v)).
Proof.
  intros Ha Hi. pose proof (shape2_row Ha Hi) as Hrow.
  destruct Ha as [Hl Hr]. split; [now rewrite set_nth_length|].
  apply Forall_forall. intros row Hin.
  apply (In_nth _ _ []) in Hin as (m & Hm & <-).
  rewrite set_nth_length in Hm.
  destruct (Nat.eq_dec i m) as [<-|Hne].
  - rewrite nth_set_nth_eq by lia. now rewrite set_nth_length.
  - rewrite nth_set_nth_neq by exact Hne.
    rewrite Forall_forall in Hr. apply Hr, nth_In. exact Hm.
Qed.

Lemma nth_set2 (n k : nat) (a : list (list A)) (i j i' j' : nat) (v d : A) :
  shape2 n k a -> (i < n)%nat -> (j < k)%nat ->
  nth j' (nth i' (set_nth a i (set_nth (nth i a []) j v)) []) d
  = if (i' =? i)%nat && (j' =? j)%nat then v else nth j' (nth i' a []) d.
Proof.
  intros Ha Hi Hj. pose proof (shape2_row Ha Hi) as Hrow.
  destruct Ha as [Hl Hr].
  destruct (Nat.eqb_spec i' i) as [->|Hne]; cbn [andb].
  - rewrite nth_set_nth_eq by lia.
    destruct (Nat.eqb_spec j' j) as [->|Hnj].
    + apply nth_set_nth_eq. lia.
    + apply nth_set_nth_neq. congruence.
  - rewrite nth_set_nth_neq by congruence. reflexivity.
Qed.

End TwoIndexArrays.

Section PairGradients.

Context {F : Type} {NF : Num F}.
Local Open Scope num_scope.

Lemma shape2_add_at2v (n k : nat) (a : list (list (vec3 F))) (i j : nat)
      (v : vec3 F) :
  shape2 n k a -> (i < n)%nat -> shape2 n k (add_at2v a i j v).
Proof. intros. unfold add_at2v. now apply shape2_set. Qed.

Lemma nth_add_at2v (n k : nat) (a : list (list (vec3 F))) (i j i' j' : nat)
      (v : vec3 F) :
  shape2 n k a -> (i < n)%nat -> (j < k)%nat ->
  nth j' (nth i' (add_at2v a i j v) []) vzero
  = if (i' =? i)%nat && (j' =? j)%nat
    then vadd (nth j (nth i a []) vzero) v
    else nth j' (nth i' a []) vzero.
Proof. intros. unfold add_at2v. now apply nth_set2 with n k. Qed.

(** The loop over [spec_j] visits every column once when [species_list]
    has no repetition. *)
Lemma q3_inner_columns (neigh_grads : list (list (vec3 F)))
      (species_list : list Z) (i : Z) (si : nat)
      (g0 g : list (list (vec3 F))) :
  NoDup species_list ->
  let n := length species_list in
  shape2 n n g0 -> (si < n)%nat ->
  foldM (fun grads spec_j =>
           sj <- where_first species_list spec_j ;;
           let g := nth sj (py_read [] neigh_grads i) vzero in
           Some (if (si =? sj)%nat
                 then add_at2v grads si sj (vdiv g (fof_int 2))
                 else add_at2v grads si sj g))
        species_list g0 = Some g ->
  shape2 n n g
  /\ forall s t : nat,
       (t < n)%nat ->
       nth t (nth s g []) vzero
       = if (s =? si)%nat
         then vadd (nth t (nth s g0 []) vzero) (q3_share neigh_grads i si t)
         else nth t (nth s g0 []) vzero.
Proof.
  intros Hnd n Hg0 Hsi.
  assert (Hgen : forall (len a : nat) (g0 g : list (list (vec3 F))),
             (a + len = n)%nat -> shape2 n n g0 ->
             foldM (fun grads spec_j =>
                      sj <- where_first species_list spec_j ;;
                      let g := nth sj (py_read [] neigh_grads i) vzero in
                      Some (if (si =? sj)%nat
                            then add_at2v grads si sj (vdiv g (fof_int 2))
                            else add_at2v grads si sj g))
                   (map (fun t => nth t species_list 0%Z) (seq a len)) g0
             = Some g ->
             shape2 n n g
             /\ forall s t : nat,
                  (t < n)%nat ->
                  nth t (nth s g []) vzero
                  = if (s =? si)%nat && (a <=? t)%nat
                    then vadd (nth t (nth s g0 []) vzero)
                              (q3_share neigh_grads i si t)
                    else nth t (nth s g0 []) vzero).
  { clear g0 g Hg0. induction len as [|len IH]; intros a g0 g Ha Hg0 H.
    - cbn in H. inversion H; subst. split; [exact Hg0|].
      intros s t Ht. destruct (Nat.leb_spec a t); [lia|].
      now rewrite andb_false_r.
    - cbn [seq map foldM] in H.
      rewrite where_first_NoDup in H by (try exact Hnd; fold n; lia).
      cbn [bind] in H.
      fold (q3_share neigh_grads i si a) in H.
      assert (E : (if (si =? a)%nat
                   then add_at2v g0 si a
                          (vdiv (nth a (py_read [] neigh_grads i) vzero)
                                (fof_int 2))
                   else add_at2v g0 si a
                          (nth a (py_read [] neigh_grads i) vzero))
                  = add_at2v g0 si a (q3_share neigh_grads i si a)).
      { unfold q3_share. now destruct (si =? a)%nat. }
      rewrite E in H. clear E.
      apply IH in H; [|lia|now apply shape2_add_at2v].
      destruct H as [Hsh Hcells]. split; [exact Hsh|].
      intros s t Ht. rewrite (Hcells s t Ht).
      rewrite (@nth_add_at2v n n) by (try exact Hg0; lia).
      destruct (Nat.eqb_spec s si) as [->|Hne]; cbn [andb]; [|reflexivity].
      destruct (Nat.eqb_spec t a) as [->|Hta].
      + destruct (Nat.leb_spec (S a) a); [lia|].
        destruct (Nat.leb_spec a a); [reflexivity|lia].
      + destruct (Nat.leb_spec (S a) t), (Nat.leb_spec a t);
          try lia; reflexivity. }
  intros H.
  assert (H' := Hgen n O g0 g ltac:(lia) Hg0).
  unfold n in H' at 1. rewrite map_nth_seq_id in H'.
  apply H' in H. clear H'.
  destruct H as [Hsh Hcells]. split; [exact Hsh|].
  intros s t Ht. rewrite (Hcells s t Ht).
  cbn [Nat.leb]. now rewrite andb_true_r.
Qed.

Lemma q3_inner_returns (neigh_grads : list (list (vec3 F)))
      (species_list : list Z) (i : Z) (si : nat) (l : list Z)
      (g0 : list (list (vec3 F))) :
  incl l species_list ->
  exists g,
    foldM (fun grads spec_j =>
             sj <- where_first species_list spec_j ;;
             let g := nth sj (py_read [] neigh_grads i) vzero in
             Some (if (si =? sj)%nat
                   then add_at2v grads si sj (vdiv g (fof_int 2))
                   else add_at2v grads si sj g))
          l g0 = Some g.
Proof.
  revert g0; induction l as [|x l IH]; intros g0 Hl; [now exists g0|].
  cbn [foldM]. destruct (where_first_some species_list x) as [k Hk].
  { apply Hl. now left. }
  rewrite Hk. cbn [bind]. apply IH. intros y Hy. apply Hl. now right.
Qed.

Lemma q3_outer_rows (neigh_grads : list (list (vec3 F)))
      (species_list etypes : list Z) (l : list Z)
      (g0 g : list (list (vec3 F))) :
  NoDup species_list ->
  let n := length species_list in
  shape2 n n g0 ->
  foldM (fun grads i =>
    si <- where_first species_list (getZ etypes i) ;;
    foldM (fun grads spec_j =>
      sj <- where_first species_list spec_j ;;
      let g := nth sj (py_read [] neigh_grads i) vzero in
      Some (if (si =? sj)%nat
            then add_at2v grads si sj (vdiv g (fof_int 2))
            else add_at2v grads si sj g))
      species_list grads) l g0 = Some g ->
  shape2 n n g
  /\ forall s t : nat,
       (t < n)%nat ->
       nth t (nth s g []) vzero
       = fold_left vadd
           (map (fun i => q3_share neigh_grads i s t)
                (filter (species_row species_list etypes s) l))
           (nth t (nth s g0 []) vzero).
Proof.
  intros Hnd n. revert g0; induction l as [|i l IH]; intros g0 Hg0 H.
  - cbn in H. inversion H; subst. split; [exact Hg0|reflexivity].
  - cbn [foldM] in H. apply bind_some in H as (g1 & Hg1 & H).
    apply bind_some in Hg1 as (si & Hsi & Hg1).
    pose proof (where_first_lt _ _ Hsi) as Hlt.
    apply q3_inner_columns in Hg1; [|exact Hnd|exact Hg0|exact Hlt].
    destruct Hg1 as [Hsh1 Hcells1].
    apply IH in H; [|exact Hsh1]. destruct H as [Hsh Hcells].
    split; [exact Hsh|]. intros s t Ht.
    rewrite (Hcells s t Ht), (Hcells1 s t Ht). cbn [filter].
    unfold species_row at 2. rewrite Hsi.
    destruct (Nat.eq_dec s si) as [->|Hne].
    + rewrite !Nat.eqb_refl. reflexivity.
    + rewrite (proj2 (Nat.eqb_neq s si)) by exact Hne.
      rewrite (proj2 (Nat.eqb_neq si s)) by congruence. reflexivity.
Qed.

End PairGradients.

(** X9.  [q3_grads_mc] fails exactly when a neighbour has a species that
    is not in [species_list].  When [species_list] has no repetition,
    entry [(s, t)] of the result is the sum, in neighbour order, of column
    [t] of [neigh_grads] over the neighbours whose species is at position
    [s], each term halved on the diagonal [s = t]. *)
Theorem q3_grads_by_species {F : Type} {NF : Num F}
        (neigh_grads : list (list (vec3 F))) (species_list etypes : list Z) :
  (q3_grads_mc neigh_grads species_list etypes = None
   <-> exists i : Z, (0 <= i < rows neigh_grads)%Z
                     /\ ~ In (getZ etypes i) species_list)
  /\ (NoDup species_list ->
      forall grads : list (list (vec3 F)),
        q3_grads_mc neigh_grads species_list etypes = Some grads ->
        shape2 (length species_list) (length species_list) grads
        /\ forall s t : nat,
             (t < length species_list)%nat ->
             nth t (nth s grads []) vzero
             = vsum (map (fun i =>
                            let g := nth t (py_read [] neigh_grads i) vzero in
                            if (s =? t)%nat then vdiv g (fof_int 2) else g)
                         (filter (species_row species_list etypes s)
                                 (range (rows neigh_grads))))).
Proof.
  split.
  - unfold q3_grads_mc. split.
    + intros H. apply foldM_none in H as (i & g & Hi & H).
      exists i. split; [now apply in_range|].
      apply where_first_none.
      destruct (where_first species_list (getZ etypes i)) as [si|];
        [|reflexivity].
      cbn [bind] in H.
      destruct (q3_inner_returns neigh_grads i si g
                  (incl_refl species_list)) as [g' Hg'].
      cbv zeta in H, Hg'. rewrite Hg' in H. discriminate.
    + intros (i & Hi & Hnot). apply foldM_fails with (a := i).
      * now apply in_range.
      * intros g. apply where_first_none in Hnot. now rewrite Hnot.
  - intros Hnd grads H. unfold q3_grads_mc in H.
    apply q3_outer_rows in H; [|exact Hnd|apply shape2_repeat].
    destruct H as [Hsh Hcells]. split; [exact Hsh|].
    intros s t Ht. rewrite (Hcells s t Ht). unfold vsum.
    now rewrite zeros2_nth.
Qed.

(** Two neighbours of species 1 and 2 and the species list [1; 2]. *)
Lemma q3_grads_by_species_witness :
  NoDup [1; 2]%Z
  /\ q3_grads_mc [[(2, 0, 0); (0, 1, 0)]; [(0, 0, 1); (0, 4, 0)]]%float
                 [1; 2]%Z [1; 2]%Z
     = Some [[(1, 0, 0); (0, 1, 0)]; [(0, 0, 1); (0, 2, 0)]]%float
  /\ shape2 2 2 [[(1, 0, 0); (0, 1, 0)]; [(0, 0, 1); (0, 2, 0)]]%float
  /\ forall s t : nat,
       (t < 2)%nat ->
       nth t (nth s [[(1, 0, 0); (0, 1, 0)]; [(0, 0, 1); (0, 2, 0)]]%float [])
           vzero
       = vsum (map (fun i =>
                      let g :=
                        nth t (py_read []
                                 [[(2, 0, 0); (0, 1, 0)];
                                  [(0, 0, 1); (0, 4, 0)]]%float i) vzero in
                      if (s =? t)%nat then vdiv g (fof_int 2) else g)
                   (filter (species_row [1; 2]%Z [1; 2]%Z s)
                           (range (rows [[(2, 0, 0); (0, 1, 0)];
                                         [(0, 0, 1); (0, 4, 0)]]%float)))).
Proof.
  assert (Hnd : NoDup [1; 2]%Z).
  { repeat constructor; cbn; intuition discriminate. }
  split; [exact Hnd|]. split; [vm_compute; reflexivity|].
  apply (proj2 (@q3_grads_by_species float _
                  [[(2, 0, 0); (0, 1, 0)]; [(0, 0, 1); (0, 4, 0)]]%float
                  [1; 2]%Z [1; 2]%Z) Hnd).
  vm_compute. reflexivity.
Defined.
(* ------------------------------------------------------------------ *)
(** ** The descriptor arrays of a built environment *)
(* ------------------------------------------------------------------ *)

Section Int8Index.

Lemma wrap8_le (z : Z) : (0 <= z -> wrap8 z <= z)%Z.
Proof.
  intros H. unfold wrap8.
  pose proof (Z.mod_le (z + 128) 256 ltac:(lia) ltac:(lia)). lia.
Qed.

(** An [int8] image of a position of an array is again an index of the
    array, counted from the end when it is negative. *)
Lemma py_index_wrap8 (len n : nat) :
  (n < len)%nat ->
  exists k : nat, py_index len (wrap8 (Z.of_nat n)) = Some k /\ (k < len)%nat.
Proof.
  intros H. unfold py_index.
  pose proof (@wrap8_le (Z.of_nat n) ltac:(lia)) as Hle.
  assert (Hb : (-128 <= wrap8 (Z.of_nat n) <= 127)%Z).
  { unfold wrap8.
    pose proof (Z.mod_pos_bound (Z.of_nat n + 128) 256 ltac:(lia)). lia. }
  destruct (Z.leb_spec 0 (wrap8 (Z.of_nat n))) as [Hp|Hn]; cbn [andb].
  - destruct (Z.ltb_spec (wrap8 (Z.of_nat n)) (Z.of_nat len)); [|lia].
    eexists. split; [reflexivity|lia].
  - assert (Hbig : (128 <= Z.of_nat n)%Z).
    { destruct (Z_lt_le_dec (Z.of_nat n) 128) as [Hs|]; [|assumption].
      exfalso. unfold wrap8 in Hn. rewrite Z.mod_small in Hn by lia. lia. }
    destruct (Z.leb_spec (- Z.of_nat len) (wrap8 (Z.of_nat n))); [|lia].
    destruct (Z.ltb_spec (wrap8 (Z.of_nat n)) 0); [|lia]. cbn [andb].
    eexists. split; [reflexivity|lia].
Qed.

Lemma py_index_nat (len n : nat) :
  (n < len)%nat -> py_index len (Z.of_nat n) = Some n.
Proof.
  intros H. unfold py_index.
  destruct (Z.leb_spec 0 (Z.of_nat n)); [|lia].
  destruct (Z.ltb_spec (Z.of_nat n) (Z.of_nat len)); [|lia].
  cbn [andb]. now rewrite Nat2Z.id.
Qed.

Lemma getZ_wrap8_in (l : list Z) (n : nat) :
  (n < length l)%nat -> In (getZ l (wrap8 (Z.of_nat n))) l.
Proof.
  intros H. unfold getZ, py_read, py_get.
  destruct (py_index_wrap8 H) as (k & -> & Hk). cbn [bind].
  destruct (nth_error l k) as [x|] eqn:E.
  - eapply nth_error_In. exact E.
  - apply nth_error_None in E. lia.
Qed.

Lemma getZ_nat_in (l : list Z) (n : nat) :
  (n < length l)%nat -> In (getZ l (Z.of_nat n)) l.
Proof. intros H. unfold getZ. rewrite py_read_nat. now apply nth_In. Qed.

Lemma foldM_returns {A S : Type} (P : S -> Prop) (f : S -> A -> option S)
      (l : list A) (s : S) :
  P s ->
  (forall s a, P s -> In a l -> exists s', f s a = Some s' /\ P s') ->
  exists r, foldM f l s = Some r /\ P r.
Proof.
  revert s; induction l as [|a l IH]; intros s Hs H; [now exists s|].
  cbn [foldM]. destruct (H s a Hs (or_introl eq_refl)) as (s' & -> & Hs').
  cbn [bind]. apply IH; [exact Hs'|]. intros s0 b H0 Hb. apply H; auto.
  now right.
Qed.

Lemma mapM_returns {A B : Type} (P : B -> Prop) (f : A -> option B)
      (l : list A) :
  (forall a, In a l -> exists b, f a = Some b /\ P b) ->
  exists bs, mapM f l = Some bs /\ Forall P bs /\ length bs = length l.
Proof.
  induction l as [|a l IH]; intros H.
  - exists []. repeat split. constructor.
  - cbn [mapM]. destruct (H a (or_introl eq_refl)) as (b & -> & Hb).
    cbn [bind]. destruct IH as (bs & -> & Hbs & Hl).
    { intros x Hx. apply H. now right. }
    cbn [bind]. exists (b :: bs). repeat split; [now constructor|].
    cbn. now rewrite Hl.
Qed.

End Int8Index.

Section BuiltEnvironment.

Context {F : Type} {NF : Num F} {NL : NumLaws F}.
Local Open Scope num_scope.

(** With an index array that lists every position once, the scalar
    builder returns a rearrangement of the fill rows. *)
Lemma get_2_body_perm (argsort : list F -> list nat)
      (positions : list (vec3 F)) (atom : nat) (cell : cell3 F)
      (cutoff_2 : F) (species : list Z) (sweep : list Z)
      (pos_atom : vec3 F) :
  nth_error positions atom = Some pos_atom ->
  (length positions <= length species)%nat ->
  (forall keys : list F,
      Permutation (argsort keys) (seq 0 (length keys))) ->
  exists rows,
    get_2_body_arrays argsort positions atom cell cutoff_2 species sweep
    = Some (unzip4 rows)
    /\ Permutation rows (fill_spec positions pos_atom cell (fun _ => cutoff_2)
                                   species sweep).
Proof.
  intros Hpos Hlen Hs. unfold get_2_body_arrays. rewrite Hpos. cbn [bind].
  rewrite (proj2 (Nat.leb_le _ _) Hlen). rewrite fill_rows_spec.
  eexists. split; [reflexivity|]. unfold sort_rows.
  apply take_by_perm. rewrite Hs. now rewrite length_map.
Qed.

(** The species and the indices a built environment stores. *)
Lemma built_rows (argsort : list F -> list nat)
      (positions : list (vec3 F)) (atom : nat) (cell : cell3 F)
      (cutoff_2 : F) (species : list Z) (sweep : list Z)
      (pos_atom : vec3 F) :
  nth_error positions atom = Some pos_atom ->
  (length positions <= length species)%nat ->
  (forall keys : list F,
      Permutation (argsort keys) (seq 0 (length keys))) ->
  exists ba bp et bi,
    get_2_body_arrays argsort positions atom cell cutoff_2 species sweep
    = Some (ba, bp, et, bi)
    /\ length bp = length ba /\ length et = length ba
    /\ length bi = length ba
    /\ Forall (fun e => In e (map wrap8 species)) et
    /\ Forall (fun b => exists m : nat,
                   (m < length positions)%nat /\ b = wrap8 (Z.of_nat m)) bi.
Proof.
  intros Hpos Hlen Hs.
  destruct (@get_2_body_perm argsort positions atom cell cutoff_2 species
                             sweep pos_atom Hpos Hlen Hs)
    as (rows & Hget & Hp).
  unfold unzip4 in Hget. do 4 eexists. split; [exact Hget|].
  rewrite !length_map. split; [reflexivity|]. split; [reflexivity|].
  split; [reflexivity|].
  split; rewrite Forall_map, Forall_forall; intros r Hr;
    apply (Permutation_in _ Hp) in Hr;
    apply fill_spec_in in Hr as (m & p & im & Hm & _ & _ & ->);
    unfold entry_of; cbn [fst snd];
    assert (Hlt : (m < length positions)%nat)
      by (apply nth_error_Some; congruence).
  - apply in_map, nth_In. lia.
  - now exists m.
Qed.

(** The table of any call of [get_3_body_arrays] satisfies [table_ok]. *)
Lemma get_3_table_ok (bond_array_2 : list (brow F))
      (bond_positions_2 : list (vec3 F)) (cutoff_3 : F)
      (bond_array_3 : list (brow F)) (cross_bond_inds : list (list Z))
      (cross_bond_dists : list (list F)) (triplet_counts : list Z) :
  get_3_body_arrays bond_array_2 bond_positions_2 cutoff_3
  = Some (bond_array_3, cross_bond_inds, cross_bond_dists, triplet_counts) ->
  table_ok (length bond_array_3) cross_bond_inds triplet_counts.
Proof.
  intros H. apply get_3_rows in H. cbn zeta in H.
  destruct H as (Li & Ld & Lc & Hrows).
  intros m n Hm Hn.
  specialize (Hrows (Z.to_nat m) ltac:(lia)).
  set (ind := length bond_array_3) in *.
  set (close := filter _ (seq (S (Z.to_nat m)) (ind - S (Z.to_nat m)))) in *.
  assert (Hlen : (length close <= ind - S (Z.to_nat m))%nat).
  { unfold close. etransitivity; [apply filter_length_le|].
    now rewrite length_seq. }
  match type of Hrows with
  | _ = row_layout ind ?m' ?acc =>
      destruct (@row_layout_packed F NF ind m' acc ltac:(lia))
        as (L1 & _ & L3 & _);
        [now rewrite length_map|];
        assert (Hcount : snd (row_layout ind m' acc)
                         = wrap8 (Z.of_nat (length close)))
          by (unfold row_layout; cbn [snd]; now rewrite length_map);
        destruct (row_layout ind m' acc) as [[row_i row_d] count]
  end.
  inversion Hrows as [[Hi Hd Hc]]. clear Hrows.
  cbn [fst snd] in L1, L3, Hcount. rewrite length_map in L3.
  replace m with (Z.of_nat (Z.to_nat m)) in Hn |- * by lia.
  unfold getZ in Hn. rewrite py_read_nat, Hc, Hcount in Hn.
  pose proof (@wrap8_le (Z.of_nat (length close)) ltac:(lia)) as Hle.
  assert (Hj : (Z.to_nat n < length close)%nat) by lia.
  destruct (L3 (Z.to_nat n) Hj) as [Hcell _].
  pose proof (@filter_seq_bound _ (S (Z.to_nat m)) (ind - S (Z.to_nat m))
                (Z.to_nat n) Hj) as Hb.
  fold close in Hb.
  exists (nth (Z.to_nat n) close O). split; [lia|].
  unfold get2Z, getZ.
  replace (Z.of_nat (Z.to_nat m) + n + 1)%Z
    with (Z.of_nat (S (Z.to_nat m) + Z.to_nat n)) by lia.
  rewrite !py_read_nat, Hi.
  rewrite nth_indep with (d' := (-1)%Z) by lia. rewrite Hcell.
  rewrite nth_indep
    with (d' := (fun k => (k, norm (vsub (nth k bond_positions_2 vzero)
                                         (nth (Z.to_nat m) bond_positions_2
                                              vzero)))) O)
    by (rewrite length_map; exact Hj).
  rewrite (map_nth (fun k => (k, norm (vsub (nth k bond_positions_2 vzero)
                                            (nth (Z.to_nat m)
                                                 bond_positions_2 vzero))))).
  reflexivity.
Qed.

Lemma q3_value_mc_square_symmetric (distances : list F)
      (cross_bond_inds : list (list Z)) (cross_bond_dists : list (list F))
      (triplets : list Z) (r_cut : F) (species_list etypes : list Z)
      (cutoff_func : cutoff_fn F) (q_func : q_fn F) (M : list (list F)) :
  q3_value_mc distances cross_bond_inds cross_bond_dists triplets r_cut
              species_list etypes cutoff_func q_func = Some M ->
  square_array (length species_list) M /\ symmetric_array M.
Proof.
  unfold q3_value_mc. intros H.
  set (n := length species_list) in *.
  revert H.
  apply foldM_invariant
    with (P := fun M => square_array n M /\ symmetric_array M);
    [apply zeros_square_symmetric|].
  intros M0 m M1 HM0 Hm.
  apply bind_some in Hm as (s1 & Hs1 & Hm).
  apply where_first_lt in Hs1. fold n in Hs1.
  revert Hm.
  apply foldM_invariant
    with (P := fun M => square_array n M /\ symmetric_array M);
    [exact HM0|].
  clear M0 M1 HM0. intros M0 k M1 [Hsq Hsym] Hk.
  apply bind_some in Hk as (s2 & Hs2 & Hk).
  apply where_first_lt in Hs2. fold n in Hs2.
  inversion Hk as [HM1]. clear Hk HM1.
  destruct (Nat.eqb_spec s1 s2) as [<-|Hne].
  - split; [now apply square_add_at2|now apply symmetric_add_diagonal with n].
  - split.
    + apply square_add_at2; [now apply square_add_at2|exact Hs2].
    + now apply symmetric_add_pair with n.
Qed.

(** [q3_value_mc] finds every species it looks up when the species of the
    neighbours are in [species_list] and the table is well formed. *)
Lemma q3_value_mc_returns (distances : list F)
      (cross_bond_inds : list (list Z)) (cross_bond_dists : list (list F))
      (triplets : list Z) (r_cut : F) (species_list etypes : list Z)
      (cutoff_func : cutoff_fn F) (q_func : q_fn F) :
  Forall (fun e => In e species_list) etypes ->
  (length distances <= length etypes)%nat ->
  table_ok (length distances) cross_bond_inds triplets ->
  exists M,
    q3_value_mc distances cross_bond_inds cross_bond_dists triplets r_cut
                species_list etypes cutoff_func q_func = Some M.
Proof.
  intros Het Hlen Htab. rewrite Forall_forall in Het.
  unfold q3_value_mc.
  match goal with
  | |- exists M, foldM ?f ?l ?s = Some M =>
      destruct (@foldM_returns _ _ (fun _ => True) f l s I) as (M & HM & _);
        [|now exists M]
  end.
  intros M0 m _ Hm. apply in_range in Hm. unfold rows in Hm.
  destruct (where_first_some species_list (getZ etypes m)) as [s1 Hs1].
  { apply Het. replace m with (Z.of_nat (Z.to_nat m)) by lia.
    apply getZ_nat_in. lia. }
  rewrite Hs1. cbn [bind].
  match goal with
  | |- exists M, foldM ?f ?l ?s = Some M /\ True =>
      destruct (@foldM_returns _ _ (fun _ => True) f l s I) as (M & HM & _);
        [|now exists M]
  end.
  intros M1 n _ Hn. apply in_range in Hn.
  destruct (Htab m n ltac:(lia) Hn) as (n' & Hn' & ->).
  destruct (where_first_some species_list
              (getZ etypes (Z.of_nat n'))) as [s2 Hs2].
  { apply Het, getZ_nat_in. lia. }
  rewrite Hs2. cbn [bind]. eexists. split; [reflexivity|exact I].
Qed.

Lemma length_add_at2v (a : list (list (vec3 F))) (i j : nat) (v : vec3 F) :
  length (add_at2v a i j v) = length a.
Proof. unfold add_at2v. apply set_nth_length. Qed.

Lemma q3_neigh_grads_mc_returns (bond_array_m3b : list (brow F))
      (cross_bond_inds : list (list Z)) (cross_bond_dists : list (list F))
      (triplets : list Z) (r_cut : F) (species_list etypes : list Z)
      (cutoff_func : cutoff_fn F) (q_func : q_fn F) :
  Forall (fun e => In e species_list) etypes ->
  (length bond_array_m3b <= length etypes)%nat ->
  table_ok (length bond_array_m3b) cross_bond_inds triplets ->
  exists g,
    q3_neigh_grads_mc bond_array_m3b cross_bond_inds cross_bond_dists
                      triplets r_cut species_list etypes cutoff_func q_func
    = Some g
    /\ length g = length bond_array_m3b.
Proof.
  intros Het Hlen Htab. rewrite Forall_forall in Het.
  unfold q3_neigh_grads_mc.
  set (P := fun g : list (list (vec3 F)) =>
              length g = length bond_array_m3b).
  match goal with
  | |- exists g, foldM ?f ?l ?s = Some g /\ _ =>
      apply (@foldM_returns _ _ P f l s)
  end.
  { unfold P. apply repeat_length. }
  intros g0 i Hg0 Hi. apply in_range in Hi. unfold rows in Hi.
  destruct (where_first_some species_list (getZ etypes i)) as [si Hsi].
  { apply Het. replace i with (Z.of_nat (Z.to_nat i)) by lia.
    apply getZ_nat_in. lia. }
  rewrite Hsi. cbn [bind].
  destruct (q_grads_of bond_array_m3b i r_cut cutoff_func q_func)
    as [[qi0 qi1] qi2].
  match goal with
  | |- exists g, foldM ?f ?l ?s = Some g /\ _ =>
      apply (@foldM_returns _ _ P f l s)
  end.
  { exact Hg0. }
  intros g1 n Hg1 Hn. apply in_range in Hn.
  destruct (Htab i n ltac:(lia) Hn) as (n' & Hn' & ->).
  destruct (where_first_some species_list
              (getZ etypes (Z.of_nat n'))) as [sj Hsj].
  { apply Het, getZ_nat_in. lia. }
  rewrite Hsj. cbn [bind].
  destruct (q_grads_of bond_array_m3b (Z.of_nat n') r_cut
                       cutoff_func q_func) as [[qj0 qj1] qj2].
  rewrite (py_index_nat Hn'). cbn [bind].
  eexists. split; [reflexivity|]. unfold P in *.
  now rewrite !length_add_at2v.
Qed.

Lemma q3_grads_mc_returns (neigh_grads : list (list (vec3 F)))
      (species_list etypes : list Z) :
  Forall (fun e => In e species_list) etypes ->
  (length neigh_grads <= length etypes)%nat ->
  exists g, q3_grads_mc neigh_grads species_list etypes = Some g.
Proof.
  intros Het Hlen. rewrite Forall_forall in Het.
  unfold q3_grads_mc.
  match goal with
  | |- exists M, foldM ?f ?l ?s = Some M =>
      destruct (@foldM_returns _ _ (fun _ => True) f l s I) as (M & HM & _);
        [|now exists M]
  end.
  intros g0 i _ Hi. apply in_range in Hi. unfold rows in Hi.
  destruct (where_first_some species_list (getZ etypes i)) as [si Hsi].
  { apply Het. replace i with (Z.of_nat (Z.to_nat i)) by lia.
    apply getZ_nat_in. lia. }
  rewrite Hsi. cbn [bind].
  destruct (q3_inner_returns neigh_grads i si g0 (incl_refl species_list))
    as [g Hg].
  exists g. split; [exact Hg|exact I].
Qed.

(** The descriptor array of one atom: the three calls
    [get_m3_body_arrays] makes for the central atom and for every
    neighbour return, and the array is square and symmetric. *)
Lemma descriptor_returns (argsort : list F -> list nat)
      (positions : list (vec3 F)) (atom : nat) (cell : cell3 F)
      (cutoff : F) (species : list Z) (sweep : list Z)
      (species_list : list Z) (cutoff_func : cutoff_fn F) (q_func : q_fn F) :
  (forall keys : list F,
      Permutation (argsort keys) (seq 0 (length keys))) ->
  incl (map wrap8 species) species_list ->
  (atom < length positions)%nat ->
  (length positions <= length species)%nat ->
  exists ba bp et bi ba3 inds dists counts M,
    get_2_body_arrays argsort positions atom cell cutoff species sweep
    = Some (ba, bp, et, bi)
    /\ get_3_body_arrays ba bp cutoff = Some (ba3, inds, dists, counts)
    /\ q3_value_mc (map dist_of ba3) inds dists counts cutoff species_list
                   et cutoff_func q_func = Some M
    /\ square_array (length species_list) M /\ symmetric_array M
    /\ Forall (fun e => In e species_list) et
    /\ (length ba3 <= length et)%nat
    /\ (length ba3 <= length bi)%nat
    /\ table_ok (length ba3) inds counts
    /\ Forall (fun b => exists m : nat,
                   (m < length positions)%nat /\ b = wrap8 (Z.of_nat m)) bi.
Proof.
  intros Hs Hincl Hatom Hlen.
  destruct (nth_error positions atom) as [pos_atom|] eqn:Hpos;
    [|apply nth_error_None in Hpos; lia].
  destruct (@built_rows argsort positions atom cell cutoff species sweep
                        pos_atom Hpos Hlen Hs)
    as (ba & bp & et & bi & Hget & Lbp & Let & Lbi & Het & Hbi).
  destruct (get_3_body_arrays ba bp cutoff)
    as [[[[ba3 inds] dists] counts]|] eqn:H3.
  2:{ exfalso. unfold get_3_body_arrays in H3.
      pose proof (first_above_le cutoff (map dist_of ba)) as Hle.
      rewrite length_map in Hle.
      rewrite (proj2 (Nat.leb_le _ _)) in H3 by lia.
      unfold unzip3 in H3. discriminate. }
  assert (Hlen3 : (length ba3 <= length ba)%nat).
  { unfold get_3_body_arrays in H3.
    destruct (_ <=? _)%nat; [|discriminate]. unfold unzip3 in H3.
    inversion H3; subst. rewrite length_firstn. lia. }
  pose proof (get_3_table_ok _ _ _ H3) as Htab.
  assert (Het' : Forall (fun e => In e species_list) et).
  { eapply Forall_impl; [|exact Het]. intros e He. now apply Hincl. }
  destruct (@q3_value_mc_returns (map dist_of ba3) inds dists counts cutoff
              species_list et cutoff_func q_func Het')
    as [M HM].
  { rewrite length_map. lia. }
  { now rewrite length_map. }
  pose proof (q3_value_mc_square_symmetric _ _ _ _ _ _ _ _ _ HM) as [Hsq Hsy].
  exists ba, bp, et, bi, ba3, inds, dists, counts, M.
  split; [exact Hget|]. split; [exact H3|]. split; [exact HM|].
  split; [exact Hsq|]. split; [exact Hsy|]. split; [exact Het'|].
  split; [lia|]. split; [lia|]. split; [exact Htab|exact Hbi].
Qed.

End BuiltEnvironment.

(** X10.  With an [argsort] that lists every position once and a species
    array that covers the atoms, [get_m3_body_arrays] returns for every
    atom of the structure: no species lookup fails, and every index read
    from the integer arrays lands in its array.  The descriptor array of
    the central atom and that of every neighbour are square over the
    species list and symmetric, and there is one neighbour array and one
    row of neighbour gradients for every bond. *)
Theorem get_m3_body_arrays_returns {F : Type} {NF : Num F} {NL : NumLaws F}
        (argsort : list F -> list nat) (list_set : list Z -> list Z)
        (coordination_number : q_fn F) (positions : list (vec3 F))
        (atom : nat) (cell : cell3 F) (cutoff : F) (species : list Z)
        (sweep : list Z) (cutoff_func : cutoff_fn F) :
  (forall keys : list F,
      Permutation (argsort keys) (seq 0 (length keys))) ->
  (forall (l : list Z) (x : Z), In x l -> In x (list_set l)) ->
  (atom < length positions)%nat ->
  (length positions <= length species)%nat ->
  exists m3b_array m3b_neigh_array m3b_grads m3b_neigh_grads etypes,
    get_m3_body_arrays argsort list_set coordination_number positions atom
                       cell cutoff species sweep cutoff_func
    = Some (m3b_array, m3b_neigh_array, m3b_grads, m3b_neigh_grads,
            species_list_of list_set species, etypes)
    /\ square_array (length (species_list_of list_set species)) m3b_array
    /\ symmetric_array m3b_array
    /\ Forall (fun M =>
                 square_array (length (species_list_of list_set species)) M
                 /\ symmetric_array M) m3b_neigh_array
    /\ length m3b_neigh_grads = length m3b_neigh_array
    /\ (length m3b_neigh_array <= length etypes)%nat.
Proof.
  intros Hs Hset Hatom Hlen.
  set (species_list := species_list_of list_set species).
  assert (Hincl : incl (map wrap8 species) species_list).
  { intros e He. apply in_map_iff in He as (x & <- & Hx).
    unfold species_list, species_list_of. apply in_map. now apply Hset. }
  destruct (@descriptor_returns F NF NL argsort positions atom cell cutoff
                                species sweep species_list cutoff_func
                                coordination_number Hs Hincl Hatom Hlen)
    as (ba & bp & et & bi & ba3 & inds & dists & counts & M & Hget & H3
        & HM & Hsq & Hsy & Het & Hlen3 & Hlenb & Htab & Hbi).
  unfold get_m3_body_arrays. fold species_list.
  rewrite Hget. cbn [bind]. rewrite H3. cbn [bind]. rewrite HM. cbn [bind].
  match goal with
  | |- context [mapM ?f ?l] =>
      destruct (@mapM_returns _ _
                  (fun M => square_array (length species_list) M
                            /\ symmetric_array M) f l)
        as (neigh & -> & Hneigh & Lneigh)
  end.
  { intros i Hi. apply in_range in Hi. unfold rows in Hi.
    rewrite Forall_forall in Hbi.
    destruct (Hbi (getZ bi i)) as (m & Hm & ->).
    { replace i with (Z.of_nat (Z.to_nat i)) by lia.
      apply getZ_nat_in. lia. }
    destruct (py_index_wrap8 Hm) as (k & -> & Hk). cbn [bind].
    destruct (@descriptor_returns F NF NL argsort positions k cell cutoff
                                  species sweep species_list cutoff_func
                                  coordination_number Hs Hincl Hk Hlen)
      as (ba' & bp' & et' & bi' & ba3' & inds' & dists' & counts' & M'
          & Hget' & H3' & HM' & Hsq' & Hsy' & _).
    rewrite Hget'. cbn [bind]. rewrite H3'. cbn [bind].
    exists M'. auto. }
  cbn [bind].
  destruct (@q3_neigh_grads_mc_returns F NF ba3 inds dists counts cutoff
              species_list et cutoff_func coordination_number Het Hlen3 Htab)
    as (g & -> & Lg).
  cbn [bind].
  destruct (@q3_grads_mc_returns F NF g species_list et Het ltac:(lia))
    as (gc & ->).
  cbn [bind]. exists M, neigh, gc, g, et.
  split; [reflexivity|]. split; [exact Hsq|]. split; [exact Hsy|].
  split; [exact Hneigh|]. unfold range, rows in Lneigh.
  rewrite length_map, length_seq, Nat2Z.id in Lneigh.
  split; lia.
Qed.

(** The line of four atoms, with the stable insertion sort. *)
Lemma get_m3_body_arrays_returns_witness :
  exists m3b_array m3b_neigh_array m3b_grads m3b_neigh_grads etypes,
    get_m3_body_arrays argsort_stable (fun l => l)
                       (fun r c _ _ => (r, c)) line4 0 (cubic 1e7%float)
                       2%float [1; 2; 1; 2]%Z sweep1 (fun _ _ _ => (1, 0)%float)
    = Some (m3b_array, m3b_neigh_array, m3b_grads, m3b_neigh_grads,
            species_list_of (fun l => l) [1; 2; 1; 2]%Z, etypes)
    /\ square_array (length (species_list_of (fun l => l) [1; 2; 1; 2]%Z))
                    m3b_array
    /\ symmetric_array m3b_array
    /\ Forall (fun M =>
                 square_array
                   (length (species_list_of (fun l => l) [1; 2; 1; 2]%Z)) M
                 /\ symmetric_array M) m3b_neigh_array
    /\ length m3b_neigh_grads = length m3b_neigh_array
    /\ (length m3b_neigh_array <= length etypes)%nat.
Proof.
  apply (@get_m3_body_arrays_returns float _ _ argsort_stable (fun l => l)
           (fun r c _ _ => (r, c)) line4 0 (cubic 1e7%float) 2%float
           [1; 2; 1; 2]%Z sweep1 (fun _ _ _ => (1, 0)%float)).
  - intros keys. apply argsort_stable_perm.
  - intros l x H. exact H.
  - cbn. lia.
  - cbn. lia.
Defined.
Section BuiltEnvironment2.

Context {F : Type} {NF : Num F} {NL : NumLaws F}.
Local Open Scope num_scope.

Lemma q2_grads_mc_returns (neigh_grads : list (vec3 F))
      (species_list etypes : list Z) :
  Forall (fun e => In e species_list) etypes ->
  (length neigh_grads <= length etypes)%nat ->
  exists g, q2_grads_mc neigh_grads species_list etypes = Some g.
Proof.
  intros Het Hlen. rewrite Forall_forall in Het.
  unfold q2_grads_mc.
  match goal with
  | |- exists M, foldM ?f ?l ?s = Some M =>
      destruct (@foldM_returns _ _ (fun _ => True) f l s I) as (M & HM & _);
        [|now exists M]
  end.
  intros g0 i _ Hi. apply in_range in Hi. unfold rows in Hi.
  destruct (where_first_some species_list (getZ etypes i)) as [si Hsi].
  { apply Het. replace i with (Z.of_nat (Z.to_nat i)) by lia.
    apply getZ_nat_in. lia. }
  rewrite Hsi. cbn [bind]. eexists. split; [reflexivity|exact I].
Qed.

End BuiltEnvironment2.

(** X11.  Under the same conditions [get_m2_body_arrays] returns for
    every atom of the structure.  There is one descriptor for every
    species of the list, one row of neighbour descriptors and one
    neighbour gradient for every bond, and the gradient of the central
    atom for the species at position [s] is the sum, in neighbour order,
    of the gradients of the neighbours of that species. *)
Theorem get_m2_body_arrays_returns {F : Type} {NF : Num F} {NL : NumLaws F}
        (argsort : list F -> list nat) (list_set : list Z -> list Z)
        (coordination_number : q_fn F)
        (q_value_mc : list F -> F -> Z -> list Z -> cutoff_fn F
                      -> option (q_fn F) -> F)
        (positions : list (vec3 F)) (atom : nat) (cell : cell3 F)
        (cutoff : F) (species : list Z) (sweep : list Z)
        (cutoff_func : cutoff_fn F) :
  (forall keys : list F,
      Permutation (argsort keys) (seq 0 (length keys))) ->
  (forall (l : list Z) (x : Z), In x l -> In x (list_set l)) ->
  (atom < length positions)%nat ->
  (length positions <= length species)%nat ->
  let species_list := species_list_of list_set species in
  exists qs qs_neigh q_grads q_neigh_grads etypes,
    get_m2_body_arrays argsort list_set coordination_number q_value_mc
                       positions atom cell cutoff species sweep cutoff_func
    = Some (qs, qs_neigh, q_grads, q_neigh_grads, species_list, etypes)
    /\ length qs = length species_list
    /\ length qs_neigh = length etypes
    /\ Forall (fun row => length row = length species_list) qs_neigh
    /\ length q_neigh_grads = length etypes
    /\ length q_grads = length species_list
    /\ forall s : nat,
         (s < length species_list)%nat ->
         nth s q_grads vzero
         = vsum (map (fun i => py_read vzero q_neigh_grads i)
                     (filter (species_row species_list etypes s)
                             (range (rows q_neigh_grads)))).
Proof.
  intros Hs Hset Hatom Hlen species_list.
  assert (Hincl : incl (map wrap8 species) species_list).
  { intros e He. apply in_map_iff in He as (x & <- & Hx).
    unfold species_list, species_list_of. apply in_map. now apply Hset. }
  destruct (nth_error positions atom) as [pos_atom|] eqn:Hpos;
    [|apply nth_error_None in Hpos; lia].
  destruct (@built_rows F NF NL argsort positions atom cell cutoff species
                        sweep pos_atom Hpos Hlen Hs)
    as (ba & bp & et & bi & Hget & Lbp & Let & Lbi & Het & Hbi).
  assert (Het' : Forall (fun e => In e species_list) et).
  { eapply Forall_impl; [|exact Het]. intros e He. now apply Hincl. }
  unfold get_m2_body_arrays. fold species_list.
  rewrite Hget. cbn [bind].
  match goal with
  | |- context [mapM ?f ?l] =>
      destruct (@mapM_returns _ _
                  (fun r : list F * vec3 F =>
                     length (fst r) = length species_list) f l)
        as (neigh & -> & Hneigh & Lneigh)
  end.
  { intros i Hi. apply in_range in Hi. unfold rows in Hi.
    rewrite Forall_forall in Hbi.
    destruct (Hbi (getZ bi i)) as (m & Hm & ->).
    { replace i with (Z.of_nat (Z.to_nat i)) by lia.
      apply getZ_nat_in. lia. }
    destruct (py_index_wrap8 Hm) as (k & -> & Hk). cbn [bind].
    destruct (nth_error positions k) as [pos_k|] eqn:Hposk;
      [|apply nth_error_None in Hposk; lia].
    destruct (@built_rows F NF NL argsort positions k cell cutoff species
                          sweep pos_k Hposk Hlen Hs)
      as (ba' & bp' & et' & bi' & Hget' & _).
    rewrite Hget'. cbn [bind]. eexists. split; [reflexivity|].
    cbn [fst]. apply length_map. }
  cbn [bind].
  unfold range, rows in Lneigh.
  rewrite length_map, length_seq, Nat2Z.id in Lneigh.
  destruct (@q2_grads_mc_returns F NF (map snd neigh) species_list et Het')
    as (g & Hg).
  { rewrite length_map. lia. }
  rewrite Hg. cbn [bind].
  exists (map (fun s => q_value_mc (map dist_of ba) cutoff s et cutoff_func
                                   (Some coordination_number)) species_list),
    (map fst neigh), g, (map snd neigh), et.
  split; [reflexivity|]. rewrite !length_map.
  split; [reflexivity|]. split; [lia|].
  split; [now rewrite Forall_map|]. split; [lia|].
  unfold q2_grads_mc in Hg. apply q2_step_rows in Hg; [|apply repeat_length].
  destruct Hg as [Hl Hrows]. split; [exact Hl|].
  intros s Hs'. rewrite (Hrows s Hs'). unfold vsum. now rewrite nth_repeat.
Qed.

Lemma get_m2_body_arrays_returns_witness :
  let species_list := species_list_of (fun l => l) [1; 2; 1; 2]%Z in
  exists qs qs_neigh q_grads q_neigh_grads etypes,
    get_m2_body_arrays argsort_stable (fun l => l) (fun r c _ _ => (r, c))
                       (fun distances _ _ _ _ _ => nth 0 distances fzero)
                       line4 0 (cubic 1e7%float) 2%float [1; 2; 1; 2]%Z
                       sweep1 (fun _ _ _ => (1, 0)%float)
    = Some (qs, qs_neigh, q_grads, q_neigh_grads, species_list, etypes)
    /\ length qs = length species_list
    /\ length qs_neigh = length etypes
    /\ Forall (fun row => length row = length species_list) qs_neigh
    /\ length q_neigh_grads = length etypes
    /\ length q_grads = length species_list
    /\ forall s : nat,
         (s < length species_list)%nat ->
         nth s q_grads vzero
         = vsum (map (fun i => py_read vzero q_neigh_grads i)
                     (filter (species_row species_list etypes s)
                             (range (rows q_neigh_grads)))).
Proof.
  apply (@get_m2_body_arrays_returns float _ _ argsort_stable (fun l => l)
           (fun r c _ _ => (r, c))
           (fun distances _ _ _ _ _ => nth 0 distances fzero)
           line4 0 (cubic 1e7%float) 2%float [1; 2; 1; 2]%Z sweep1
           (fun _ _ _ => (1, 0)%float)).
  - intros keys. apply argsort_stable_perm.
  - intros l x H. exact H.
  - cbn. lia.
  - cbn. lia.
Defined.
(* ------------------------------------------------------------------ *)
(** ** The kernel value of the many-body gradient kernels *)
(* ------------------------------------------------------------------ *)

Section KernelValue.

Context {F : Type} {NF : Num F}.
Local Open Scope num_scope.

Lemma fold_left_fst {A S T : Type} (f : S * T -> A -> S * T)
      (g : S -> A -> S) (l : list A) (acc : S * T) (k : S) :
  fst acc = k ->
  (forall acc a, fst (f acc a) = g (fst acc) a) ->
  fst (fold_left f l acc) = fold_left g l k.
Proof.
  revert acc k; induction l as [|a l IH]; intros acc k H0 Hstep; [exact H0|].
  cbn [fold_left]. apply IH; [|exact Hstep]. now rewrite Hstep, H0.
Qed.

Lemma fold_upper_fst {A S T : Type} (f : S * T -> A -> A -> S * T)
      (g : S -> A -> A -> S) (l : list A) (acc : S * T) (k : S) :
  fst acc = k ->
  (forall acc a b, fst (f acc a b) = g (fst acc) a b) ->
  fst (fold_upper f l acc) = fold_upper g l k.
Proof.
  revert acc k; induction l as [|a l IH]; intros acc k H0 Hstep; [exact H0|].
  cbn [fold_upper]. apply IH; [|exact Hstep].
  apply fold_left_fst; [exact H0|]. intros acc' b. apply Hstep.
Qed.

Lemma fst_acc2 (acc : F * F) (k dk g1 g2 : F) :
  fst (acc2 acc k dk g1 g2) = fst acc + k * g1 * g2.
Proof. now destruct acc. Qed.

End KernelValue.

(** Peels one loop of a gradient kernel off against the same loop of the
    force/force kernel. *)
Ltac same_kernel_value :=
  repeat first
    [ reflexivity
    | apply fst_acc2
    | apply fold_left_fst; [|intros ? ?]
    | apply fold_upper_fst; [|intros ? ? ?]
    | match goal with
      | |- context [if ?c then _ else _] => destruct c
      | |- context [let '(_, _) := ?p in _] => destruct p
      end ].

(** X12.  The kernel value the many-body gradient kernels return beside
    the hyperparameter gradient is the value of the corresponding
    force/force kernel: [many_2body_mc_grad_jit] agrees with
    [many_2body_mc_jit] and [many_3body_mc_grad_jit] with
    [many_3body_mc_jit], on every input and in the arithmetic of the
    source, errors included. *)
Theorem many_body_grad_kernel_value {F : Type} {NF : Num F}
        (set_inter : list Z -> list Z -> list Z)
        (k_sq_exp_double_dev : F -> F -> F -> F -> F)
        (mb_grad_helper_ls_ : F -> F -> F -> F)
        (c1 c2 : Z) (etypes1 etypes2 species1 species2 : list Z)
        (d1 d2 : Z) (sig ls : F) :
  (forall (array_1 array_2 : list F) (grads_1 grads_2 : list (list F))
          (neigh_array_1 neigh_array_2 : list (list F))
          (neigh_grads_1 neigh_grads_2 : list (list F)),
      option_map fst
        (many_2body_mc_grad_jit set_inter k_sq_exp_double_dev
           mb_grad_helper_ls_ array_1 array_2 grads_1 grads_2 neigh_array_1
           neigh_array_2 neigh_grads_1 neigh_grads_2 c1 c2 etypes1 etypes2
           species1 species2 d1 d2 sig ls)
      = many_2body_mc_jit set_inter k_sq_exp_double_dev array_1 array_2
          grads_1 grads_2 neigh_array_1 neigh_array_2 neigh_grads_1
          neigh_grads_2 c1 c2 etypes1 etypes2 species1 species2 d1 d2 sig ls)
  /\ (forall (array_1 array_2 : list (list F))
             (grads_1 grads_2 : list (list (list F)))
             (neigh_array_1 neigh_array_2 : list (list (list F)))
             (neigh_grads_1 neigh_grads_2 : list (list (list F))),
         option_map fst
           (many_3body_mc_grad_jit set_inter k_sq_exp_double_dev
              mb_grad_helper_ls_ array_1 array_2 grads_1 grads_2
              neigh_array_1 neigh_array_2 neigh_grads_1 neigh_grads_2 c1 c2
              etypes1 etypes2 species1 species2 d1 d2 sig ls)
         = many_3body_mc_jit set_inter k_sq_exp_double_dev array_1 array_2
             grads_1 grads_2 neigh_array_1 neigh_array_2 neigh_grads_1
             neigh_grads_2 c1 c2 etypes1 etypes2 species1 species2 d1 d2
             sig ls).
Proof.
  split; intros array_1 array_2 grads_1 grads_2 neigh_array_1 neigh_array_2
                neigh_grads_1 neigh_grads_2.
  - unfold many_2body_mc_grad_jit, many_2body_mc_jit.
    destruct (species_columns set_inter species1 species2 c1 c2)
      as [[[[[specs_ind sc1] sc2] sc12] sc21]|]; cbn [bind option_map];
      [|reflexivity].
    cbv zeta.
    match goal with
    | |- context [let '(kern, ls_derv) := ?acc in _] =>
        set (ACC := acc); destruct ACC as [kern ls_derv] eqn:E
    end.
    cbn [option_map fst]. f_equal.
    change kern with (fst (kern, ls_derv)). rewrite <- E. subst ACC.
    destruct (c1 =? c2)%Z; same_kernel_value.
  - unfold many_3body_mc_grad_jit, many_3body_mc_jit.
    destruct (species_columns set_inter species1 species2 c1 c2)
      as [[[[[specs_ind sc1] sc2] sc12] sc21]|]; cbn [bind option_map];
      [|reflexivity].
    cbv zeta.
    match goal with
    | |- context [let '(kern, ls_derv) := ?acc in _] =>
        set (ACC := acc); destruct ACC as [kern ls_derv] eqn:E
    end.
    cbn [option_map fst]. f_equal.
    change kern with (fst (kern, ls_derv)). rewrite <- E. subst ACC.
    destruct (c1 =? c2)%Z; same_kernel_value.
Qed.
(* ------------------------------------------------------------------ *)
(** ** Kernels between environments whose species cannot correspond *)
(* ------------------------------------------------------------------ *)

Section NoPartner.

Context {F : Type} {NF : Num F}.
Local Open Scope num_scope.

Lemma fold_left_skip {A S : Type} (f : S -> A -> S) (l : list A) (s : S) :
  (forall s a, In a l -> f s a = s) -> fold_left f l s = s.
Proof.
  revert s; induction l as [|a l IH]; intros s H; [reflexivity|].
  cbn [fold_left]. rewrite H by now left. apply IH. intros. apply H.
  now right.
Qed.

Lemma bonds_agree_none (c1 e1 c2 e2 : Z) :
  c1 <> c2 -> e1 <> c2 -> bonds_agree c1 e1 c2 e2 = false.
Proof.
  intros Hc He. unfold bonds_agree.
  rewrite (proj2 (Z.eqb_neq c1 c2)) by exact Hc.
  rewrite (proj2 (Z.eqb_neq c2 e1)) by congruence.
  now rewrite andb_false_r.
Qed.

Lemma mem_triplet_none (c1 ei1 ei2 c2 : Z) :
  c1 <> c2 -> ei1 <> c2 -> ei2 <> c2 -> mem c2 [c1; ei1; ei2] = false.
Proof.
  intros H1 H2 H3. unfold mem. cbn [existsb].
  rewrite (proj2 (Z.eqb_neq c2 c1)), (proj2 (Z.eqb_neq c2 ei1)),
    (proj2 (Z.eqb_neq c2 ei2)) by congruence.
  reflexivity.
Qed.

Lemma getZ_in_or_zero (l : list Z) (k : Z) :
  getZ l k = 0%Z \/ In (getZ l k) l.
Proof.
  unfold getZ, py_read, py_get.
  destruct (py_index (length l) k) as [i|]; cbn [bind]; [|now left].
  destruct (nth_error l i) as [x|] eqn:E; [|now left].
  right. eapply nth_error_In. exact E.
Qed.

End NoPartner.

(** X13.  When the central species differ and the species of the second
    central atom occurs nowhere in the first environment, no bond and no
    triplet of the two environments can correspond: the 2-body and the
    3-body kernels (energy/energy, force/energy and the gradient kernel)
    return exactly zero, and so do the energy/energy many-body kernels,
    which only compare environments of the same central species. *)
Theorem kernels_vanish_without_partner {F : Type} {NF : Num F}
        (exp : F -> F) (set_inter : list Z -> list Z -> list Z)
        (force_energy_helper : F -> F -> F -> F -> F -> F -> F -> F -> F)
        (three_body_en_helper :
           F -> F -> F -> F -> F -> F -> F -> F -> F -> F -> F -> F)
        (grad_helper :
           F -> F -> F -> F -> F -> F -> F -> F ->
           F -> F -> F -> F -> F -> F -> F -> F -> F * F * F)
        (grad_constants : F -> F -> F * F * F * F * F * F * F * F)
        (three_body_grad_helper_1 three_body_grad_helper_2 :
           F -> F -> F -> F -> F -> F -> F -> F -> F -> F -> F ->
           F -> F -> F -> F -> F -> F -> F -> F -> F * F * F)
        (bond_array_1 bond_array_2 : list (brow F)) (c1 c2 : Z)
        (etypes1 etypes2 : list Z)
        (cross_bond_inds_1 cross_bond_inds_2 : list (list Z))
        (cross_bond_dists_1 cross_bond_dists_2 : list (list F))
        (triplets_1 triplets_2 : list Z) (d1 d2 : Z) (sig ls r_cut : F)
        (cutoff_func : cutoff_fn F) :
  c1 <> c2 ->
  (forall k : Z, getZ etypes1 k <> c2) ->
  two_body_mc_en_jit exp bond_array_1 c1 etypes1 bond_array_2 c2 etypes2
                     sig ls r_cut cutoff_func = fzero
  /\ two_body_mc_force_en_jit force_energy_helper bond_array_1 c1 etypes1
                              bond_array_2 c2 etypes2 d1 sig ls r_cut
                              cutoff_func = fzero
  /\ two_body_mc_grad_jit grad_helper bond_array_1 c1 etypes1 bond_array_2 c2
                          etypes2 d1 d2 sig ls r_cut cutoff_func
     = (fzero, [fzero; fzero])
  /\ three_body_mc_en_jit exp bond_array_1 c1 etypes1 bond_array_2 c2 etypes2
                          cross_bond_inds_1 cross_bond_inds_2
                          cross_bond_dists_1 cross_bond_dists_2
                          triplets_1 triplets_2 sig ls r_cut cutoff_func
     = fzero
  /\ three_body_mc_force_en_jit three_body_en_helper bond_array_1 c1 etypes1
                                bond_array_2 c2 etypes2
                                cross_bond_inds_1 cross_bond_inds_2
                                cross_bond_dists_1 cross_bond_dists_2
                                triplets_1 triplets_2 d1 sig ls r_cut
                                cutoff_func = fzero
  /\ three_body_mc_grad_jit grad_constants three_body_grad_helper_1
                            three_body_grad_helper_2 bond_array_1 c1 etypes1
                            bond_array_2 c2 etypes2
                            cross_bond_inds_1 cross_bond_inds_2
                            cross_bond_dists_1 cross_bond_dists_2
                            triplets_1 triplets_2 d1 d2 sig ls r_cut
                            cutoff_func
     = (fzero, [fzero; fzero])
  /\ (forall (q_array_1 q_array_2 : list F) (species1 species2 : list Z),
         many_2body_mc_en_jit exp set_inter q_array_1 q_array_2 c1 c2
                              species1 species2 sig ls = Some fzero)
  /\ (forall (m3b_array_1 m3b_array_2 : list (list F))
             (species1 species2 : list Z),
         many_3body_mc_en_jit exp set_inter m3b_array_1 m3b_array_2 c1 c2
                              species1 species2 sig ls = Some fzero).
Proof.
  intros Hc He.
  assert (Hb : forall m n, bonds_agree c1 (getZ etypes1 m) c2
                                       (getZ etypes2 n) = false)
    by (intros; apply bonds_agree_none; auto).
  assert (Hm : forall m k, mem c2 [c1; getZ etypes1 m; getZ etypes1 k]
                           = false)
    by (intros; apply mem_triplet_none; auto).
  repeat split.
  - unfold two_body_mc_en_jit. cbv zeta.
    apply fold_left_skip. intros kern m _.
    apply fold_left_skip. intros kern' n _. now rewrite Hb.
  - unfold two_body_mc_force_en_jit. cbv zeta.
    apply fold_left_skip. intros kern m _.
    destruct (cutoff_func r_cut _ _) as [fi fdi].
    apply fold_left_skip. intros kern' n _. now rewrite Hb.
  - unfold two_body_mc_grad_jit. cbv zeta.
    rewrite fold_left_skip; [reflexivity|]. intros acc m _.
    destruct (cutoff_func r_cut _ _) as [fi fdi].
    apply fold_left_skip. intros [[k s] l] n _. now rewrite Hb.
  - unfold three_body_mc_en_jit. cbv zeta.
    apply fold_left_skip. intros kern m _.
    apply fold_left_skip. intros kern' n _. now rewrite Hm.
  - unfold three_body_mc_force_en_jit. cbv zeta.
    apply fold_left_skip. intros kern m _.
    destruct (cutoff_func r_cut _ _) as [fi1 fdi1].
    apply fold_left_skip. intros kern' n _.
    destruct (cutoff_func r_cut _ _) as [fi2 fdi2]. now rewrite Hm.
  - unfold three_body_mc_grad_jit.
    destruct (grad_constants sig ls) as [[[[[[[sig2 sig3] ls1] ls2] ls3] ls4]
                                           ls5] ls6].
    cbv zeta.
    rewrite fold_left_skip; [reflexivity|]. intros acc m _.
    destruct (cutoff_func r_cut _ _) as [fi1 fdi1].
    apply fold_left_skip. intros acc' n _. now rewrite Hm.
  - intros. unfold many_2body_mc_en_jit.
    now rewrite (proj2 (Z.eqb_neq c1 c2)) by exact Hc.
  - intros. unfold many_3body_mc_en_jit.
    now rewrite (proj2 (Z.eqb_neq c1 c2)) by exact Hc.
Qed.

(** A carbon-centred environment of hydrogens against one centred on
    oxygen. *)
Lemma kernels_vanish_without_partner_witness :
  two_body_mc_en_jit (fun x => x) [(1, 1, 0, 0); (2, 0, 1, 0)]%float 6
                     [1; 1]%Z [(1.5, 0, 0, 1)]%float 8 [1]%Z
                     2%float 1%float 3%float (fun _ _ _ => (1, 0)%float)
  = 0%float
  /\ many_2body_mc_en_jit (fun x => x) inter_first [1; 2]%float [3; 4]%float
                          6 8 [1; 6]%Z [1; 8]%Z 2%float 1%float
     = Some 0%float.
Proof.
  destruct (@kernels_vanish_without_partner float _ (fun x => x) inter_first
              (fun _ _ _ _ _ _ _ _ => 0%float)
              (fun _ _ _ _ _ _ _ _ _ _ _ => 0%float)
              (fun _ _ _ _ _ _ _ _ _ _ _ _ _ _ _ _ =>
                 (0, 0, 0)%float)
              (fun _ _ => (0, 0, 0, 0, 0, 0, 0, 0)%float)
              (fun _ _ _ _ _ _ _ _ _ _ _ _ _ _ _ _ _ _ _ => (0, 0, 0)%float)
              (fun _ _ _ _ _ _ _ _ _ _ _ _ _ _ _ _ _ _ _ => (0, 0, 0)%float)
              [(1, 1, 0, 0); (2, 0, 1, 0)]%float [(1.5, 0, 0, 1)]%float
              6%Z 8%Z [1; 1]%Z [1]%Z [] [] [] [] [] [] 1%Z 1%Z
              2%float 1%float 3%float (fun _ _ _ => (1, 0)%float))
    as (H2 & _ & _ & _ & _ & _ & Hm2 & _).
  - discriminate.
  - intros k. destruct (getZ_in_or_zero [1; 1]%Z k) as [->|Hin];
      [discriminate|].
    cbn [In] in Hin. destruct Hin as [<-|[<-|[]]]; discriminate.
  - split; [exact H2|apply Hm2].
Defined.
(* ------------------------------------------------------------------ *)
(** ** The signal variance of the energy kernels *)
(* ------------------------------------------------------------------ *)

Section Scaling.

Local Open Scope R_scope.

Lemma fold_left_rel {A S S' : Type} (Q : S -> S' -> Prop)
      (f : S -> A -> S) (g : S' -> A -> S') (l : list A) (s : S) (s' : S') :
  Q s s' -> (forall s s' a, Q s s' -> Q (f s a) (g s' a)) ->
  Q (fold_left f l s) (fold_left g l s').
Proof.
  revert s s'; induction l as [|a l IH]; intros s s' H0 Hstep; [exact H0|].
  cbn [fold_left]. apply IH; [now apply Hstep|exact Hstep].
Qed.

Lemma foldM_scaled {A : Type} (c : R) (f g : R -> A -> option R)
      (l : list A) (s s' : R) :
  s = c * s' ->
  (forall s s' a, s = c * s' -> scaled_result c (f s a) (g s' a)) ->
  scaled_result c (foldM f l s) (foldM g l s').
Proof.
  revert s s'; induction l as [|a l IH]; intros s s' H0 Hstep; [exact H0|].
  cbn [foldM]. specialize (Hstep s s' a H0) as H1.
  destruct (f s a) as [k|], (g s' a) as [k'|]; cbn [bind];
    try contradiction; [|exact I].
  apply IH; [exact H1|]. intros. now apply Hstep.
Qed.

Lemma foldM_upper_scaled {B : Type} (c : R) (outer : Z -> option B)
      (f g : R -> B -> Z -> option R) (l : list Z) (s s' : R) :
  s = c * s' ->
  (forall s s' b a, s = c * s' -> scaled_result c (f s b a) (g s' b a)) ->
  scaled_result c (foldM_upper outer f l s) (foldM_upper outer g l s').
Proof.
  revert s s'; induction l as [|a l IH]; intros s s' H0 Hstep; [exact H0|].
  cbn [foldM_upper]. destruct (outer a) as [b|]; cbn [bind]; [|exact I].
  assert (H1 := @foldM_scaled Z c (fun s sj => f s b sj)
                  (fun s sj => g s b sj) (a :: l) s s' H0
                  (fun s s' a H => Hstep s s' b a H)).
  destruct (foldM (fun s sj => f s b sj) (a :: l) s) as [k|],
    (foldM (fun s sj => g s b sj) (a :: l) s') as [k'|]; cbn [bind];
    try contradiction; [|exact I].
  apply IH; [exact H1|exact Hstep].
Qed.

Lemma scaled_result_eq (c : R) (o o' : option R) :
  scaled_result c o o' -> o = option_map (Rmult c) o'.
Proof.
  destruct o, o'; cbn; intros H; try contradiction; congruence.
Qed.

Lemma add_if_scaled (c : R) (b : bool) (t t' k k' : R) :
  k = c * k' -> t = c * t' -> add_if b t k = c * add_if b t' k'.
Proof.
  intros -> ->. unfold add_if. destruct b; cbn [fadd Num_R]; ring.
Qed.

End Scaling.

(** X14.  Over the reals the energy/energy kernels are homogeneous of
    degree two in the signal variance: the 2-body, the 3-body and the two
    many-body kernels at [sig] are [sig * sig] times the kernels at
    [sig = 1], errors included. *)
Theorem energy_kernels_scale_with_variance (exp : R -> R)
        (set_inter : list Z -> list Z -> list Z)
        (bond_array_1 bond_array_2 : list (brow R)) (c1 c2 : Z)
        (etypes1 etypes2 : list Z)
        (cross_bond_inds_1 cross_bond_inds_2 : list (list Z))
        (cross_bond_dists_1 cross_bond_dists_2 : list (list R))
        (triplets_1 triplets_2 : list Z)
        (q_array_1 q_array_2 : list R) (m3b_array_1 m3b_array_2 : list (list R))
        (species1 species2 : list Z) (sig ls r_cut : R)
        (cutoff_func : cutoff_fn R) :
  two_body_mc_en_jit exp bond_array_1 c1 etypes1 bond_array_2 c2 etypes2
                     sig ls r_cut cutoff_func
  = (sig * sig
     * two_body_mc_en_jit exp bond_array_1 c1 etypes1 bond_array_2 c2 etypes2
                          1 ls r_cut cutoff_func)%R
  /\ three_body_mc_en_jit exp bond_array_1 c1 etypes1 bond_array_2 c2 etypes2
                          cross_bond_inds_1 cross_bond_inds_2
                          cross_bond_dists_1 cross_bond_dists_2
                          triplets_1 triplets_2 sig ls r_cut cutoff_func
     = (sig * sig
        * three_body_mc_en_jit exp bond_array_1 c1 etypes1 bond_array_2 c2
                               etypes2 cross_bond_inds_1 cross_bond_inds_2
                               cross_bond_dists_1 cross_bond_dists_2
                               triplets_1 triplets_2 1 ls r_cut cutoff_func)%R
  /\ many_2body_mc_en_jit exp set_inter q_array_1 q_array_2 c1 c2
                          species1 species2 sig ls
     = option_map (Rmult (sig * sig))
         (many_2body_mc_en_jit exp set_inter q_array_1 q_array_2 c1 c2
                               species1 species2 1%R ls)
  /\ many_3body_mc_en_jit exp set_inter m3b_array_1 m3b_array_2 c1 c2
                          species1 species2 sig ls
     = option_map (Rmult (sig * sig))
         (many_3body_mc_en_jit exp set_inter m3b_array_1 m3b_array_2 c1 c2
                               species1 species2 1%R ls).
Proof.
  split; [|split; [|split]].
  - unfold two_body_mc_en_jit. cbv zeta.
    apply fold_left_rel with (Q := fun k k' : R => k = (sig * sig * k')%R).
    { cbn. ring. }
    intros k k' m Hk.
    apply fold_left_rel with (Q := fun k k' : R => k = (sig * sig * k')%R);
      [exact Hk|].
    intros k0 k0' n ->. destruct (bonds_agree _ _ _ _); [|reflexivity].
    cbn. ring.
  - unfold three_body_mc_en_jit. cbv zeta.
    apply fold_left_rel with (Q := fun k k' : R => k = (sig * sig * k')%R).
    { cbn. ring. }
    intros k k' m Hk.
    apply fold_left_rel with (Q := fun k k' : R => k = (sig * sig * k')%R);
      [exact Hk|].
    intros k0 k0' n Hk0. destruct (mem c2 _); [|exact Hk0].
    apply fold_left_rel with (Q := fun k k' : R => k = (sig * sig * k')%R);
      [exact Hk0|].
    intros k1 k1' p Hk1. destruct (mem _ _); [|exact Hk1].
    apply fold_left_rel with (Q := fun k k' : R => k = (sig * sig * k')%R);
      [exact Hk1|].
    intros k2 k2' q Hk2. destruct (_ =? _)%Z; [|exact Hk2].
    repeat (apply add_if_scaled; [|cbn; ring]). exact Hk2.
  - apply scaled_result_eq. unfold many_2body_mc_en_jit.
    destruct (c1 =? c2)%Z; [|cbn; ring].
    apply foldM_scaled; [cbn; ring|].
    intros k k' s ->.
    destruct (where_first species1 s) as [i1|]; cbn [bind]; [|exact I].
    destruct (where_first species2 s) as [i2|]; cbn [bind]; [|exact I].
    cbn. ring.
  - apply scaled_result_eq. unfold many_3body_mc_en_jit.
    destruct (c1 =? c2)%Z; [|cbn; ring].
    apply foldM_upper_scaled; [cbn; ring|].
    intros k k' [si1 si2] sj ->.
    destruct (where_first species1 sj) as [j1|]; cbn [bind]; [|exact I].
    destruct (where_first species2 sj) as [j2|]; cbn [bind]; [|exact I].
    cbn. ring.
Qed.
(* ------------------------------------------------------------------ *)
(** ** The order of the bonds *)
(* ------------------------------------------------------------------ *)

Section BondOrder.

Local Open Scope R_scope.

Lemma py_read_map {A B : Type} (f : A -> B) (d : A) (l : list A) (i : Z) :
  py_read (f d) (map f l) i = f (py_read d l i).
Proof.
  unfold py_read, py_get. rewrite length_map.
  destruct (py_index (length l) i) as [k|]; cbn [bind]; [|reflexivity].
  rewrite nth_error_map. now destruct (nth_error l k).
Qed.

(** A loop over the positions of an array that reads the array only at
    its position is a loop over the entries. *)
Lemma flat_map_positions {A B : Type} (d : A) (g : A -> list B)
      (l : list A) :
  flat_map (fun i => g (py_read d l i)) (range (rows l)) = flat_map g l.
Proof.
  unfold range, rows. rewrite Nat2Z.id.
  rewrite flat_map_concat_map, map_map, <- flat_map_concat_map.
  rewrite (flat_map_ext (fun i => g (py_read d l (Z.of_nat i)))
                        (fun i => g (nth i l d)))
    by (intros i; now rewrite py_read_nat).
  rewrite <- (map_nth_seq_id l d) at 2.
  now rewrite flat_map_concat_map, flat_map_concat_map, map_map.
Qed.

Lemma Permutation_flat_map_pointwise {A B : Type} (f g : A -> list B)
      (l : list A) :
  (forall a, Permutation (f a) (g a)) ->
  Permutation (flat_map f l) (flat_map g l).
Proof.
  intros H. induction l as [|a l IH]; [constructor|].
  cbn [flat_map]. now apply Permutation_app.
Qed.

(** The terms of a 2-body kernel, bond by bond instead of position by
    position. *)
Lemma pair_terms_by_rows (rows1 rows2 : list (brow R * Z)) (c1 c2 : Z)
      (T : brow R -> brow R -> R) (term : Z * Z -> R) :
  (forall m n, term (m, n)
               = T (py_read brow0 (map fst rows1) m)
                   (py_read brow0 (map fst rows2) n)) ->
  pair_sum term (map fst rows1) c1 (map snd rows1)
           (map fst rows2) c2 (map snd rows2)
  = total (flat_map (fun r1 : brow R * Z =>
             flat_map (fun r2 : brow R * Z =>
                         if bonds_agree c1 (snd r1) c2 (snd r2)
                         then [T (fst r1) (fst r2)] else [])
                      rows2)
             rows1).
Proof.
  intros Hterm. unfold pair_sum, bond_pairs. rewrite pairs_flat_map.
  f_equal. unfold rows. rewrite !length_map.
  fold (rows rows1). fold (rows rows2).
  rewrite <- (flat_map_positions (brow0, 0%Z)
                (fun r1 : brow R * Z =>
                   flat_map (fun r2 : brow R * Z =>
                               if bonds_agree c1 (snd r1) c2 (snd r2)
                               then [T (fst r1) (fst r2)] else [])
                            rows2) rows1).
  apply flat_map_ext. intros m.
  rewrite <- (flat_map_positions (brow0, 0%Z)
                (fun r2 : brow R * Z =>
                   if bonds_agree c1 (snd (py_read (brow0, 0%Z) rows1 m)) c2
                                  (snd r2)
                   then [T (fst (py_read (brow0, 0%Z) rows1 m)) (fst r2)]
                   else []) rows2).
  apply flat_map_ext. intros n.
  unfold agreeing, getZ. cbn [fst snd].
  rewrite <- !(py_read_map snd), <- !(py_read_map fst). cbn [fst snd].
  now rewrite Hterm.
Qed.

Lemma pair_rows_perm (rows1 rows1' rows2 rows2' : list (brow R * Z))
      (c1 c2 : Z) (T : brow R -> brow R -> R) :
  Permutation rows1 rows1' -> Permutation rows2 rows2' ->
  total (flat_map (fun r1 : brow R * Z =>
           flat_map (fun r2 : brow R * Z =>
                       if bonds_agree c1 (snd r1) c2 (snd r2)
                       then [T (fst r1) (fst r2)] else [])
                    rows2)
           rows1)
  = total (flat_map (fun r1 : brow R * Z =>
             flat_map (fun r2 : brow R * Z =>
                         if bonds_agree c1 (snd r1) c2 (snd r2)
                         then [T (fst r1) (fst r2)] else [])
                      rows2')
             rows1').
Proof.
  intros H1 H2. apply total_perm.
  transitivity
    (flat_map (fun r1 : brow R * Z =>
       flat_map (fun r2 : brow R * Z =>
                   if bonds_agree c1 (snd r1) c2 (snd r2)
                   then [T (fst r1) (fst r2)] else [])
                rows2')
       rows1).
  - apply Permutation_flat_map_pointwise. intros r1.
    now apply Permutation_flat_map.
  - now apply Permutation_flat_map.
Qed.

End BondOrder.

(** X15.  Over the reals the 2-body energy/energy and force/energy
    kernels do not depend on the order of the bonds: listing the bonds of
    either environment, each with its species, in another order gives the
    same value.  The order [argsort] gives to bonds of equal distance is
    therefore immaterial to them. *)
Theorem two_body_kernels_order_free (exp : R -> R)
        (force_energy_helper : R -> R -> R -> R -> R -> R -> R -> R -> R)
        (rows1 rows1' rows2 rows2' : list (brow R * Z)) (c1 c2 d1 : Z)
        (sig ls r_cut : R) (cutoff_func : cutoff_fn R) :
  Permutation rows1 rows1' ->
  Permutation rows2 rows2' ->
  two_body_mc_en_jit exp (map fst rows1) c1 (map snd rows1)
                     (map fst rows2) c2 (map snd rows2)
                     sig ls r_cut cutoff_func
  = two_body_mc_en_jit exp (map fst rows1') c1 (map snd rows1')
                       (map fst rows2') c2 (map snd rows2')
                       sig ls r_cut cutoff_func
  /\ two_body_mc_force_en_jit force_energy_helper
                              (map fst rows1) c1 (map snd rows1)
                              (map fst rows2) c2 (map snd rows2)
                              d1 sig ls r_cut cutoff_func
     = two_body_mc_force_en_jit force_energy_helper
                                (map fst rows1') c1 (map snd rows1')
                                (map fst rows2') c2 (map snd rows2')
                                d1 sig ls r_cut cutoff_func.
Proof.
  intros H1 H2. split.
  - rewrite !two_body_en_sum.
    set (T := fun a b : brow R =>
                let ls1 := (1 / (2 * ls * ls))%R in
                let fi := fst (cutoff_func r_cut (dist_of a) 0%R) in
                let fj := fst (cutoff_func r_cut (dist_of b) 0%R) in
                let r11 := (dist_of a - dist_of b)%R in
                (fi * fj * (sig * sig) * exp (- r11 * r11 * ls1))%R).
    rewrite (@pair_terms_by_rows rows1 rows2 c1 c2 T),
      (@pair_terms_by_rows rows1' rows2' c1 c2 T).
    + now apply pair_rows_perm.
    + intros m n. unfold two_body_en_term, T, ba_get. cbn [fst snd].
      destruct (py_read brow0 (map fst rows1') m) as [[[a0 a1] a2] a3].
      destruct (py_read brow0 (map fst rows2') n) as [[[b0 b1] b2] b3].
      reflexivity.
    + intros m n. unfold two_body_en_term, T, ba_get. cbn [fst snd].
      destruct (py_read brow0 (map fst rows1) m) as [[[a0 a1] a2] a3].
      destruct (py_read brow0 (map fst rows2) n) as [[[b0 b1] b2] b3].
      reflexivity.
  - rewrite !two_body_force_en_sum.
    set (T := fun a b : brow R =>
                let '(a0, a1, a2, a3) := a in
                let ls1 := (1 / (2 * ls * ls))%R in
                let ls2 := (1 / (ls * ls))%R in
                let ci := getF [a0; a1; a2; a3] d1 in
                let fi := fst (cutoff_func r_cut a0 ci) in
                let fdi := snd (cutoff_func r_cut a0 ci) in
                let fj := fst (cutoff_func r_cut (dist_of b) 0%R) in
                let r11 := (a0 - dist_of b)%R in
                force_energy_helper (r11 * ci)%R (r11 * r11)%R fi fj fdi
                                    ls1 ls2 (sig * sig)%R).
    rewrite (@pair_terms_by_rows rows1 rows2 c1 c2 T),
      (@pair_terms_by_rows rows1' rows2' c1 c2 T).
    + now apply pair_rows_perm.
    + intros m n. unfold two_body_force_en_term, T, ba_get. cbn [fst snd].
      destruct (py_read brow0 (map fst rows1') m) as [[[a0 a1] a2] a3].
      destruct (py_read brow0 (map fst rows2') n) as [[[b0 b1] b2] b3].
      reflexivity.
    + intros m n. unfold two_body_force_en_term, T, ba_get. cbn [fst snd].
      destruct (py_read brow0 (map fst rows1) m) as [[[a0 a1] a2] a3].
      destruct (py_read brow0 (map fst rows2) n) as [[[b0 b1] b2] b3].
      reflexivity.
Qed.

(** Two bonds of equal length listed in either order. *)
Lemma two_body_kernels_order_free_witness :
  two_body_mc_en_jit Rtrigo_def.exp
    (map fst [((1, 1, 0, 0), 1%Z); ((1, 0, 1, 0), 2%Z)]%R) 1
    (map snd [((1, 1, 0, 0), 1%Z); ((1, 0, 1, 0), 2%Z)]%R)
    (map fst [((2, 0, 0, 1), 1%Z)]%R) 1 (map snd [((2, 0, 0, 1), 1%Z)]%R)
    2%R 1%R 4%R (fun _ _ _ => (1, 0)%R)
  = two_body_mc_en_jit Rtrigo_def.exp
      (map fst [((1, 0, 1, 0), 2%Z); ((1, 1, 0, 0), 1%Z)]%R) 1
      (map snd [((1, 0, 1, 0), 2%Z); ((1, 1, 0, 0), 1%Z)]%R)
      (map fst [((2, 0, 0, 1), 1%Z)]%R) 1 (map snd [((2, 0, 0, 1), 1%Z)]%R)
      2%R 1%R 4%R (fun _ _ _ => (1, 0)%R).
Proof.
  apply (proj1 (@two_body_kernels_order_free Rtrigo_def.exp
                  (fun _ _ _ _ _ _ _ _ => 0%R)
                  [((1, 1, 0, 0), 1%Z); ((1, 0, 1, 0), 2%Z)]%R
                  [((1, 0, 1, 0), 2%Z); ((1, 1, 0, 0), 1%Z)]%R
                  [((2, 0, 0, 1), 1%Z)]%R [((2, 0, 0, 1), 1%Z)]%R
                  1%Z 1%Z 1%Z 2%R 1%R 4%R (fun _ _ _ => (1, 0)%R)
                  (perm_swap _ _ _) (Permutation_refl _))).
Defined.
(* ------------------------------------------------------------------ *)
(** ** The registry and the three-species descriptor kernels *)
(* ------------------------------------------------------------------ *)

Lemma dict_get_in {V : Type} (d : list (String.string * V))
      (key : String.string) (v : V) :
  dict_get d key = Some v -> In (key, v) d.
Proof.
  induction d as [|[k w] d IH]; [discriminate|].
  cbn [dict_get]. destruct (dict_get d key) as [v'|].
  - intros H. inversion H; subst. right. now apply IH.
  - destruct (String.eqb_spec k key) as [->|_]; [|discriminate].
    intros H. inversion H. now left.
Qed.

Local Open Scope string_scope.

(** X16.  No key of the registry selects a kernel of the three-species
    descriptor: whatever name is looked up, the function found is none of
    [many_3body_mc], [many_3body_mc_grad], [many_3body_mc_en] and
    [many_3body_mc_force_en].  The four keys [many_3body_mc*] select the
    functions the keys [many_2body_mc*] select. *)
Theorem registry_many_3body_keys :
  (forall (key : String.string) (f : kernel_fun),
      dict_get _str_to_kernel key = Some f ->
      f <> fn_many_3body_mc /\ f <> fn_many_3body_mc_grad
      /\ f <> fn_many_3body_mc_en /\ f <> fn_many_3body_mc_force_en)
  /\ (forall m : mode,
         dict_get _str_to_kernel (String.append "many_3body_mc" (suffix m))
         = dict_get _str_to_kernel (String.append "many_2body_mc" (suffix m))
         /\ dict_get _str_to_kernel
                     (String.append "many_3body_mc" (suffix m))
            <> None).
Proof.
  split.
  - intros key f H. apply dict_get_in in H.
    assert (Hall : Forall (fun kv : String.string * kernel_fun =>
                             snd kv <> fn_many_3body_mc
                             /\ snd kv <> fn_many_3body_mc_grad
                             /\ snd kv <> fn_many_3body_mc_en
                             /\ snd kv <> fn_many_3body_mc_force_en)
                          _str_to_kernel).
    { unfold _str_to_kernel.
      repeat (constructor; [cbn [snd]; repeat split; discriminate|]).
      constructor. }
    rewrite Forall_forall in Hall. exact (Hall _ H).
  - intros []; (split; [vm_compute; reflexivity|vm_compute; discriminate]).
Qed.

Lemma registry_many_3body_keys_witness :
  dict_get _str_to_kernel "many_3body_mc_en" = Some fn_many_2body_mc_en
  /\ fn_many_2body_mc_en <> fn_many_3body_mc_en.
Proof.
  split; [vm_compute; reflexivity|].
  apply (proj1 registry_many_3body_keys "many_3body_mc_en"
               fn_many_2body_mc_en).
  vm_compute. reflexivity.
Defined.

Local Close Scope string_scope.

(* ------------------------------------------------------------------ *)
(** ** When the species-resolved neighbour search fails *)
(* ------------------------------------------------------------------ *)

Section SepcutFailure.

Context {F : Type} {NF : Num F} {NL : NumLaws F}.
Local Open Scope num_scope.

Lemma upd_set_nth {A : Type} (a : list A) (i : nat) (v : A) :
  (i < length a)%nat -> upd a i v = Some (set_nth a i v).
Proof.
  revert i; induction a as [|x a IH]; intros i H; [cbn in H; lia|].
  destruct i as [|i]; cbn [upd set_nth]; [reflexivity|].
  cbn [length] in H. rewrite IH by lia. reflexivity.
Qed.

(** The first pass fails exactly when an image that passes the test
    arrives after the columns of the row are used up. *)
Lemma store_27_none (diff_curr : vec3 F) (cell : cell3 F) (rcut : F)
      (l : list (Z * Z * Z)) (row : list (F * vec3 F)) (c : nat) :
  foldM (store_27 diff_curr cell rcut) l (row, c) = None
  <-> exists k : nat,
        (k < length l)%nat /\ (length row <= c + k)%nat
        /\ within (norm (image diff_curr cell (nth k l (0, 0, 0)%Z))) rcut
           = true.
Proof.
  revert row c; induction l as [|s l IH]; intros row c.
  - cbn. split; [discriminate|]. intros (k & Hk & _). lia.
  - cbn [foldM]. unfold store_27 at 1.
    destruct (within (norm (image diff_curr cell s)) rcut) eqn:Ew.
    + destruct (Nat.lt_ge_cases c (length row)) as [Hc|Hc].
      * rewrite upd_set_nth by exact Hc. cbn [bind].
        rewrite IH. rewrite set_nth_length. split.
        -- intros (k & Hk & Hr & Hw). exists (S k). cbn [length nth].
           split; [lia|]. split; [lia|exact Hw].
        -- intros (k & Hk & Hr & Hw). destruct k as [|k]; [lia|].
           exists k. cbn [length nth] in *. split; [lia|].
           split; [lia|exact Hw].
      * rewrite upd_past by exact Hc. cbn [bind]. split; [|reflexivity].
        intros _. exists O. cbn [length nth]. split; [lia|].
        split; [lia|exact Ew].
    + cbn [bind]. rewrite IH. split.
      * intros (k & Hk & Hr & Hw). exists (S k). cbn [length nth].
        split; [lia|]. split; [lia|exact Hw].
      * intros (k & Hk & Hr & Hw). destruct k as [|k].
        -- cbn [nth] in Hw. congruence.
        -- exists k. cbn [length nth] in *. split; [lia|].
           split; [lia|exact Hw].
Qed.

Lemma record_images_27_none (diff_curr : vec3 F) (cell : cell3 F) (rcut : F)
      (sweep : list Z) :
  record_images_27 diff_curr cell rcut sweep = None
  <-> exists k : nat,
        (27 <= k < length (sweep_images sweep))%nat
        /\ within (norm (image diff_curr cell
                               (nth k (sweep_images sweep) (0, 0, 0)%Z)))
                  rcut = true.
Proof.
  unfold record_images_27.
  destruct (foldM (store_27 diff_curr cell rcut) (sweep_images sweep)
                  (repeat (fzero, vzero) 27, O)) as [[row c]|] eqn:E.
  - cbn [bind]. split; [discriminate|]. intros (k & Hk & Hw).
    assert (H : foldM (store_27 diff_curr cell rcut) (sweep_images sweep)
                      (repeat (fzero, vzero) 27, O) = None).
    { apply store_27_none. exists k. rewrite repeat_length.
      split; [lia|]. split; [lia|exact Hw]. }
    congruence.
  - cbn [bind]. split; [|reflexivity]. intros _.
    apply store_27_none in E as (k & Hk & Hr & Hw).
    rewrite repeat_length in Hr. exists k. split; [lia|exact Hw].
Qed.

Lemma mapM_none {A B : Type} (f : A -> option B) (l : list A) :
  mapM f l = None <-> exists a, In a l /\ f a = None.
Proof.
  induction l as [|a l IH]; cbn [mapM].
  - split; [discriminate|]. intros (a & [] & _).
  - destruct (f a) as [b|] eqn:E; cbn [bind].
    + destruct (mapM f l) as [bs|]; cbn [bind].
      * split; [discriminate|]. intros (x & [<-|Hx] & Hf); [congruence|].
        assert (H : @None (list B) = None) by reflexivity.
        destruct IH as [_ IH]. discriminate IH. now exists x.
      * split; [|reflexivity]. intros _.
        destruct (proj1 IH eq_refl) as (x & Hx & Hf).
        exists x. split; [now right|exact Hf].
    + split; [|reflexivity]. intros _. exists a. split; [now left|exact E].
Qed.

(** The second pass repeats the lookups of the first one. *)
Lemma second_pass_returns {A B C : Type} (f : nat * A -> option B)
      (g : nat * B -> option C) (l : list A) (t : list B) :
  mapM f (with_index l) = Some t ->
  (forall m a b, f (m, a) = Some b -> exists c, g (m, b) = Some c) ->
  exists u, mapM g (with_index t) = Some u.
Proof.
  unfold with_index. intros Hf H.
  assert (Hgen : forall k t,
             mapM f (combine (seq k (length l)) l) = Some t ->
             exists u, mapM g (combine (seq k (length t)) t) = Some u).
  { clear Hf t. induction l as [|a l IH]; intros k t Hf.
    - cbn in Hf. inversion Hf; subst. cbn. eauto.
    - cbn [length seq combine mapM] in Hf.
      apply bind_some in Hf as (b & Hb & Hf).
      apply bind_some in Hf as (t' & Ht' & Hf). inversion Hf; subst t.
      cbn [length seq combine mapM].
      destruct (H k a b Hb) as [c ->]. cbn [bind].
      destruct (IH (S k) t' Ht') as [u ->]. cbn [bind]. eauto. }
  now apply Hgen.
Qed.

End SepcutFailure.

(** X17.  Once the central atom and its species group are found, the
    species-resolved neighbour search fails in exactly two cases: the
    cutoff of some atom cannot be resolved (its species, its group or the
    cutoff of the pair is outside the array that holds it), or an image
    of some atom that lies within the cutoff is the 28th or a later one
    of the sweep, past the 27 columns of [dists] and [coords].  With a
    sweep of at most three values the second case cannot occur. *)
Theorem sepcut_search_fails_iff {F : Type} {NF : Num F} {NL : NumLaws F}
        (argsort : list F -> list nat) (positions : list (vec3 F))
        (atom : nat) (cell : cell3 F) (cutoff_2 : list F) (species : list Z)
        (sweep : list Z) (nspecie : Z) (specie_mask bond_mask : list Z)
        (pos_atom : vec3 F) (sa bc : Z) :
  nth_error positions atom = Some pos_atom ->
  nth_error species atom = Some sa ->
  py_get specie_mask sa = Some bc ->
  let rcut := bond_cutoff_2 cutoff_2 species specie_mask bond_mask
                            (nspecie * bc) in
  (get_2_body_arrays_sepcut argsort positions atom cell cutoff_2 species
                            sweep nspecie specie_mask bond_mask = None
   <-> (exists n : nat, (n < length positions)%nat /\ rcut n = None)
       \/ (exists (n : nat) (p : vec3 F) (c : F) (k : nat),
              nth_error positions n = Some p /\ rcut n = Some c
              /\ (27 <= k < length (sweep_images sweep))%nat
              /\ within (norm (image (vsub p pos_atom) cell
                                     (nth k (sweep_images sweep)
                                          (0, 0, 0)%Z))) c = true))
  /\ ((length sweep <= 3)%nat -> (length (sweep_images sweep) <= 27)%nat).
Proof.
  intros Hpos Hsa Hbc rcut. split.
  - unfold get_2_body_arrays_sepcut. rewrite Hpos. cbn [bind].
    rewrite Hsa. cbn [bind]. rewrite Hbc. cbn [bind].
    set (bcn := (nspecie * bc)%Z) in *.
    unfold fill_rows_sepcut.
    set (f := fun np : nat * vec3 F =>
                sn <- nth_error species (fst np) ;;
                bn <- py_get specie_mask sn ;;
                rc <- resolve_cutoff cutoff_2 bond_mask bn bcn ;;
                record_images_27 (vsub (snd np) pos_atom) cell rc sweep).
    set (g := fun mr : nat * list (F * vec3 F) =>
                spec_curr <- nth_error species (fst mr) ;;
                bm <- py_get specie_mask spec_curr ;;
                rc <- resolve_cutoff cutoff_2 bond_mask bm bcn ;;
                Some (fill_atom rc spec_curr (fst mr) (snd mr))).
    assert (Hf : forall n p,
               f (n, p)
               = match rcut n with
                 | Some c => record_images_27 (vsub p pos_atom) cell c sweep
                 | None => None
                 end).
    { intros n p. unfold f, rcut, bond_cutoff_2. cbn [fst snd].
      destruct (nth_error species n) as [sn|]; cbn [bind]; [|reflexivity].
      destruct (py_get specie_mask sn) as [bn|]; cbn [bind]; [|reflexivity].
      now destruct (resolve_cutoff cutoff_2 bond_mask bn bcn). }
    assert (Hg : forall m a b, f (m, a) = Some b ->
                               exists c, g (m, b) = Some c).
    { intros m a b H. unfold f, g in *. cbn [fst snd] in *.
      destruct (nth_error species m) as [sn|]; cbn [bind] in *;
        [|discriminate].
      destruct (py_get specie_mask sn) as [bn|]; cbn [bind] in *;
        [|discriminate].
      destruct (resolve_cutoff cutoff_2 bond_mask bn bcn); cbn [bind] in *;
        [eauto|discriminate]. }
    destruct (mapM f (with_index positions)) as [table|] eqn:Et.
    + cbn [bind].
      destruct (second_pass_returns f g positions Et Hg) as [u ->].
      cbn [bind]. split; [discriminate|].
      intros [(n & Hn & Hr)|(n & p & c & k & Hp & Hr & Hk & Hw)].
      * exfalso.
        destruct (nth_error positions n) as [p|] eqn:Ep;
          [|apply nth_error_None in Ep; lia].
        assert (Hnone : mapM f (with_index positions) = None).
        { apply mapM_none. exists (n, p).
          split; [now apply with_index_in|]. now rewrite Hf, Hr. }
        congruence.
      * exfalso.
        assert (Hnone : mapM f (with_index positions) = None).
        { apply mapM_none. exists (n, p).
          split; [now apply with_index_in|]. rewrite Hf, Hr.
          apply record_images_27_none. now exists k. }
        congruence.
    + cbn [bind]. split; [|reflexivity]. intros _.
      apply mapM_none in Et as ([n p] & Hin & Hfail).
      apply with_index_in in Hin. rewrite Hf in Hfail.
      destruct (rcut n) as [c|] eqn:Er.
      * right. apply record_images_27_none in Hfail as (k & Hk & Hw).
        exists n, p, c, k. auto.
      * left. exists n. split; [apply nth_error_Some; congruence|exact Er].
  - intros Hsweep. unfold sweep_images.
    assert (Hfm : forall (A B : Type) (h : A -> list B) (l : list A) k,
               (forall a, length (h a) = k) ->
               length (flat_map h l) = (length l * k)%nat).
    { intros A B h l k Hh. induction l as [|a l IH]; [reflexivity|].
      cbn [flat_map length]. rewrite length_app, IH, Hh. lia. }
    rewrite (Hfm _ _ _ sweep (length sweep * length sweep)%nat).
    + assert (length sweep * (length sweep * length sweep) <= 3 * (3 * 3))%nat
        by (repeat apply Nat.mul_le_mono; exact Hsweep).
      lia.
    + intros a. rewrite (Hfm _ _ _ sweep (length sweep)); [reflexivity|].
      intros b. apply length_map.
Qed.

(** One atom in a unit cell searched with [sweep = 2]: the search fails,
    and it is the second case that holds. *)
Lemma sepcut_search_fails_iff_witness :
  get_2_body_arrays_sepcut argsort_stable lone_atom 0 (cubic 1%float)
                           [1.5%float] [1%Z] sweep2 1 single_group_mask
                           [0%Z] = None
  /\ ((exists n : nat,
          (n < length lone_atom)%nat
          /\ bond_cutoff_2 [1.5%float] [1%Z] single_group_mask [0%Z]
                           (1 * 0) n = None)
      \/ (exists (n : nat) (p : vec3 float) (c : float) (k : nat),
             nth_error lone_atom n = Some p
             /\ bond_cutoff_2 [1.5%float] [1%Z] single_group_mask [0%Z]
                              (1 * 0) n = Some c
             /\ (27 <= k < length (sweep_images sweep2))%nat
             /\ within (norm (image (vsub p (nth 0 lone_atom vzero))
                                    (cubic 1%float)
                                    (nth k (sweep_images sweep2)
                                         (0, 0, 0)%Z))) c = true)).
Proof.
  assert (H : get_2_body_arrays_sepcut argsort_stable lone_atom 0
                (cubic 1%float) [1.5%float] [1%Z] sweep2 1
                single_group_mask [0%Z] = None)
    by (vm_compute; reflexivity).
  split; [exact H|].
  apply (proj1 (proj1 (@sepcut_search_fails_iff float _ _ argsort_stable
                         lone_atom 0 (cubic 1%float) [1.5%float] [1%Z]
                         sweep2 1%Z single_group_mask [0%Z]
                         (nth 0 lone_atom vzero) 1%Z 0%Z
                         ltac:(vm_compute; reflexivity)
                         ltac:(reflexivity)
                         ltac:(vm_compute; reflexivity)))).
  exact H.
Defined.

(* ------------------------------------------------------------------ *)
(** ** Symmetry of the many-body force/force kernel *)
(* ------------------------------------------------------------------ *)

Section ForceSymmetry.

Local Open Scope R_scope.

Lemma fold_add {A : Type} (f : A -> R) (l : list A) (k : R) :
  fold_left (fun kern a => kern + f a) l k = k + total (map f l).
Proof.
  revert k; induction l as [|a l IH]; intros k; cbn [fold_left map].
  - unfold total. cbn. ring.
  - rewrite IH, total_cons. ring.
Qed.

Lemma fold_add_pairs (T : Z -> Z -> R) (l : list (Z * Z)) (k : R) :
  fold_left (fun kern (ss : Z * Z) => let '(s1, s2) := ss in kern + T s1 s2)
            l k
  = k + total (map (fun ss => T (fst ss) (snd ss)) l).
Proof.
  revert k; induction l as [|[s1 s2] l IH]; intros k; cbn [fold_left map].
  - unfold total. cbn. ring.
  - rewrite IH, total_cons. cbn [fst snd]. ring.
Qed.

Lemma fold_add_if {A : Type} (c : A -> bool) (f : A -> R) (l : list A)
      (k : R) :
  fold_left (fun kern a => if c a then kern + f a else kern) l k
  = k + total (map (fun a => if c a then f a else 0) l).
Proof.
  rewrite <- fold_add. revert k; induction l as [|a l IH]; intros k;
    [reflexivity|].
  cbn [fold_left]. rewrite IH. destruct (c a); [reflexivity|].
  f_equal. ring.
Qed.

Lemma fold_add_if_inner {A B : Type} (c : A -> B -> bool) (f : A -> B -> R)
      (l1 : list A) (l2 : list B) (k : R) :
  fold_left (fun kern a =>
               fold_left (fun kern b =>
                            if c a b then kern + f a b else kern) l2 kern)
            l1 k
  = k + total (map (fun a =>
                      total (map (fun b => if c a b then f a b else 0) l2))
                   l1).
Proof.
  rewrite <- fold_add. revert k; induction l1 as [|a l1 IH]; intros k;
    [reflexivity|].
  cbn [fold_left]. rewrite IH. f_equal. apply fold_add_if.
Qed.

Lemma species_columns_pairs (set_inter : list Z -> list Z -> list Z)
      (species1 species2 : list Z) (l : list Z) :
  mapM (fun s =>
          s1 <- where_first species1 s ;;
          s2 <- where_first species2 s ;;
          Some (Z.of_nat s1, Z.of_nat s2)) l
  = option_map (map (fun b : nat * nat =>
                       (Z.of_nat (fst b), Z.of_nat (snd b))))
               (mapM (columns_of species1 species2) l).
Proof.
  induction l as [|s l IH]; [reflexivity|].
  cbn [mapM]. rewrite IH.
  destruct (mapM (columns_of species1 species2) l) as [bs|];
    unfold columns_of;
    destruct (where_first species1 s) as [s1|],
      (where_first species2 s) as [s2|]; reflexivity.
Qed.

(** The species columns of the two orders of a pair of environments. *)
Lemma species_columns_swap (set_inter : list Z -> list Z -> list Z)
      (species1 species2 : list Z) (c1 c2 : Z) :
  set_inter_ok set_inter ->
  (species_columns set_inter species1 species2 c1 c2 = None
   /\ species_columns set_inter species2 species1 c2 c1 = None)
  \/ exists (bs bs' : list (nat * nat)) (sc1 sc2 sc12 sc21 : Z),
       species_columns set_inter species1 species2 c1 c2
       = Some (map (fun b => (Z.of_nat (fst b), Z.of_nat (snd b))) bs,
               sc1, sc2, sc12, sc21)
       /\ species_columns set_inter species2 species1 c2 c1
          = Some (map (fun b => (Z.of_nat (snd b), Z.of_nat (fst b))) bs',
                  sc2, sc1, sc21, sc12)
       /\ Permutation bs bs'.
Proof.
  intros Hinter. unfold species_columns.
  rewrite !species_columns_pairs by exact set_inter.
  rewrite (mapM_columns_swap species1 species2).
  destruct (mapM_perm (columns_of species1 species2)
                      (useful_species_perm Hinter species1 species2))
    as [[-> ->]|(bs & bs' & -> & -> & Hp)]; cbn [option_map bind];
    [now left|].
  destruct (where_first species1 c1) as [sc1|],
    (where_first species2 c2) as [sc2|],
    (where_first species1 c2) as [sc12|],
    (where_first species2 c1) as [sc21|]; cbn [bind]; try (now left).
  right. exists bs, bs', (Z.of_nat sc1), (Z.of_nat sc2), (Z.of_nat sc12),
    (Z.of_nat sc21).
  split; [reflexivity|]. split; [|exact Hp].
  rewrite map_map. reflexivity.
Qed.

End ForceSymmetry.

Local Open Scope R_scope.

(** X18.  Over the reals, for any helper [k_sq_exp_double_dev] that is
    symmetric in its two descriptor arguments, the many-body force/force
    kernel of the one-species descriptor is symmetric: exchanging the two
    environments together with the two force components gives the same
    result, a value or an error, whatever order the intersection of the
    species sets comes in. *)
Theorem many_2body_force_kernel_symmetric
        (set_inter : list Z -> list Z -> list Z)
        (k_sq_exp_double_dev : R -> R -> R -> R -> R)
        (array_1 array_2 : list R) (grads_1 grads_2 : list (list R))
        (neigh_array_1 neigh_array_2 : list (list R))
        (neigh_grads_1 neigh_grads_2 : list (list R))
        (c1 c2 : Z) (etypes1 etypes2 species1 species2 : list Z)
        (d1 d2 : Z) (sig ls : R) :
  set_inter_ok set_inter ->
  (forall q1 q2 s l : R,
      k_sq_exp_double_dev q1 q2 s l = k_sq_exp_double_dev q2 q1 s l) ->
  many_2body_mc_jit set_inter k_sq_exp_double_dev array_1 array_2
                    grads_1 grads_2 neigh_array_1 neigh_array_2
                    neigh_grads_1 neigh_grads_2 c1 c2 etypes1 etypes2
                    species1 species2 d1 d2 sig ls
  = many_2body_mc_jit set_inter k_sq_exp_double_dev array_2 array_1
                      grads_2 grads_1 neigh_array_2 neigh_array_1
                      neigh_grads_2 neigh_grads_1 c2 c1 etypes2 etypes1
                      species2 species1 d2 d1 sig ls.
Proof.
  intros Hinter Hk. unfold many_2body_mc_jit.
  destruct (species_columns_swap species1 species2 c1 c2 Hinter)
    as [[-> ->]|(bs & bs' & sc1 & sc2 & sc12 & sc21 & -> & -> & Hp)];
    [reflexivity|].
  cbn [bind]. cbv zeta. f_equal.
  rewrite (Z.eqb_sym c2 c1).
  rewrite !fold_add_if.
  assert (Hcc : forall k0 : R,
             (if (c1 =? c2)%Z
              then fold_left
                     (fun kern (ss : Z * Z) =>
                        let '(s1, s2) := ss in
                        kern + k_sq_exp_double_dev (getF array_1 s1)
                                 (getF array_2 s2) sig ls
                               * get2F grads_1 s1 (d1 - 1)
                               * get2F grads_2 s2 (d2 - 1))
                     (map (fun b : nat * nat =>
                             (Z.of_nat (fst b), Z.of_nat (snd b))) bs) k0
              else k0)
             = (if (c1 =? c2)%Z
                then fold_left
                       (fun kern (ss : Z * Z) =>
                          let '(s1, s2) := ss in
                          kern + k_sq_exp_double_dev (getF array_2 s1)
                                   (getF array_1 s2) sig ls
                                 * get2F grads_2 s1 (d2 - 1)
                                 * get2F grads_1 s2 (d1 - 1))
                       (map (fun b : nat * nat =>
                               (Z.of_nat (snd b), Z.of_nat (fst b))) bs') k0
                else k0)).
  { intros k0. destruct (c1 =? c2)%Z; [|reflexivity].
    rewrite (fold_add_pairs
               (fun s1 s2 =>
                  k_sq_exp_double_dev (getF array_1 s1) (getF array_2 s2)
                                      sig ls
                  * get2F grads_1 s1 (d1 - 1) * get2F grads_2 s2 (d2 - 1))).
    rewrite (fold_add_pairs
               (fun s1 s2 =>
                  k_sq_exp_double_dev (getF array_2 s1) (getF array_1 s2)
                                      sig ls
                  * get2F grads_2 s1 (d2 - 1) * get2F grads_1 s2 (d1 - 1))).
    f_equal. rewrite !map_map. cbn [fst snd].
    rewrite (total_perm (Permutation_map _ Hp)).
    apply total_map_ext. intros b _.
    rewrite (Hk (getF array_2 (Z.of_nat (snd b)))). ring. }
  cbn [fadd fmul fsub fzero Num_R] in *.
  rewrite Hcc.
  destruct (c1 =? c2)%Z.
  - rewrite !fold_add_if_inner.
    rewrite (total_exchange
               (fun n m =>
                  if (getZ etypes1 n =? getZ etypes2 m)%Z
                  then k_sq_exp_double_dev (get2F neigh_array_1 n sc1)
                         (get2F neigh_array_2 m sc2) sig ls
                       * get2F neigh_grads_1 n (d1 - 1)
                       * get2F neigh_grads_2 m (d2 - 1)
                  else 0)).
    rewrite (total_map_ext
               (fun m =>
                  total (map (fun n =>
                     if (getZ etypes1 n =? getZ etypes2 m)%Z
                     then k_sq_exp_double_dev (get2F neigh_array_1 n sc1)
                            (get2F neigh_array_2 m sc2) sig ls
                          * get2F neigh_grads_1 n (d1 - 1)
                          * get2F neigh_grads_2 m (d2 - 1)
                     else 0) (range (rows neigh_array_1))))
               (fun m =>
                  total (map (fun n =>
                     if (getZ etypes2 m =? getZ etypes1 n)%Z
                     then k_sq_exp_double_dev (get2F neigh_array_2 m sc2)
                            (get2F neigh_array_1 n sc1) sig ls
                          * get2F neigh_grads_2 m (d2 - 1)
                          * get2F neigh_grads_1 n (d1 - 1)
                     else 0) (range (rows neigh_array_1))))).
    + ring.
    + intros m _. apply total_map_ext. intros n _.
      rewrite (Z.eqb_sym (getZ etypes2 m)).
      destruct (getZ etypes1 n =? getZ etypes2 m)%Z; [|reflexivity].
      rewrite (Hk (get2F neigh_array_2 m sc2)). ring.
  - ring.
Qed.

Lemma many_2body_force_kernel_symmetric_witness :
  many_2body_mc_jit inter_first (fun q1 q2 _ _ => q1 * q2)%R
                    [1; 2]%R [3; 4]%R [[1; 0; 0]; [0; 1; 0]]%R
                    [[0; 0; 1]; [1; 1; 0]]%R [[2; 1]]%R [[1; 3]]%R
                    [[1; 0; 0]]%R [[0; 2; 0]]%R 1 1 [2]%Z [1]%Z
                    [1; 2]%Z [2; 1]%Z 1 2 2%R 1%R
  = many_2body_mc_jit inter_first (fun q1 q2 _ _ => q1 * q2)%R
                      [3; 4]%R [1; 2]%R [[0; 0; 1]; [1; 1; 0]]%R
                      [[1; 0; 0]; [0; 1; 0]]%R [[1; 3]]%R [[2; 1]]%R
                      [[0; 2; 0]]%R [[1; 0; 0]]%R 1 1 [1]%Z [2]%Z
                      [2; 1]%Z [1; 2]%Z 2 1 2%R 1%R.
Proof.
  apply (@many_2body_force_kernel_symmetric inter_first
           (fun q1 q2 _ _ => q1 * q2)%R).
  - exact inter_first_ok.
  - intros q1 q2 s l. ring.
Defined.

Local Close Scope R_scope.

(* ------------------------------------------------------------------ *)
(** ** [compute_env] with one cutoff per interaction *)
(* ------------------------------------------------------------------ *)

Section ComputeEnvProofs.

Context {F : Type} {NF : Num F} {NL : NumLaws F}.
Local Open Scope num_scope.

Lemma get_3_body_arrays_built (bond_array_2 : list (brow F))
      (bond_positions_2 : list (vec3 F)) (cutoff_3 : F) :
  (length bond_array_2 <= length bond_positions_2)%nat ->
  exists ba3 inds dists counts,
    get_3_body_arrays bond_array_2 bond_positions_2 cutoff_3
    = Some (ba3, inds, dists, counts)
    /\ ba3 = firstn (length ba3) bond_array_2
    /\ (length ba3 <= length bond_array_2)%nat.
Proof.
  intros Hlen. unfold get_3_body_arrays.
  pose proof (first_above_le cutoff_3 (map dist_of bond_array_2)) as Hle.
  rewrite length_map in Hle.
  rewrite (proj2 (Nat.leb_le _ _)) by lia. unfold unzip3.
  do 4 eexists. split; [reflexivity|].
  rewrite length_firstn_first_above. split; [reflexivity|exact Hle].
Qed.

(** The species list holds the [int8] image of every species. *)
Lemma species_list_covers (list_set : list Z -> list Z) (species : list Z) :
  (forall (l : list Z) (x : Z), In x l -> In x (list_set l)) ->
  incl (map wrap8 species) (species_list_of list_set species).
Proof.
  intros Hset e He. apply in_map_iff in He as (x & <- & Hx).
  unfold species_list_of. apply in_map. now apply Hset.
Qed.

Lemma get_m3_body_arrays_some (argsort : list F -> list nat)
      (list_set : list Z -> list Z) (coordination_number : q_fn F)
      (positions : list (vec3 F)) (atom : nat) (cell : cell3 F)
      (cutoff : F) (species : list Z) (sweep : list Z)
      (cutoff_func : cutoff_fn F) :
  (forall keys : list F,
      Permutation (argsort keys) (seq 0 (length keys))) ->
  (forall (l : list Z) (x : Z), In x l -> In x (list_set l)) ->
  (atom < length positions)%nat ->
  (length positions <= length species)%nat ->
  exists M na g ng et,
    get_m3_body_arrays argsort list_set coordination_number positions atom
                       cell cutoff species sweep cutoff_func
    = Some (M, na, g, ng, species_list_of list_set species, et)
    /\ square_array (length (species_list_of list_set species)) M
    /\ symmetric_array M.
Proof.
  intros Hs Hset Hatom Hlen.
  pose proof (species_list_covers list_set species Hset) as Hincl.
  set (species_list := species_list_of list_set species) in *.
  destruct (@descriptor_returns F NF NL argsort positions atom cell cutoff
                                species sweep species_list cutoff_func
                                coordination_number Hs Hincl Hatom Hlen)
    as (ba & bp & et & bi & ba3 & inds & dists & counts & M & Hget & H3
        & HM & Hsq & Hsy & Het & Hlen3 & Hlenb & Htab & Hbi).
  unfold get_m3_body_arrays. fold species_list.
  rewrite Hget. cbn [bind]. rewrite H3. cbn [bind]. rewrite HM. cbn [bind].
  match goal with
  | |- context [mapM ?f ?l] =>
      destruct (@mapM_returns _ _ (fun _ => True) f l)
        as (neigh & -> & _ & _)
  end.
  { intros i Hi. apply in_range in Hi. unfold rows in Hi.
    rewrite Forall_forall in Hbi.
    destruct (Hbi (getZ bi i)) as (m & Hm & ->).
    { replace i with (Z.of_nat (Z.to_nat i)) by lia.
      apply getZ_nat_in. lia. }
    destruct (py_index_wrap8 Hm) as (k & -> & Hk). cbn [bind].
    destruct (@descriptor_returns F NF NL argsort positions k cell cutoff
                                  species sweep species_list cutoff_func
                                  coordination_number Hs Hincl Hk Hlen)
      as (ba' & bp' & et' & bi' & ba3' & inds' & dists' & counts' & M'
          & Hget' & H3' & HM' & _).
    rewrite Hget'. cbn [bind]. rewrite H3'. cbn [bind].
    exists M'. auto. }
  cbn [bind].
  destruct (@q3_neigh_grads_mc_returns F NF ba3 inds dists counts cutoff
              species_list et cutoff_func coordination_number Het Hlen3 Htab)
    as (g & -> & Lg).
  cbn [bind].
  destruct (@q3_grads_mc_returns F NF g species_list et Het ltac:(lia))
    as (gc & ->).
  cbn [bind]. exists M, neigh, gc, g, et. auto.
Qed.

Lemma get_m2_body_arrays_some (argsort : list F -> list nat)
      (list_set : list Z -> list Z) (coordination_number : q_fn F)
      (q_value_mc : list F -> F -> Z -> list Z -> cutoff_fn F
                    -> option (q_fn F) -> F)
      (positions : list (vec3 F)) (atom : nat) (cell : cell3 F)
      (cutoff : F) (species : list Z) (sweep : list Z)
      (cutoff_func : cutoff_fn F) :
  (forall keys : list F,
      Permutation (argsort keys) (seq 0 (length keys))) ->
  (forall (l : list Z) (x : Z), In x l -> In x (list_set l)) ->
  (atom < length positions)%nat ->
  (length positions <= length species)%nat ->
  exists r,
    get_m2_body_arrays argsort list_set coordination_number q_value_mc
                       positions atom cell cutoff species sweep cutoff_func
    = Some r.
Proof.
  intros Hs Hset Hatom Hlen.
  pose proof (species_list_covers list_set species Hset) as Hincl.
  set (species_list := species_list_of list_set species) in *.
  destruct (nth_error positions atom) as [pos_atom|] eqn:Hpos;
    [|apply nth_error_None in Hpos; lia].
  destruct (@built_rows F NF NL argsort positions atom cell cutoff species
                        sweep pos_atom Hpos Hlen Hs)
    as (ba & bp & et & bi & Hget & Lbp & Let & Lbi & Het & Hbi).
  assert (Het' : Forall (fun e => In e species_list) et).
  { eapply Forall_impl; [|exact Het]. intros e He. now apply Hincl. }
  unfold get_m2_body_arrays. fold species_list.
  rewrite Hget. cbn [bind].
  match goal with
  | |- context [mapM ?f ?l] =>
      destruct (@mapM_returns _ _ (fun _ => True) f l)
        as (neigh & -> & _ & Lneigh)
  end.
  { intros i Hi. apply in_range in Hi. unfold rows in Hi.
    rewrite Forall_forall in Hbi.
    destruct (Hbi (getZ bi i)) as (m & Hm & ->).
    { replace i with (Z.of_nat (Z.to_nat i)) by lia.
      apply getZ_nat_in. lia. }
    destruct (py_index_wrap8 Hm) as (k & -> & Hk). cbn [bind].
    destruct (nth_error positions k) as [pos_k|] eqn:Hposk;
      [|apply nth_error_None in Hposk; lia].
    destruct (@built_rows F NF NL argsort positions k cell cutoff species
                          sweep pos_k Hposk Hlen Hs)
      as (ba' & bp' & et' & bi' & Hget' & _).
    rewrite Hget'. cbn [bind]. eexists. split; [reflexivity|exact I]. }
  cbn [bind].
  unfold range, rows in Lneigh.
  rewrite length_map, length_seq, Nat2Z.id in Lneigh.
  destruct (@q2_grads_mc_returns F NF (map snd neigh) species_list et Het')
    as (g & ->).
  { rewrite length_map. lia. }
  cbn [bind]. eauto.
Qed.

End ComputeEnvProofs.

(** X19.  With at most one cutoff group for the 2-body, the 3-body and the
    many-body interaction, an [argsort] that lists every position once
    and a species array that covers the atoms, [compute_env] fails for an
    atom of the structure in one case only: the many-3-body cutoff is
    positive and has more than one group, the [NotImplementedError]
    branch.  When it returns, [etypes] and [bond_inds] have one entry per
    row of [bond_array_2]; each of the three further groups of attributes
    is set exactly when its cutoff is positive; [bond_array_3] is a
    prefix of [bond_array_2] and every cell of [cross_bond_inds] that
    [triplet_counts] covers is the index of one of its rows; and
    [m3b_array] is square over its species list and symmetric. *)
Theorem compute_env_scalar {F : Type} {NF : Num F} {NL : NumLaws F}
        (argsort : list F -> list nat) (list_set : list Z -> list Z)
        (coordination_number : q_fn F)
        (q_value_mc : list F -> F -> Z -> list Z -> cutoff_fn F
                      -> option (q_fn F) -> F)
        (quadratic_cutoff : cutoff_fn F) (self : EnvSetup) :
  (forall keys : list F,
      Permutation (argsort keys) (seq 0 (length keys))) ->
  (forall (l : list Z) (x : Z), In x l -> In x (list_set l)) ->
  (self_atom self < length (self_positions self))%nat ->
  (length (self_positions self) <= length (self_species self))%nat ->
  (self_n2b self <= 1)%Z -> (self_n3b self <= 1)%Z ->
  (self_nmb self <= 1)%Z ->
  (compute_env argsort list_set coordination_number q_value_mc
               quadratic_cutoff self = None
   <-> (fzero <? self_scalar_cutoff_m3b self)%num = true
       /\ (1 < self_nm3b self)%Z)
  /\ forall env : EnvArrays,
      compute_env argsort list_set coordination_number q_value_mc
                  quadratic_cutoff self = Some env ->
      length (self_etypes env) = length (self_bond_array_2 env)
      /\ length (self_bond_inds env) = length (self_bond_array_2 env)
      /\ (self_3body env <> None
          <-> (fzero <? self_scalar_cutoff_3 self)%num = true)
      /\ (self_m2b env <> None
          <-> (fzero <? self_scalar_cutoff_mb self)%num = true)
      /\ (self_m3b env <> None
          <-> (fzero <? self_scalar_cutoff_m3b self)%num = true)
      /\ (forall bond_array_3 cross_bond_inds cross_bond_dists
                 triplet_counts,
             self_3body env
             = Some (bond_array_3, cross_bond_inds, cross_bond_dists,
                     triplet_counts) ->
             bond_array_3
             = firstn (length bond_array_3) (self_bond_array_2 env)
             /\ (length bond_array_3 <= length (self_bond_array_2 env))%nat
             /\ table_ok (length bond_array_3) cross_bond_inds
                         triplet_counts)
      /\ (forall m3b_array m3b_neigh_array m3b_grads m3b_neigh_grads
                 m3b_unique_species etypes_m3b,
             self_m3b env
             = Some (m3b_array, m3b_neigh_array, m3b_grads,
                     m3b_neigh_grads, m3b_unique_species, etypes_m3b) ->
             square_array (length m3b_unique_species) m3b_array
             /\ symmetric_array m3b_array).
Proof.
  intros Hs Hset Hatom Hlen Hn2 Hn3 Hnmb.
  unfold compute_env.
  rewrite (proj2 (Z.ltb_ge _ _) Hn2), (proj2 (Z.ltb_ge _ _) Hn3),
    (proj2 (Z.ltb_ge _ _) Hnmb).
  destruct (nth_error (self_positions self) (self_atom self))
    as [pos_atom|] eqn:Hpos; [|apply nth_error_None in Hpos; lia].
  destruct (@built_rows F NF NL argsort (self_positions self)
              (self_atom self) (self_cell self) (self_scalar_cutoff_2 self)
              (self_species self) (self_sweep_array self) pos_atom Hpos
              Hlen Hs)
    as (ba & bp & et & bi & -> & Lbp & Let & Lbi & _).
  cbn [bind].
  (* the 3-body group *)
  destruct (@get_3_body_arrays_built F NF ba bp (self_scalar_cutoff_3 self)
              ltac:(lia))
    as (ba3 & inds & dists & counts & H3 & Hpre & Hle3).
  pose proof (get_3_table_ok _ _ _ H3) as Htab.
  rewrite H3. cbn [bind].
  (* the many-body group *)
  destruct (@get_m2_body_arrays_some F NF NL argsort list_set coordination_number
              q_value_mc (self_positions self) (self_atom self)
              (self_cell self) (self_scalar_cutoff_mb self)
              (self_species self) (self_sweep_array self) quadratic_cutoff
              Hs Hset Hatom Hlen)
    as (r2 & ->).
  cbn [bind].
  (* the many-3-body group *)
  destruct (@get_m3_body_arrays_some F NF NL argsort list_set coordination_number
              (self_positions self) (self_atom self) (self_cell self)
              (self_scalar_cutoff_m3b self) (self_species self)
              (self_sweep_array self) quadratic_cutoff Hs Hset Hatom Hlen)
    as (M & na & g & ng & et3 & -> & Hsq & Hsy).
  cbn [bind].
  assert (Hset_iff : forall (A : Type) (x : A),
             Some x <> None <-> true = true)
    by (intros A x; split; [reflexivity|discriminate]).
  assert (Hunset_iff : forall A : Type,
             @None A <> None <-> false = true)
    by (intros A; split; [intros H; now contradiction H|discriminate]).
  assert (Hreturned :
            forall three m2b m3b,
              (three = None \/ three = Some (ba3, inds, dists, counts)) ->
              (m3b = None
               \/ m3b = Some (M, na, g, ng,
                              species_list_of list_set (self_species self),
                              et3)) ->
              let env := {| self_bond_array_2 := ba; self_etypes := et;
                            self_bond_inds := bi; self_3body := three;
                            self_m2b := m2b; self_m3b := m3b |} in
              length (self_etypes env) = length (self_bond_array_2 env)
              /\ length (self_bond_inds env)
                 = length (self_bond_array_2 env)
              /\ (forall bond_array_3 cross_bond_inds cross_bond_dists
                         triplet_counts,
                     self_3body env
                     = Some (bond_array_3, cross_bond_inds, cross_bond_dists,
                             triplet_counts) ->
                     bond_array_3
                     = firstn (length bond_array_3) (self_bond_array_2 env)
                     /\ (length bond_array_3
                         <= length (self_bond_array_2 env))%nat
                     /\ table_ok (length bond_array_3) cross_bond_inds
                                 triplet_counts)
              /\ (forall m3b_array m3b_neigh_array m3b_grads m3b_neigh_grads
                         m3b_unique_species etypes_m3b,
                     self_m3b env
                     = Some (m3b_array, m3b_neigh_array, m3b_grads,
                             m3b_neigh_grads, m3b_unique_species,
                             etypes_m3b) ->
                     square_array (length m3b_unique_species) m3b_array
                     /\ symmetric_array m3b_array)).
  { intros three m2b m3b H3' Hm3' env. unfold env.
    cbn [self_bond_array_2 self_etypes self_bond_inds self_3body self_m3b].
    split; [exact Let|]. split; [exact Lbi|]. split.
    - intros a b c d H. destruct H3' as [->| ->]; [discriminate H|].
      inversion H; subst a b c d. auto.
    - intros a b c d e f H. destruct Hm3' as [->| ->]; [discriminate H|].
      inversion H; subst a b c d e f. auto. }
  destruct (fzero <? self_scalar_cutoff_m3b self)%num eqn:Em3;
    [destruct (1 <? self_nm3b self)%Z eqn:En|].
  - (* the branch that raises *)
    destruct (fzero <? self_scalar_cutoff_3 self)%num;
      destruct (fzero <? self_scalar_cutoff_mb self)%num; cbn [bind];
      (split;
       [split; [intros _; split; [reflexivity|now apply Z.ltb_lt]
               |reflexivity]
       |intros env H; discriminate H]).
  - destruct (fzero <? self_scalar_cutoff_3 self)%num;
      destruct (fzero <? self_scalar_cutoff_mb self)%num; cbn [bind];
      (split;
       [split; [discriminate
               |intros [_ H]; apply Z.ltb_lt in H; congruence]
       |intros env H; inversion H; subst env; clear H;
        edestruct Hreturned as (H1 & H2 & H4 & H5);
        [..|split; [exact H1|]; split; [exact H2|];
            cbn [self_3body self_m2b self_m3b];
            split; [first [apply Hset_iff|apply Hunset_iff]|];
            split; [first [apply Hset_iff|apply Hunset_iff]|];
            split; [first [apply Hset_iff|apply Hunset_iff]|];
            split; [exact H4|exact H5]];
        auto]).
  - destruct (fzero <? self_scalar_cutoff_3 self)%num;
      destruct (fzero <? self_scalar_cutoff_mb self)%num; cbn [bind];
      (split;
       [split; [discriminate|intros [H _]; discriminate H]
       |intros env H; inversion H; subst env; clear H;
        edestruct Hreturned as (H1 & H2 & H4 & H5);
        [..|split; [exact H1|]; split; [exact H2|];
            cbn [self_3body self_m2b self_m3b];
            split; [first [apply Hset_iff|apply Hunset_iff]|];
            split; [first [apply Hset_iff|apply Hunset_iff]|];
            split; [first [apply Hset_iff|apply Hunset_iff]|];
            split; [exact H4|exact H5]];
        auto]).
Qed.

(** The line of four atoms, with the stable insertion sort. *)
Lemma compute_env_scalar_witness :
  (compute_env argsort_stable (fun l => l) (fun r c _ _ => (r, c))
               (fun distances _ _ _ _ _ => nth 0 distances fzero)
               (fun _ _ _ => (1, 0)%float) line4_setup = None
   <-> (fzero <? self_scalar_cutoff_m3b line4_setup)%num = true
       /\ (1 < self_nm3b line4_setup)%Z)
  /\ forall env : EnvArrays,
      compute_env argsort_stable (fun l => l) (fun r c _ _ => (r, c))
                  (fun distances _ _ _ _ _ => nth 0 distances fzero)
                  (fun _ _ _ => (1, 0)%float) line4_setup = Some env ->
      length (self_etypes env) = length (self_bond_array_2 env)
      /\ length (self_bond_inds env) = length (self_bond_array_2 env)
      /\ (self_3body env <> None
          <-> (fzero <? self_scalar_cutoff_3 line4_setup)%num = true)
      /\ (self_m2b env <> None
          <-> (fzero <? self_scalar_cutoff_mb line4_setup)%num = true)
      /\ (self_m3b env <> None
          <-> (fzero <? self_scalar_cutoff_m3b line4_setup)%num = true)
      /\ (forall bond_array_3 cross_bond_inds cross_bond_dists
                 triplet_counts,
             self_3body env
             = Some (bond_array_3, cross_bond_inds, cross_bond_dists,
                     triplet_counts) ->
             bond_array_3
             = firstn (length bond_array_3) (self_bond_array_2 env)
             /\ (length bond_array_3 <= length (self_bond_array_2 env))%nat
             /\ table_ok (length bond_array_3) cross_bond_inds
                         triplet_counts)
      /\ (forall m3b_array m3b_neigh_array m3b_grads m3b_neigh_grads
                 m3b_unique_species etypes_m3b,
             self_m3b env
             = Some (m3b_array, m3b_neigh_array, m3b_grads,
                     m3b_neigh_grads, m3b_unique_species, etypes_m3b) ->
             square_array (length m3b_unique_species) m3b_array
             /\ symmetric_array m3b_array).
Proof.
  apply (@compute_env_scalar float _ _ argsort_stable (fun l => l)
           (fun r c _ _ => (r, c))
           (fun distances _ _ _ _ _ => nth 0 distances fzero)
           (fun _ _ _ => (1, 0)%float) line4_setup).
  - intros keys. apply argsort_stable_perm.
  - intros l x H. exact H.
  - cbn. lia.
  - cbn. lia.
  - cbn. lia.
  - cbn. lia.
  - cbn. lia.
Defined.

(* ------------------------------------------------------------------ *)
(** ** The species-resolved descriptor with a single group *)
(* ------------------------------------------------------------------ *)

Section SingleGroupDescriptor.

Context {F : Type} {NF : Num F} {NL : NumLaws F}.
Local Open Scope num_scope.

Lemma mapM_ext_in {A B : Type} (f g : A -> option B) (l : list A) :
  (forall a, In a l -> f a = g a) -> mapM f l = mapM g l.
Proof.
  induction l as [|a l IH]; intros H; [reflexivity|].
  cbn [mapM]. rewrite (H a (or_introl eq_refl)).
  rewrite IH; [reflexivity|]. intros x Hx. apply H. now right.
Qed.

(** A loop that fills two arrays side by side, one of them without
    failing, and the loop that fills the first alone. *)
Lemma mapM_paired {A B C : Type} (f : A -> option B) (g : A -> C)
      (l : list A) :
  match mapM f l with
  | Some r =>
      exists rows,
        mapM (fun i => x <- f i ;; Some (x, g i)) l = Some rows
        /\ map fst rows = r /\ map snd rows = map g l
  | None => mapM (fun i => x <- f i ;; Some (x, g i)) l = None
  end.
Proof.
  induction l as [|a l IH]; cbn [mapM map].
  - exists []. auto.
  - destruct (f a) as [b|]; cbn [bind]; [|reflexivity].
    destruct (mapM f l) as [r|]; cbn [bind].
    + destruct IH as (rows & -> & Hf & Hs). cbn [bind].
      exists ((b, g a) :: rows). cbn [map fst snd]. now rewrite Hf, Hs.
    + now rewrite IH.
Qed.

Lemma py_get_nat {A : Type} (a : list A) (n : nat) :
  py_get a (Z.of_nat n) = nth_error a n.
Proof.
  unfold py_get, py_index.
  destruct (Z.leb_spec 0 (Z.of_nat n)); [|lia]. cbn [andb].
  destruct (Z.ltb_spec (Z.of_nat n) (Z.of_nat (length a))).
  - cbn [bind]. now rewrite Nat2Z.id.
  - destruct (Z.ltb_spec (Z.of_nat n) 0); [lia|].
    rewrite andb_false_r. cbn [bind]. symmetry. apply nth_error_None. lia.
Qed.

(** An index that lands in a shorter array lands in a longer one. *)
Lemma py_index_longer (len len' : nat) (i : Z) (k : nat) :
  py_index len i = Some k -> (len <= len')%nat ->
  exists k', py_index len' i = Some k' /\ (k' < len')%nat.
Proof.
  unfold py_index. intros H Hle.
  destruct (Z.leb_spec 0 i); cbn [andb] in *.
  - destruct (Z.ltb_spec i (Z.of_nat len)).
    + destruct (Z.ltb_spec i (Z.of_nat len')); [|lia].
      eexists. split; [reflexivity|lia].
    + destruct (Z.leb_spec (- Z.of_nat len) i); cbn [andb] in H;
        [destruct (Z.ltb_spec i 0); [lia|discriminate]|discriminate].
  - destruct (Z.leb_spec (- Z.of_nat len) i); cbn [andb] in H;
      [|discriminate].
    destruct (Z.ltb_spec i 0); [|lia].
    destruct (Z.leb_spec (- Z.of_nat len') i); [|lia]. cbn [andb].
    eexists. split; [reflexivity|lia].
Qed.

(** For an index that is not negative the two readings of
    [get_2_body_arrays_sepcut] agree. *)
Lemma get_2_body_arrays_sepcut_int8_nat (argsort : list F -> list nat)
      (positions : list (vec3 F)) (atom : nat) (cell : cell3 F)
      (cutoff_2 : list F) (species : list Z) (sweep : list Z) (nspecie : Z)
      (specie_mask bond_mask : list Z) :
  get_2_body_arrays_sepcut_int8 argsort positions (Z.of_nat atom) cell
                                cutoff_2 species sweep nspecie specie_mask
                                bond_mask
  = get_2_body_arrays_sepcut argsort positions atom cell cutoff_2 species
                             sweep nspecie specie_mask bond_mask.
Proof.
  unfold get_2_body_arrays_sepcut_int8, get_2_body_arrays_sepcut.
  now rewrite !py_get_nat.
Qed.

Lemma sepcut_single_group (argsort : list F -> list nat)
      (positions : list (vec3 F)) (atom : nat) (cell : cell3 F) (c : F)
      (species : list Z) (sweep : list Z) (spec_mask : list Z) :
  (length positions <= length species)%nat ->
  trivial_mask spec_mask species ->
  (length sweep <= 3)%nat ->
  get_2_body_arrays_sepcut argsort positions atom cell [c] species sweep 1
                           spec_mask [0%Z]
  = get_2_body_arrays argsort positions atom cell c species sweep.
Proof.
  intros Hlen Hmask Hsweep.
  unfold get_2_body_arrays_sepcut, get_2_body_arrays.
  destruct (nth_error positions atom) as [pos_atom|] eqn:Epos;
    [|reflexivity].
  cbn [bind].
  assert (Ha : (atom < length species)%nat).
  { assert (atom < length positions)%nat
      by (apply nth_error_Some; congruence). lia. }
  rewrite (nth_error_nth' species 0%Z Ha). cbn [bind].
  rewrite (Hmask _ (nth_In species 0%Z Ha)). cbn [bind].
  rewrite fill_rows_sepcut_trivial by assumption. cbn [bind].
  rewrite (proj2 (Nat.leb_le _ _) Hlen). reflexivity.
Qed.

Lemma sepcut_single_group_int8 (argsort : list F -> list nat)
      (positions : list (vec3 F)) (b : Z) (cell : cell3 F) (c : F)
      (species : list Z) (sweep : list Z) (spec_mask : list Z) :
  (length positions <= length species)%nat ->
  trivial_mask spec_mask species ->
  (length sweep <= 3)%nat ->
  get_2_body_arrays_sepcut_int8 argsort positions b cell [c] species sweep
                                1 spec_mask [0%Z]
  = (neigh <- py_index (length positions) b ;;
     get_2_body_arrays argsort positions neigh cell c species sweep).
Proof.
  intros Hlen Hmask Hsweep.
  unfold get_2_body_arrays_sepcut_int8, get_2_body_arrays.
  unfold py_get at 1.
  destruct (py_index (length positions) b) as [k|] eqn:Ek; cbn [bind];
    [|reflexivity].
  destruct (nth_error positions k) as [pos_atom|]; cbn [bind];
    [|reflexivity].
  destruct (py_index_longer _ Ek Hlen) as (k' & Ek' & Hk').
  assert (Hsp : py_get species b = Some (nth k' species 0%Z)).
  { unfold py_get. rewrite Ek'. cbn [bind]. now apply nth_error_nth'. }
  rewrite Hsp. cbn [bind].
  rewrite (Hmask _ (nth_In species 0%Z Hk')). cbn [bind].
  rewrite fill_rows_sepcut_trivial by assumption. cbn [bind].
  rewrite (proj2 (Nat.leb_le _ _) Hlen). reflexivity.
Qed.

End SingleGroupDescriptor.

(** X20.  With a single species group, a single many-body cutoff [c] and
    a sweep of at most three values, [get_m2_body_arrays_sepcut] returns
    what [get_m2_body_arrays] returns for the cutoff [c], provided
    [argsort] lists every position once, the mask sends the species, their
    [int8] images and the species list to group 0, and [q_value_mc]
    called without a descriptor function uses [coordination_number]. *)
Theorem many_body_single_group {F : Type} {NF : Num F} {NL : NumLaws F}
        (argsort : list F -> list nat) (list_set : list Z -> list Z)
        (coordination_number : q_fn F)
        (q_value_mc : list F -> F -> Z -> list Z -> cutoff_fn F
                      -> option (q_fn F) -> F)
        (positions : list (vec3 F)) (atom : nat) (cell : cell3 F) (c : F)
        (species : list Z) (sweep : list Z) (spec_mask : list Z)
        (cutoff_func : cutoff_fn F) :
  (forall keys : list F,
      Permutation (argsort keys) (seq 0 (length keys))) ->
  (forall (distances : list F) (r_cut : F) (s : Z) (etypes : list Z)
          (f : cutoff_fn F),
      q_value_mc distances r_cut s etypes f None
      = q_value_mc distances r_cut s etypes f (Some coordination_number)) ->
  (length positions <= length species)%nat ->
  trivial_mask spec_mask species ->
  trivial_mask spec_mask (map wrap8 species) ->
  trivial_mask spec_mask (species_list_of list_set species) ->
  (length sweep <= 3)%nat ->
  get_m2_body_arrays_sepcut argsort list_set coordination_number q_value_mc
                            positions atom cell [c] species sweep 1
                            spec_mask [0%Z] cutoff_func
  = get_m2_body_arrays argsort list_set coordination_number q_value_mc
                       positions atom cell c species sweep cutoff_func.
Proof.
  intros Hs Hq Hlen Hmask Hmask8 Hmaskl Hsweep.
  unfold get_m2_body_arrays_sepcut, get_m2_body_arrays.
  rewrite sepcut_single_group by assumption.
  destruct (nth_error positions atom) as [pos_atom|] eqn:Hpos.
  2:{ unfold get_2_body_arrays. rewrite Hpos. reflexivity. }
  destruct (@built_rows F NF NL argsort positions atom cell c species sweep
                        pos_atom Hpos Hlen Hs)
    as (ba & bp & et & bi & -> & Lbp & Let & Lbi & Het & Hbi).
  cbn [bind].
  assert (Ha : (atom < length species)%nat).
  { assert (atom < length positions)%nat
      by (apply nth_error_Some; congruence). lia. }
  rewrite (nth_error_nth' species 0%Z Ha). cbn [bind].
  rewrite (Hmask _ (nth_In species 0%Z Ha)). cbn [bind].
  set (species_list := species_list_of list_set species) in *.
  assert (Het' : forall i : Z,
             In i (range (rows bi)) ->
             py_get spec_mask (getZ et i) = Some 0%Z).
  { intros i Hi. apply in_range in Hi. unfold rows in Hi.
    apply Hmask8. rewrite Forall_forall in Het. apply Het.
    replace i with (Z.of_nat (Z.to_nat i)) by lia.
    apply getZ_nat_in. lia. }
  (* the descriptors of the central atom *)
  rewrite (mapM_total _
             (fun s => q_value_mc (map dist_of ba) c s et cutoff_func
                                  (Some coordination_number))).
  2:{ intros s Hin. rewrite (Hmaskl _ Hin). cbn [bind].
      unfold mb_cutoff. cbn. now rewrite Hq. }
  cbn [bind].
  (* the two loops over the neighbours *)
  set (f := fun i : Z =>
              neigh <- py_index (length positions) (getZ bi i) ;;
              ' (neigh_bond_array, _, neigh_etypes, _) <-
                get_2_body_arrays argsort positions neigh cell c species
                                  sweep ;;
              Some (map (fun s => q_value_mc (map dist_of neigh_bond_array)
                                             c s neigh_etypes cutoff_func
                                             (Some coordination_number))
                        species_list)).
  set (g := fun i : Z => q_grads_of ba i c cutoff_func coordination_number).
  rewrite (mapM_ext_in _ f).
  2:{ intros i Hi. rewrite (Het' i Hi). cbn [bind].
      rewrite sepcut_single_group_int8 by assumption. unfold f.
      destruct (py_index (length positions) (getZ bi i)); cbn [bind];
        [|reflexivity].
      destruct (get_2_body_arrays argsort positions n cell c species sweep)
        as [[[[nba nbp] net] nbi]|]; cbn [bind]; [|reflexivity].
      apply mapM_total. intros s Hin. rewrite (Hmaskl _ Hin). cbn [bind].
      unfold mb_cutoff. cbn. now rewrite Hq. }
  rewrite (mapM_ext_in (fun i => _ <- _ ;; _ <- _ ;; _)
                       (fun i => Some (g i))).
  2:{ intros i Hi. rewrite (Het' i Hi). cbn [bind]. reflexivity. }
  rewrite (mapM_ext_in (fun i => _ <- py_index _ _ ;; _)
                       (fun i => x <- f i ;; Some (x, g i))).
  2:{ intros i Hi. unfold f.
      destruct (py_index (length positions) (getZ bi i)); cbn [bind];
        [|reflexivity].
      now destruct (get_2_body_arrays argsort positions n cell c species
                                      sweep)
        as [[[[nba nbp] net] nbi]|]. }
  pose proof (mapM_paired f g (range (rows bi))) as Hp.
  destruct (mapM f (range (rows bi))) as [qs_neigh|]; cbn [bind].
  - destruct Hp as (rows' & -> & Hfst & Hsnd). cbn [bind].
    rewrite (mapM_total (fun i => Some (g i)) g) by reflexivity.
    cbn [bind]. rewrite Hfst, Hsnd. reflexivity.
  - rewrite Hp. reflexivity.
Qed.

(** The line of four atoms, with the stable insertion sort. *)
Lemma many_body_single_group_witness :
  get_m2_body_arrays_sepcut argsort_stable (fun l => l)
                            (fun r c _ _ => (r, c))
                            (fun distances _ _ _ _ _ => nth 0 distances fzero)
                            line4 0 (cubic 1e7%float) [2%float]
                            [1; 2; 1; 2]%Z sweep1 1 single_group_mask [0%Z]
                            (fun _ _ _ => (1, 0)%float)
  = get_m2_body_arrays argsort_stable (fun l => l) (fun r c _ _ => (r, c))
                       (fun distances _ _ _ _ _ => nth 0 distances fzero)
                       line4 0 (cubic 1e7%float) 2%float [1; 2; 1; 2]%Z
                       sweep1 (fun _ _ _ => (1, 0)%float).
Proof.
  apply (@many_body_single_group float _ _ argsort_stable (fun l => l)
           (fun r c _ _ => (r, c))
           (fun distances _ _ _ _ _ => nth 0 distances fzero)
           line4 0 (cubic 1e7%float) 2%float [1; 2; 1; 2]%Z sweep1
           single_group_mask (fun _ _ _ => (1, 0)%float)).
  - intros keys. apply argsort_stable_perm.
  - reflexivity.
  - cbn. lia.
  - intros e [<-|[<-|[<-|[<-|[]]]]]; reflexivity.
  - intros e [<-|[<-|[<-|[<-|[]]]]]; reflexivity.
  - intros e [<-|[<-|[<-|[<-|[]]]]]; reflexivity.
  - cbn. lia.
Defined.

(* ------------------------------------------------------------------ *)
(** ** Symmetry of the 2-body force/force kernel *)
(* ------------------------------------------------------------------ *)

Section TwoBodyForceSum.

Context {F : Type} {NF : Num F}.
Local Open Scope num_scope.

Variable force_helper :
  F -> F -> F -> F -> F -> F -> F -> F -> F -> F -> F -> F -> F.

Lemma two_body_sum (bond_array_1 : list (brow F)) (c1 : Z)
      (etypes1 : list Z) (bond_array_2 : list (brow F)) (c2 : Z)
      (etypes2 : list Z) (d1 d2 : Z) (sig ls r_cut : F)
      (cutoff_func : cutoff_fn F) :
  two_body_mc_jit force_helper bond_array_1 c1 etypes1 bond_array_2 c2
                  etypes2 d1 d2 sig ls r_cut cutoff_func
  = pair_sum (two_body_term force_helper bond_array_1 bond_array_2 d1 d2
                            sig ls r_cut cutoff_func)
             bond_array_1 c1 etypes1 bond_array_2 c2 etypes2.
Proof.
  unfold pair_sum, total, bond_pairs.
  rewrite <- (pair_loops (two_body_term force_helper bond_array_1
                            bond_array_2 d1 d2 sig ls r_cut cutoff_func)
                         (agreeing c1 etypes1 c2 etypes2)).
  unfold two_body_mc_jit. apply fold_left_ext_in. intros kern m _.
  unfold two_body_term, agreeing. cbn [fst snd].
  destruct (cutoff_func r_cut (ba_get bond_array_1 m 0)
                        (ba_get bond_array_1 m d1)) as [fi fdi].
  apply fold_left_ext_in. intros kern' n _.
  destruct (bonds_agree c1 (getZ etypes1 m) c2 (getZ etypes2 n));
    [|reflexivity].
  destruct (cutoff_func r_cut (ba_get bond_array_2 n 0)
                        (ba_get bond_array_2 n d2)) as [fj fdj].
  reflexivity.
Qed.

End TwoBodyForceSum.

Local Open Scope R_scope.

(** X21.  Over the reals, for any [force_helper] that takes the same
    value when the two bonds trade places (its arguments [B] and [C]
    become [-C] and [-B], and the cutoff values and derivatives of the two
    bonds are exchanged), the 2-body force/force kernel is symmetric:
    exchanging the two environments together with the two force
    components leaves its value unchanged. *)
Theorem two_body_force_kernel_symmetric
        (force_helper :
           R -> R -> R -> R -> R -> R -> R -> R -> R -> R -> R -> R -> R)
        (bond_array_1 : list (brow R)) (c1 : Z) (etypes1 : list Z)
        (bond_array_2 : list (brow R)) (c2 : Z) (etypes2 : list Z)
        (d1 d2 : Z) (sig ls r_cut : R) (cutoff_func : cutoff_fn R) :
  (forall A B C D fi fj fdi fdj ls1 ls2 ls3 sig2 : R,
      force_helper A B C D fi fj fdi fdj ls1 ls2 ls3 sig2
      = force_helper A (- C) (- B) D fj fi fdj fdi ls1 ls2 ls3 sig2) ->
  two_body_mc_jit force_helper bond_array_1 c1 etypes1 bond_array_2 c2
                  etypes2 d1 d2 sig ls r_cut cutoff_func
  = two_body_mc_jit force_helper bond_array_2 c2 etypes2 bond_array_1 c1
                    etypes1 d2 d1 sig ls r_cut cutoff_func.
Proof.
  intros Hh. rewrite !two_body_sum. unfold pair_sum, bond_pairs.
  rewrite !pairs_flat_map. apply total_double_sym. intros m n.
  unfold agreeing. cbn [fst snd]. rewrite (bonds_agree_sym c2).
  destruct (bonds_agree c1 (getZ etypes1 m) c2 (getZ etypes2 n));
    [|reflexivity].
  f_equal. f_equal. unfold two_body_term. cbn [fst snd].
  destruct (cutoff_func r_cut (ba_get bond_array_1 m 0)
                        (ba_get bond_array_1 m d1)) as [fi fdi].
  destruct (cutoff_func r_cut (ba_get bond_array_2 n 0)
                        (ba_get bond_array_2 n d2)) as [fj fdj].
  rewrite Hh. cbn -[ba_get]. f_equal; ring.
Qed.

(** Two bonds against one, with a helper that is the product of the two
    force components, the squared difference of the bond lengths and the
    two cutoff values. *)
Lemma two_body_force_kernel_symmetric_witness :
  two_body_mc_jit (fun A _ _ D fi fj _ _ _ _ _ _ => A * D * fi * fj)
                  [(1, 1, 0, 0); (2, 0, 1, 0)] 1 [1; 2]%Z
                  [(3, 0, 0, 1)] 1 [2%Z] 1 3 1 1 4
                  (fun _ r _ => (r, 1))
  = two_body_mc_jit (fun A _ _ D fi fj _ _ _ _ _ _ => A * D * fi * fj)
                    [(3, 0, 0, 1)] 1 [2%Z]
                    [(1, 1, 0, 0); (2, 0, 1, 0)] 1 [1; 2]%Z 3 1 1 1 4
                    (fun _ r _ => (r, 1)).
Proof.
  apply (two_body_force_kernel_symmetric
           (fun A _ _ D fi fj _ _ _ _ _ _ => A * D * fi * fj)).
  intros. ring.
Defined.

Local Close Scope R_scope.

(* ------------------------------------------------------------------ *)
(** ** The many-body force/energy kernels *)
(* ------------------------------------------------------------------ *)

Section ForceEnergyLookups.

Context {F : Type} {NF : Num F}.
Local Open Scope num_scope.

Variable set_inter : list Z -> list Z -> list Z.

(** With [int8] codes in [species1] every common species is found in
    both lists. *)
Lemma specs_ind_returns (species1 species2 : list Z) :
  set_inter_ok set_inter ->
  Forall (fun s => (-128 <= s <= 127)%Z) species1 ->
  exists specs_ind, specs_ind_of set_inter species1 species2 = Some specs_ind.
Proof.
  intros Hinter H8. unfold specs_ind_of, useful_species.
  match goal with
  | |- exists l, mapM ?f ?l0 = Some l =>
      destruct (@mapM_returns _ _ (fun _ => True) f l0) as (l & Hl & _);
        [|now exists l]
  end.
  intros s Hs. apply in_map_iff in Hs as (x & <- & Hx).
  apply (proj2 (Hinter species1 species2)) in Hx as [H1 H2].
  rewrite Forall_forall in H8. rewrite (wrap8_id (H8 x H1)).
  destruct (where_first_some _ _ H1) as [k1 ->].
  destruct (where_first_some _ _ H2) as [k2 ->].
  cbn [bind]. eauto.
Qed.

Lemma where_first_in (l : list Z) (v : Z) (k : nat) :
  where_first l v = Some k -> In v l.
Proof.
  intros E. destruct (in_dec Z.eq_dec v l) as [H|H]; [exact H|].
  apply where_first_none in H. congruence.
Qed.

End ForceEnergyLookups.

(** X22.  When [species1] holds [int8] codes and the intersection of the
    species sets holds the common species, [many_2body_mc_force_en_jit]
    fails exactly when the species of the first central atom is missing
    from [species1] or from [species2], and
    [many_3body_mc_force_en_jit] exactly when one of the two holds or the
    species of the second central atom is missing from [species2].  When
    the two
    central species differ and no neighbour of the first environment has
    the species of the second central atom, a kernel that returns
    returns zero. *)
Theorem many_body_force_en_kernels {F : Type} {NF : Num F}
        (set_inter : list Z -> list Z -> list Z)
        (k_sq_exp_dev : F -> F -> F -> F -> F)
        (q_array_1 q_array_2 : list F)
        (q_grads_1 q_neigh_array_1 q_neigh_grads_1 : list (list F))
        (array_1 array_2 : list (list F))
        (grads_1 neigh_array_1 neigh_grads_1 : list (list (list F)))
        (c1 c2 : Z) (etypes1 species1 species2 : list Z) (d1 : Z)
        (sig ls : F) :
  set_inter_ok set_inter ->
  Forall (fun s => (-128 <= s <= 127)%Z) species1 ->
  let k2 :=
    many_2body_mc_force_en_jit set_inter k_sq_exp_dev q_array_1 q_array_2
                               q_grads_1 q_neigh_array_1 q_neigh_grads_1
                               c1 c2 etypes1 species1 species2 d1 sig ls in
  let k3 :=
    many_3body_mc_force_en_jit set_inter k_sq_exp_dev array_1 array_2
                               grads_1 neigh_array_1 neigh_grads_1
                               c1 c2 etypes1 species1 species2 d1 sig ls in
  (k2 = None <-> ~ In c1 species1 \/ ~ In c1 species2)
  /\ (k3 = None
      <-> ~ In c1 species1 \/ ~ In c2 species2 \/ ~ In c1 species2)
  /\ (c1 <> c2 ->
      (forall i : Z,
          (0 <= i < rows q_neigh_array_1)%Z -> getZ etypes1 i <> c2) ->
      k2 <> None -> k2 = Some fzero)
  /\ (c1 <> c2 ->
      (forall n : Z,
          (0 <= n < rows neigh_array_1)%Z -> getZ etypes1 n <> c2) ->
      k3 <> None -> k3 = Some fzero).
Proof.
  intros Hinter H8 k2 k3. subst k2 k3.
  unfold many_2body_mc_force_en_jit, many_3body_mc_force_en_jit.
  destruct (specs_ind_returns species2 Hinter H8) as [specs_ind ->].
  cbn [bind].
  destruct (where_first species1 c1) as [sc1|] eqn:E1; cbn [bind].
  2:{ apply where_first_none in E1.
      repeat split; auto; intros; exfalso; auto. }
  pose proof (where_first_in _ _ E1) as H1.
  destruct (where_first species2 c1) as [sc21|] eqn:E21; cbn [bind].
  - pose proof (where_first_in _ _ E21) as H21.
    destruct (where_first species2 c2) as [sc2|] eqn:E2; cbn [bind].
    + pose proof (where_first_in _ _ E2) as H2.
      split; [split; [discriminate|tauto]|].
      split; [split; [discriminate|tauto]|].
      split; intros Hc Hn _; f_equal;
        rewrite (proj2 (Z.eqb_neq c1 c2) Hc);
        apply fold_left_skip; intros kern i Hi;
        apply in_range in Hi;
        now rewrite (proj2 (Z.eqb_neq _ _) (Hn i Hi)).
    + apply where_first_none in E2.
      split; [split; [discriminate|tauto]|].
      split; [split; [tauto|reflexivity]|].
      split; [|intros _ _ H; now contradiction H].
      intros Hc Hn _. f_equal.
      rewrite (proj2 (Z.eqb_neq c1 c2) Hc).
      apply fold_left_skip. intros kern i Hi. apply in_range in Hi.
      now rewrite (proj2 (Z.eqb_neq _ _) (Hn i Hi)).
  - apply where_first_none in E21.
    split; [split; [tauto|reflexivity]|].
    split.
    { destruct (where_first species2 c2); cbn [bind]; split;
        try tauto; reflexivity. }
    split; [intros _ _ H; now contradiction H|].
    destruct (where_first species2 c2); cbn [bind];
      intros _ _ H; now contradiction H.
Qed.

(** Two species against one: the first central species is missing from
    [species2]. *)
Lemma many_body_force_en_kernels_witness :
  let k2 :=
    many_2body_mc_force_en_jit inter_first
      (fun q1 q2 _ _ => (q1 * q2)%float) [1; 2]%float [3%float]
      [[1; 0; 0]; [0; 1; 0]]%float [[2; 1]]%float [[1; 0; 0]]%float
      1 2 [1%Z] [1; 2]%Z [2%Z] 1 2%float 1%float in
  let k3 :=
    many_3body_mc_force_en_jit inter_first
      (fun q1 q2 _ _ => (q1 * q2)%float) [[1; 2]; [2; 3]]%float
      [[3%float]] [[[1; 0; 0]]]%float [[[2; 1]; [1; 0]]]%float
      [[[1; 0; 0]; [0; 0; 1]]]%float
      1 2 [1%Z] [1; 2]%Z [2%Z] 1 2%float 1%float in
  (k2 = None <-> ~ In 1%Z [1; 2]%Z \/ ~ In 1%Z [2%Z])
  /\ (k3 = None
      <-> ~ In 1%Z [1; 2]%Z \/ ~ In 2%Z [2%Z] \/ ~ In 1%Z [2%Z])
  /\ (1%Z <> 2%Z ->
      (forall i : Z,
          (0 <= i < rows [[2; 1]]%float)%Z -> getZ [1%Z] i <> 2%Z) ->
      k2 <> None -> k2 = Some fzero)
  /\ (1%Z <> 2%Z ->
      (forall n : Z,
          (0 <= n < rows [[[2; 1]; [1; 0]]]%float)%Z ->
          getZ [1%Z] n <> 2%Z) ->
      k3 <> None -> k3 = Some fzero).
Proof.
  apply (@many_body_force_en_kernels float _ inter_first
           (fun q1 q2 _ _ => (q1 * q2)%float)).
  - exact inter_first_ok.
  - repeat constructor; lia.
Defined.

(* ------------------------------------------------------------------ *)
(** ** The force/force kernels without a partner species *)
(* ------------------------------------------------------------------ *)

(** X23.  When the central species differ and the species of the second
    central atom is read nowhere in [etypes1], no bond and no triplet of
    the first environment has a partner in the second: the 2-body and the
    3-body force/force kernel return exactly zero, in any arithmetic and
    whatever the helper functions compute. *)
Theorem force_kernels_vanish_without_partner {F : Type} {NF : Num F}
        (force_helper :
           F -> F -> F -> F -> F -> F -> F -> F -> F -> F -> F -> F -> F)
        (three_body_helper_1 three_body_helper_2 :
           F -> F -> F -> F -> F -> F -> F -> F -> F -> F -> F -> F -> F
           -> F -> F -> F)
        (bond_array_1 bond_array_2 : list (brow F)) (c1 c2 : Z)
        (etypes1 etypes2 : list Z)
        (cross_bond_inds_1 cross_bond_inds_2 : list (list Z))
        (cross_bond_dists_1 cross_bond_dists_2 : list (list F))
        (triplets_1 triplets_2 : list Z) (d1 d2 : Z) (sig ls r_cut : F)
        (cutoff_func : cutoff_fn F) :
  c1 <> c2 ->
  (forall k : Z, getZ etypes1 k <> c2) ->
  two_body_mc_jit force_helper bond_array_1 c1 etypes1 bond_array_2 c2
                  etypes2 d1 d2 sig ls r_cut cutoff_func = fzero
  /\ three_body_mc_jit three_body_helper_1 three_body_helper_2
                       bond_array_1 c1 etypes1 bond_array_2 c2 etypes2
                       cross_bond_inds_1 cross_bond_inds_2
                       cross_bond_dists_1 cross_bond_dists_2
                       triplets_1 triplets_2 d1 d2 sig ls r_cut cutoff_func
     = fzero.
Proof.
  intros Hc He. split.
  - unfold two_body_mc_jit. cbv zeta.
    apply fold_left_skip. intros kern m _.
    destruct (cutoff_func r_cut _ _) as [fi fdi].
    apply fold_left_skip. intros kern' n _.
    now rewrite bonds_agree_none by auto.
  - unfold three_body_mc_jit. cbv zeta.
    apply fold_left_skip. intros kern m _.
    destruct (cutoff_func r_cut _ _) as [fi1 fdi1].
    apply fold_left_skip. intros kern' n _.
    now rewrite mem_triplet_none by auto.
Qed.

(** A carbon-centred environment of hydrogens against one centred on
    oxygen. *)
Lemma force_kernels_vanish_without_partner_witness :
  two_body_mc_jit (fun _ _ _ _ _ _ _ _ _ _ _ _ => 1%float)
                  [(1, 1, 0, 0); (2, 0, 1, 0)]%float 6 [1; 1]%Z
                  [(1.5, 0, 0, 1)]%float 8 [1]%Z 1 3
                  2%float 1%float 3%float (fun _ _ _ => (1, 0)%float)
  = 0%float
  /\ three_body_mc_jit (fun _ _ _ _ _ _ _ _ _ _ _ _ _ _ _ => 1%float)
                       (fun _ _ _ _ _ _ _ _ _ _ _ _ _ _ _ => 1%float)
                       [(1, 1, 0, 0); (2, 0, 1, 0)]%float 6 [1; 1]%Z
                       [(1.5, 0, 0, 1)]%float 8 [1]%Z
                       [[-1; 1]; [-1; -1]]%Z [[-1]]%Z
                       [[0; 2]; [0; 0]]%float [[0%float]] [1; 0]%Z [0%Z]
                       1 3 2%float 1%float 3%float
                       (fun _ _ _ => (1, 0)%float)
     = 0%float.
Proof.
  refine (@force_kernels_vanish_without_partner float _
           (fun _ _ _ _ _ _ _ _ _ _ _ _ => 1%float)
           (fun _ _ _ _ _ _ _ _ _ _ _ _ _ _ _ => 1%float)
           (fun _ _ _ _ _ _ _ _ _ _ _ _ _ _ _ => 1%float)
           [(1, 1, 0, 0); (2, 0, 1, 0)]%float [(1.5, 0, 0, 1)]%float
           6%Z 8%Z [1; 1]%Z [1]%Z [[-1; 1]; [-1; -1]]%Z [[-1]]%Z
           [[0; 2]; [0; 0]]%float [[0%float]] [1; 0]%Z [0%Z] 1%Z 3%Z
           2%float 1%float 3%float (fun _ _ _ => (1, 0)%float) _ _).
  - discriminate.
  - intros k. destruct (getZ_in_or_zero [1; 1]%Z k) as [->|Hin];
      [discriminate|].
    cbn [In] in Hin. destruct Hin as [<-|[<-|[]]]; discriminate.
Defined.
